(** * voltcompare: interval ingestion and tariff costing engine

    A shallow embedding of the cost engine
    ([src/services/energyCalculator.ts] and its sibling revision
    [src/unnamed/part_001]), of the gas calculator
    ([src/services/gasCalculator.ts]) and of the two Green Button CSV
    parsers ([src/services/pgeCsvParser.ts],
    [src/services/pgeGasCsvParser.ts]), followed by the properties the
    specification states about them; then of the state the application
    derives from the readings ([src/unnamed/part_000]) and of the data
    of the chart ([src/components/EnergyChart.tsx]), with further
    properties of all of these.

    Conventions of the embedding.
    - A JavaScript [number] that carries a quantity (kWh, therms, dollars,
      rates) is a rational [Q]; [==] is [Qeq].  The sums and products
      that only report an amount (usage, cost, estimates) are exact:
      their IEEE-754 rounding is not modelled.  Where a rounded result
      decides what the code does next it is rounded to binary64:
      [Number(text)] with its [isFinite] test in [parseNumber], and
      the running usage counter, which is compared with the baseline,
      in the engines [EnergyCalculator64] and [Revised64].  These
      return what the engines with exact sums return wherever the rate
      block answers alike at the exact sum and at the rounded counter
      ([calculate64_exact]), as it does for every time-of-use tariff
      ([tou_counter_free]) and wherever no addition to the counter is
      rounded ([exact_sums_suffice]).
    - A JavaScript [number] that is an integer by construction (epoch
      milliseconds, calendar fields, array indices, hours) is a [Z];
      the index [-1] of [findIndex] is kept as [-1].
    - A thrown exception is an explicit result: [None] for the
      [TypeError] of the calculators, [Throws] for the errors of the
      parsers.
    - A [Record<string, _>] object or a [Map] is an association list in
      insertion order, which is the order JavaScript enumerates them in.
    - A string is a [string] of 8-bit code units.
    - The [Date] of the host (time zone, native date parsing) is a
      parameter of the parsers, [DateHost]. *)

From Stdlib Require Import ZArith QArith Qminmax List String Ascii Bool.
From Stdlib Require Import Lia Lqa Sorted Permutation.
From Stdlib Require Import DecimalString DecimalZ.
From Stdlib Require OrderedTypeEx DecimalPos.
Import ListNotations.

Local Open Scope Z_scope.
Local Open Scope Q_scope.

(* ================================================================= *)
(** ** JavaScript primitives shared by all modules *)

(** [a < b] on numbers. *)
Definition Qltb (a b : Q) : bool := negb (Qle_bool b a).

(** *** Binary64

    A finite double is a rational [m * 2 ^ e] with [|m| < 2 ^ 53] and
    [-1074 <= e <= 971].  The two infinities are kept as the
    rationals [2 ^ 1024] and [- 2 ^ 1024], which no finite double
    reaches; NaN is not represented. *)

(** [2 ^ e] for an integer exponent. *)
Definition pow2 (e : Z) : Q :=
  if (0 <=? e)%Z then inject_Z (2 ^ e) else 1 # Z.to_pos (2 ^ (- e)).

(** The exponent of the leading bit of [q], which is not 0:
    [2 ^ floorLog2 q <= |q| < 2 ^ (floorLog2 q + 1)]. *)
Definition floorLog2 (q : Q) : Z :=
  let n := Z.abs (Qnum q) in
  let d := Zpos (Qden q) in
  let k := (Z.log2 n - Z.log2 d)%Z in
  if (if (0 <=? k)%Z then (d * 2 ^ k <=? n)%Z else (d <=? n * 2 ^ (- k))%Z)
  then k else (k - 1)%Z.

(** The integer nearest to [n / d], for [d > 0]; of two nearest ones
    the even one. *)
Definition roundHalfEven (n d : Z) : Z :=
  let f := (n / d)%Z in
  match (2 * (n mod d) ?= d)%Z with
  | Lt => f
  | Gt => (f + 1)%Z
  | Eq => if Z.even f then f else (f + 1)%Z
  end.

Definition infinity : Q := inject_Z (2 ^ 1024).

(** [Number.isFinite(x)] *)
Definition isFinite (x : Q) : bool := Qltb (- infinity) x && Qltb x infinity.

(** The double nearest to the real number [q], ties to even, in lowest
    terms: 53 bits from the leading bit of [q] on, or down to
    [2 ^ -1074] for a subnormal, and an infinity from
    [2 ^ 1024 - 2 ^ 970] on. *)
Definition roundToDouble (q : Q) : Q :=
  if (Qnum q =? 0)%Z then 0
  else
    let e := Z.max (floorLog2 q - 52) (-1074) in
    let m := if (0 <=? e)%Z
             then roundHalfEven (Qnum q) (Zpos (Qden q) * 2 ^ e)
             else roundHalfEven (Qnum q * 2 ^ (- e)) (Zpos (Qden q)) in
    if (971 <? e)%Z || ((e =? 971)%Z && (2 ^ 53 <=? Z.abs m)%Z)
    then (if (0 <? m)%Z then infinity else - infinity)
    else Qred (inject_Z m * pow2 e).

(** [a + b] on doubles: the sum of two finite doubles is rounded, and
    an infinity added to a finite double stays what it is, as the
    counter does once it has overflowed.  A reading is a rational, so
    that no two infinities are added. *)
Definition jsAdd (a b : Q) : Q :=
  if negb (isFinite a) then a
  else if negb (isFinite b) then b
  else roundToDouble (a + b).

(** [const num = Number(text); return Number.isFinite(num) ? num : null]
    for a decimal numeral [text] of value [mv]: the numeral is rounded
    to the nearest double. *)
Definition toNumber (mv : Q) : option Q :=
  let num := roundToDouble mv in
  if isFinite num then Some num else None.

(** [String(n)] for an integer-valued number. *)
Definition stringOfZ (n : Z) : string := NilEmpty.string_of_int (Z.to_int n).

(** [s.padStart(2, '0')]. *)
Definition padStart2 (s : string) : string :=
  match String.length s with
  | O => "00"%string
  | S O => String "0"%char s
  | _ => s
  end.

(** [a.localeCompare(b)].  Every string compared in this code base is a
    month key made of decimal digits and hyphens, on which the collation
    order is the code-unit order. *)
Definition localeCompare (a b : string) : comparison := String.compare a b.

(** [Array.prototype.sort(cmp)]: the sort is stable, so with a consistent
    comparator its result is the one of a stable insertion sort.
    [gtb x y] stands for [cmp(x, y) > 0]. *)
Fixpoint sortInsert {A : Type} (gtb : A -> A -> bool) (x : A) (l : list A) : list A :=
  match l with
  | [] => [x]
  | y :: l' => if gtb x y then y :: sortInsert gtb x l' else x :: l
  end.

Definition sortBy {A : Type} (gtb : A -> A -> bool) (l : list A) : list A :=
  fold_right (sortInsert gtb) [] l.

(** [l.reduce((s, x) => s + f(x), 0)]. *)
Definition sumBy {A : Type} (f : A -> Q) (l : list A) : Q :=
  fold_left (fun s x => s + f x) l 0.

(** The part of a JavaScript [Date] the calculators read: epoch
    milliseconds and the local calendar fields. *)
Record Date : Type := mkDate {
  getTime : Z;
  getFullYear : Z;
  getMonth : Z;
  getHours : Z
}.

(** [`${date.getFullYear()}-${String(date.getMonth() + 1).padStart(2, '0')}`] *)
Definition monthKeyOf (date : Date) : string :=
  (stringOfZ (getFullYear date) ++ "-" ++ padStart2 (stringOfZ (getMonth date + 1)%Z))%string.

(** A [Map], or an object used as one, with the key equality [eqb]:
    entries in insertion order. *)
Section AssocMap.
Context {K V : Type} (eqb : K -> K -> bool).

(** [m.get(k)] / [m[k]] *)
Fixpoint assocGet (k : K) (m : list (K * V)) : option V :=
  match m with
  | [] => None
  | (k', v) :: m' => if eqb k' k then Some v else assocGet k m'
  end.

(** [m.set(k, v)] / [m[k] = v]: overwrite in place, else append. *)
Fixpoint assocSet (k : K) (v : V) (m : list (K * V)) : list (K * V) :=
  match m with
  | [] => [(k, v)]
  | (k', v') :: m' =>
      if eqb k' k then (k', v) :: m' else (k', v') :: assocSet k v m'
  end.

(** The loop [for (const x of l) m.set(key(x), upd(m.get(key(x)), x))]. *)
Definition groupInto {A : Type} (key : A -> K) (upd : option V -> A -> V)
    (l : list A) (m0 : list (K * V)) : list (K * V) :=
  fold_left (fun m x => assocSet (key x) (upd (assocGet (key x) m) x) m) l m0.
End AssocMap.

Definition mapGet {V : Type} := @assocGet string V String.eqb.
Definition mapSet {V : Type} := @assocSet string V String.eqb.

(* ================================================================= *)
(** ** Data model ([src/types.ts], with the [summerRate] field the
       revised engine and [src/constants.tsx] use)

    Two interfaces of the source may share a field name; here the
    second takes a prefixed one: [name] of [Tariff] is [tariffLabel],
    [totalCost] and [breakdown] of the value [calculateDetailedCost]
    returns are [dcTotalCost] and [dcBreakdown], [usage] and [cost] of
    an entry of [periodMap] are [bUsage] and [bCost]. *)

Record EnergyReading : Type := mkReading {
  timestamp : Date;
  value : Q
}.

(** [GasReading] is the same interface, in therms. *)
Definition GasReading : Type := EnergyReading.

Record TariffPeriod : Type := mkPeriod {
  name : string;
  startHour : Z;
  endHour : Z;
  rate : Q;
  summerRate : option Q
}.

Inductive TariffType : Type := flat | tou | tiered.

Inductive Provider : Type := pgeBundled | mcePge.

Record Tariff : Type := mkTariff {
  id : string;
  tariffLabel : string;
  description : string;
  type : TariffType;
  periods : list TariffPeriod;
  fixedMonthlyCharge : Q;
  provider : option Provider
}.

Record MonthlyBreakdown : Type := mkBreakdown {
  monthName : string;
  usage : Q;
  cost : Q
}.

Record ComparisonResult : Type := mkComparison {
  tariffId : string;
  tariffName : string;
  totalUsage : Q;
  totalCost : Q;
  estimatedMonthlyCost : Q;
  savingsVsCurrent : Q;
  breakdown : list MonthlyBreakdown
}.

(** The value [calculateDetailedCost] returns. *)
Record DetailedCost : Type := mkDetailed {
  dcTotalCost : Q;
  dcBreakdown : list MonthlyBreakdown
}.

(** One entry of [periodMap]. *)
Record Bucket : Type := mkBucket {
  bUsage : Q;
  bCost : Q
}.

(** The variables the [forEach] callback of [calculateDetailedCost]
    closes over. *)
Record LoopState : Type := mkLoop {
  periodMap : list (string * Bucket);
  runTotalCost : Q;
  monthlyUsageCounter : Q;
  currentMonth : Z
}.

Definition initLoop : LoopState := mkLoop [] 0 0 (-1)%Z.

(** The predicate passed to [tariff.periods.find]. *)
Definition periodMatches (hour : Z) (p : TariffPeriod) : bool :=
  if (startHour p <=? endHour p)%Z
  then (hour >=? startHour p)%Z && (hour <=? endHour p)%Z
  else (hour >=? startHour p)%Z || (hour <=? endHour p)%Z.

(** The tail of the callback, common to both revisions: add the
    reading to its month bucket, to the counter and to the total. *)
Definition accumulate (st : LoopState) (monthKey : string) (reading : EnergyReading)
    (rate : Q) : LoopState :=
  let energyCost := value reading * rate in
  let b := match mapGet monthKey (periodMap st) with
           | Some b => b
           | None => mkBucket 0 0
           end in
  mkLoop (mapSet monthKey (mkBucket (bUsage b + value reading) (bCost b + energyCost))
                 (periodMap st))
         (runTotalCost st + energyCost)
         (monthlyUsageCounter st + value reading)
         (currentMonth st).

(** "Reset tiered usage if month changes". *)
Definition resetOnMonthChange (st : LoopState) (date : Date) : LoopState :=
  if negb (getMonth date =? currentMonth st)%Z
  then mkLoop (periodMap st) (runTotalCost st) 0 (getMonth date)
  else st.

(** [Object.keys(periodMap).map(...).sort(...)], newest month first. *)
Definition buildBreakdown (tariff : Tariff) (pm : list (string * Bucket))
    : list MonthlyBreakdown :=
  sortBy (fun a b => match localeCompare (monthName b) (monthName a) with
                     | Gt => true
                     | _ => false
                     end)
         (map (fun kv => mkBreakdown (fst kv) (bUsage (snd kv))
                                     (bCost (snd kv) + fixedMonthlyCharge tariff))
              pm).

(** Sequencing of a callback that may throw. *)
Fixpoint forEach {S A : Type} (f : S -> A -> option S) (l : list A) (st : S) : option S :=
  match l with
  | [] => Some st
  | x :: l' => match f st x with
               | Some st' => forEach f l' st'
               | None => None
               end
  end.

Fixpoint mapM {A B : Type} (f : A -> option B) (l : list A) : option (list B) :=
  match l with
  | [] => Some []
  | x :: l' => match f x with
               | Some y => match mapM f l' with
                           | Some ys => Some (y :: ys)
                           | None => None
                           end
               | None => None
               end
  end.

(** The body of [compareTariffs], given the cost function of the
    revision; the two revisions differ in [calculateDetailedCost] only. *)
Definition compareWith (calc : list EnergyReading -> Tariff -> option DetailedCost)
    (readings : list EnergyReading) (currentTariffId : string)
    (allTariffs : list Tariff) : option (list ComparisonResult) :=
  match readings with
  | [] => Some []
  | first :: _ =>
      let found := match find (fun t => String.eqb (id t) currentTariffId) allTariffs with
                   | Some t => Some t
                   | None => nth_error allTariffs 0
                   end in
      match found with
      | None => None
      | Some currentTariff =>
          match calc readings currentTariff with
          | None => None
          | Some currentCalc =>
              let msInReadings :=
                (getTime (timestamp (last readings first)) - getTime (timestamp first))%Z in
              let daysInReadings :=
                Qmax 0.1 (inject_Z msInReadings / inject_Z (1000 * 60 * 60 * 24)) in
              let monthMultiplier := 30 / daysInReadings in
              let currentEnergyOnly :=
                dcTotalCost currentCalc
                - inject_Z (Z.of_nat (List.length (dcBreakdown currentCalc)))
                  * fixedMonthlyCharge currentTariff in
              let currentMonthlyEstimate :=
                currentEnergyOnly * monthMultiplier + fixedMonthlyCharge currentTariff in
              mapM (fun t =>
                      match calc readings t with
                      | None => None
                      | Some c =>
                          let energyCostOnly :=
                            dcTotalCost c
                            - inject_Z (Z.of_nat (List.length (dcBreakdown c)))
                              * fixedMonthlyCharge t in
                          let estimatedMonthlyCost :=
                            energyCostOnly * monthMultiplier + fixedMonthlyCharge t in
                          Some (mkComparison (id t) (tariffLabel t)
                                  (sumBy value readings)
                                  (dcTotalCost c)
                                  estimatedMonthlyCost
                                  (currentMonthlyEstimate - estimatedMonthlyCost)
                                  (dcBreakdown c))
                      end)
                   allTariffs
          end
      end
  end.

(* ================================================================= *)
(** ** [src/services/energyCalculator.ts] *)

Module EnergyCalculator.

(** The [if (tariff.type === 'flat' || ...) { ... } else { ... }] block
    of the callback: the rate of one reading, given the counter as
    it stands after the reset check.  [None] is the [TypeError] of
    reading [.rate] of [tariff.periods[0]] when [periods] is empty. *)
Definition rateFor (tariff : Tariff) (monthlyUsageCounter : Q) (date : Date)
    : option Q :=
  let hour := getHours date in
  match type tariff with
  | flat | tiered =>
      let month := getMonth date in
      let isSummer := (month >=? 5)%Z && (month <=? 8)%Z in
      let baseline : Q := if isSummer then 270 else 350 in
      match nth_error (periods tariff) 0 with
      | None => None
      | Some p0 =>
          let baseRate := rate p0 in
          Some (if Qltb monthlyUsageCounter baseline then baseRate
                else if Qltb monthlyUsageCounter (baseline * 4)
                     then baseRate * 1.28
                     else baseRate * 1.45)
      end
  | tou =>
      match find (periodMatches hour) (periods tariff) with
      | Some period => Some (rate period)
      | None => match nth_error (periods tariff) 0 with
                | Some p0 => Some (rate p0)
                | None => None
                end
      end
  end.

(** The callback of [readings.forEach]. *)
Definition step (tariff : Tariff) (st : LoopState) (reading : EnergyReading)
    : option LoopState :=
  let date := timestamp reading in
  let monthKey := monthKeyOf date in
  let st := resetOnMonthChange st date in
  match rateFor tariff (monthlyUsageCounter st) date with
  | None => None
  | Some rate => Some (accumulate st monthKey reading rate)
  end.

Definition calculateDetailedCost (readings : list EnergyReading) (tariff : Tariff)
    : option DetailedCost :=
  match forEach (step tariff) readings initLoop with
  | None => None
  | Some st =>
      let breakdown := buildBreakdown tariff (periodMap st) in
      let totalWithFixed :=
        runTotalCost st
        + inject_Z (Z.of_nat (List.length breakdown)) * fixedMonthlyCharge tariff in
      Some (mkDetailed totalWithFixed breakdown)
  end.

Definition compareTariffs := compareWith calculateDetailedCost.

End EnergyCalculator.

(* ================================================================= *)
(** ** [src/unnamed/part_001]: the revision with seasonal rates *)

Module Revised.

Definition isSummerMonth (month : Z) : bool := (month >=? 5)%Z && (month <=? 8)%Z.

Definition getEffectiveRate (period : TariffPeriod) (month : Z) : Q :=
  match summerRate period with
  | Some sr => if isSummerMonth month then sr else rate period
  | None => rate period
  end.

Definition rateFor (tariff : Tariff) (monthlyUsageCounter : Q) (date : Date)
    : option Q :=
  let hour := getHours date in
  let month := getMonth date in
  match type tariff with
  | flat | tiered =>
      let isSummer := isSummerMonth month in
      let baseline : Q := if isSummer then 270 else 350 in
      match nth_error (periods tariff) 0 with
      | None => None
      | Some p0 =>
          let baseRate := getEffectiveRate p0 month in
          Some (if Qltb monthlyUsageCounter baseline then baseRate
                else baseRate * 1.24)
      end
  | tou =>
      match find (periodMatches hour) (periods tariff) with
      | Some period => Some (getEffectiveRate period month)
      | None => match nth_error (periods tariff) 0 with
                | Some p0 => Some (getEffectiveRate p0 month)
                | None => None
                end
      end
  end.

Definition step (tariff : Tariff) (st : LoopState) (reading : EnergyReading)
    : option LoopState :=
  let date := timestamp reading in
  let monthKey := monthKeyOf date in
  let st := resetOnMonthChange st date in
  match rateFor tariff (monthlyUsageCounter st) date with
  | None => None
  | Some rate => Some (accumulate st monthKey reading rate)
  end.

Definition calculateDetailedCost (readings : list EnergyReading) (tariff : Tariff)
    : option DetailedCost :=
  match forEach (step tariff) readings initLoop with
  | None => None
  | Some st =>
      let breakdown := buildBreakdown tariff (periodMap st) in
      let totalWithFixed :=
        runTotalCost st
        + inject_Z (Z.of_nat (List.length breakdown)) * fixedMonthlyCharge tariff in
      Some (mkDetailed totalWithFixed breakdown)
  end.

Definition compareTariffs := compareWith calculateDetailedCost.

End Revised.

(* ================================================================= *)
(** ** The two engines with the usage counter in binary64

    [monthlyUsageCounter += reading.value] adds two doubles, and the
    tier of the next reading is decided by comparing the rounded sum
    with the baseline.  The engines of this section are those of the
    two files with that addition rounded; the properties that speak of
    the tier a reading is priced at are stated on them.  The rate
    blocks are those of the two files, and so is the rest of the
    callback: the month buckets and the total, which are only
    reported, keep exact sums. *)

(** The tail of the callback. *)
Definition accumulate64 (st : LoopState) (monthKey : string) (reading : EnergyReading)
    (rate : Q) : LoopState :=
  let energyCost := value reading * rate in
  let b := match mapGet monthKey (periodMap st) with
           | Some b => b
           | None => mkBucket 0 0
           end in
  mkLoop (mapSet monthKey (mkBucket (bUsage b + value reading) (bCost b + energyCost))
                 (periodMap st))
         (runTotalCost st + energyCost)
         (jsAdd (monthlyUsageCounter st) (value reading))
         (currentMonth st).

(** The callback of [readings.forEach], given the rate block. *)
Definition step64 (rateFor : Q -> Date -> option Q) (st : LoopState)
    (reading : EnergyReading) : option LoopState :=
  let date := timestamp reading in
  let monthKey := monthKeyOf date in
  let st := resetOnMonthChange st date in
  match rateFor (monthlyUsageCounter st) date with
  | None => None
  | Some rate => Some (accumulate64 st monthKey reading rate)
  end.

(** [calculateDetailedCost], given the rate block of the file. *)
Definition calculate64 (rateFor : Tariff -> Q -> Date -> option Q)
    (readings : list EnergyReading) (tariff : Tariff) : option DetailedCost :=
  match forEach (step64 (rateFor tariff)) readings initLoop with
  | None => None
  | Some st =>
      let breakdown := buildBreakdown tariff (periodMap st) in
      let totalWithFixed :=
        runTotalCost st
        + inject_Z (Z.of_nat (List.length breakdown)) * fixedMonthlyCharge tariff in
      Some (mkDetailed totalWithFixed breakdown)
  end.

(** [src/services/energyCalculator.ts] *)
Module EnergyCalculator64.
Definition calculateDetailedCost := calculate64 EnergyCalculator.rateFor.
Definition compareTariffs := compareWith calculateDetailedCost.
End EnergyCalculator64.

(** [src/unnamed/part_001] *)
Module Revised64.
Definition calculateDetailedCost := calculate64 Revised.rateFor.
Definition compareTariffs := compareWith calculateDetailedCost.
End Revised64.

(* ================================================================= *)
(** ** [src/services/gasCalculator.ts] *)

Module GasCalculator.

Record GasTariff : Type := mkGasTariff {
  id : string;
  name : string;
  description : string;
  baselineRate : Q;
  overBaselineRate : Q;
  baselineTherms : Q;
  fixedMonthlyCharge : Q
}.

Record GasComparisonResult : Type := mkGasComparison {
  tariffId : string;
  tariffName : string;
  totalUsage : Q;
  totalCost : Q;
  estimatedMonthlyCost : Q;
  breakdown : list MonthlyBreakdown
}.

(** "Group readings by month": the [Map<string, GasReading[]>]. *)
Definition groupByMonth (readings : list GasReading) : list (string * list GasReading) :=
  groupInto String.eqb
    (fun reading => monthKeyOf (timestamp reading))
    (fun group reading =>
       match group with
       | Some monthReadings => monthReadings ++ [reading]
       | None => [reading]
       end)
    readings [].

(** The body of the loop over [monthlyData]. *)
Definition monthEntry (tariff : GasTariff) (entry : string * list GasReading)
    : MonthlyBreakdown :=
  let usage := sumBy value (snd entry) in
  let baseline := Qmin usage (baselineTherms tariff) in
  let overBaseline := Qmax 0 (usage - baselineTherms tariff) in
  let cost := baseline * baselineRate tariff
              + overBaseline * overBaselineRate tariff
              + fixedMonthlyCharge tariff in
  mkBreakdown (fst entry) usage cost.

Definition calculateGasMonthlyBreakdown (readings : list GasReading) (tariff : GasTariff)
    : list MonthlyBreakdown :=
  match readings with
  | [] => []
  | _ =>
      sortBy (fun a b => match localeCompare (monthName a) (monthName b) with
                         | Gt => true
                         | _ => false
                         end)
             (map (monthEntry tariff) (groupByMonth readings))
  end.

Definition calculateGasComparison (readings : list GasReading) (tariff : GasTariff)
    : GasComparisonResult :=
  let breakdown := calculateGasMonthlyBreakdown readings tariff in
  let totalUsage := sumBy usage breakdown in
  let totalCost := sumBy cost breakdown in
  let estimatedMonthlyCost :=
    if Nat.ltb 0 (List.length breakdown)
    then totalCost / inject_Z (Z.of_nat (List.length breakdown))
    else 0 in
  mkGasComparison (id tariff) (name tariff) totalUsage totalCost
                  estimatedMonthlyCost breakdown.

End GasCalculator.

(* ================================================================= *)
(** ** JavaScript strings and regular expressions used by the parsers

    A string is a sequence of 8-bit code units (the Latin-1 range of
    UTF-16); the parsers give a meaning to ASCII characters only. *)

Local Open Scope string_scope.
Local Open Scope char_scope.

Definition codeOf (c : ascii) : N := N_of_ascii c.

(** [\s], which is also what [trim] strips: TAB, LF, VT, FF, CR, SPACE
    and NBSP. *)
Definition isWhite (c : ascii) : bool :=
  let n := codeOf c in
  ((9 <=? n) && (n <=? 13) || (n =? 32) || (n =? 160))%N.

(** [\d] *)
Definition isDigit (c : ascii) : bool :=
  let n := codeOf c in ((48 <=? n) && (n <=? 57))%N.

Definition digitValue (c : ascii) : Z := Z.of_N (codeOf c) - 48.

(** Line terminators, which [.] does not match. *)
Definition isLineTerminator (c : ascii) : bool :=
  let n := codeOf c in ((n =? 10) || (n =? 13))%N.

Fixpoint trimStart (s : string) : string :=
  match s with
  | EmptyString => EmptyString
  | String c s' => if isWhite c then trimStart s' else s
  end.

Fixpoint trimEnd (s : string) : string :=
  match s with
  | EmptyString => EmptyString
  | String c s' =>
      match trimEnd s' with
      | EmptyString => if isWhite c then EmptyString else String c EmptyString
      | t => String c t
      end
  end.

(** [s.trim()] *)
Definition trim (s : string) : string := trimEnd (trimStart s).

Definition isEmpty (s : string) : bool :=
  match s with EmptyString => true | _ => false end.

Fixpoint mapString (f : ascii -> ascii) (s : string) : string :=
  match s with
  | EmptyString => EmptyString
  | String c s' => String (f c) (mapString f s')
  end.

Fixpoint filterString (p : ascii -> bool) (s : string) : string :=
  match s with
  | EmptyString => EmptyString
  | String c s' => if p c then String c (filterString p s') else filterString p s'
  end.

Definition lowerChar (c : ascii) : ascii :=
  let n := codeOf c in
  if ((65 <=? n) && (n <=? 90)
      || (192 <=? n) && (n <=? 222) && negb (n =? 215))%N
  then ascii_of_N (n + 32)
  else c.

(** [s.toLowerCase()] *)
Definition toLowerCase (s : string) : string := mapString lowerChar s.

(** [/sub/.test(s)] for a literal [sub]. *)
Fixpoint includes (sub s : string) : bool :=
  String.prefix sub s
  || match s with
     | EmptyString => false
     | String _ s' => includes sub s'
     end.

(** [/a|b|c/.test(s)] for literals. *)
Definition includesAny (subs : list string) (s : string) : bool :=
  existsb (fun sub => includes sub s) subs.

(** [s.replace(/\s+/g, ' ')] *)
Fixpoint collapseWhite (s : string) : string :=
  match s with
  | EmptyString => EmptyString
  | String c s' =>
      if isWhite c
      then match s' with
           | String c' _ => if isWhite c' then collapseWhite s'
                            else String " " (collapseWhite s')
           | EmptyString => String " " EmptyString
           end
      else String c (collapseWhite s')
  end.

(** [cells.join(sep)] *)
Fixpoint join (sep : string) (cells : list string) : string :=
  match cells with
  | [] => EmptyString
  | [c] => c
  | c :: rest => (c ++ sep ++ join sep rest)%string
  end.

(** The longest prefix of digits, and what follows it. *)
Fixpoint spanDigits (s : string) : string * string :=
  match s with
  | EmptyString => (EmptyString, EmptyString)
  | String c s' =>
      if isDigit c
      then let (ds, rest) := spanDigits s' in (String c ds, rest)
      else (EmptyString, s)
  end.

Fixpoint allDigits (s : string) : bool :=
  match s with
  | EmptyString => true
  | String c s' => isDigit c && allDigits s'
  end.

(** [Number(ds)] for a string of digits, most significant first. *)
Definition digitsToZ (ds : string) : Z :=
  (fix go (s : string) (acc : Z) : Z :=
     match s with
     | EmptyString => acc
     | String c s' => go s' (10 * acc + digitValue c)%Z
     end) ds 0%Z.

(** [s.split(sep)] for a one-character separator. *)
Fixpoint splitOn (sep : ascii) (s : string) : list string :=
  match s with
  | EmptyString => [EmptyString]
  | String c s' =>
      if Ascii.eqb c sep
      then EmptyString :: splitOn sep s'
      else match splitOn sep s' with
           | [] => [String c EmptyString]
           | part :: parts => String c part :: parts
           end
  end.

(** [arr.findIndex(p)] *)
Fixpoint findIndexFrom {A : Type} (p : A -> bool) (l : list A) (i : Z) : Z :=
  match l with
  | [] => (-1)%Z
  | x :: l' => if p x then i else findIndexFrom p l' (i + 1)%Z
  end.

Definition findIndex {A : Type} (p : A -> bool) (l : list A) : Z := findIndexFrom p l 0%Z.

(** [String(row[idx] ?? '')] *)
Definition cellAt (row : list string) (idx : Z) : string :=
  if (idx <? 0)%Z then EmptyString else nth (Z.to_nat idx) row EmptyString.

(* ================================================================= *)
(** ** The helpers the two parser files share, word for word *)

(** [normalizeHeader] *)
Definition normalizeHeader (value : string) : string :=
  let s := collapseWhite (toLowerCase (trim value)) in
  let s := filterString
             (fun c => negb (existsb (Ascii.eqb c) ["("; ")"; "["; "]"; "{"; "}"])) s in
  filterString
    (fun c => let n := codeOf c in
              ((97 <=? n) && (n <=? 122) || isDigit c || (n =? 32))%N) s.

(** The double quote character. *)
Definition quoteChar : ascii := "034".

(** The variables of [parseCsvRows]. *)
Record CsvState : Type := mkCsv {
  csvRows : list (list string);
  csvRow : list string;
  csvCell : string;
  inQuotes : bool
}.

Definition pushCell (st : CsvState) : CsvState :=
  mkCsv (csvRows st) (csvRow st ++ [csvCell st]) EmptyString (inQuotes st).

Definition pushRow (st : CsvState) : CsvState :=
  mkCsv (if existsb (fun c => negb (isEmpty (trim c))) (csvRow st)
         then csvRows st ++ [csvRow st] else csvRows st)
        [] (csvCell st) (inQuotes st).

Definition addChar (ch : ascii) (st : CsvState) : CsvState :=
  mkCsv (csvRows st) (csvRow st) (csvCell st ++ String ch EmptyString)%string (inQuotes st).

Definition setQuotes (q : bool) (st : CsvState) : CsvState :=
  mkCsv (csvRows st) (csvRow st) (csvCell st) q.

(** [csvText.replace(/\r\n/g, '\n').replace(/\r/g, '\n')] *)
Fixpoint normalizeNewlines (s : string) : string :=
  match s with
  | EmptyString => EmptyString
  | String c s' =>
      if (codeOf c =? 13)%N
      then match s' with
           | String c' s'' =>
               if (codeOf c' =? 10)%N
               then String "010" (normalizeNewlines s'')
               else String "010" (normalizeNewlines s')
           | EmptyString => String "010" EmptyString
           end
      else String c (normalizeNewlines s')
  end.

(** The [for] loop of [parseCsvRows]. *)
Fixpoint scanCsv (text : string) (st : CsvState) : CsvState :=
  match text with
  | EmptyString => st
  | String ch rest =>
      if Ascii.eqb ch quoteChar
      then if inQuotes st
           then match rest with
                | String ch' rest' =>
                    if Ascii.eqb ch' quoteChar
                    then scanCsv rest' (addChar quoteChar st)
                    else scanCsv rest (setQuotes false st)
                | EmptyString => scanCsv rest (setQuotes false st)
                end
           else scanCsv rest (setQuotes true st)
      else if negb (inQuotes st) && Ascii.eqb ch ","
           then scanCsv rest (pushCell st)
           else if negb (inQuotes st) && (codeOf ch =? 10)%N
                then scanCsv rest (pushRow (pushCell st))
                else scanCsv rest (addChar ch st)
  end.

Definition parseCsvRows (csvText : string) : list (list string) :=
  csvRows (pushRow (pushCell (scanCsv (normalizeNewlines csvText)
                                      (mkCsv [] [] EmptyString false)))).

(** The first match of [/-?\d+(?:\.\d+)?/] starting at the head of [s]. *)
Definition unsignedAt (s : string) : Q :=
  let (ip, rest) := spanDigits s in
  match rest with
  | String "." frac =>
      let (fp, _) := spanDigits frac in
      if isEmpty fp then inject_Z (digitsToZ ip)
      else inject_Z (digitsToZ ip)
           + inject_Z (digitsToZ fp) / inject_Z (10 ^ Z.of_nat (String.length fp))
  | _ => inject_Z (digitsToZ ip)
  end.

Definition numberAt (s : string) : option Q :=
  match s with
  | String "-" (String d _ as rest) =>
      if isDigit d then Some (- unsignedAt rest) else None
  | String d _ => if isDigit d then Some (unsignedAt s) else None
  | EmptyString => None
  end.

Fixpoint firstNumber (s : string) : option Q :=
  match numberAt s with
  | Some q => Some q
  | None => match s with
            | EmptyString => None
            | String _ s' => firstNumber s'
            end
  end.

(** [parseNumber] *)
Definition parseNumber (value : string) : option Q :=
  let raw := trim value in
  if isEmpty raw then None
  else match firstNumber (filterString (fun c => negb (Ascii.eqb c ",")) raw) with
       | None => None
       | Some mv => toNumber mv
       end.

(** The groups of
    [(\d{1,2})(?::(\d{2}))?(?::(\d{2}))?\s*(am|pm)?] matched at the head
    of [s] (case-insensitive), and the rest of [s]. *)
Record TimeMatch : Type := mkTimeMatch {
  tmHours : string;
  tmMinutes : option string;
  tmSeconds : option string;
  tmAmPm : string;
  tmRest : string
}.

Definition colonTwoDigits (s : string) : option (string * string) :=
  match s with
  | String ":" (String a (String b rest)) =>
      if isDigit a && isDigit b
      then Some (String a (String b EmptyString), rest)
      else None
  | _ => None
  end.

Definition amPmAt (s : string) : string * string :=
  match s with
  | String a (String m rest) =>
      let a' := lowerChar a in
      let m' := lowerChar m in
      if (Ascii.eqb a' "a" || Ascii.eqb a' "p") && Ascii.eqb m' "m"
         && (codeOf a <? 128)%N && (codeOf m <? 128)%N
      then (String a' (String m' EmptyString), rest)
      else (EmptyString, s)
  | _ => (EmptyString, s)
  end.

Definition matchTimeAt (s : string) : option TimeMatch :=
  match s with
  | String d1 s1 =>
      if isDigit d1
      then
        let (hours, afterHours) :=
          match s1 with
          | String d2 s2 =>
              if isDigit d2
              then (String d1 (String d2 EmptyString), s2)
              else (String d1 EmptyString, s1)
          | EmptyString => (String d1 EmptyString, s1)
          end in
        let (minutes, afterMinutes) :=
          match colonTwoDigits afterHours with
          | Some (mm, r) => (Some mm, r)
          | None => (None, afterHours)
          end in
        let (seconds, afterSeconds) :=
          match colonTwoDigits afterMinutes with
          | Some (ss, r) => (Some ss, r)
          | None => (None, afterMinutes)
          end in
        let (ampm, rest) := amPmAt (trimStart afterSeconds) in
        Some (mkTimeMatch hours minutes seconds ampm rest)
      else None
  | EmptyString => None
  end.

(** [parseTime] *)
Definition parseTime (timeRaw : string) : option (Z * Z * Z) :=
  let t := trim timeRaw in
  if isEmpty t then None
  else
    match matchTimeAt (trimStart t) with
    | None => None
    | Some m =>
        if negb (isEmpty (trimStart (tmRest m))) then None
        else
          let hours := digitsToZ (tmHours m) in
          let minutes := digitsToZ (match tmMinutes m with Some x => x | None => "0"%string end) in
          let seconds := digitsToZ (match tmSeconds m with Some x => x | None => "0"%string end) in
          let ampm := tmAmPm m in
          if ((minutes >? 59) || (seconds >? 59))%Z then None
          else if (hours >? 24)%Z then None
          else if negb (isEmpty ampm)
               then if ((hours <? 1) || (hours >? 12))%Z then None
                    else
                      let hours :=
                        if String.eqb ampm "pm" && negb (hours =? 12)%Z
                        then (hours + 12)%Z else hours in
                      let hours :=
                        if String.eqb ampm "am" && (hours =? 12)%Z
                        then 0%Z else hours in
                      Some (hours, minutes, seconds)
               else Some (hours, minutes, seconds)
    end.

Definition lengthIn (lo hi : nat) (s : string) : bool :=
  (Nat.leb lo (String.length s) && Nat.leb (String.length s) hi)%bool.

Definition checkedDate (year monthIndex day : Z) : option (Z * Z * Z) :=
  if ((monthIndex <? 0) || (monthIndex >? 11))%Z then None
  else if ((day <? 1) || (day >? 31))%Z then None
  else Some (year, monthIndex, day).

(** [parseUsDate]: year, zero-based month, day. *)
Definition parseUsDate (dateRaw : string) : option (Z * Z * Z) :=
  let d := trim dateRaw in
  if isEmpty d then None
  else
    let isoMatch :=
      match splitOn "-" d with
      | [y; m; dd] =>
          if lengthIn 4 4 y && lengthIn 2 2 m && lengthIn 2 2 dd
             && allDigits y && allDigits m && allDigits dd
          then Some (y, m, dd) else None
      | _ => None
      end in
    match isoMatch with
    | Some (y, m, dd) =>
        checkedDate (digitsToZ y) (digitsToZ m - 1) (digitsToZ dd)
    | None =>
        let slashMatch :=
          match splitOn "/" d with
          | [m; dd; y] =>
              if lengthIn 1 2 m && lengthIn 1 2 dd && lengthIn 2 4 y
                 && allDigits m && allDigits dd && allDigits y
              then Some (m, dd, y) else None
          | _ => None
          end in
        match slashMatch with
        | Some (m, dd, y) =>
            let year := digitsToZ y in
            let year := if (year <? 100)%Z then (year + 2000)%Z else year in
            checkedDate year (digitsToZ m - 1) (digitsToZ dd)
        | None =>
            match splitOn "-" d with
            | [m; dd; y] =>
                if lengthIn 1 2 m && lengthIn 1 2 dd && lengthIn 4 4 y
                   && allDigits m && allDigits dd && allDigits y
                then checkedDate (digitsToZ y) (digitsToZ m - 1) (digitsToZ dd)
                else None
            | _ => None
            end
        end
    end.

(** What the parsers ask of the JavaScript host's [Date]:
    - [dateLocal y mo d h mi s] is
      [new Date(y, mo, d, h, mi, s, 0).getTime()], [None] when it is NaN;
    - [dateNative s] is [new Date(s).getTime()], [None] when it is NaN;
    - [calendarOf ms] is the local [getFullYear()], [getMonth()] and
      [getHours()] of [new Date(ms)]. *)
Record DateHost : Type := mkHost {
  dateLocal : Z -> Z -> Z -> Z -> Z -> Z -> option Z;
  dateNative : string -> option Z;
  calendarOf : Z -> Z * Z * Z
}.

(** [new Date(ms)] *)
Definition newDate (host : DateHost) (ms : Z) : Date :=
  let '(year, month, hours) := calendarOf host ms in
  mkDate ms year month hours.

(** [parseDateTime]: the time value of the [Date] it returns. *)
Definition parseDateTime (host : DateHost) (dateRaw : string) (timeRaw : option string)
    : option Z :=
  match parseUsDate dateRaw with
  | None => None
  | Some (year, monthIndex, day) =>
      let time :=
        match timeRaw with
        | None => Some (0, 0, 0)%Z
        | Some raw => parseTime raw
        end in
      match time with
      | None => None
      | Some (hours, minutes, seconds) =>
          dateLocal host year monthIndex day hours minutes seconds
      end
  end.

(** The split [^(.+?)\s+(<time>)$] tried with a first group of
    [prefix ++ s]'s characters up to each white-space character of [s]
    in turn, shortest first. *)
Fixpoint splitDateTime (prefix s : string) : option (string * string) :=
  match s with
  | EmptyString => None
  | String c s' =>
      let here :=
        if isWhite c && negb (isEmpty prefix)
        then let tail := trimStart s in
             match matchTimeAt tail with
             | Some m => if isEmpty (tmRest m) then Some (prefix, tail) else None
             | None => None
             end
        else None in
      match here with
      | Some r => Some r
      | None =>
          if isLineTerminator c then None
          else splitDateTime (prefix ++ String c EmptyString)%string s'
      end
  end.

(** [parseSingleDateTimeField] *)
Definition parseSingleDateTimeField (host : DateHost) (raw : string) : option Z :=
  let s := trim raw in
  if isEmpty s then None
  else
    match dateNative host s with
    | Some iso => Some iso
    | None =>
        match splitDateTime EmptyString s with
        | Some (datePart, timePart) => parseDateTime host datePart (Some timePart)
        | None => None
        end
    end.

(** [scoreHeaderRow]; [unit] is ["kwh"] for electricity, ["therm"] for
    gas. *)
Definition scoreHeaderRowWith (unit : string) (row : list string) : Z :=
  let joined := join " | " (map toLowerCase row) in
  ((if includes unit joined then 3 else 0)
   + (if includesAny ["usage"; "consumption"; "quantity"; "value"]%string joined
      then 2 else 0)
   + (if includesAny ["start"; "end"; "interval"]%string joined then 2 else 0)
   + (if includesAny ["date"; "time"]%string joined then 1 else 0))%Z.

(** The loop variables of [detectHeaderRowIndex]. *)
Record Best : Type := mkBest { bestIdx : Z; bestScore : Z }.

(** One iteration of the loop of [detectHeaderRowIndex], at index [i]. *)
Definition scanHeaderRow (unit : string) (best : Best) (i : Z) (r : list string) : Best :=
  let row := map trim r in
  let nonEmpty := List.length (filter (fun c => negb (isEmpty c)) row) in
  if Nat.ltb nonEmpty 3 then best
  else
    let score := scoreHeaderRowWith unit row in
    if (score >? bestScore best)%Z then mkBest i score else best.

Fixpoint scanHeaderRows (unit : string) (rows : list (list string)) (i : Z) (best : Best)
    : Best :=
  match rows with
  | [] => best
  | r :: rows' => scanHeaderRows unit rows' (i + 1)%Z (scanHeaderRow unit best i r)
  end.

(** [detectHeaderRowIndex]; [threshold] is 4 for electricity, 3 for
    gas. *)
Definition detectHeaderRowIndexWith (unit : string) (threshold : Z)
    (rows : list (list string)) : Z :=
  let best := scanHeaderRows unit (firstn 80 rows) 0%Z (mkBest (-1) 0)%Z in
  if (bestScore best >=? threshold)%Z then bestIdx best else (-1)%Z.

(** The rows a parser works on:
    [parseCsvRows(csvText).map(...).filter(r => r.some(cell => cell.trim() !== ''))]. *)
Definition nonBlankRows (csvText : string) : list (list string) :=
  filter (fun r => existsb (fun cell => negb (isEmpty (trim cell))) r)
         (parseCsvRows csvText).

(** The column indices a parser resolves from the header row; [-1] is
    "not found". *)
Record Columns : Type := mkColumns {
  importIdx : Z;
  exportIdx : Z;
  usageIdx : Z;
  startDateIdx : Z;
  startTimeIdx : Z;
  endDateIdx : Z;
  endTimeIdx : Z;
  startDateTimeIdx : Z;
  endDateTimeIdx : Z;
  dateIdx : Z;
  timeIdx : Z
}.

Definition found (idx : Z) : bool := negb (idx =? -1)%Z.

(** A [Date] object as the row loop holds it in [ts]: [Some t] is a
    date of time value [t], [None] is an Invalid Date. *)
Definition DateObject : Type := option Z.

(** [new Date(t)] for an integer [t]: out of the range of time values
    the date is invalid. *)
Definition timeClip (t : Z) : DateObject :=
  if (Z.abs t <=? 8640000000000000)%Z then Some t else None.

(** One [if (!ts && ...) ts = ...] of the chain: [ts] is [null] while no
    strategy has produced a [Date] object. *)
Definition orElse (ts next : option DateObject) : option DateObject :=
  match ts with
  | Some d => Some d
  | None => next
  end.

(** A parse result as the value assigned to [ts]. *)
Definition parsed (r : option Z) : option DateObject :=
  match r with
  | Some t => Some (Some t)
  | None => None
  end.

(** [if (end) ts = new Date(end.getTime() - back)] *)
Definition backFrom (back : Z) (r : option Z) : option DateObject :=
  match r with
  | Some e => Some (timeClip (e - back))
  | None => None
  end.

(** The timestamp of a data row: the chain of fall-backs of the row
    loop, then its two guards ([!ts], and a time value that is not
    finite).  [back] is the nominal interval taken off an end
    timestamp, in milliseconds. *)
Definition resolveTimestamp (host : DateHost) (back : Z) (cols : Columns)
    (row : list string) : option Z :=
  let ts :=
    if found (startDateTimeIdx cols)
    then parsed (parseSingleDateTimeField host (cellAt row (startDateTimeIdx cols)))
    else None in
  let ts := orElse ts
    (if found (startDateIdx cols) && found (startTimeIdx cols)
     then parsed (parseDateTime host (cellAt row (startDateIdx cols))
                                (Some (cellAt row (startTimeIdx cols))))
     else None) in
  let ts := orElse ts
    (if found (dateIdx cols) && found (timeIdx cols)
     then parsed (parseDateTime host (cellAt row (dateIdx cols))
                                (Some (cellAt row (timeIdx cols))))
     else None) in
  let ts := orElse ts
    (if found (dateIdx cols) && found (startTimeIdx cols)
     then parsed (parseDateTime host (cellAt row (dateIdx cols))
                                (Some (cellAt row (startTimeIdx cols))))
     else None) in
  let ts := orElse ts
    (if found (dateIdx cols)
     then parsed (parseSingleDateTimeField host (cellAt row (dateIdx cols)))
     else None) in
  let ts := orElse ts
    (if found (endDateTimeIdx cols)
     then backFrom back (parseSingleDateTimeField host (cellAt row (endDateTimeIdx cols)))
     else None) in
  let ts := orElse ts
    (if found (endDateIdx cols) && found (endTimeIdx cols)
     then backFrom back (parseDateTime host (cellAt row (endDateIdx cols))
                                       (Some (cellAt row (endTimeIdx cols))))
     else None) in
  match ts with
  | Some (Some t) => Some t
  | _ => None
  end.

(** A reading before normalisation: time value and usage. *)
Definition RawReading : Type := (Z * Q)%type.

(** The variables of the row loop. *)
Record RowLoop : Type := mkRowLoop {
  rawReadings : list RawReading;
  skipped : Z
}.

(** The row loop, given what one row yields ([None]: the row is
    skipped). *)
Definition readRows (readRow : list string -> option RawReading)
    (dataRows : list (list string)) : RowLoop :=
  fold_left
    (fun st row =>
       match readRow row with
       | Some r => mkRowLoop (rawReadings st ++ [r]) (skipped st)
       | None => mkRowLoop (rawReadings st) (skipped st + 1)%Z
       end)
    dataRows (mkRowLoop [] 0%Z).

Definition numGet {V : Type} := @assocGet Z V Z.eqb.
Definition numSet {V : Type} := @assocSet Z V Z.eqb.

Definition byTime (a b : RawReading) : bool := (fst a - fst b >? 0)%Z.

(** "Sort + de-duplicate timestamps": sort, sum per time value into a
    [Map], sort its entries. *)
Definition mergeReadings (readings : list RawReading) : list RawReading :=
  let sorted := sortBy byTime readings in
  let summed :=
    groupInto Z.eqb fst
      (fun sum r => match sum with Some v => v | None => 0 end + snd r)
      sorted [] in
  sortBy byTime summed.

(** [Math.round(a / b)] for integers [a] and [b > 0]. *)
Definition roundDiv (a b : Z) : Z := ((2 * a + b) / (2 * b))%Z.

(** The median of the first [limit - 1] gaps between readings, divided
    by [unit] and rounded; [None] below three readings. *)
Definition typicalInterval (limit : nat) (unit : Z) (normalized : list RawReading)
    : option Z :=
  if Nat.leb 3 (List.length normalized)
  then
    let times := map fst (firstn limit normalized) in
    let diffs :=
      map (fun ab => (snd ab - fst ab)%Z) (combine times (tl times)) in
    let diffs := sortBy (fun a b => (a - b >? 0)%Z) diffs in
    let median := nth (Nat.div (List.length diffs) 2) diffs 0%Z in
    Some (roundDiv median unit)
  else None.

(** The warnings a parser emits, by kind; the number is the one the
    message text quotes. *)
Inductive Warning : Type :=
| SolarNetUsage
| SkippedRows (n : Z)
| AtypicalInterval (n : Z).

Inductive ParseError : Type :=
| EmptyOrUnreadable
| NoHeaderRow
| NoUsageColumn
| NoReadingsParsed.

Record ParseResult : Type := mkParsed {
  readings : list EnergyReading;
  warnings : list Warning
}.

Inductive Outcome : Type :=
| Throws (e : ParseError)
| Returns (r : ParseResult).

Definition toReading (host : DateHost) (r : RawReading) : EnergyReading :=
  mkReading (newDate host (fst r)) (snd r).

(* ================================================================= *)
(** ** [src/services/pgeCsvParser.ts] *)

Module PgeCsvParser.

Definition scoreHeaderRow := scoreHeaderRowWith "kwh".
Definition detectHeaderRowIndex := detectHeaderRowIndexWith "kwh" 4.

Definition usageNouns : list string :=
  ["usage"; "consumption"; "quantity"; "value"; "interval"]%string.
Definition moneyWords : list string :=
  ["cost"; "price"; "rate"; "charge"; "dollar"; "$"]%string.

(** The [findHeader] calls. *)
Definition resolveColumns (headers : list string) : Columns :=
  let findHeader := fun p => findIndex p headers in
  let importIdx := findHeader (fun h => includes "import" h && includes "kwh" h) in
  let exportIdx := findHeader (fun h => includes "export" h && includes "kwh" h) in
  let hasSolarColumns := found importIdx && found exportIdx in
  let usageIdx :=
    if hasSolarColumns then importIdx
    else if found (findHeader (fun h => includes "kwh" h && includesAny usageNouns h))
         then findHeader (fun h => includes "kwh" h && includesAny usageNouns h)
         else findHeader (fun h => includes "kwh" h && negb (includesAny moneyWords h)) in
  mkColumns importIdx exportIdx usageIdx
    (findHeader (includesAny ["start date"; "interval start date";
                              "usage start date"; "from date"]%string))
    (findHeader (includesAny ["start time"; "interval start time";
                              "usage start time"; "from time"]%string))
    (findHeader (includesAny ["end date"; "interval end date";
                              "usage end date"; "to date"]%string))
    (findHeader (includesAny ["end time"; "interval end time";
                              "usage end time"; "to time"]%string))
    (findHeader (includesAny ["interval start"; "start datetime";
                              "start date time"]%string))
    (findHeader (includesAny ["interval end"; "end datetime";
                              "end date time"]%string))
    (findHeader (fun h => String.eqb h "date"
                          || includesAny ["reading date"; "usage date"]%string h))
    (findHeader (fun h => String.eqb h "time"
                          || includesAny ["reading time"]%string h)).

Definition hasSolarColumns (cols : Columns) : bool :=
  found (importIdx cols) && found (exportIdx cols).

(** The usage of a data row; [None] is [null]. *)
Definition rowUsage (cols : Columns) (row : list string) : option Q :=
  if hasSolarColumns cols
  then
    let importKwh := match parseNumber (cellAt row (importIdx cols)) with
                     | Some q => q | None => 0 end in
    let exportKwh := match parseNumber (cellAt row (exportIdx cols)) with
                     | Some q => q | None => 0 end in
    Some (importKwh - exportKwh)
  else parseNumber (cellAt row (usageIdx cols)).

(** The body of the row loop. *)
Definition readRow (host : DateHost) (cols : Columns) (row : list string)
    : option RawReading :=
  match rowUsage cols row with
  | None => None
  | Some kwh =>
      match resolveTimestamp host (15 * 60 * 1000) cols row with
      | None => None
      | Some ts => Some (ts, kwh)
      end
  end.

Definition parsePgeIntervalCsv (host : DateHost) (csvText : string) : Outcome :=
  let rows := nonBlankRows csvText in
  if Nat.ltb (List.length rows) 2 then Throws EmptyOrUnreadable
  else
    let headerIdx := detectHeaderRowIndex rows in
    if (headerIdx =? -1)%Z then Throws NoHeaderRow
    else
      let headersRaw := map trim (nth (Z.to_nat headerIdx) rows []) in
      let headers := map normalizeHeader headersRaw in
      let cols := resolveColumns headers in
      if (usageIdx cols =? -1)%Z then Throws NoUsageColumn
      else
        let solarNote := if hasSolarColumns cols then [SolarNetUsage] else [] in
        let loop := readRows (readRow host cols)
                             (skipn (Z.to_nat headerIdx + 1) rows) in
        match rawReadings loop with
        | [] => Throws NoReadingsParsed
        | _ =>
            let normalized := mergeReadings (rawReadings loop) in
            let skipNote :=
              if (skipped loop >? 0)%Z then [SkippedRows (skipped loop)] else [] in
            let intervalNote :=
              match typicalInterval 2000 60000 normalized with
              | Some minutes =>
                  if existsb (Z.eqb minutes) [15; 30; 60]%Z then []
                  else [AtypicalInterval minutes]
              | None => []
              end in
            Returns (mkParsed (map (toReading host) normalized)
                              (solarNote ++ skipNote ++ intervalNote))
        end.

End PgeCsvParser.

(* ================================================================= *)
(** ** [src/services/pgeGasCsvParser.ts] *)

Module PgeGasCsvParser.

Definition scoreHeaderRow := scoreHeaderRowWith "therm".
Definition detectHeaderRowIndex := detectHeaderRowIndexWith "therm" 3.

Definition usageNouns : list string :=
  ["usage"; "consumption"; "quantity"; "value"]%string.
Definition moneyWords : list string :=
  ["cost"; "price"; "rate"; "charge"; "dollar"; "$"]%string.

(** The [findHeader] calls; the gas parser has no import and export
    columns, and its [thermsIdx] is kept in [usageIdx]. *)
Definition resolveColumns (headers : list string) : Columns :=
  let findHeader := fun p => findIndex p headers in
  let thermsIdx :=
    if found (findHeader (fun h => includes "therm" h && includesAny usageNouns h))
    then findHeader (fun h => includes "therm" h && includesAny usageNouns h)
    else findHeader (fun h => includes "therm" h && negb (includesAny moneyWords h)) in
  mkColumns (-1) (-1) thermsIdx
    (findHeader (includesAny ["start date"; "interval start date";
                              "usage start date"; "from date"]%string))
    (findHeader (includesAny ["start time"; "interval start time";
                              "usage start time"; "from time"]%string))
    (findHeader (includesAny ["end date"; "interval end date";
                              "usage end date"; "to date"]%string))
    (findHeader (includesAny ["end time"; "interval end time";
                              "usage end time"; "to time"]%string))
    (findHeader (includesAny ["interval start"; "start datetime";
                              "start date time"]%string))
    (findHeader (includesAny ["interval end"; "end datetime";
                              "end date time"]%string))
    (findHeader (fun h => String.eqb h "date"
                          || includesAny ["reading date"; "usage date"]%string h))
    (findHeader (fun h => String.eqb h "time"
                          || includesAny ["reading time"]%string h)).

Definition readRow (host : DateHost) (cols : Columns) (row : list string)
    : option RawReading :=
  match parseNumber (cellAt row (usageIdx cols)) with
  | None => None
  | Some therms =>
      match resolveTimestamp host (60 * 60 * 1000) cols row with
      | None => None
      | Some ts => Some (ts, therms)
      end
  end.

Definition parsePgeGasCsv (host : DateHost) (csvText : string) : Outcome :=
  let rows := nonBlankRows csvText in
  if Nat.ltb (List.length rows) 2 then Throws EmptyOrUnreadable
  else
    let headerIdx := detectHeaderRowIndex rows in
    if (headerIdx =? -1)%Z then Throws NoHeaderRow
    else
      let headersRaw := map trim (nth (Z.to_nat headerIdx) rows []) in
      let headers := map normalizeHeader headersRaw in
      let cols := resolveColumns headers in
      if (usageIdx cols =? -1)%Z then Throws NoUsageColumn
      else
        let loop := readRows (readRow host cols)
                             (skipn (Z.to_nat headerIdx + 1) rows) in
        match rawReadings loop with
        | [] => Throws NoReadingsParsed
        | _ =>
            let normalized := mergeReadings (rawReadings loop) in
            let skipNote :=
              if (skipped loop >? 0)%Z then [SkippedRows (skipped loop)] else [] in
            let intervalNote :=
              match typicalInterval 500 (60 * 60 * 1000) normalized with
              | Some hours =>
                  if negb (hours =? 1)%Z && negb (hours =? 24)%Z
                  then [AtypicalInterval hours] else []
              | None => []
              end in
            Returns (mkParsed (map (toReading host) normalized)
                              (skipNote ++ intervalNote))
        end.

End PgeGasCsvParser.

Local Close Scope char_scope.
Local Close Scope string_scope.

(* ================================================================= *)
(** ** [src/services/gasCalculator.ts]: [calculateGasCost] and
       [calculateGasSavingsFromElectrification]

    In a module of its own: the fields of [GasDetailedCost] share
    names with those of [GasTariff] and [GasComparisonResult]. *)

Module GasCost.

Record GasDetailedCost : Type := mkGasDetailedCost {
  totalTherms : Q;
  totalCost : Q;
  baselineTherms : Q;
  overBaselineTherms : Q;
  baselineCost : Q;
  overBaselineCost : Q;
  fixedCharges : Q
}.

(** "Group readings by month": the [Map<string, number>]. *)
Definition monthlyUsage (readings : list GasReading) : list (string * Q) :=
  groupInto String.eqb
    (fun reading => monthKeyOf (timestamp reading))
    (fun sum reading => match sum with Some v => v | None => 0 end + value reading)
    readings [].

(** The five sums of the loop over [monthlyUsage], in the order
    [totalTherms], [baselineTherms], [overBaselineTherms],
    [baselineCost], [overBaselineCost]. *)
Record Sums : Type := mkSums {
  sumTherms : Q;
  sumBaselineTherms : Q;
  sumOverBaselineTherms : Q;
  sumBaselineCost : Q;
  sumOverBaselineCost : Q
}.

(** The body of the loop over [monthlyUsage]. *)
Definition addMonth (tariff : GasCalculator.GasTariff) (acc : Sums) (entry : string * Q)
    : Sums :=
  let usage := snd entry in
  let baseline := Qmin usage (GasCalculator.baselineTherms tariff) in
  let overBaseline := Qmax 0 (usage - GasCalculator.baselineTherms tariff) in
  mkSums (sumTherms acc + usage)
         (sumBaselineTherms acc + baseline)
         (sumOverBaselineTherms acc + overBaseline)
         (sumBaselineCost acc + baseline * GasCalculator.baselineRate tariff)
         (sumOverBaselineCost acc + overBaseline * GasCalculator.overBaselineRate tariff).

Definition calculateGasCost (readings : list GasReading) (tariff : GasCalculator.GasTariff)
    : GasDetailedCost :=
  match readings with
  | [] => mkGasDetailedCost 0 0 0 0 0 0 0
  | _ =>
      let monthlyUsage := monthlyUsage readings in
      let sums := fold_left (addMonth tariff) monthlyUsage (mkSums 0 0 0 0 0) in
      let numMonths := List.length monthlyUsage in
      let fixedCharges :=
        inject_Z (Z.of_nat numMonths) * GasCalculator.fixedMonthlyCharge tariff in
      let totalCost := sumBaselineCost sums + sumOverBaselineCost sums + fixedCharges in
      mkGasDetailedCost (sumTherms sums) totalCost (sumBaselineTherms sums)
                        (sumOverBaselineTherms sums) (sumBaselineCost sums)
                        (sumOverBaselineCost sums) fixedCharges
  end.

(** What [calculateGasSavingsFromElectrification] reads of a load; an
    absent optional field is [None]. *)
Record ReplacedGas : Type := mkReplacedGas {
  replacesGasTherms : option Q;
  replacesGasAppliance : option string
}.

Record GasSavings : Type := mkGasSavings {
  monthlySavings : Q;
  monthlyThermsOffset : Q;
  appliances : list string
}.

(** [load.replacesGasTherms && load.replacesGasTherms > 0] *)
Definition offsetsGas (load : ReplacedGas) : bool :=
  match replacesGasTherms load with
  | Some therms => negb (Qeq_bool therms 0) && Qltb 0 therms
  | None => false
  end.

(** The body of the loop over [enabledLoads]; the pair is
    [monthlyThermsOffset] and [appliances]. *)
Definition addLoad (acc : Q * list string) (load : ReplacedGas) : Q * list string :=
  if offsetsGas load
  then (fst acc + match replacesGasTherms load with Some therms => therms | None => 0 end,
        match replacesGasAppliance load with
        | Some appliance =>
            if negb (String.eqb appliance "") then snd acc ++ [appliance] else snd acc
        | None => snd acc
        end)
  else acc.

Definition calculateGasSavingsFromElectrification (enabledLoads : list ReplacedGas)
    (tariff : GasCalculator.GasTariff) : GasSavings :=
  let loop := fold_left addLoad enabledLoads (0, []) in
  let avgRate :=
    (GasCalculator.baselineRate tariff + GasCalculator.overBaselineRate tariff) / 2 in
  let monthlySavings := fst loop * avgRate in
  mkGasSavings monthlySavings (fst loop) (snd loop).

End GasCost.

(* ================================================================= *)
(** ** [src/unnamed/part_000]: the state the application derives *)

Module App.

(** [TimePeriod] of [types.ts]. *)
Inductive TimePeriod : Type := day | week | month | year.

(** What [groupByKey] asks of the host beyond the fields of [Date]:
    - [toLocaleDateString d] is [d.toLocaleDateString()];
    - [weekKey d] is the template string of the ['week'] branch, built
      from [d.getFullYear()] and the week number the branch computes
      from [d.getTime()], [new Date(d.getFullYear(), 0, 1)] and its
      [getDay()]. *)
Record LocaleHost : Type := mkLocale {
  toLocaleDateString : Date -> string;
  weekKey : Date -> string
}.

Definition groupByKey (host : LocaleHost) (period : TimePeriod) (d : Date) : string :=
  match period with
  | day => toLocaleDateString host d
  | week => weekKey host d
  | month => monthKeyOf d
  | year => EmptyString
  end.

(** The variables the [forEach] callback of [getChunksForPeriod]
    closes over. *)
Record ChunkLoop : Type := mkChunks {
  chunks : list (list EnergyReading);
  currentChunk : list EnergyReading;
  lastKey : string
}.

Definition chunkStep (key : Date -> string) (st : ChunkLoop) (r : EnergyReading)
    : ChunkLoop :=
  let k := key (timestamp r) in
  let st := if negb (String.eqb k (lastKey st))
            then mkChunks (chunks st ++ [currentChunk st]) [] k
            else st in
  mkChunks (chunks st) (currentChunk st ++ [r]) (lastKey st).

Definition getChunksForPeriod (host : LocaleHost) (data : list EnergyReading)
    (period : TimePeriod) : list (list EnergyReading) :=
  match data with
  | [] => []
  | first :: _ =>
      match period with
      | year => [data]
      | _ =>
          let st := fold_left (chunkStep (groupByKey host period)) data
                      (mkChunks [] [] (groupByKey host period (timestamp first))) in
          rev (chunks st ++ [currentChunk st])
      end
  end.

(** [arr[idx]] at an integer index: [None] is [undefined]. *)
Definition at_ {A : Type} (arr : list A) (idx : Z) : option A :=
  if (idx <? 0)%Z then None else nth_error arr (Z.to_nat idx).

Definition filteredReadings (periodChunks : list (list EnergyReading)) (chunkIndex : Z)
    : list EnergyReading :=
  match periodChunks with
  | [] => []
  | _ :: _ =>
      let idx := Z.min chunkIndex (Z.of_nat (List.length periodChunks) - 1) in
      match at_ periodChunks idx with
      | Some c => c
      | None => []
      end
  end.

(** The updater [navigate] passes to [setChunkIndex]. *)
Definition navigate (periodChunks : list (list EnergyReading)) (dir prev : Z) : Z :=
  Z.max 0 (Z.min (Z.of_nat (List.length periodChunks) - 1) (prev + dir)).

(** [targetKey] of [handleDrillDown]. *)
Definition targetKey (host : LocaleHost) (nextPeriod : TimePeriod) (d : Date) : string :=
  match nextPeriod with
  | month => monthKeyOf d
  | day => toLocaleDateString host d
  | _ => EmptyString
  end.

(** [findIndex] with a callback that may throw. *)
Fixpoint findIndexM {A : Type} (p : A -> option bool) (l : list A) (i : Z) : option Z :=
  match l with
  | [] => Some (-1)%Z
  | x :: l' => match p x with
               | None => None
               | Some true => Some i
               | Some false => findIndexM p l' (i + 1)%Z
               end
  end.

(** What [handleDrillDown] does to the state: nothing, or
    [setSelectedPeriod(nextPeriod)] and [setChunkIndex(foundIdx)]. *)
Inductive DrillDown : Type :=
  | stay
  | moveTo (nextPeriod : TimePeriod) (foundIdx : Z).

(** [handleDrillDown]; [None] is the [TypeError] of [chunk[0].timestamp]
    on an empty chunk.  [timestamp] is the time value of a bar of the
    chart; [data] is [readingsWithSimulation]. *)
Definition handleDrillDown (dates : DateHost) (host : LocaleHost)
    (data : list EnergyReading) (selectedPeriod : TimePeriod) (timestamp_ : Z)
    : option DrillDown :=
  let targetDate := newDate dates timestamp_ in
  let next := match selectedPeriod with
              | year => Some month
              | month | week => Some day
              | day => None
              end in
  match next with
  | None => Some stay
  | Some nextPeriod =>
      let nextChunks := getChunksForPeriod host data nextPeriod in
      let targetVal := targetKey host nextPeriod targetDate in
      match findIndexM (fun chunk => match nth_error chunk 0 with
                                     | None => None
                                     | Some r0 =>
                                         Some (String.eqb
                                                 (targetKey host nextPeriod (timestamp r0))
                                                 targetVal)
                                     end)
                       nextChunks 0%Z with
      | None => None
      | Some foundIdx =>
          if negb (foundIdx =? -1)%Z then Some (moveTo nextPeriod foundIdx) else Some stay
      end
  end.

(** The comparator [(a, b) => a.estimatedMonthlyCost - b.estimatedMonthlyCost]. *)
Definition byEstimate (a b : ComparisonResult) : bool :=
  Qltb 0 (estimatedMonthlyCost a - estimatedMonthlyCost b).

Definition sortedComparisons (comparisons : list ComparisonResult)
    (currentTariff : Tariff) : list ComparisonResult :=
  match comparisons with
  | [] => []
  | _ :: _ =>
      let currentEntry :=
        find (fun c => String.eqb (tariffId c) (id currentTariff)) comparisons in
      let otherEntries :=
        sortBy byEstimate
          (filter (fun c => negb (String.eqb (tariffId c) (id currentTariff)))
                  comparisons) in
      match currentEntry with
      | Some e => e :: otherEntries
      | None => otherEntries
      end
  end.

(** [bestTariff]; [None] is [null]. *)
Definition bestTariff (comparisons : list ComparisonResult) : option ComparisonResult :=
  match comparisons with
  | [] => None
  | _ :: _ => nth_error (sortBy byEstimate comparisons) 0
  end.

(** [LoadPreset] and [SimulatedLoad] of [types.ts].  A simulated load
    has the fields of a preset and [enabled]; it is kept as the pair
    of the two, so that [{ ...preset, enabled: true }] is
    [mkLoad preset true] and [{ ...l, enabled: !l.enabled }] is
    [mkLoad (preset l) (negb (enabled l))]. *)
Module Loads.

Record LoadPreset : Type := mkPreset {
  id : string;
  name : string;
  icon : string;
  description : string;
  monthlyKwh : Q;
  hourlyPattern : list Q;
  seasonalMultiplier : list Q;
  replacesGasTherms : option Q;
  replacesGasAppliance : option string
}.

Record SimulatedLoad : Type := mkLoad {
  preset : LoadPreset;
  enabled : bool
}.

End Loads.

(** The updater [toggleSimulatedLoad] passes to [setSimulatedLoads];
    [presets] is the constant [LOAD_PRESETS]. *)
Definition toggleSimulatedLoad (presets : list Loads.LoadPreset) (presetId : string)
    (prev : list Loads.SimulatedLoad) : list Loads.SimulatedLoad :=
  match find (fun l => String.eqb (Loads.id (Loads.preset l)) presetId) prev with
  | Some _ =>
      map (fun l => if String.eqb (Loads.id (Loads.preset l)) presetId
                    then Loads.mkLoad (Loads.preset l) (negb (Loads.enabled l))
                    else l)
          prev
  | None =>
      match find (fun p => String.eqb (Loads.id p) presetId) presets with
      | None => prev
      | Some p => prev ++ [Loads.mkLoad p true]
      end
  end.

(** [load?.enabled ?? false] *)
Definition isLoadEnabled (simulatedLoads : list Loads.SimulatedLoad) (presetId : string)
    : bool :=
  match find (fun l => String.eqb (Loads.id (Loads.preset l)) presetId) simulatedLoads with
  | Some load => Loads.enabled load
  | None => false
  end.

(** What [chartReadings] asks of the host: the [Date] that
    [d.setHours(0, 0, 0, 0)], and [d.setMinutes(0, 0, 0)], make of a
    copy [d] of a date. *)
Record ClockHost : Type := mkClock {
  startOfDay : Date -> Date;
  startOfHour : Date -> Date
}.

(** The comparator [(a, b) => a.timestamp.getTime() - b.timestamp.getTime()]. *)
Definition byTimestamp (a b : EnergyReading) : bool :=
  (getTime (timestamp a) - getTime (timestamp b) >? 0)%Z.

(** [chartReadings]: the two branches differ in the setter only. *)
Definition chartReadings (host : ClockHost) (filteredReadings : list EnergyReading)
    (selectedPeriod : TimePeriod) : list EnergyReading :=
  if (Z.of_nat (List.length filteredReadings) <=? 2000)%Z then filteredReadings
  else
    let bucket := match selectedPeriod with
                  | year => startOfDay host
                  | _ => startOfHour host
                  end in
    let map_ :=
      groupInto Z.eqb (fun r => getTime (bucket (timestamp r)))
        (fun existing r =>
           match existing with
           | Some e => mkReading (timestamp e) (value e + value r)
           | None => mkReading (bucket (timestamp r)) (value r)
           end)
        filteredReadings [] in
    sortBy byTimestamp (map snd map_).

End App.

(* ================================================================= *)
(** ** [src/components/EnergyChart.tsx]: the data of the chart *)

Module EnergyChart.

(** ['peak' | 'partial-peak' | 'off-peak' | 'flat'] *)
Inductive HourType : Type := hPeak | hPartialPeak | hOffPeak | hFlat.

Definition isSummerMonth (month : Z) : bool := (month >=? 5)%Z && (month <=? 8)%Z.

Definition getEffectiveRate (period : TariffPeriod) (month : Z) : Q :=
  match summerRate period with
  | Some sr => if isSummerMonth month then sr else rate period
  | None => rate period
  end.

(** The [for] loop of [classifyHour] and of [getRateForHour] returns at
    the first period in range: [find] with the test [inRange], which
    is [periodMatches]. *)
Definition classifyHour (hour : Z) (tariff : Tariff) : HourType :=
  match type tariff with
  | flat => hFlat
  | _ =>
      match find (periodMatches hour) (periods tariff) with
      | Some p =>
          let lowered := toLowerCase (name p) in
          if includes "partial" lowered then hPartialPeak
          else if includes "peak" lowered && negb (includes "off" lowered) then hPeak
          else hOffPeak
      | None => hOffPeak
      end
  end.

(** [None] is the [TypeError] of [getEffectiveRate] reading
    [summerRate] of [tariff.periods[0]] when [periods] is empty. *)
Definition getRateForHour (hour month : Z) (tariff : Tariff) : option Q :=
  match find (periodMatches hour) (periods tariff) with
  | Some p => Some (getEffectiveRate p month)
  | None => match nth_error (periods tariff) 0 with
            | Some p0 => Some (getEffectiveRate p0 month)
            | None => None
            end
  end.

Inductive Granularity : Type := g15m | g1h | g1d | g1w | g1m.

(** What [chartData] asks of the host:
    - [now] is the time value of [new Date()];
    - [hourStart d], [dayStart d], [weekStart d] and [monthStart d] are
      the time value of a copy of [d] after [setMinutes(0, 0, 0)],
      after [setHours(0, 0, 0, 0)], after the [setDate] to the Monday
      of the week and [setHours(0, 0, 0, 0)], and after [setDate(1)]
      and [setHours(0, 0, 0, 0)];
    - [timeLabel d] is [d.toLocaleTimeString] with the options of the
      ['15m'] branch, [dayLabel t] and [monthLabel t] are
      [toLocaleDateString] and [toLocaleString] with the options of
      the other branches, of the date of time value [t]. *)
Record ChartHost : Type := mkChartHost {
  now : Z;
  hourStart : Date -> Z;
  dayStart : Date -> Z;
  weekStart : Date -> Z;
  monthStart : Date -> Z;
  timeLabel : Date -> string;
  dayLabel : Z -> string;
  monthLabel : Z -> string
}.

(** One value of [map], a bar of the chart. *)
Record Bar : Type := mkBar {
  barUsage : Q;
  barCost : Q;
  barRate : Q;
  barLabel : string;
  barHourType : HourType;
  barTimestamp : Z;
  barIsFuture : bool
}.

(** [key] and [label] by granularity.  The key is the decimal string
    of a time value and [parseInt(key)] gives the time value back, so
    the map is keyed by the time value itself. *)
Definition keyAndLabel (host : ChartHost) (granularity : Granularity) (d : Date)
    : Z * string :=
  match granularity with
  | g15m => (getTime d, timeLabel host d)
  | g1h => (hourStart host d, stringOfZ (getHours d) ++ ":00")
  | g1d => (dayStart host d, dayLabel host (dayStart host d))
  | g1w => (weekStart host d, "Wk of " ++ dayLabel host (weekStart host d))
  | g1m => (monthStart host d, monthLabel host (monthStart host d))
  end%string.

(** The callback of [readings.forEach]. *)
Definition chartStep (host : ChartHost) (granularity : Granularity) (tariff : Tariff)
    (map_ : list (Z * Bar)) (r : EnergyReading) : option (list (Z * Bar)) :=
  let h := getHours (timestamp r) in
  let m := getMonth (timestamp r) in
  let hourType := classifyHour h tariff in
  match getRateForHour h m tariff with
  | None => None
  | Some rate_ =>
      let isFuture := (getTime (timestamp r) >? now host)%Z in
      let '(key, label) := keyAndLabel host granularity (timestamp r) in
      let b := match numGet key map_ with
               | Some b => b
               | None => mkBar 0 0 rate_ label hourType key isFuture
               end in
      Some (numSet key
              (mkBar (barUsage b + value r) (barCost b + value r * rate_) (barRate b)
                     (barLabel b) (barHourType b) (barTimestamp b)
                     (if isFuture then true else barIsFuture b))
              map_)
  end.

(** The comparator [(a, b) => a.timestamp - b.timestamp]. *)
Definition byTimestamp (a b : Bar) : bool := (barTimestamp a - barTimestamp b >? 0)%Z.

(** [chartData].  The bars are sorted by a timestamp that is their
    key, so the order in which [Object.values] lists them does not
    show in the result; the map is kept in insertion order. *)
Definition chartData (host : ChartHost) (readings : list EnergyReading)
    (granularity : Granularity) (tariff : Tariff) : option (list Bar) :=
  match readings with
  | [] => Some []
  | _ :: _ =>
      match forEach (chartStep host granularity tariff) readings [] with
      | None => None
      | Some map_ => Some (sortBy byTimestamp (map snd map_))
      end
  end.

End EnergyChart.

(* ################################################################# *)
(** * Vocabulary of the specification and of the proofs *)

(* ================================================================= *)
(** ** The cost rules in the words of the specification *)

(** "Running usage so far this calendar month" before a reading of month
    [month], read off the history [seen] (most recent reading first):
    the values of the unbroken run of readings of that month-of-year. *)
Fixpoint usageSoFar (month : Z) (seen : list EnergyReading) : Q :=
  match seen with
  | [] => 0
  | r :: seen' =>
      if (getMonth (timestamp r) =? month)%Z
      then usageSoFar month seen' + value r
      else 0
  end.

(** Sum over the readings [l] of value times the rate that [rateAt]
    gives for the usage so far and the date of the reading. *)
Fixpoint pricedEnergy (rateAt : Q -> Date -> Q) (seen l : list EnergyReading) : Q :=
  match l with
  | [] => 0
  | r :: l' =>
      value r * rateAt (usageSoFar (getMonth (timestamp r)) seen) (timestamp r)
      + pricedEnergy rateAt (r :: seen) l'
  end.

(** "Baseline is 270 units in summer months, 350 otherwise". *)
Definition baselineOf (month : Z) : Q :=
  if ((5 <=? month)%Z && (month <=? 8)%Z)%bool then 270 else 350.

(** "Usage below baseline uses the base rate; usage from baseline up to
    4x baseline uses 1.28x that rate; beyond 4x baseline uses 1.45x". *)
Definition threeTierRate (baseRate soFar : Q) (month : Z) : Q :=
  if Qltb soFar (baselineOf month) then baseRate
  else if Qltb soFar (4 * baselineOf month) then 1.28 * baseRate
       else 1.45 * baseRate.

(** The two tiers of the revised engine. *)
Definition twoTierRate (baseRate soFar : Q) (month : Z) : Q :=
  if Qltb soFar (baselineOf month) then baseRate else 1.24 * baseRate.

(** The hour window of a period, as the data model describes it. *)
Definition inWindow (p : TariffPeriod) (hour : Z) : Prop :=
  if (startHour p <=? endHour p)%Z
  then (startHour p <= hour <= endHour p)%Z
  else (startHour p <= hour \/ hour <= endHour p)%Z.

(** [p] is the first period of [ps], in declaration order, whose
    window contains [hour]. *)
Definition firstMatch (ps : list TariffPeriod) (hour : Z) (p : TariffPeriod) : Prop :=
  exists before after,
    ps = before ++ p :: after
    /\ inWindow p hour
    /\ Forall (fun q => ~ inWindow q hour) before.

(** Days spanned by a reading list, floored at 0.1. *)
Definition daysInReadings (readings : list EnergyReading) : Q :=
  match readings with
  | [] => 0.1
  | first :: _ =>
      Qmax 0.1 (inject_Z (getTime (timestamp (last readings first))
                          - getTime (timestamp first))
                / inject_Z 86400000)
  end.

(** [allTariffs.find(t => t.id === currentTariffId) || allTariffs[0]] *)
Definition currentOf (currentTariffId : string) (allTariffs : list Tariff) : option Tariff :=
  match find (fun t => String.eqb (id t) currentTariffId) allTariffs with
  | Some t => Some t
  | None => nth_error allTariffs 0
  end.

(** The callback of either revision, given its rate block: reset,
    pick a rate, accumulate. *)
Definition stepWith (rateFor : Q -> Date -> option Q) (st : LoopState)
    (reading : EnergyReading) : option LoopState :=
  let st' := resetOnMonthChange st (timestamp reading) in
  match rateFor (monthlyUsageCounter st') (timestamp reading) with
  | None => None
  | Some rate => Some (accumulate st' (monthKeyOf (timestamp reading)) reading rate)
  end.

(** The loop state agrees with the history [seen] (most recent reading
    first). *)
Definition tracks (st : LoopState) (seen : list EnergyReading) : Prop :=
  monthlyUsageCounter st = usageSoFar (currentMonth st) seen
  /\ match seen with
     | [] => True
     | r :: _ => getMonth (timestamp r) = currentMonth st
     end.


Definition energyOnly (tariff : Tariff) (res : DetailedCost) : Q :=
  dcTotalCost res
  - inject_Z (Z.of_nat (List.length (dcBreakdown res))) * fixedMonthlyCharge tariff.

Definition isTiered (t : Tariff) : Prop := type t = flat \/ type t = tiered.

(** The tier block of [energyCalculator.ts], as written there. *)
Definition ecTierAt (p0 : TariffPeriod) (c : Q) (d : Date) : Q :=
  let baseline : Q := if ((getMonth d >=? 5)%Z && (getMonth d <=? 8)%Z)%bool
                      then 270 else 350 in
  if Qltb c baseline then rate p0
  else if Qltb c (baseline * 4) then rate p0 * 1.28 else rate p0 * 1.45.

Definition revTierAt (p0 : TariffPeriod) (c : Q) (d : Date) : Q :=
  let baseline : Q := if Revised.isSummerMonth (getMonth d) then 270 else 350 in
  if Qltb c baseline then Revised.getEffectiveRate p0 (getMonth d)
  else Revised.getEffectiveRate p0 (getMonth d) * 1.24.

Definition ecRate (t : Tariff) (c : Q) (d : Date) : Q :=
  match EnergyCalculator.rateFor t c d with Some q => q | None => 0 end.

Definition revRate (t : Tariff) (c : Q) (d : Date) : Q :=
  match Revised.rateFor t c d with Some q => q | None => 0 end.


(** The monthly estimate of one tariff: energy scaled to 30 days plus
    one fixed charge. *)
Definition monthlyEstimate (readings : list EnergyReading) (t : Tariff) (c : DetailedCost) : Q :=
  energyOnly t c * (30 / daysInReadings readings) + fixedMonthlyCharge t.


(** The month a reading is billed in. *)
Definition monthOf (r : EnergyReading) : string := monthKeyOf (timestamp r).

(** The readings of the month [k], in input order. *)
Definition readingsOfMonth (k : string) (rs : list EnergyReading) : list EnergyReading :=
  filter (fun r => String.eqb (monthOf r) k) rs.

(** "A single two-tier (baseline / over-baseline) monthly structure"
    plus one fixed charge. *)
Definition gasMonthCost (t : GasCalculator.GasTariff) (monthUsage : Q) : Q :=
  Qmin monthUsage (GasCalculator.baselineTherms t) * GasCalculator.baselineRate t
  + Qmax 0 (monthUsage - GasCalculator.baselineTherms t) * GasCalculator.overBaselineRate t
  + GasCalculator.fixedMonthlyCharge t.

(* ================================================================= *)
(** ** The counter as the loop holds it *)

(** The running counter before a reading of month [month], after the
    history [seen] (most recent reading first): the values of the
    unbroken run of readings of that month-of-year, added in the
    order read, each sum rounded as the sum of two doubles is. *)
Fixpoint counter64 (month : Z) (seen : list EnergyReading) : Q :=
  match seen with
  | [] => 0
  | r :: seen' =>
      if (getMonth (timestamp r) =? month)%Z
      then jsAdd (counter64 month seen') (value r)
      else 0
  end.

(** Sum over the readings [l] of value times the rate that [rateAt]
    gives for that counter and the date of the reading. *)
Fixpoint priced64 (rateAt : Q -> Date -> Q) (seen l : list EnergyReading) : Q :=
  match l with
  | [] => 0
  | r :: l' =>
      value r * rateAt (counter64 (getMonth (timestamp r)) seen) (timestamp r)
      + priced64 rateAt (r :: seen) l'
  end.

(** [P] holds of every reading of [l] when it is priced: of the
    counter it is priced against, and of its date. *)
Fixpoint along64 (P : Q -> Date -> Prop) (seen l : list EnergyReading) : Prop :=
  match l with
  | [] => True
  | r :: l' =>
      P (counter64 (getMonth (timestamp r)) seen) (timestamp r)
      /\ along64 P (r :: seen) l'
  end.

(** The loop state agrees with the history [seen]. *)
Definition tracks64 (st : LoopState) (seen : list EnergyReading) : Prop :=
  monthlyUsageCounter st = counter64 (currentMonth st) seen
  /\ match seen with
     | [] => True
     | r :: _ => getMonth (timestamp r) = currentMonth st
     end.

(** The rate block answers alike at the exact sum and at the counter
    the loop holds, for every reading of [l] when it is priced. *)
Fixpoint sameRates (rateFor : Q -> Date -> option Q) (seen l : list EnergyReading)
    : Prop :=
  match l with
  | [] => True
  | r :: l' =>
      rateFor (usageSoFar (getMonth (timestamp r)) seen) (timestamp r)
      = rateFor (counter64 (getMonth (timestamp r)) seen) (timestamp r)
      /\ sameRates rateFor (r :: seen) l'
  end.

(** No addition to the counter is rounded before a reading of [l] is
    priced. *)
Fixpoint sumsExact (seen l : list EnergyReading) : Prop :=
  match l with
  | [] => True
  | r :: l' =>
      counter64 (getMonth (timestamp r)) seen == usageSoFar (getMonth (timestamp r)) seen
      /\ sumsExact (r :: seen) l'
  end.

(** Two loop states that differ in the counter at most. *)
Definition sameButCounter (st st64 : LoopState) : Prop :=
  periodMap st = periodMap st64
  /\ runTotalCost st = runTotalCost st64
  /\ currentMonth st = currentMonth st64.

(** The counter is below the baseline of the month of [d]. *)
Definition firstTier (c : Q) (d : Date) : Prop := c < baselineOf (getMonth d).

(** The counter is at the baseline or above and below four times it. *)
Definition secondTier (c : Q) (d : Date) : Prop :=
  baselineOf (getMonth d) <= c /\ c < 4 * baselineOf (getMonth d).

(** The period whose rate prices a reading of date [d], in either
    file: for a time-of-use tariff the first period whose window holds
    the hour, else the first period; the first period otherwise. *)
Definition pricedThrough (t : Tariff) (d : Date) : option TariffPeriod :=
  match type t with
  | tou => match find (periodMatches (getHours d)) (periods t) with
           | Some p => Some p
           | None => nth_error (periods t) 0
           end
  | _ => nth_error (periods t) 0
  end.

(** No summer rate changes the price of a reading of date [d]: its
    month is outside the summer months, or the period it is priced
    through has no summer rate, or one equal to its rate. *)
Definition noSummerRateAt (t : Tariff) (d : Date) : Prop :=
  forall p, pricedThrough t d = Some p ->
    Revised.isSummerMonth (getMonth d) = false
    \/ summerRate p = None
    \/ summerRate p = Some (rate p).

(** Where the two files price a reading alike. *)
Definition revisionsMeet (t : Tariff) (c : Q) (d : Date) : Prop :=
  noSummerRateAt t d /\ (type t = tou \/ firstTier c d).

(** The two revisions of the engine. *)
Inductive Revision : Type := original | revised.

Definition costBy (rev : Revision)
    : list EnergyReading -> Tariff -> option DetailedCost :=
  match rev with
  | original => EnergyCalculator.calculateDetailedCost
  | revised => Revised.calculateDetailedCost
  end.

(** The tariff [t] with another fixed monthly charge. *)
Definition withFixedCharge (charge : Q) (t : Tariff) : Tariff :=
  mkTariff (id t) (tariffLabel t) (description t) (type t) (periods t) charge (provider t).

(* ================================================================= *)
(** ** The parsers' intermediate values, by name *)

(** The time value of a reading. *)
Definition timeOf (r : EnergyReading) : Z := getTime (timestamp r).

(** The raw readings of time value [t]. *)
Definition rawAt (t : Z) (raw : list RawReading) : list RawReading :=
  filter (fun x => (fst x =? t)%Z) raw.

(** A row of the header scan counts when at least three of its cells
    are not blank. *)
Definition eligibleRow (r : list string) : Prop :=
  (3 <= List.length (filter (fun c => negb (isEmpty c)) (map trim r)))%nat.

(** "A scanned row of the first 80, with at least 3 non-empty cells,
    reaches the threshold". *)
Definition hasHeaderRow (unit : string) (threshold : Z) (rows : list (list string)) : Prop :=
  Exists (fun r => eligibleRow r /\ (threshold <= scoreHeaderRowWith unit (map trim r))%Z)
         (firstn 80 rows).

(** The normalised header cells of row [idx]. *)
Definition headersAt (idx : Z) (rows : list (list string)) : list string :=
  map normalizeHeader (map trim (nth (Z.to_nat idx) rows [])).

(** A header names a usage column for the electricity parser. *)
Definition usageCandidate (h : string) : bool :=
  includes "kwh" h
  && (includesAny PgeCsvParser.usageNouns h
      || negb (includesAny PgeCsvParser.moneyWords h)).

Definition solarPair (headers : list string) : bool :=
  existsb (fun h => includes "import" h && includes "kwh" h) headers
  && existsb (fun h => includes "export" h && includes "kwh" h) headers.

Definition hasUsageColumn (headers : list string) : bool :=
  solarPair headers || existsb usageCandidate headers.

Module Electric.
Definition headerIdx (csv : string) : Z :=
  PgeCsvParser.detectHeaderRowIndex (nonBlankRows csv).
Definition headers (csv : string) : list string :=
  headersAt (headerIdx csv) (nonBlankRows csv).
Definition columns (csv : string) : Columns :=
  PgeCsvParser.resolveColumns (headers csv).
Definition dataRows (csv : string) : list (list string) :=
  skipn (Z.to_nat (headerIdx csv) + 1) (nonBlankRows csv).
Definition loop (host : DateHost) (csv : string) : RowLoop :=
  readRows (PgeCsvParser.readRow host (columns csv)) (dataRows csv).
End Electric.

Module Gas.
Definition headerIdx (csv : string) : Z :=
  PgeGasCsvParser.detectHeaderRowIndex (nonBlankRows csv).
Definition headers (csv : string) : list string :=
  headersAt (headerIdx csv) (nonBlankRows csv).
Definition columns (csv : string) : Columns :=
  PgeGasCsvParser.resolveColumns (headers csv).
Definition dataRows (csv : string) : list (list string) :=
  skipn (Z.to_nat (headerIdx csv) + 1) (nonBlankRows csv).
Definition loop (host : DateHost) (csv : string) : RowLoop :=
  readRows (PgeGasCsvParser.readRow host (columns csv)) (dataRows csv).
End Gas.

(** What a normalised reading list owes to the raw readings: strictly
    increasing times, the times of the raw readings and no other, and
    under each time the sum of the raw values of that time. *)
Definition normalizes (raw : list RawReading) (out : list EnergyReading) : Prop :=
  StronglySorted Z.lt (map timeOf out)
  /\ (forall t, In t (map timeOf out) <-> In t (map fst raw))
  /\ Forall (fun r => value r == sumBy snd (rawAt (timeOf r) raw)) out.

Definition isSkipWarning (w : Warning) : bool :=
  match w with SkippedRows _ => true | _ => false end.

Definition orZero (q : option Q) : Q :=
  match q with Some x => x | None => 0 end.
(** What the row loop keeps, and how many rows it skips, given what
    one row yields. *)
Definition keptReadings (readRow : list string -> option RawReading)
    (rows : list (list string)) : list RawReading :=
  flat_map (fun row => match readRow row with Some r => [r] | None => [] end) rows.

Definition skippedCount (readRow : list string -> option RawReading)
    (rows : list (list string)) : nat :=
  List.length (filter (fun row => match readRow row with Some _ => false | None => true end)
                      rows).

Definition yieldsReading (readRow : list string -> option RawReading)
    (row : list string) : Prop :=
  exists r, readRow row = Some r.

(** What the header scan knows after the rows [seen]: the best score
    is that of a row that counts, at a valid index, and no row that
    counts beats it. *)
Definition scanned (unit : string) (seen : list (list string)) (i : Z) (best : Best)
    : Prop :=
  Forall (fun r => eligibleRow r
                   -> (scoreHeaderRowWith unit (map trim r) <= bestScore best)%Z) seen
  /\ ((bestIdx best = -1 /\ bestScore best = 0)%Z
      \/ ((0 <= bestIdx best < i)%Z
          /\ Exists (fun r => eligibleRow r
                               /\ scoreHeaderRowWith unit (map trim r) = bestScore best)
                    seen)).

Definition summedOf (sorted : list RawReading) : list RawReading :=
  groupInto Z.eqb fst
    (fun sum r => match sum with Some v => v | None => 0 end + snd r) sorted [].

Definition electricNotes (host : DateHost) (csv : string) : list Warning :=
  (if PgeCsvParser.hasSolarColumns (Electric.columns csv) then [SolarNetUsage] else [])
  ++ (if (skipped (Electric.loop host csv) >? 0)%Z
      then [SkippedRows (skipped (Electric.loop host csv))] else [])
  ++ match typicalInterval 2000 60000
             (mergeReadings (rawReadings (Electric.loop host csv))) with
     | Some minutes =>
         if existsb (Z.eqb minutes) [15; 30; 60]%Z then []
         else [AtypicalInterval minutes]
     | None => []
     end.

Definition gasNotes (host : DateHost) (csv : string) : list Warning :=
  (if (skipped (Gas.loop host csv) >? 0)%Z
   then [SkippedRows (skipped (Gas.loop host csv))] else [])
  ++ match typicalInterval 500 (60 * 60 * 1000)
             (mergeReadings (rawReadings (Gas.loop host csv))) with
     | Some hours =>
         if negb (hours =? 1)%Z && negb (hours =? 24)%Z
         then [AtypicalInterval hours] else []
     | None => []
     end.

(* ================================================================= *)
(** ** A host in the UTC time zone, for the examples *)

(** Day number of a civil date, and back (proleptic Gregorian). *)
Definition daysFromCivil (y m d : Z) : Z :=
  let y := if (m <=? 2)%Z then (y - 1)%Z else y in
  let era := (y / 400)%Z in
  let yoe := (y - era * 400)%Z in
  let doy := ((153 * (if (m >? 2)%Z then m - 3 else m + 9) + 2) / 5 + d - 1)%Z in
  let doe := (yoe * 365 + yoe / 4 - yoe / 100 + doy)%Z in
  (era * 146097 + doe - 719468)%Z.

Definition civilFromDays (z : Z) : Z * Z * Z :=
  let z := (z + 719468)%Z in
  let era := (z / 146097)%Z in
  let doe := (z - era * 146097)%Z in
  let yoe := ((doe - doe / 1460 + doe / 36524 - doe / 146096) / 365)%Z in
  let doy := (doe - (365 * yoe + yoe / 4 - yoe / 100))%Z in
  let mp := ((5 * doy + 2) / 153)%Z in
  let d := (doy - (153 * mp + 2) / 5 + 1)%Z in
  let m := if (mp <? 10)%Z then (mp + 3)%Z else (mp - 9)%Z in
  let y := (yoe + era * 400 + (if (m <=? 2)%Z then 1 else 0))%Z in
  (y, m, d).

Definition utcLocal (y mo d h mi s : Z) : option Z :=
  let y := if ((0 <=? y) && (y <=? 99))%Z then (1900 + y)%Z else y in
  let ym := (y + mo / 12)%Z in
  let mn := (mo mod 12)%Z in
  timeClip ((daysFromCivil ym (mn + 1) 1 + (d - 1)) * 86400000
            + h * 3600000 + mi * 60000 + s * 1000)%Z.

Definition utcCalendar (ms : Z) : Z * Z * Z :=
  let '(y, m, _) := civilFromDays (ms / 86400000)%Z in
  (y, (m - 1)%Z, ((ms mod 86400000) / 3600000)%Z).

(** The native parser of this host refuses every text.  The example
    files keep date and time in separate columns, where the parsers do
    not consult it: [native_parser_not_consulted] below runs them with
    any native parser in its place. *)
Definition utcHost : DateHost := mkHost utcLocal (fun _ => None) utcCalendar.

(* ================================================================= *)
(** ** Example inputs *)

(** Dates as the UTC host reads them. *)
Definition jan10 : Date := mkDate 1736496000000 2025 0 8.

Definition jan11 : Date := mkDate 1736582400000 2025 0 8.

Definition jan20 : Date := mkDate 1737360000000 2025 0 8.

Definition jul10 : Date := mkDate 1752141600000 2025 6 10.

Definition jul11 : Date := mkDate 1752228000000 2025 6 10.



Definition flat038 : Tariff :=
  mkTariff "flat-038" "Flat 38c" "One rate, no seasonal override." flat
    [mkPeriod "Baseline Average" 0 23 0.38 None] 0 None.

(** The first tariff of [DEFAULT_TARIFFS]; the cent sign of its
    description is the code unit 162. *)
Definition pgeE1 : Tariff :=
  mkTariff "pge-e1" "PG&E E-1 (Tiered)"
    ("Standard residential rate. Tier 1 (baseline) ~38"
     ++ String "162"%char (", Tier 2 (above) ~47" ++ String "162"%char "."))%string
    flat
    [mkPeriod "Baseline Average" 0 23 0.38 (Some 0.40)] 0 (Some pgeBundled).

(** Four July readings of exact sum 270 kWh that the doubles add up to
    270 - 2 ^ -44. *)
Definition almost270 : list EnergyReading :=
  [ mkReading jul10 269;
    mkReading jul10 (0.25 + (3 # 140737488355328));
    mkReading jul10 (0.25 + (3 # 140737488355328));
    mkReading jul10 (0.5 - (6 # 140737488355328)) ].

Definition eHome : Tariff :=
  mkTariff "pge-e-home" "PG&E E-ELEC (E-Home)"
    "For electrified homes with heat pumps or batteries. $15/mo fixed charge." tou
    [ mkPeriod "Peak (4-9 PM)" 16 20 0.42 (Some 0.55);
      mkPeriod "Partial-Peak" 15 15 0.37 (Some 0.44);
      mkPeriod "Partial-Peak Night" 21 23 0.37 (Some 0.44);
      mkPeriod "Off-Peak" 0 14 0.30 (Some 0.34) ]
    15 (Some pgeBundled).

Definition peakOnly : Tariff :=
  mkTariff "peak-only" "Peak only" "A single window, 16 to 20 h." tou
    [mkPeriod "Peak" 16 20 0.46 (Some 0.55)] 0 None.

Definition pgeTouC : Tariff :=
  mkTariff "pge-tou-c" "PG&E TOU-C (4-9 PM)"
    "Standard Time-of-Use plan. Peak hours are 4-9 PM every day. Summer rates higher."
    tou
    [ mkPeriod "Peak" 16 20 0.46 (Some 0.55);
      mkPeriod "Off-Peak" 21 15 0.39 (Some 0.47) ]
    0 (Some pgeBundled).

Definition jul10peak : Date := mkDate 1752166800000 2025 6 17.

Definition gasTariff1 : GasCalculator.GasTariff :=
  GasCalculator.mkGasTariff "pge-g1" "PG&E G-1" "Two tiers on a 30 therm baseline."
    2 3 30 5.

Definition feb10 : Date := mkDate 1739174400000 2025 1 8.

Definition gasJanFeb : list GasReading :=
  [mkReading jan10 20; mkReading jan20 15; mkReading feb10 10].

(** Example exports. *)
Definition csvUsage : string :=
  "Start Date,Start Time,Usage (kWh)
01/18/2025,00:15,1.234
01/18/2025,00:15,1.000
01/18/2025,00:30,2.5
Total,,
01/18/2025,00:00,0.5
".

Definition csvSolar : string :=
  "Account,12345
Start Date,Start Time,IMPORT (kWh),EXPORT (kWh)
01/18/2025,00:15,2.0,0.5
01/18/2025,00:30,n/a,0.5
01/18/2025,00:45,1.0,0.25
".

Definition solarColumns : Columns :=
  mkColumns 2 3 2 0 1 (-1) (-1) (-1) (-1) (-1) (-1).

(* ================================================================= *)
(** ** Vocabulary of the further properties *)

(** What the month buckets hold after the readings [seen] (most recent
    first): one bucket per month key seen, the usage of a bucket is
    what was read in its month, and the running total is the sum of
    the buckets' energy costs. *)
Definition accounts (st : LoopState) (seen : list EnergyReading) : Prop :=
  NoDup (map fst (periodMap st))
  /\ (forall k, In k (map fst (periodMap st)) <-> In k (map monthOf seen))
  /\ (forall k b, In (k, b) (periodMap st) ->
                  bUsage b == sumBy value (readingsOfMonth k seen))
  /\ runTotalCost st == sumBy (fun kv => bCost (snd kv)) (periodMap st).

(** Newest month first. *)
Definition newerFirst (a b : MonthlyBreakdown) : Prop :=
  localeCompare (monthName b) (monthName a) = Lt.


(** What a time-of-use tariff charges for one reading, whatever was
    read before it. *)
Definition touCharge (rateAt : Q -> Date -> Q) (r : EnergyReading) : Q :=
  value r * rateAt 0 (timestamp r).

Definition twoMonths : list EnergyReading :=
  [mkReading jan10 20; mkReading jan20 15; mkReading feb10 10].

(** The entry [compareTariffs] builds for the tariff [t] of cost [c],
    the tariff compared against being [current], of cost [cc]. *)
Definition comparisonOf (readings : list EnergyReading) (current : Tariff)
    (cc : DetailedCost) (t : Tariff) (c : DetailedCost) : ComparisonResult :=
  mkComparison (id t) (tariffLabel t) (sumBy value readings) (dcTotalCost c)
    (monthlyEstimate readings t c)
    (monthlyEstimate readings current cc - monthlyEstimate readings t c)
    (dcBreakdown c).

(** A tariff without periods, which [types.ts] allows. *)
Definition noPeriods : Tariff :=
  mkTariff "none" "No periods" "A tariff whose period list is empty." tou [] 0 None.

(** What one month of [usage] therms costs before the fixed charge. *)
Definition gasEnergyCost (t : GasCalculator.GasTariff) (monthUsage : Q) : Q :=
  Qmin monthUsage (GasCalculator.baselineTherms t) * GasCalculator.baselineRate t
  + Qmax 0 (monthUsage - GasCalculator.baselineTherms t) * GasCalculator.overBaselineRate t.

(** The therms a load offsets: its [replacesGasTherms] when positive. *)
Definition thermsOffsetBy (load : GasCost.ReplacedGas) : Q :=
  match GasCost.replacesGasTherms load with
  | Some therms => if Qltb 0 therms then therms else 0
  | None => 0
  end.

Definition furnace : GasCost.ReplacedGas :=
  GasCost.mkReplacedGas (Some 35) (Some "gas furnace"%string).

Definition evCharger : GasCost.ReplacedGas := GasCost.mkReplacedGas None None.

(** The appliance a load reports as replaced: its
    [replacesGasAppliance], when it offsets gas and the name is not
    empty. *)
Definition appliancesOf (load : GasCost.ReplacedGas) : list string :=
  if GasCost.offsetsGas load
  then match GasCost.replacesGasAppliance load with
       | Some appliance => if String.eqb appliance "" then [] else [appliance]
       | None => []
       end
  else [].

(** A header names a usage column for the gas parser. *)
Definition thermsCandidate (h : string) : bool :=
  includes "therm" h
  && (includesAny PgeGasCsvParser.usageNouns h
      || negb (includesAny PgeGasCsvParser.moneyWords h)).

Definition hasThermsColumn (headers : list string) : bool :=
  existsb thermsCandidate headers.

Definition csvGas : string :=
  "Date,Time,Usage (therms)
01/18/2025,00:00,1.5
01/18/2025,01:00,n/a
01/18/2025,02:00,0.5
".

(** The loop of [digitsToZ], by name. *)
Fixpoint digitsFrom (s : string) (acc : Z) : Z :=
  match s with
  | EmptyString => acc
  | String c s' => digitsFrom s' (10 * acc + digitValue c)%Z
  end.

(** A character that means nothing to the CSV scanner: no quote, no
    comma, no line feed, no carriage return. *)
Definition plainChar (c : ascii) : bool :=
  negb (Ascii.eqb c quoteChar) && negb (Ascii.eqb c ",")
  && negb (codeOf c =? 10)%N && negb (codeOf c =? 13)%N.

Fixpoint plainCell (s : string) : bool :=
  match s with
  | EmptyString => true
  | String c s' => plainChar c && plainCell s'
  end.

(** A row with a cell that is not blank. *)
Definition hasContent (row : list string) : bool :=
  existsb (fun c => negb (isEmpty (trim c))) row.

Definition lineFeed : string := String "010" EmptyString.

(** Rows written one per line, cells separated by commas. *)
Definition linesOf (rows : list (list string)) : string :=
  join lineFeed (map (join ",") rows).

(** Text free of carriage returns. *)
Fixpoint noReturn (s : string) : bool :=
  match s with
  | EmptyString => true
  | String c s' => negb (codeOf c =? 13)%N && noReturn s'
  end.

(** The cells a line of text stands for: an empty line is one empty
    cell. *)
Definition cellsOf (row : list string) : list string :=
  match row with [] => [EmptyString] | _ => row end.

(** The score of a row as the header scan computes it. *)
Definition headerScore (unit : string) (r : list string) : Z :=
  scoreHeaderRowWith unit (map trim r).

(** What the header scan holds after the rows [seen]: no best row
    yet, or the first of the rows that count with the highest score. *)
Definition pinned (unit : string) (seen : list (list string)) (best : Best) : Prop :=
  (bestIdx best = (-1)%Z /\ bestScore best = 0%Z
   /\ Forall (fun r => eligibleRow r -> (headerScore unit r <= 0)%Z) seen)
  \/ (exists r,
        nth_error seen (Z.to_nat (bestIdx best)) = Some r
        /\ (0 <= bestIdx best)%Z
        /\ eligibleRow r
        /\ headerScore unit r = bestScore best
        /\ Forall (fun r' => eligibleRow r' -> (headerScore unit r' < bestScore best)%Z)
                  (firstn (Z.to_nat (bestIdx best)) seen)
        /\ Forall (fun r' => eligibleRow r' -> (headerScore unit r' <= bestScore best)%Z)
                  seen).

(** Row [idx] of [rows] is the first of the highest-scoring rows that
    count among the first 80, and reaches [threshold]. *)
Definition firstBest (unit : string) (threshold : Z) (rows : list (list string)) (idx : Z)
    : Prop :=
  exists r,
    nth_error rows (Z.to_nat idx) = Some r
    /\ (0 <= idx < 80)%Z
    /\ eligibleRow r
    /\ (threshold <= headerScore unit r)%Z
    /\ forall j r', (j < 80)%nat -> nth_error rows j = Some r' -> eligibleRow r' ->
                    (headerScore unit r' <= headerScore unit r)%Z
                    /\ ((Z.of_nat j < idx)%Z -> (headerScore unit r' < headerScore unit r)%Z).

Definition twoHeaders : list (list string) :=
  [ ["Account"; "12345"];
    ["Date"; "Start Time"; "Usage (kWh)"];
    ["Interval Start Date"; "Interval Start Time"; "Consumption kWh"];
    ["01/18/2025"; "00:15"; "1.5"] ]%string.

(** Readings every one of which comes [d] milliseconds after the one
    before. *)
Definition evenlySpaced (d : Z) (l : list RawReading) : Prop :=
  Forall (fun ab => (snd ab - fst ab = d)%Z) (combine (map fst l) (tl (map fst l))).

(** Four readings, a quarter of an hour apart. *)
Definition quarterHours : list RawReading :=
  [(1737158400000%Z, 0.5); (1737159300000%Z, 0.25);
   (1737160200000%Z, 1); (1737161100000%Z, 0.75)].

(** [out], newest first, cuts a reading list into its maximal runs of
    equal [key]: no chunk is empty, the readings of a chunk share
    their key, and the chunk before it in time has another one. *)
Fixpoint runs (key : Date -> string) (out : list (list EnergyReading)) : Prop :=
  match out with
  | [] => True
  | c :: older =>
      (exists k, c <> []
                 /\ Forall (fun r => key (timestamp r) = k) c
                 /\ match older with
                    | [] => True
                    | c' :: _ => Forall (fun r => key (timestamp r) <> k) c'
                    end)
      /\ runs key older
  end.

(** The period a click on a bar leads to. *)
Definition finer (p : App.TimePeriod) : option App.TimePeriod :=
  match p with
  | App.year => Some App.month
  | App.month | App.week => Some App.day
  | App.day => None
  end.

(** A host for the examples: the day is the time value divided by the
    milliseconds of a day, the week the one divided by those of a week. *)
Definition plainLocale : App.LocaleHost :=
  App.mkLocale (fun d => stringOfZ (getTime d / 86400000))
               (fun d => stringOfZ (getTime d / 604800000)).

(** The order of [byEstimate]. *)
Definition cheaperOrSame (a b : ComparisonResult) : Prop :=
  estimatedMonthlyCost a <= estimatedMonthlyCost b.

(** The id of a simulated load. *)
Definition loadId (l : App.Loads.SimulatedLoad) : string := App.Loads.id (App.Loads.preset l).

Definition evPreset : App.Loads.LoadPreset :=
  App.Loads.mkPreset "ev-standard" "Electric Vehicle" "fa-car"
    "~12,000 mi/year, charging overnight (optimal for TOU)" 300
    [0.12; 0.12; 0.12; 0.12; 0.12; 0.12; 0.04; 0; 0; 0; 0; 0; 0; 0; 0; 0;
     0; 0; 0; 0; 0; 0; 0.12; 0.12]
    [1.1; 1; 0.95; 1] None None.

Definition dryerPreset : App.Loads.LoadPreset :=
  App.Loads.mkPreset "electric-dryer" "Electric Dryer" "fa-shirt"
    "Standard electric dryer, ~4 loads/week" 50
    [0; 0; 0; 0; 0; 0; 0; 0.02; 0.04; 0.06; 0.08; 0.08; 0.06; 0.04; 0.04; 0.04;
     0.06; 0.08; 0.10; 0.10; 0.08; 0.06; 0.04; 0.02]
    [1.1; 1; 0.9; 1] None None.

(** The rate the chart prices a reading at, 0 where it throws. *)
Definition chartRate (tariff : Tariff) (r : EnergyReading) : Q :=
  match EnergyChart.getRateForHour (getHours (timestamp r)) (getMonth (timestamp r)) tariff with
  | Some q => q
  | None => 0
  end.

(** What the map of [chartData] holds after the readings [seen]. *)
Definition charted (tariff : Tariff) (m : list (Z * EnergyChart.Bar))
    (seen : list EnergyReading) : Prop :=
  NoDup (map fst m)
  /\ Forall (fun kv => EnergyChart.barTimestamp (snd kv) = fst kv) m
  /\ sumBy (fun kv => EnergyChart.barUsage (snd kv)) m == sumBy value seen
  /\ sumBy (fun kv => EnergyChart.barCost (snd kv)) m
     == sumBy (fun r => value r * chartRate tariff r) seen.

(** A host for the examples: bars of an hour, a day, a week and 30
    days of the time line, labelled by their start. *)
Definition plainChart : EnergyChart.ChartHost :=
  EnergyChart.mkChartHost 1740000000000
    (fun d => (getTime d / 3600000 * 3600000)%Z)
    (fun d => (getTime d / 86400000 * 86400000)%Z)
    (fun d => (getTime d / 604800000 * 604800000)%Z)
    (fun d => (getTime d / 2592000000 * 2592000000)%Z)
    (fun d => stringOfZ (getTime d)) stringOfZ stringOfZ.

Definition plainClock : App.ClockHost :=
  App.mkClock
    (fun d => mkDate (getTime d / 86400000 * 86400000)%Z (getFullYear d) (getMonth d) 0)
    (fun d => mkDate (getTime d / 3600000 * 3600000)%Z (getFullYear d) (getMonth d)
                     (getHours d)).

(* ################################################################# *)
(** * Properties *)

Lemma Qltb_lt a b : Qltb a b = true <-> a < b.
Proof.
  unfold Qltb. rewrite negb_true_iff.
  split; intro H.
  - apply Qnot_le_lt. intro Hle. apply Qle_bool_iff in Hle. congruence.
  - destruct (Qle_bool b a) eqn:E; auto. apply Qle_bool_iff in E. lra.
Qed.

Lemma Qltb_ge a b : Qltb a b = false <-> b <= a.
Proof.
  unfold Qltb. rewrite negb_false_iff. apply Qle_bool_iff.
Qed.

#[export] Instance Qltb_Proper : Proper (Qeq ==> Qeq ==> eq) Qltb.
Proof.
  intros a a' Ha b b' Hb. unfold Qltb. now rewrite Ha, Hb.
Qed.

(* ================================================================= *)
(** ** Insertion-ordered maps *)

Section AssocMapFacts.
Context {K V : Type} (eqb : K -> K -> bool).
Hypothesis eqb_eq : forall x y, eqb x y = true <-> x = y.

Let keys (m : list (K * V)) : list K := map fst m.

Lemma eqb_refl_true x : eqb x x = true.
Proof. now apply eqb_eq. Qed.

Lemma eqb_neq_false x y : x <> y -> eqb x y = false.
Proof.
  intros H. destruct (eqb x y) eqn:E; [| reflexivity].
  apply eqb_eq in E. contradiction.
Qed.

Lemma assocGet_set_same k (v : V) m : assocGet eqb k (assocSet eqb k v m) = Some v.
Proof.
  induction m as [| [k' v'] m IH]; simpl.
  - now rewrite eqb_refl_true.
  - destruct (eqb k' k) eqn:E; simpl; rewrite E; auto.
Qed.

Lemma assocGet_set_other k k' (v : V) m :
  k <> k' -> assocGet eqb k' (assocSet eqb k v m) = assocGet eqb k' m.
Proof.
  intros Hne. induction m as [| [k0 v0] m IH]; simpl.
  - now rewrite eqb_neq_false.
  - destruct (eqb k0 k) eqn:E; simpl.
    + apply eqb_eq in E. subst k0. now rewrite eqb_neq_false.
    + now rewrite IH.
Qed.

Lemma keys_set k (v : V) m :
  keys (assocSet eqb k v m)
  = if existsb (fun k' => eqb k' k) (keys m) then keys m else keys m ++ [k].
Proof.
  unfold keys. induction m as [| [k' v'] m IH]; simpl; [reflexivity |].
  destruct (eqb k' k) eqn:E; simpl; [reflexivity |].
  rewrite IH. destruct (existsb _ _); reflexivity.
Qed.

Lemma keys_set_In k (v : V) m k' :
  In k' (keys (assocSet eqb k v m)) <-> k' = k \/ In k' (keys m).
Proof.
  rewrite keys_set. destruct (existsb _ _) eqn:E.
  - apply existsb_exists in E as (k0 & Hin & Hk0). apply eqb_eq in Hk0. subst k0.
    split; [tauto |]. intros [-> | H]; assumption.
  - rewrite in_app_iff. simpl. split.
    + intros [H | [H | []]]; auto.
    + intros [-> | H]; auto.
Qed.

Lemma keys_set_NoDup k (v : V) m : NoDup (keys m) -> NoDup (keys (assocSet eqb k v m)).
Proof.
  intros Hnd. rewrite keys_set. destruct (existsb _ _) eqn:E; [assumption |].
  apply NoDup_app; [assumption | repeat constructor; auto |].
  intros k0 Hin [<- | []].
  assert (existsb (fun k' => eqb k' k) (keys m) = true) as E'.
  { apply existsb_exists. exists k. split; [assumption | apply eqb_refl_true]. }
  congruence.
Qed.

Lemma assocGet_In k (v : V) m : assocGet eqb k m = Some v -> In (k, v) m.
Proof.
  induction m as [| [k' v'] m IH]; simpl; [discriminate |].
  destruct (eqb k' k) eqn:E.
  - apply eqb_eq in E. subst. intros [= ->]. now left.
  - intros H. right. auto.
Qed.

Lemma In_assocGet k (v : V) m : NoDup (keys m) -> In (k, v) m -> assocGet eqb k m = Some v.
Proof.
  unfold keys. induction m as [| [k' v'] m IH]; simpl; [contradiction |].
  intros Hnd [[= -> ->] | Hin].
  - now rewrite eqb_refl_true.
  - inversion Hnd as [| ? ? Hk Hnd']; subst.
    destruct (eqb k' k) eqn:E; [| auto].
    apply eqb_eq in E. subst k'. exfalso. apply Hk.
    change k with (fst (k, v)). now apply in_map.
Qed.

Section Grouping.
Context {A : Type} (key : A -> K) (upd : option V -> A -> V).

(** What [groupInto] leaves under the key [k]: the updates by the
    items of that key, in order. *)
Lemma groupInto_get k l : forall m0,
  assocGet eqb k (groupInto eqb key upd l m0)
  = fold_left (fun o x => Some (upd o x))
              (filter (fun x => eqb (key x) k) l)
              (assocGet eqb k m0).
Proof.
  unfold groupInto. induction l as [| x l IH]; intro m0; simpl; [reflexivity |].
  rewrite IH. destruct (eqb (key x) k) eqn:E; simpl.
  - apply eqb_eq in E. subst k. now rewrite assocGet_set_same.
  - rewrite assocGet_set_other; [reflexivity |].
    intros H. rewrite H, eqb_refl_true in E. discriminate.
Qed.

Lemma groupInto_keys k l : forall m0,
  In k (keys (groupInto eqb key upd l m0)) <-> In k (keys m0) \/ In k (map key l).
Proof.
  unfold groupInto. induction l as [| x l IH]; intro m0; simpl; [tauto |].
  rewrite IH, keys_set_In. split.
  - intros [[-> | H] | H]; auto.
  - intros [H | [<- | H]]; auto.
Qed.

Lemma groupInto_NoDup l : forall m0,
  NoDup (keys m0) -> NoDup (keys (groupInto eqb key upd l m0)).
Proof.
  unfold groupInto. induction l as [| x l IH]; intros m0 H; simpl; [assumption |].
  apply IH. now apply keys_set_NoDup.
Qed.
End Grouping.
End AssocMapFacts.

(* ================================================================= *)
(** ** Sorting *)

Section SortFacts.
Context {A : Type} (gtb : A -> A -> bool).

Lemma sortInsert_perm x l : Permutation (sortInsert gtb x l) (x :: l).
Proof.
  induction l as [| y l IH]; simpl; [reflexivity |].
  destruct (gtb x y); [| reflexivity].
  rewrite IH. apply perm_swap.
Qed.

Lemma sortBy_perm l : Permutation (sortBy gtb l) l.
Proof.
  induction l as [| x l IH]; simpl; [reflexivity |].
  rewrite sortInsert_perm. now constructor.
Qed.

Lemma sortBy_length l : List.length (sortBy gtb l) = List.length l.
Proof. apply Permutation_length, sortBy_perm. Qed.

Lemma sortBy_In x l : In x (sortBy gtb l) <-> In x l.
Proof.
  split; apply Permutation_in; [| symmetry]; apply sortBy_perm.
Qed.

Variable le : A -> A -> Prop.
Hypothesis le_trans : forall x y z, le x y -> le y z -> le x z.
Hypothesis gtb_true : forall x y, gtb x y = true -> le y x.
Hypothesis gtb_false : forall x y, gtb x y = false -> le x y.

Lemma sortInsert_sorted x l :
  StronglySorted le l -> StronglySorted le (sortInsert gtb x l).
Proof.
  induction 1 as [| y l Hs IH Hy]; simpl.
  - repeat constructor.
  - destruct (gtb x y) eqn:E.
    + constructor; [assumption |].
      rewrite Forall_forall in Hy |- *. intros z Hz.
      apply (Permutation_in _ (sortInsert_perm x l)) in Hz.
      destruct Hz as [<- | Hz]; auto.
    + constructor; [constructor; assumption |].
      constructor; [auto |].
      rewrite Forall_forall in Hy |- *. intros z Hz. eauto.
Qed.

Lemma sortBy_sorted l : StronglySorted le (sortBy gtb l).
Proof.
  induction l as [| x l IH]; simpl; [constructor |].
  now apply sortInsert_sorted.
Qed.
End SortFacts.

(* ================================================================= *)
(** ** Sums *)

Lemma sumBy_from {A} (f : A -> Q) l : forall a,
  fold_left (fun s x => s + f x) l a == a + sumBy f l.
Proof.
  unfold sumBy. induction l as [| x l IH]; intro a; simpl.
  - ring.
  - rewrite IH, (IH (0 + f x)). ring.
Qed.

Lemma sumBy_cons {A} (f : A -> Q) x l : sumBy f (x :: l) == f x + sumBy f l.
Proof. unfold sumBy at 1. simpl. rewrite sumBy_from. ring. Qed.

Lemma sumBy_nil {A} (f : A -> Q) : sumBy f [] == 0.
Proof. reflexivity. Qed.

Lemma sumBy_app {A} (f : A -> Q) l1 l2 : sumBy f (l1 ++ l2) == sumBy f l1 + sumBy f l2.
Proof.
  induction l1 as [| x l1 IH]; simpl.
  - rewrite sumBy_nil. ring.
  - rewrite !sumBy_cons, IH. ring.
Qed.

Lemma sumBy_nonneg {A} (f : A -> Q) l : Forall (fun x => 0 <= f x) l -> 0 <= sumBy f l.
Proof.
  induction 1 as [| x l Hx _ IH].
  - rewrite sumBy_nil. lra.
  - rewrite sumBy_cons. lra.
Qed.

Lemma sumBy_permutation {A} (f : A -> Q) l l' :
  Permutation l l' -> sumBy f l == sumBy f l'.
Proof.
  induction 1 as [| x l l' _ IH | x y l | l l' l'' _ IH1 _ IH2].
  - reflexivity.
  - rewrite !sumBy_cons, IH. reflexivity.
  - rewrite !sumBy_cons. ring.
  - now rewrite IH1.
Qed.

Lemma filter_permutation {A} (p : A -> bool) l l' :
  Permutation l l' -> Permutation (filter p l) (filter p l').
Proof.
  induction 1 as [| x l l' _ IH | x y l | l l' l'' _ IH1 _ IH2]; simpl.
  - constructor.
  - destruct (p x); [now constructor | assumption].
  - destruct (p x), (p y); try reflexivity. apply perm_swap.
  - now rewrite IH1.
Qed.

(* ================================================================= *)
(** ** The cost engine *)

Section Engine.
Variable rateFor : Q -> Date -> option Q.

Lemma reset_counter st seen date :
  tracks st seen ->
  monthlyUsageCounter (resetOnMonthChange st date) = usageSoFar (getMonth date) seen
  /\ currentMonth (resetOnMonthChange st date) = getMonth date.
Proof.
  intros [Hc Hm]. unfold resetOnMonthChange.
  destruct (Z.eqb_spec (getMonth date) (currentMonth st)) as [E | E]; simpl.
  - rewrite E. auto.
  - split; auto. destruct seen as [| r seen']; simpl; auto.
    destruct (Z.eqb_spec (getMonth (timestamp r)) (getMonth date)); auto.
    congruence.
Qed.

Lemma step_tracks st seen r st' :
  tracks st seen -> stepWith rateFor st r = Some st' -> tracks st' (r :: seen).
Proof.
  intros Ht Hs. unfold stepWith in Hs.
  destruct (reset_counter st seen (timestamp r) Ht) as [Hc Hm].
  destruct (rateFor _ _) as [q |]; [| discriminate].
  injection Hs as <-. unfold tracks; simpl.
  rewrite Hm, Z.eqb_refl, Hc. auto.
Qed.

Variable rateAt : Q -> Date -> Q.
Hypothesis rateFor_total : forall c d, rateFor c d = Some (rateAt c d).

Lemma forEach_priced l : forall st seen,
  tracks st seen ->
  exists st', forEach (stepWith rateFor) l st = Some st'
    /\ tracks st' (rev l ++ seen)
    /\ runTotalCost st' == runTotalCost st + pricedEnergy rateAt seen l.
Proof.
  induction l as [| r l IH]; intros st seen Ht; simpl.
  - exists st. repeat split; try apply Ht. ring.
  - destruct (reset_counter st seen (timestamp r) Ht) as [Hc Hm].
    assert (Hs : stepWith rateFor st r =
                 Some (accumulate (resetOnMonthChange st (timestamp r))
                         (monthKeyOf (timestamp r)) r
                         (rateAt (usageSoFar (getMonth (timestamp r)) seen) (timestamp r)))).
    { unfold stepWith. rewrite rateFor_total, Hc. reflexivity. }
    rewrite Hs.
    destruct (IH _ (r :: seen) (step_tracks _ _ _ _ Ht Hs)) as (st' & Hf & Ht' & Hcost).
    exists st'. split; [exact Hf |]. split.
    + rewrite <- app_assoc. exact Ht'.
    + rewrite Hcost. simpl.
      assert (runTotalCost (resetOnMonthChange st (timestamp r)) = runTotalCost st) as ->.
      { unfold resetOnMonthChange. destruct (negb _); reflexivity. }
      ring.
Qed.
End Engine.


Lemma tracks_init : tracks initLoop [].
Proof. split; reflexivity. Qed.

Lemma ec_calc_priced rs t rateAt :
  (forall c d, EnergyCalculator.rateFor t c d = Some (rateAt c d)) ->
  exists res, EnergyCalculator.calculateDetailedCost rs t = Some res
    /\ energyOnly t res == pricedEnergy rateAt [] rs.
Proof.
  intros Hr.
  destruct (forEach_priced _ rateAt Hr rs initLoop [] tracks_init) as (st & Hf & _ & Hc).
  unfold EnergyCalculator.calculateDetailedCost.
  change (EnergyCalculator.step t) with (stepWith (EnergyCalculator.rateFor t)).
  rewrite Hf. eexists. split; [reflexivity |].
  unfold energyOnly. simpl. rewrite Hc. simpl. ring.
Qed.

Lemma rev_calc_priced rs t rateAt :
  (forall c d, Revised.rateFor t c d = Some (rateAt c d)) ->
  exists res, Revised.calculateDetailedCost rs t = Some res
    /\ energyOnly t res == pricedEnergy rateAt [] rs.
Proof.
  intros Hr.
  destruct (forEach_priced _ rateAt Hr rs initLoop [] tracks_init) as (st & Hf & _ & Hc).
  unfold Revised.calculateDetailedCost.
  change (Revised.step t) with (stepWith (Revised.rateFor t)).
  rewrite Hf. eexists. split; [reflexivity |].
  unfold energyOnly. simpl. rewrite Hc. simpl. ring.
Qed.

Lemma ec_rateFor_tiered t p0 ps c d :
  isTiered t -> periods t = p0 :: ps ->
  EnergyCalculator.rateFor t c d = Some (ecTierAt p0 c d).
Proof.
  intros [Ht | Ht] Hp; unfold EnergyCalculator.rateFor; rewrite Ht, Hp; reflexivity.
Qed.

Lemma rev_rateFor_tiered t p0 ps c d :
  isTiered t -> periods t = p0 :: ps ->
  Revised.rateFor t c d = Some (revTierAt p0 c d).
Proof.
  intros [Ht | Ht] Hp; unfold Revised.rateFor; rewrite Ht, Hp; reflexivity.
Qed.

Lemma summer_test m : ((m >=? 5)%Z && (m <=? 8)%Z)%bool = ((5 <=? m)%Z && (m <=? 8)%Z)%bool.
Proof. now rewrite Z.geb_leb. Qed.

Lemma ecTierAt_spec p0 c d : ecTierAt p0 c d == threeTierRate (rate p0) c (getMonth d).
Proof.
  unfold ecTierAt, threeTierRate, baselineOf. rewrite summer_test.
  set (b := if (_ && _)%bool then 270 else 350).
  destruct (Qltb c b); [reflexivity |].
  assert (E : b * 4 == 4 * b) by ring. rewrite E.
  destruct (Qltb c (4 * b)); ring.
Qed.

Lemma revTierAt_spec p0 c d :
  revTierAt p0 c d
  == twoTierRate (Revised.getEffectiveRate p0 (getMonth d)) c (getMonth d).
Proof.
  unfold revTierAt, twoTierRate, baselineOf, Revised.isSummerMonth. rewrite summer_test.
  destruct (Qltb c _); ring.
Qed.

(* ---------- the engines with the counter in binary64 ---------- *)

Section Engine64.
Variable rateFor : Q -> Date -> option Q.

Lemma reset_counter64 st seen date :
  tracks64 st seen ->
  monthlyUsageCounter (resetOnMonthChange st date) = counter64 (getMonth date) seen
  /\ currentMonth (resetOnMonthChange st date) = getMonth date.
Proof.
  intros [Hc Hm]. unfold resetOnMonthChange.
  destruct (Z.eqb_spec (getMonth date) (currentMonth st)) as [E | E]; simpl.
  - rewrite E. auto.
  - split; auto. destruct seen as [| r seen']; simpl; auto.
    destruct (Z.eqb_spec (getMonth (timestamp r)) (getMonth date)); auto.
    congruence.
Qed.

Lemma step_tracks64 st seen r st' :
  tracks64 st seen -> step64 rateFor st r = Some st' -> tracks64 st' (r :: seen).
Proof.
  intros Ht Hs. unfold step64 in Hs. cbv zeta in Hs.
  destruct (reset_counter64 st seen (timestamp r) Ht) as [Hc Hm].
  destruct (rateFor _ _) as [q |]; [| discriminate].
  injection Hs as <-. unfold tracks64; simpl.
  rewrite Hm, Z.eqb_refl, Hc. auto.
Qed.

Variable rateAt : Q -> Date -> Q.
Hypothesis rateFor_total : forall c d, rateFor c d = Some (rateAt c d).

Lemma forEach_priced64 l : forall st seen,
  tracks64 st seen ->
  exists st', forEach (step64 rateFor) l st = Some st'
    /\ tracks64 st' (rev l ++ seen)
    /\ runTotalCost st' == runTotalCost st + priced64 rateAt seen l.
Proof.
  induction l as [| r l IH]; intros st seen Ht; simpl.
  - exists st. repeat split; try apply Ht. ring.
  - destruct (reset_counter64 st seen (timestamp r) Ht) as [Hc Hm].
    assert (Hs : step64 rateFor st r =
                 Some (accumulate64 (resetOnMonthChange st (timestamp r))
                         (monthKeyOf (timestamp r)) r
                         (rateAt (counter64 (getMonth (timestamp r)) seen) (timestamp r)))).
    { unfold step64. cbv zeta. rewrite rateFor_total, Hc. reflexivity. }
    rewrite Hs.
    destruct (IH _ (r :: seen) (step_tracks64 _ _ _ _ Ht Hs)) as (st' & Hf & Ht' & Hcost).
    exists st'. split; [exact Hf |]. split.
    + rewrite <- app_assoc. exact Ht'.
    + rewrite Hcost. simpl.
      assert (runTotalCost (resetOnMonthChange st (timestamp r)) = runTotalCost st) as ->.
      { unfold resetOnMonthChange. destruct (negb _); reflexivity. }
      ring.
Qed.
End Engine64.

Lemma tracks64_init : tracks64 initLoop [].
Proof. split; reflexivity. Qed.

Lemma calculate64_priced (rateFor : Tariff -> Q -> Date -> option Q) rs t rateAt :
  (forall c d, rateFor t c d = Some (rateAt c d)) ->
  exists res, calculate64 rateFor rs t = Some res
    /\ energyOnly t res == priced64 rateAt [] rs.
Proof.
  intros Hr.
  destruct (forEach_priced64 _ rateAt Hr rs initLoop [] tracks64_init) as (st & Hf & _ & Hc).
  unfold calculate64. rewrite Hf. eexists. split; [reflexivity |].
  unfold energyOnly. simpl. rewrite Hc. simpl. ring.
Qed.

(* ---------- exact sums and the counter in binary64 ---------- *)

Lemma forEach_sameRates (rateFor : Q -> Date -> option Q) l : forall st st64 seen,
  tracks st seen -> tracks64 st64 seen -> sameButCounter st st64 ->
  sameRates rateFor seen l ->
  match forEach (stepWith rateFor) l st, forEach (step64 rateFor) l st64 with
  | Some a, Some b => sameButCounter a b
  | None, None => True
  | _, _ => False
  end.
Proof.
  induction l as [| r l IH]; intros st st64 seen Ht Ht64 Hs Hr; simpl.
  - exact Hs.
  - destruct Hr as [Hr Hl].
    destruct (reset_counter st seen (timestamp r) Ht) as [Hc Hm].
    destruct (reset_counter64 st64 seen (timestamp r) Ht64) as [Hc64 Hm64].
    pose proof (step_tracks rateFor st seen r) as Hstep.
    pose proof (step_tracks64 rateFor st64 seen r) as Hstep64.
    assert (E : stepWith rateFor st r
                = match rateFor (counter64 (getMonth (timestamp r)) seen) (timestamp r) with
                  | None => None
                  | Some rate => Some (accumulate (resetOnMonthChange st (timestamp r))
                                         (monthKeyOf (timestamp r)) r rate)
                  end).
    { unfold stepWith. now rewrite Hc, Hr. }
    assert (E64 : step64 rateFor st64 r
                  = match rateFor (counter64 (getMonth (timestamp r)) seen) (timestamp r) with
                    | None => None
                    | Some rate => Some (accumulate64 (resetOnMonthChange st64 (timestamp r))
                                           (monthKeyOf (timestamp r)) r rate)
                    end).
    { unfold step64. cbv zeta. now rewrite Hc64. }
    rewrite E, E64 in *. clear Hr E E64.
    destruct (rateFor (counter64 (getMonth (timestamp r)) seen) (timestamp r)) as [q |];
      [| exact I].
    apply (IH _ _ (r :: seen)); [now apply Hstep | now apply Hstep64 | | exact Hl].
    destruct Hs as (Hp & Hcost & Hmon).
    assert (Hp' : periodMap (resetOnMonthChange st (timestamp r))
                  = periodMap (resetOnMonthChange st64 (timestamp r))).
    { unfold resetOnMonthChange. rewrite Hmon. now destruct (negb _). }
    assert (Hcost' : runTotalCost (resetOnMonthChange st (timestamp r))
                     = runTotalCost (resetOnMonthChange st64 (timestamp r))).
    { unfold resetOnMonthChange. rewrite Hmon. now destruct (negb _). }
    unfold sameButCounter, accumulate, accumulate64. cbn [periodMap runTotalCost currentMonth].
    rewrite Hp', Hcost', Hm, Hm64. auto.
Qed.

(** Where the rate block answers alike at the exact sum and at the
    rounded counter, the engine with exact sums returns what the
    engine with the counter in binary64 returns. *)
Lemma calculate64_exact (rateFor : Tariff -> Q -> Date -> option Q) rs t :
  sameRates (rateFor t) [] rs ->
  calculate64 rateFor rs t
  = match forEach (stepWith (rateFor t)) rs initLoop with
    | None => None
    | Some st =>
        Some (mkDetailed
                (runTotalCost st
                 + inject_Z (Z.of_nat (List.length (buildBreakdown t (periodMap st))))
                   * fixedMonthlyCharge t)
                (buildBreakdown t (periodMap st)))
    end.
Proof.
  intros Hr. unfold calculate64.
  pose proof (forEach_sameRates (rateFor t) rs initLoop initLoop []
                (conj eq_refl I) tracks64_init (conj eq_refl (conj eq_refl eq_refl)) Hr) as H.
  destruct (forEach (stepWith _) rs initLoop) as [a |],
           (forEach (step64 _) rs initLoop) as [b |]; try contradiction; [| reflexivity].
  destruct H as (-> & -> & _). reflexivity.
Qed.

Lemma sameRates_free (rateFor : Q -> Date -> option Q) l :
  (forall c c' d, rateFor c d = rateFor c' d) -> forall seen, sameRates rateFor seen l.
Proof.
  intros Hf. induction l as [| r l IH]; intros seen; simpl; [exact I |].
  split; [apply Hf | apply IH].
Qed.

(** A time-of-use tariff is priced without the counter: on it the
    engines with exact sums return what those with the counter in
    binary64 return, in either file. *)
Lemma tou_counter_free rs t :
  type t = tou ->
  EnergyCalculator64.calculateDetailedCost rs t = EnergyCalculator.calculateDetailedCost rs t
  /\ Revised64.calculateDetailedCost rs t = Revised.calculateDetailedCost rs t.
Proof.
  intros Ht. split.
  - unfold EnergyCalculator64.calculateDetailedCost.
    rewrite calculate64_exact; [reflexivity |].
    apply sameRates_free. intros c c' d. unfold EnergyCalculator.rateFor. now rewrite Ht.
  - unfold Revised64.calculateDetailedCost.
    rewrite calculate64_exact; [reflexivity |].
    apply sameRates_free. intros c c' d. unfold Revised.rateFor. now rewrite Ht.
Qed.

Lemma sameRates_exact (rateFor : Q -> Date -> option Q) l :
  (forall c c' d, c == c' -> rateFor c d = rateFor c' d) ->
  forall seen, sumsExact seen l -> sameRates rateFor seen l.
Proof.
  intros Hf. induction l as [| r l IH]; intros seen Hl; simpl; [exact I |].
  destruct Hl as [Hr Hl]. split; [| now apply IH].
  apply Hf. now symmetry.
Qed.

Lemma ec_rateFor_Qeq t c c' d :
  c == c' -> EnergyCalculator.rateFor t c d = EnergyCalculator.rateFor t c' d.
Proof.
  intros H. assert (E : forall b, Qltb c b = Qltb c' b).
  { intros b. now apply Qltb_Proper. }
  unfold EnergyCalculator.rateFor. cbv zeta. now rewrite !E.
Qed.

Lemma rev_rateFor_Qeq t c c' d :
  c == c' -> Revised.rateFor t c d = Revised.rateFor t c' d.
Proof.
  intros H. assert (E : forall b, Qltb c b = Qltb c' b).
  { intros b. now apply Qltb_Proper. }
  unfold Revised.rateFor. cbv zeta. now rewrite !E.
Qed.

(** Where no addition to the counter is rounded, the engines with
    exact sums return what those with the counter in binary64 return,
    in either file. *)
Lemma exact_sums_suffice rs t :
  sumsExact [] rs ->
  EnergyCalculator64.calculateDetailedCost rs t = EnergyCalculator.calculateDetailedCost rs t
  /\ Revised64.calculateDetailedCost rs t = Revised.calculateDetailedCost rs t.
Proof.
  intros Hs. split.
  - unfold EnergyCalculator64.calculateDetailedCost.
    rewrite calculate64_exact; [reflexivity |].
    apply sameRates_exact; [| exact Hs]. intros c c' d. apply ec_rateFor_Qeq.
  - unfold Revised64.calculateDetailedCost.
    rewrite calculate64_exact; [reflexivity |].
    apply sameRates_exact; [| exact Hs]. intros c c' d. apply rev_rateFor_Qeq.
Qed.

(** The readings of [twoMonths] add up without rounding. *)
Example twoMonths_sums_exact : sumsExact [] twoMonths.
Proof. vm_compute. repeat split. Qed.

Lemma priced64_ext f g : (forall c d, f c d == g c d) ->
  forall l seen, priced64 f seen l == priced64 g seen l.
Proof.
  intros E. induction l as [| r l IH]; intro seen; simpl.
  - reflexivity.
  - rewrite IH, E. reflexivity.
Qed.

Lemma priced64_app f l1 : forall l2 seen,
  priced64 f seen (l1 ++ l2)
  == priced64 f seen l1 + priced64 f (rev l1 ++ seen) l2.
Proof.
  induction l1 as [| r l1 IH]; intros l2 seen; simpl.
  - ring.
  - rewrite IH, <- app_assoc. simpl. ring.
Qed.

(** Readings priced with the counter below the baseline are priced at
    the base rate. *)
Lemma priced64_first base l : forall seen,
  along64 firstTier seen l ->
  priced64 (fun c d => threeTierRate base c (getMonth d)) seen l == base * sumBy value l.
Proof.
  induction l as [| r l IH]; intros seen Ha; simpl.
  - rewrite sumBy_nil. ring.
  - destruct Ha as [Hr Ha]. rewrite (IH _ Ha), sumBy_cons.
    unfold threeTierRate. unfold firstTier in Hr. apply Qltb_lt in Hr. rewrite Hr. ring.
Qed.

(** Readings priced with the counter from the baseline up to four
    baselines are priced at 1.28 times the base rate. *)
Lemma priced64_second base l : forall seen,
  along64 secondTier seen l ->
  priced64 (fun c d => threeTierRate base c (getMonth d)) seen l
  == 1.28 * base * sumBy value l.
Proof.
  induction l as [| r l IH]; intros seen Ha; simpl.
  - rewrite sumBy_nil. ring.
  - destruct Ha as [[Hlo Hhi] Ha]. rewrite (IH _ Ha), sumBy_cons.
    unfold threeTierRate. apply Qltb_ge in Hlo. apply Qltb_lt in Hhi.
    rewrite Hlo, Hhi. ring.
Qed.

(** Per-reading tier pricing of [energyCalculator.ts]. *)
Lemma ec_tiered_energy64 rs t p0 ps :
  isTiered t -> periods t = p0 :: ps ->
  exists res, EnergyCalculator64.calculateDetailedCost rs t = Some res
    /\ energyOnly t res
       == priced64 (fun c d => threeTierRate (rate p0) c (getMonth d)) [] rs.
Proof.
  intros Ht Hp.
  destruct (calculate64_priced EnergyCalculator.rateFor rs t (ecTierAt p0))
    as (res & Hres & He).
  { intros c d. now apply ec_rateFor_tiered with ps. }
  exists res. split; [exact Hres |].
  rewrite He. apply priced64_ext. intros c d. apply ecTierAt_spec.
Qed.

Lemma rev_tiered_energy64 rs t p0 ps :
  isTiered t -> periods t = p0 :: ps ->
  exists res, Revised64.calculateDetailedCost rs t = Some res
    /\ energyOnly t res
       == priced64 (fun c d => twoTierRate (Revised.getEffectiveRate p0 (getMonth d))
                                           c (getMonth d)) [] rs.
Proof.
  intros Ht Hp.
  destruct (calculate64_priced Revised.rateFor rs t (revTierAt p0)) as (res & Hres & He).
  { intros c d. now apply rev_rateFor_tiered with ps. }
  exists res. split; [exact Hres |].
  rewrite He. apply priced64_ext. intros c d. apply revTierAt_spec.
Qed.

(** C1 does not hold as stated.  On the first tariff of the roster a
    month of 400 kWh read as 200 + 200 is priced wholly at the base
    rate, in winter (baseline 350) and in summer (baseline 270) alike,
    because a reading is priced at the tier its counter is in before
    the reading; readings of 400 and -130 kWh sum to 270 kWh in a
    winter month and do not cost 270 x 0.38; and the revision of
    [part_001] charges 1.24, not 1.28, above the baseline. *)
Lemma C1_counterexample :
  (exists res,
      EnergyCalculator64.calculateDetailedCost
        [mkReading jan10 200; mkReading jan11 200] pgeE1 = Some res
      /\ energyOnly pgeE1 res == 400 * 0.38
      /\ ~ energyOnly pgeE1 res == 270 * 0.38 + 130 * 0.38 * 1.28)
  /\ (exists res,
        EnergyCalculator64.calculateDetailedCost
          [mkReading jul10 200; mkReading jul11 200] pgeE1 = Some res
        /\ energyOnly pgeE1 res == 400 * 0.38
        /\ ~ energyOnly pgeE1 res == 270 * 0.38 + 130 * 0.38 * 1.28)
  /\ (exists res,
        EnergyCalculator64.calculateDetailedCost
          [mkReading jan10 400; mkReading jan11 (-130)] pgeE1 = Some res
        /\ sumBy value [mkReading jan10 400; mkReading jan11 (-130)] == 270
        /\ ~ energyOnly pgeE1 res == 270 * 0.38)
  /\ (exists res,
        Revised64.calculateDetailedCost
          [mkReading jan10 350; mkReading jan11 10] pgeE1 = Some res
        /\ energyOnly pgeE1 res == 350 * 0.38 + 10 * 0.38 * 1.24
        /\ ~ energyOnly pgeE1 res == 350 * 0.38 + 10 * 0.38 * 1.28).
Proof.
  repeat apply conj; eexists; (split; [vm_compute; reflexivity |]); split;
    vm_compute; congruence.
Qed.

(** C1, as amended.  For a flat or tiered tariff, [energyCalculator.ts]
    prices each reading as a whole at the tier of the running counter
    as the loop holds it before that reading, against the baseline of
    the reading's month, 270 in the months 5 to 8 and 350 otherwise:
    the energy cost is the sum over the readings of value times the
    rate of the first period while the counter is below the baseline,
    1.28 times that rate from the baseline up to four baselines, and
    1.45 times from there on (first part).  Hence readings that sum to
    270 kWh and are each priced with the counter below the baseline
    cost 270 x 0.38 at a rate of 0.38 (second part), and readings that
    sum to 270 kWh, each priced with the counter below the baseline,
    followed by readings that sum to 130 kWh, each priced with the
    counter from the baseline up to four baselines, cost
    270 x 0.38 + 130 x 0.38 x 1.28 (third part).  The revision of
    [part_001] has two tiers only: the seasonal rate of the first
    period below the baseline and 1.24 times it from the baseline on
    (fourth part). *)
Theorem C1_tier_pricing :
  (forall rs t p0 ps,
      isTiered t -> periods t = p0 :: ps ->
      exists res,
        EnergyCalculator64.calculateDetailedCost rs t = Some res
        /\ energyOnly t res
           == priced64 (fun c d => threeTierRate (rate p0) c (getMonth d)) [] rs)
  /\ (forall rs t p0 ps,
        isTiered t -> periods t = p0 :: ps -> rate p0 == 0.38 ->
        along64 firstTier [] rs -> sumBy value rs == 270 ->
        exists res,
          EnergyCalculator64.calculateDetailedCost rs t = Some res
          /\ energyOnly t res == 270 * 0.38)
  /\ (forall pre post t p0 ps,
        isTiered t -> periods t = p0 :: ps -> rate p0 == 0.38 ->
        along64 firstTier [] pre -> along64 secondTier (rev pre) post ->
        sumBy value pre == 270 -> sumBy value post == 130 ->
        exists res,
          EnergyCalculator64.calculateDetailedCost (pre ++ post) t = Some res
          /\ energyOnly t res == 270 * 0.38 + 130 * 0.38 * 1.28)
  /\ (forall rs t p0 ps,
        isTiered t -> periods t = p0 :: ps ->
        exists res,
          Revised64.calculateDetailedCost rs t = Some res
          /\ energyOnly t res
             == priced64
                  (fun c d => twoTierRate (Revised.getEffectiveRate p0 (getMonth d))
                                          c (getMonth d)) [] rs).
Proof.
  split; [| split; [| split]].
  - intros rs t p0 ps Ht Hp. now apply ec_tiered_energy64 with ps.
  - intros rs t p0 ps Ht Hp Hrate Hbelow Hsum.
    destruct (ec_tiered_energy64 rs t p0 ps Ht Hp) as (res & Hres & He).
    exists res. split; [exact Hres |].
    rewrite He, (priced64_first (rate p0) rs [] Hbelow), Hrate, Hsum. ring.
  - intros pre post t p0 ps Ht Hp Hrate Hpre Hpost Spre Spost.
    destruct (ec_tiered_energy64 (pre ++ post) t p0 ps Ht Hp) as (res & Hres & He).
    exists res. split; [exact Hres |].
    rewrite He, priced64_app, app_nil_r.
    rewrite (priced64_first (rate p0) pre [] Hpre).
    rewrite (priced64_second (rate p0) post (rev pre) Hpost).
    rewrite Hrate, Spre, Spost. ring.
  - intros rs t p0 ps Ht Hp. now apply rev_tiered_energy64 with ps.
Qed.

(** C1 on the first tariff of the roster, at 100 + 100 + 70 kWh in
    January and at 200 + 70, then 130 kWh in July. *)
Lemma C1_tier_pricing_witness :
  (exists res,
     EnergyCalculator64.calculateDetailedCost
       [mkReading jan10 100; mkReading jan11 100; mkReading jan20 70] pgeE1 = Some res
     /\ energyOnly pgeE1 res == 270 * 0.38)
  /\ (exists res,
        EnergyCalculator64.calculateDetailedCost
          ([mkReading jul10 200; mkReading jul10 70] ++ [mkReading jul11 130]) pgeE1
        = Some res
        /\ energyOnly pgeE1 res == 270 * 0.38 + 130 * 0.38 * 1.28).
Proof.
  split.
  - apply (proj1 (proj2 C1_tier_pricing)) with
      (p0 := mkPeriod "Baseline Average" 0 23 0.38 (Some 0.40)) (ps := []).
    + left; reflexivity.
    + reflexivity.
    + reflexivity.
    + vm_compute. repeat split.
    + reflexivity.
  - apply (proj1 (proj2 (proj2 C1_tier_pricing))) with
      (p0 := mkPeriod "Baseline Average" 0 23 0.38 (Some 0.40)) (ps := []).
    + left; reflexivity.
    + reflexivity.
    + reflexivity.
    + vm_compute. repeat split.
    + vm_compute. repeat split; discriminate.
    + reflexivity.
    + reflexivity.
Defined.

(** Where rounding decides the tier: the four readings of [almost270]
    sum to 270 kWh, but the doubles add up to 270 - 2 ^ -44, so that
    the 130 kWh read next are priced below the baseline of July and
    the 400 kWh cost 400 x 0.38. *)
Example rounded_counter_decides :
  sumBy value almost270 == 270
  /\ counter64 6 (rev almost270) == 270 - (1 # 17592186044416)
  /\ exists res,
       EnergyCalculator64.calculateDetailedCost (almost270 ++ [mkReading jul11 130]) pgeE1
       = Some res
       /\ energyOnly pgeE1 res == 400 * 0.38.
Proof.
  split; [vm_compute; reflexivity |]. split; [vm_compute; reflexivity |].
  eexists. split; [vm_compute; reflexivity |]. vm_compute. reflexivity.
Qed.

(* ---------- totality of the callback ---------- *)

Lemma ec_rateFor_total t c d :
  periods t <> [] -> EnergyCalculator.rateFor t c d = Some (ecRate t c d).
Proof.
  intros Hp. unfold ecRate, EnergyCalculator.rateFor.
  destruct (periods t) as [| p0 ps] eqn:E; [congruence |].
  destruct (type t); try reflexivity.
  destruct (find _ _); reflexivity.
Qed.

Lemma rev_rateFor_total t c d :
  periods t <> [] -> Revised.rateFor t c d = Some (revRate t c d).
Proof.
  intros Hp. unfold revRate, Revised.rateFor.
  destruct (periods t) as [| p0 ps] eqn:E; [congruence |].
  destruct (type t); try reflexivity.
  destruct (find _ _); reflexivity.
Qed.


Section CounterRuns.
Variable rateFor : Q -> Date -> option Q.
Variable rateAt : Q -> Date -> Q.
Hypothesis rateFor_total : forall c d, rateFor c d = Some (rateAt c d).

End CounterRuns.



(* ---------- compareTariffs ---------- *)

Lemma mapM_Forall2 {A B} (f : A -> option B) l : forall ys,
  mapM f l = Some ys -> Forall2 (fun x y => f x = Some y) l ys.
Proof.
  induction l as [| x l IH]; intros ys H; simpl in H.
  - injection H as <-. constructor.
  - destruct (f x) as [y |] eqn:E; [| discriminate].
    destruct (mapM f l) as [ys' |]; [| discriminate].
    injection H as <-. constructor; auto.
Qed.


Lemma mapM_ext_in {A B} (f g : A -> option B) l :
  (forall x, In x l -> f x = g x) -> mapM f l = mapM g l.
Proof.
  induction l as [| x l IH]; intros H; simpl; [reflexivity |].
  rewrite (H x (or_introl eq_refl)), IH; [reflexivity |].
  intros y Hy. apply H. now right.
Qed.

Lemma currentOf_In cur all t : currentOf cur all = Some t -> In t all.
Proof.
  unfold currentOf. destruct (find _ all) as [t' |] eqn:E.
  - intros [= <-]. now apply find_some in E.
  - destruct all; simpl; [discriminate |]. intros [= <-]. now left.
Qed.


Lemma ec_calc_total rs t :
  periods t <> [] ->
  exists c, EnergyCalculator.calculateDetailedCost rs t = Some c
    /\ energyOnly t c == pricedEnergy (ecRate t) [] rs.
Proof.
  intros Hp. apply ec_calc_priced. intros c d. now apply ec_rateFor_total.
Qed.




(** Over the ten days from 10 to 20 January, 20 kWh off-peak on
    E-Home (30 cents, 15 dollars fixed) are estimated at
    3 * 6 + 15 = 33 dollars a month. *)
Example compare_ten_days :
  daysInReadings [mkReading jan10 12; mkReading jan20 8] == 10
  /\ exists r1 r2,
       EnergyCalculator.compareTariffs
         [mkReading jan10 12; mkReading jan20 8] "pge-e-home" [flat038; eHome]
       = Some [r1; r2]
       /\ totalCost r2 == 21
       /\ estimatedMonthlyCost r2 == 33
       /\ estimatedMonthlyCost r1 == 3 * (20 * 0.38)
       /\ savingsVsCurrent r1 == 33 - 3 * (20 * 0.38).
Proof.
  split; [reflexivity |].
  do 2 eexists. split; [vm_compute; reflexivity |].
  repeat split; vm_compute; reflexivity.
Qed.

(* ---------- time-of-use windows ---------- *)

Lemma periodMatches_inWindow p hour : periodMatches hour p = true <-> inWindow p hour.
Proof.
  unfold periodMatches, inWindow.
  destruct (startHour p <=? endHour p)%Z.
  - rewrite andb_true_iff, Z.geb_leb, !Z.leb_le. tauto.
  - rewrite orb_true_iff, Z.geb_leb, !Z.leb_le. tauto.
Qed.

Lemma find_firstMatch ps hour p :
  find (periodMatches hour) ps = Some p <-> firstMatch ps hour p.
Proof.
  split.
  - induction ps as [| q ps IH]; simpl; [discriminate |].
    destruct (periodMatches hour q) eqn:E.
    + intros [= <-]. exists [], ps. repeat split; auto.
      now apply periodMatches_inWindow.
    + intros H. destruct (IH H) as (before & after & -> & Hin & Hb).
      exists (q :: before), after. repeat split; auto.
      constructor; auto. rewrite <- periodMatches_inWindow. congruence.
  - intros (before & after & -> & Hin & Hb).
    induction Hb as [| q before Hq _ IH]; simpl.
    + apply periodMatches_inWindow in Hin. now rewrite Hin.
    + rewrite <- periodMatches_inWindow in Hq.
      destruct (periodMatches hour q); [congruence | exact IH].
Qed.

Lemma find_noMatch ps hour :
  find (periodMatches hour) ps = None <-> Forall (fun q => ~ inWindow q hour) ps.
Proof.
  induction ps as [| q ps IH]; simpl.
  - split; auto.
  - destruct (periodMatches hour q) eqn:E.
    + split; [discriminate |]. intros H. inversion H as [| ? ? Hq _]; subst.
      apply periodMatches_inWindow in E. contradiction.
    + rewrite IH. split; intros H.
      * constructor; auto. rewrite <- periodMatches_inWindow. congruence.
      * now inversion H.
Qed.

(** C2.  A period matches an hour exactly when the hour lies in
    [startHour..endHour], both ends included, if [startHour <= endHour],
    and when the hour is at or after [startHour] or at or before
    [endHour] otherwise (first part; second and third parts: the
    windows 16-20 and 21-15).  For a time-of-use tariff both revisions
    charge by the first period, in declaration order, whose window
    contains the hour of the reading (fourth part), and fall back on
    the first period when none does (fifth part): at its effective
    rate in [part_001], at its [rate] in [energyCalculator.ts], which
    never reads [summerRate].  Last part: a July reading at 10 h under
    a tariff whose only period is 16-20 at 0.46, 0.55 in summer, falls
    back on 0.55 in [part_001] and on 0.46 in [energyCalculator.ts]. *)
Theorem C2_tou_window_match :
  (forall p hour,
      periodMatches hour p = true <->
      ((startHour p <= endHour p /\ startHour p <= hour <= endHour p)
       \/ (endHour p < startHour p /\ (startHour p <= hour \/ hour <= endHour p)))%Z)
  /\ (forall nm r sr hour,
        periodMatches hour (mkPeriod nm 16 20 r sr) = true <-> (16 <= hour <= 20)%Z)
  /\ (forall nm r sr hour,
        (0 <= hour <= 23)%Z ->
        periodMatches hour (mkPeriod nm 21 15 r sr) = true
        <-> ((21 <= hour <= 23)%Z \/ (0 <= hour <= 15)%Z))
  /\ (forall t c d p,
        type t = tou -> firstMatch (periods t) (getHours d) p ->
        EnergyCalculator.rateFor t c d = Some (rate p)
        /\ Revised.rateFor t c d = Some (Revised.getEffectiveRate p (getMonth d)))
  /\ (forall t c d p0 ps,
        type t = tou -> periods t = p0 :: ps ->
        Forall (fun q => ~ inWindow q (getHours d)) (periods t) ->
        Revised.rateFor t c d = Some (Revised.getEffectiveRate p0 (getMonth d))
        /\ EnergyCalculator.rateFor t c d = Some (rate p0))
  /\ (Forall (fun q => ~ inWindow q (getHours jul10)) (periods peakOnly)
      /\ Revised.rateFor peakOnly 0 jul10 = Some 0.55
      /\ EnergyCalculator.rateFor peakOnly 0 jul10 = Some 0.46).
Proof.
  repeat apply conj.
  - intros p hour. rewrite periodMatches_inWindow. unfold inWindow.
    destruct (Z.leb_spec (startHour p) (endHour p)); lia.
  - intros nm r sr hour. rewrite periodMatches_inWindow. unfold inWindow. simpl. lia.
  - intros nm r sr hour Hh. rewrite periodMatches_inWindow. unfold inWindow. simpl. lia.
  - intros t c d p Ht Hf. apply find_firstMatch in Hf.
    unfold EnergyCalculator.rateFor, Revised.rateFor. now rewrite Ht, Hf.
  - intros t c d p0 ps Ht Hp Hn. apply find_noMatch in Hn.
    unfold EnergyCalculator.rateFor, Revised.rateFor. rewrite Ht, Hn, Hp. split; reflexivity.
  - repeat constructor. unfold inWindow. simpl. lia.
  - reflexivity.
  - reflexivity.
Qed.

(** C2 at 17 h on 10 July under TOU-C, where the peak period is the
    first match, and at 10 h under the tariff whose only period is the
    peak one, where none matches. *)
Lemma C2_tou_window_match_witness :
  (EnergyCalculator.rateFor pgeTouC 0 jul10peak = Some 0.46
   /\ Revised.rateFor pgeTouC 0 jul10peak = Some 0.55)
  /\ (Revised.rateFor peakOnly 0 jul10 = Some 0.55
      /\ EnergyCalculator.rateFor peakOnly 0 jul10 = Some 0.46).
Proof.
  split.
  - apply (proj1 (proj2 (proj2 (proj2 C2_tou_window_match)))) with
      (p := mkPeriod "Peak" 16 20 0.46 (Some 0.55)).
    + reflexivity.
    + exists [], [mkPeriod "Off-Peak" 21 15 0.39 (Some 0.47)].
      split; [reflexivity |]. split; [unfold inWindow; simpl; lia | constructor].
  - apply (proj1 (proj2 (proj2 (proj2 (proj2 C2_tou_window_match))))) with
      (p0 := mkPeriod "Peak" 16 20 0.46 (Some 0.55)) (ps := []).
    + reflexivity.
    + reflexivity.
    + repeat constructor. unfold inWindow. simpl. lia.
Defined.

(** C4.  [getEffectiveRate] is the [summerRate] of the period when it
    is defined and the month is one of 5 to 8, and its [rate] otherwise
    (first and second parts).  The cost calculation of [part_001]
    charges every reading at a rate built from it: the effective rate
    of the selected period, or of the first one as fall-back, for a
    time-of-use tariff, and the effective rate of the first period as
    base rate of the tiers otherwise (third to sixth parts).  Last two
    parts: one kWh at 17 h on 10 July under TOU-C (peak 0.46, summer
    0.55) costs 0.55 in [part_001] and 0.46 in [energyCalculator.ts],
    which applies no seasonal override. *)
Theorem C4_seasonal_override :
  (forall p m sr,
      summerRate p = Some sr -> (5 <= m <= 8)%Z -> Revised.getEffectiveRate p m = sr)
  /\ (forall p m,
        summerRate p = None \/ (m < 5)%Z \/ (8 < m)%Z ->
        Revised.getEffectiveRate p m = rate p)
  /\ (forall rs t,
        periods t <> [] ->
        exists res,
          Revised.calculateDetailedCost rs t = Some res
          /\ energyOnly t res == pricedEnergy (revRate t) [] rs)
  /\ (forall t c d p,
        type t = tou -> firstMatch (periods t) (getHours d) p ->
        revRate t c d = Revised.getEffectiveRate p (getMonth d))
  /\ (forall t c d p0 ps,
        type t = tou -> periods t = p0 :: ps ->
        Forall (fun q => ~ inWindow q (getHours d)) (periods t) ->
        revRate t c d = Revised.getEffectiveRate p0 (getMonth d))
  /\ (forall t c d p0 ps,
        isTiered t -> periods t = p0 :: ps ->
        revRate t c d
        == twoTierRate (Revised.getEffectiveRate p0 (getMonth d)) c (getMonth d))
  /\ (exists res,
        Revised.calculateDetailedCost [mkReading jul10peak 1] pgeTouC = Some res
        /\ energyOnly pgeTouC res == 0.55)
  /\ (exists res,
        EnergyCalculator.calculateDetailedCost [mkReading jul10peak 1] pgeTouC = Some res
        /\ energyOnly pgeTouC res == 0.46).
Proof.
  repeat apply conj.
  - intros p m sr Hs Hm. unfold Revised.getEffectiveRate, Revised.isSummerMonth.
    rewrite Hs, Z.geb_leb.
    destruct (Z.leb_spec 5 m), (Z.leb_spec m 8); simpl; try reflexivity; lia.
  - intros p m H. unfold Revised.getEffectiveRate, Revised.isSummerMonth.
    destruct (summerRate p) as [sr |]; [| reflexivity].
    rewrite Z.geb_leb.
    destruct H as [H | H]; [discriminate |].
    destruct (Z.leb_spec 5 m), (Z.leb_spec m 8); simpl; try reflexivity; lia.
  - intros rs t Hp. apply rev_calc_priced. intros c d. now apply rev_rateFor_total.
  - intros t c d p Ht Hf. apply find_firstMatch in Hf.
    unfold revRate, Revised.rateFor. now rewrite Ht, Hf.
  - intros t c d p0 ps Ht Hp Hn. apply find_noMatch in Hn.
    unfold revRate, Revised.rateFor. rewrite Ht, Hn, Hp. reflexivity.
  - intros t c d p0 ps Ht Hp. unfold revRate.
    rewrite (rev_rateFor_tiered t p0 ps c d Ht Hp). apply revTierAt_spec.
  - eexists. split; [vm_compute; reflexivity |]. vm_compute. reflexivity.
  - eexists. split; [vm_compute; reflexivity |]. vm_compute. reflexivity.
Qed.

(** C4 at the peak period of TOU-C in July, and at one kWh read at
    17 h on 10 July. *)
Lemma C4_seasonal_override_witness :
  Revised.getEffectiveRate (mkPeriod "Peak" 16 20 0.46 (Some 0.55)) 6 = 0.55
  /\ Revised.getEffectiveRate (mkPeriod "Peak" 16 20 0.46 (Some 0.55)) 0 = 0.46
  /\ (exists res,
        Revised.calculateDetailedCost [mkReading jul10peak 1] pgeTouC = Some res
        /\ energyOnly pgeTouC res == pricedEnergy (revRate pgeTouC) [] [mkReading jul10peak 1])
  /\ revRate pgeTouC 0 jul10peak
     = Revised.getEffectiveRate (mkPeriod "Peak" 16 20 0.46 (Some 0.55)) 6.
Proof.
  split; [| split; [| split]].
  - apply (proj1 C4_seasonal_override); [reflexivity | lia].
  - apply (proj1 (proj2 C4_seasonal_override)). right. left. lia.
  - apply (proj1 (proj2 (proj2 C4_seasonal_override))). discriminate.
  - apply (proj1 (proj2 (proj2 (proj2 C4_seasonal_override))) pgeTouC 0 jul10peak).
    + reflexivity.
    + exists [], [mkPeriod "Off-Peak" 21 15 0.39 (Some 0.47)].
      split; [reflexivity |]. split; [unfold inWindow; simpl; lia | constructor].
Defined.

(* ---------- the two revisions side by side ---------- *)

Lemma forEach_agree64 (rf1 rf2 : Q -> Date -> option Q) l : forall st seen,
  tracks64 st seen -> along64 (fun c d => rf1 c d = rf2 c d) seen l ->
  forEach (step64 rf1) l st = forEach (step64 rf2) l st.
Proof.
  induction l as [| r l IH]; intros st seen Ht Ha; simpl; [reflexivity |].
  destruct Ha as [Hr Ha].
  destruct (reset_counter64 st seen (timestamp r) Ht) as [Hc _].
  assert (Hs : step64 rf1 st r = step64 rf2 st r).
  { unfold step64. cbv zeta. rewrite Hc, Hr. reflexivity. }
  destruct (step64 rf1 st r) as [st' |] eqn:E; rewrite <- Hs; [| reflexivity].
  apply (IH st' (r :: seen)); [| exact Ha].
  exact (step_tracks64 rf1 _ _ _ _ Ht E).
Qed.

Lemma along64_impl (P R : Q -> Date -> Prop) l :
  (forall c d, P c d -> R c d) ->
  forall seen, along64 P seen l -> along64 R seen l.
Proof.
  intros H. induction l as [| r l IH]; intros seen Ha; simpl; [exact I |].
  destruct Ha as [Hr Ha]. split; [now apply H | now apply IH].
Qed.

Lemma effectiveRate_plain p m :
  Revised.isSummerMonth m = false \/ summerRate p = None \/ summerRate p = Some (rate p) ->
  Revised.getEffectiveRate p m = rate p.
Proof.
  unfold Revised.getEffectiveRate. intros [H | [H | H]]; rewrite H.
  - now destruct (summerRate p).
  - reflexivity.
  - now destruct (Revised.isSummerMonth m).
Qed.

Lemma rateFor_meet t c d :
  revisionsMeet t c d -> EnergyCalculator.rateFor t c d = Revised.rateFor t c d.
Proof.
  intros [Hs Hc]. unfold noSummerRateAt, pricedThrough in Hs.
  unfold EnergyCalculator.rateFor, Revised.rateFor. cbv zeta.
  destruct (type t) eqn:Ht.
  - destruct Hc as [Hc | Hc]; [discriminate |].
    destruct (nth_error (periods t) 0) as [p0 |]; [| reflexivity].
    rewrite (effectiveRate_plain p0 _ (Hs p0 eq_refl)).
    unfold firstTier, baselineOf in Hc. rewrite <- summer_test in Hc.
    apply Qltb_lt in Hc. unfold Revised.isSummerMonth. now rewrite Hc.
  - destruct (find _ (periods t)) as [p |].
    + now rewrite (effectiveRate_plain p _ (Hs p eq_refl)).
    + destruct (nth_error (periods t) 0) as [p0 |]; [| reflexivity].
      now rewrite (effectiveRate_plain p0 _ (Hs p0 eq_refl)).
  - destruct Hc as [Hc | Hc]; [discriminate |].
    destruct (nth_error (periods t) 0) as [p0 |]; [| reflexivity].
    rewrite (effectiveRate_plain p0 _ (Hs p0 eq_refl)).
    unfold firstTier, baselineOf in Hc. rewrite <- summer_test in Hc.
    apply Qltb_lt in Hc. unfold Revised.isSummerMonth. now rewrite Hc.
Qed.

Lemma calc_agree64 rs t :
  along64 (revisionsMeet t) [] rs ->
  EnergyCalculator64.calculateDetailedCost rs t = Revised64.calculateDetailedCost rs t.
Proof.
  intros Ha.
  unfold EnergyCalculator64.calculateDetailedCost, Revised64.calculateDetailedCost,
    calculate64.
  rewrite (forEach_agree64 (EnergyCalculator.rateFor t) (Revised.rateFor t)
             rs initLoop [] tracks64_init); [reflexivity |].
  revert Ha. apply along64_impl. intros c d. apply rateFor_meet.
Qed.

(** C10 does not hold as stated: 350 kWh then 10 kWh in January on
    the first tariff of the roster, flat at 0.38, cost
    10 x 0.38 x 1.28 above the baseline in [energyCalculator.ts] and
    10 x 0.38 x 1.24 in [part_001]. *)
Lemma C10_counterexample :
  exists r1 r2,
    EnergyCalculator64.calculateDetailedCost
      [mkReading jan10 350; mkReading jan11 10] pgeE1 = Some r1
    /\ Revised64.calculateDetailedCost
         [mkReading jan10 350; mkReading jan11 10] pgeE1 = Some r2
    /\ dcTotalCost r1 == 350 * 0.38 + 10 * 0.38 * 1.28
    /\ dcTotalCost r2 == 350 * 0.38 + 10 * 0.38 * 1.24
    /\ ~ dcTotalCost r1 == dcTotalCost r2.
Proof.
  do 2 eexists. split; [vm_compute; reflexivity |]. split; [vm_compute; reflexivity |].
  repeat split; vm_compute; congruence.
Qed.

(** C10, as amended.  The two revisions return the same total cost
    and breakdown when every reading is priced where they meet: no
    summer rate changes its price (its month is outside 5 to 8, or the
    period it is priced through has no [summerRate], or one equal to
    its [rate]), and the tariff is time-of-use or the running counter,
    as the loop holds it, is below the baseline.  They return the same
    comparison results for a roster whose tariffs all meet this on the
    readings. *)
Theorem C10_revisions_agree :
  (forall rs t,
      along64 (revisionsMeet t) [] rs ->
      EnergyCalculator64.calculateDetailedCost rs t
      = Revised64.calculateDetailedCost rs t)
  /\ (forall rs cur all,
        Forall (fun t => along64 (revisionsMeet t) [] rs) all ->
        EnergyCalculator64.compareTariffs rs cur all
        = Revised64.compareTariffs rs cur all).
Proof.
  split; [exact calc_agree64 |].
  intros rs cur all Hall.
  unfold EnergyCalculator64.compareTariffs, Revised64.compareTariffs, compareWith.
  destruct rs as [| first rest]; [reflexivity |].
  fold (currentOf cur all).
  destruct (currentOf cur all) as [current |] eqn:Hcur; [| reflexivity].
  rewrite Forall_forall in Hall.
  rewrite (calc_agree64 _ current) by (apply Hall; eapply currentOf_In; eauto).
  destruct (Revised64.calculateDetailedCost (first :: rest) current); [| reflexivity].
  apply mapM_ext_in. intros t Ht. now rewrite calc_agree64 by auto.
Qed.

(** C10 at 100 + 50 kWh in January, on the tiered and on the
    time-of-use tariff of the roster. *)
Lemma C10_revisions_agree_witness :
  EnergyCalculator64.compareTariffs [mkReading jan10 100; mkReading jan11 50]
    "pge-tou-c" [pgeE1; pgeTouC]
  = Revised64.compareTariffs [mkReading jan10 100; mkReading jan11 50]
      "pge-tou-c" [pgeE1; pgeTouC].
Proof.
  apply (proj2 C10_revisions_agree).
  constructor; [| constructor; [| constructor]].
  - split; [| split; [| exact I]];
      (split; [intros p _; left; reflexivity | right; reflexivity]).
  - split; [| split; [| exact I]];
      (split; [intros p _; left; reflexivity | left; reflexivity]).
Defined.

(* ================================================================= *)
(** ** Month keys *)

Lemma string_append_length (s t : string) :
  String.length (s ++ t) = (String.length s + String.length t)%nat.
Proof. induction s as [| c s IH]; simpl; [reflexivity | now rewrite IH]. Qed.

Lemma string_append_inj (s1 s2 t1 t2 : string) :
  String.length t1 = String.length t2 ->
  (s1 ++ t1)%string = (s2 ++ t2)%string -> s1 = s2 /\ t1 = t2.
Proof.
  intros Hlen. revert s2. induction s1 as [| c s1 IH]; intros [| c2 s2] H; simpl in H.
  - auto.
  - exfalso. apply (f_equal String.length) in H. simpl in H.
    rewrite string_append_length in H. lia.
  - exfalso. apply (f_equal String.length) in H. simpl in H.
    rewrite string_append_length in H. lia.
  - injection H as -> H. destruct (IH _ H) as [-> ->]. auto.
Qed.

Lemma stringOfZ_inj a b : stringOfZ a = stringOfZ b -> a = b.
Proof.
  unfold stringOfZ. intros H. apply to_int_inj.
  apply (f_equal NilEmpty.int_of_string) in H.
  rewrite !NilEmpty.isi in H. congruence.
Qed.

Lemma monthField_spec m :
  (0 <= m <= 11)%Z ->
  String.length (padStart2 (stringOfZ (m + 1))) = 2%nat.
Proof.
  intros H.
  assert (m = 0 \/ m = 1 \/ m = 2 \/ m = 3 \/ m = 4 \/ m = 5 \/ m = 6 \/ m = 7
          \/ m = 8 \/ m = 9 \/ m = 10 \/ m = 11)%Z as Hm by lia.
  repeat (destruct Hm as [-> | Hm]; [reflexivity |]). subst. reflexivity.
Qed.

Lemma padStart2_inj a b :
  (1 <= a <= 12)%Z -> (1 <= b <= 12)%Z ->
  padStart2 (stringOfZ a) = padStart2 (stringOfZ b) -> a = b.
Proof.
  intros Ha Hb.
  assert (a = 1 \/ a = 2 \/ a = 3 \/ a = 4 \/ a = 5 \/ a = 6 \/ a = 7
          \/ a = 8 \/ a = 9 \/ a = 10 \/ a = 11 \/ a = 12)%Z as Ea by lia.
  assert (b = 1 \/ b = 2 \/ b = 3 \/ b = 4 \/ b = 5 \/ b = 6 \/ b = 7
          \/ b = 8 \/ b = 9 \/ b = 10 \/ b = 11 \/ b = 12)%Z as Eb by lia.
  clear Ha Hb.
  repeat (destruct Ea as [-> | Ea]);
    repeat (destruct Eb as [-> | Eb]); subst; intros H;
    first [reflexivity | discriminate H].
Qed.

(** The month key identifies the calendar month: two dates have the
    same key exactly when year and month agree. *)
Lemma monthKeyOf_inj d1 d2 :
  (0 <= getMonth d1 <= 11)%Z -> (0 <= getMonth d2 <= 11)%Z ->
  monthKeyOf d1 = monthKeyOf d2 ->
  getFullYear d1 = getFullYear d2 /\ getMonth d1 = getMonth d2.
Proof.
  intros H1 H2 H. unfold monthKeyOf in H.
  apply string_append_inj in H.
  - destruct H as [Hy Hm]. split; [now apply stringOfZ_inj |].
    injection Hm as Hm. apply padStart2_inj in Hm; lia.
  - simpl. now rewrite !monthField_spec.
Qed.

(* ================================================================= *)
(** ** Gas *)

Lemma string_eqb_eq (x y : string) : String.eqb x y = true <-> x = y.
Proof. apply String.eqb_eq. Qed.

Lemma fold_push {A} (xs : list A) : forall g,
  fold_left (fun o x => Some (match o with Some g => g ++ [x] | None => [x] end))
            xs (Some g)
  = Some (g ++ xs).
Proof.
  induction xs as [| x xs IH]; intro g; simpl.
  - now rewrite app_nil_r.
  - rewrite IH, <- app_assoc. reflexivity.
Qed.

(** The groups of [groupByMonth] are the months present, each with its
    readings in input order. *)
Lemma groupByMonth_entry rs k g :
  In (k, g) (GasCalculator.groupByMonth rs) -> g = readingsOfMonth k rs /\ g <> [].
Proof.
  intros Hin. unfold GasCalculator.groupByMonth in Hin.
  apply (In_assocGet String.eqb string_eqb_eq) in Hin.
  2:{ apply (groupInto_NoDup String.eqb string_eqb_eq). constructor. }
  rewrite (groupInto_get String.eqb string_eqb_eq) in Hin.
  change (filter _ rs) with (readingsOfMonth k rs) in Hin.
  destruct (readingsOfMonth k rs) as [| r l]; simpl in Hin; [discriminate |].
  rewrite fold_push in Hin. injection Hin as <-. split; [reflexivity | discriminate].
Qed.

Lemma groupByMonth_keys rs k :
  In k (map fst (GasCalculator.groupByMonth rs)) <-> In k (map monthOf rs).
Proof.
  unfold GasCalculator.groupByMonth.
  rewrite (groupInto_keys String.eqb string_eqb_eq). simpl. tauto.
Qed.

Lemma groupByMonth_NoDup rs : NoDup (map fst (GasCalculator.groupByMonth rs)).
Proof.
  apply (groupInto_NoDup String.eqb string_eqb_eq). constructor.
Qed.

Lemma breakdown_perm rs t :
  Permutation (GasCalculator.calculateGasMonthlyBreakdown rs t)
              (map (GasCalculator.monthEntry t) (GasCalculator.groupByMonth rs)).
Proof.
  unfold GasCalculator.calculateGasMonthlyBreakdown.
  destruct rs as [| r rs]; [reflexivity |]. apply sortBy_perm.
Qed.

(** C9.  The breakdown of [calculateGasComparison] has one entry per
    month key of the readings and no other; the usage of an entry is
    the sum of the readings of its month and its cost is
    min(usage, baselineTherms) x baselineRate
    + max(0, usage - baselineTherms) x overBaselineRate
    + one fixedMonthlyCharge; the total is the sum of these costs, and
    the monthly estimate is the total divided by the number of months,
    with no scaling by the days spanned (and 0 for no readings). *)
Theorem C9_gas_monthly_average rs t :
  let res := GasCalculator.calculateGasComparison rs t in
  let months := GasCalculator.breakdown res in
  NoDup (map monthName months)
  /\ (forall k, In k (map monthName months) <-> In k (map monthOf rs))
  /\ Forall (fun m =>
               usage m = sumBy value (readingsOfMonth (monthName m) rs)
               /\ cost m = gasMonthCost t (usage m)) months
  /\ GasCalculator.totalCost res = sumBy cost months
  /\ (rs <> [] ->
      (0 < List.length months)%nat
      /\ GasCalculator.estimatedMonthlyCost res
         = sumBy cost months / inject_Z (Z.of_nat (List.length months)))
  /\ (rs = [] -> months = [] /\ GasCalculator.estimatedMonthlyCost res = 0).
Proof.
  intros res months.
  assert (Hperm := breakdown_perm rs t).
  change (GasCalculator.calculateGasMonthlyBreakdown rs t) with months in Hperm.
  assert (Hnames : map monthName (map (GasCalculator.monthEntry t) (GasCalculator.groupByMonth rs))
                   = map fst (GasCalculator.groupByMonth rs)).
  { rewrite map_map. apply map_ext. reflexivity. }
  repeat apply conj.
  - apply (Permutation_NoDup (l := map fst (GasCalculator.groupByMonth rs))).
    + rewrite <- Hnames. symmetry. now apply Permutation_map.
    + apply groupByMonth_NoDup.
  - intros k. rewrite <- groupByMonth_keys, <- Hnames. split.
    + apply Permutation_in. now apply Permutation_map.
    + apply Permutation_in. symmetry. now apply Permutation_map.
  - rewrite Forall_forall. intros m Hm.
    apply (Permutation_in _ Hperm) in Hm. apply in_map_iff in Hm as ([k g] & <- & Hin).
    apply groupByMonth_entry in Hin as [-> _]. simpl. split; reflexivity.
  - reflexivity.
  - intros Hrs.
    assert (Hlen : (0 < List.length months)%nat).
    { rewrite (Permutation_length Hperm), length_map.
      destruct rs as [| r rs]; [congruence |].
      assert (In (monthOf r) (map fst (GasCalculator.groupByMonth (r :: rs)))) as Hin.
      { apply groupByMonth_keys. now left. }
      destruct (GasCalculator.groupByMonth (r :: rs)); [contradiction | simpl; lia]. }
    split; [exact Hlen |].
    change months with (GasCalculator.calculateGasMonthlyBreakdown rs t) in *.
    unfold res, GasCalculator.calculateGasComparison.
    cbn [GasCalculator.estimatedMonthlyCost].
    apply Nat.ltb_lt in Hlen. now rewrite Hlen.
  - intros ->. split; reflexivity.
Qed.

(** C9 at two January days and one February day of gas. *)
Lemma C9_gas_monthly_average_witness :
  (0 < List.length
         (GasCalculator.breakdown (GasCalculator.calculateGasComparison gasJanFeb gasTariff1)))%nat
  /\ GasCalculator.estimatedMonthlyCost
       (GasCalculator.calculateGasComparison gasJanFeb gasTariff1)
     = sumBy cost
         (GasCalculator.breakdown (GasCalculator.calculateGasComparison gasJanFeb gasTariff1))
       / inject_Z
           (Z.of_nat
              (List.length
                 (GasCalculator.breakdown
                    (GasCalculator.calculateGasComparison gasJanFeb gasTariff1)))).
Proof.
  apply (proj1 (proj2 (proj2 (proj2 (proj2
           (C9_gas_monthly_average gasJanFeb gasTariff1)))))).
  discriminate.
Defined.

(** Two January days and one February day of gas: 20 + 15 therms in
    January go over the 30 therm baseline by 5, February stays under
    it; the estimate is the plain average of the two bills. *)
Example gas_two_months :
  exists january february,
    GasCalculator.breakdown (GasCalculator.calculateGasComparison gasJanFeb gasTariff1)
    = [january; february]
    /\ monthName january = "2025-01"%string
    /\ cost january == 30 * 2 + 5 * 3 + 5
    /\ monthName february = "2025-02"%string
    /\ cost february == 10 * 2 + 5
    /\ GasCalculator.estimatedMonthlyCost
         (GasCalculator.calculateGasComparison gasJanFeb gasTariff1)
       == (80 + 25) / 2.
Proof.
  do 2 eexists. split; [vm_compute; reflexivity |].
  repeat split; vm_compute; reflexivity.
Qed.

(* ================================================================= *)
(** ** Normalisation of the readings *)

Lemma fold_sum (xs : list RawReading) : forall a,
  exists q,
    fold_left (fun o r => Some (match o with Some v => v | None => 0 end + snd r))
              xs (Some a) = Some q
    /\ q == a + sumBy snd xs.
Proof.
  induction xs as [| x xs IH]; intro a; simpl.
  - exists a. split; [reflexivity |]. rewrite sumBy_nil. ring.
  - destruct (IH (a + snd x)) as (q & Hq & E). exists q. split; [exact Hq |].
    rewrite E, sumBy_cons. ring.
Qed.

Lemma Zeqb_eq (x y : Z) : (x =? y)%Z = true <-> x = y.
Proof. apply Z.eqb_eq. Qed.

Lemma summed_entry sorted k v :
  In (k, v) (summedOf sorted) -> v == sumBy snd (rawAt k sorted).
Proof.
  intros Hin. unfold summedOf in Hin.
  apply (In_assocGet Z.eqb Zeqb_eq) in Hin.
  2:{ apply (groupInto_NoDup Z.eqb Zeqb_eq). constructor. }
  rewrite (groupInto_get Z.eqb Zeqb_eq) in Hin.
  change (filter _ sorted) with (rawAt k sorted) in Hin.
  destruct (rawAt k sorted) as [| x xs]; simpl in Hin; [discriminate |].
  destruct (fold_sum xs (0 + snd x)) as (q & Hq & E).
  rewrite Hq in Hin. injection Hin as <-.
  rewrite E, sumBy_cons. ring.
Qed.

Lemma byTime_sorted l :
  StronglySorted (fun a b : RawReading => (fst a <= fst b)%Z) (sortBy byTime l).
Proof.
  apply sortBy_sorted; unfold byTime.
  - intros x y z. lia.
  - intros x y H. apply Z.gtb_lt in H. lia.
  - intros x y H. rewrite Z.gtb_ltb in H. apply Z.ltb_ge in H. lia.
Qed.

Lemma sorted_strict (l : list RawReading) :
  StronglySorted (fun a b => (fst a <= fst b)%Z) l -> NoDup (map fst l) ->
  StronglySorted Z.lt (map fst l).
Proof.
  induction 1 as [| x l Hs IH Hx]; simpl; intros Hnd; [constructor |].
  inversion Hnd as [| ? ? Hnotin Hnd']; subst.
  constructor; [auto |].
  rewrite Forall_forall in Hx |- *. intros t Ht.
  apply in_map_iff in Ht as (y & <- & Hy).
  specialize (Hx y Hy). simpl in Hx.
  assert (fst x <> fst y) by (intros E; apply Hnotin; rewrite E; now apply in_map).
  lia.
Qed.

Lemma timeOf_toReading host r : timeOf (toReading host r) = fst r.
Proof.
  unfold timeOf, toReading, newDate. simpl.
  destruct (calendarOf host (fst r)) as [[y m] h]. reflexivity.
Qed.

Lemma mergeReadings_normalizes host raw :
  normalizes raw (map (toReading host) (mergeReadings raw)).
Proof.
  unfold mergeReadings. fold (summedOf (sortBy byTime raw)).
  set (sorted := sortBy byTime raw).
  set (out := sortBy byTime (summedOf sorted)).
  assert (Hps : Permutation sorted raw) by apply sortBy_perm.
  assert (Hpo : Permutation out (summedOf sorted)) by apply sortBy_perm.
  assert (Htimes : map timeOf (map (toReading host) out) = map fst out).
  { rewrite map_map. apply map_ext. apply timeOf_toReading. }
  assert (Hnd : NoDup (map fst (summedOf sorted))).
  { apply (groupInto_NoDup Z.eqb Zeqb_eq). constructor. }
  repeat apply conj.
  - rewrite Htimes. apply sorted_strict; [apply byTime_sorted |].
    apply (Permutation_NoDup (l := map fst (summedOf sorted))); [| exact Hnd].
    symmetry. now apply Permutation_map.
  - intros t. rewrite Htimes.
    transitivity (In t (map fst (summedOf sorted))).
    { split; apply Permutation_in; [| symmetry]; now apply Permutation_map. }
    unfold summedOf. rewrite (groupInto_keys Z.eqb Zeqb_eq). simpl.
    transitivity (In t (map fst sorted)); [tauto |].
    split; apply Permutation_in; [| symmetry]; now apply Permutation_map.
  - rewrite Forall_forall. intros r Hr.
    apply in_map_iff in Hr as ([k v] & <- & Hin).
    rewrite timeOf_toReading. simpl.
    apply (Permutation_in _ Hpo) in Hin. apply summed_entry in Hin.
    rewrite Hin. apply sumBy_permutation. unfold rawAt.
    now apply filter_permutation.
Qed.

(* ================================================================= *)
(** ** What a successful parse returns *)

Lemma electric_outcome host csv :
  PgeCsvParser.parsePgeIntervalCsv host csv
  = if Nat.ltb (List.length (nonBlankRows csv)) 2 then Throws EmptyOrUnreadable
    else if (Electric.headerIdx csv =? -1)%Z then Throws NoHeaderRow
    else if (usageIdx (Electric.columns csv) =? -1)%Z then Throws NoUsageColumn
    else match rawReadings (Electric.loop host csv) with
         | [] => Throws NoReadingsParsed
         | _ :: _ =>
             Returns (mkParsed
                        (map (toReading host)
                             (mergeReadings (rawReadings (Electric.loop host csv))))
                        (electricNotes host csv))
         end.
Proof. reflexivity. Qed.

Lemma gas_outcome host csv :
  PgeGasCsvParser.parsePgeGasCsv host csv
  = if Nat.ltb (List.length (nonBlankRows csv)) 2 then Throws EmptyOrUnreadable
    else if (Gas.headerIdx csv =? -1)%Z then Throws NoHeaderRow
    else if (usageIdx (Gas.columns csv) =? -1)%Z then Throws NoUsageColumn
    else match rawReadings (Gas.loop host csv) with
         | [] => Throws NoReadingsParsed
         | _ :: _ =>
             Returns (mkParsed
                        (map (toReading host)
                             (mergeReadings (rawReadings (Gas.loop host csv))))
                        (gasNotes host csv))
         end.
Proof. reflexivity. Qed.

Lemma electric_returns host csv r :
  PgeCsvParser.parsePgeIntervalCsv host csv = Returns r ->
  rawReadings (Electric.loop host csv) <> []
  /\ readings r
     = map (toReading host) (mergeReadings (rawReadings (Electric.loop host csv)))
  /\ warnings r = electricNotes host csv.
Proof.
  rewrite electric_outcome.
  destruct (Nat.ltb _ 2); [discriminate |].
  destruct (_ =? -1)%Z; [discriminate |].
  destruct (_ =? -1)%Z; [discriminate |].
  destruct (rawReadings _) as [| x xs]; [discriminate |].
  intros [= <-]. repeat split. discriminate.
Qed.

Lemma gas_returns host csv r :
  PgeGasCsvParser.parsePgeGasCsv host csv = Returns r ->
  rawReadings (Gas.loop host csv) <> []
  /\ readings r
     = map (toReading host) (mergeReadings (rawReadings (Gas.loop host csv)))
  /\ warnings r = gasNotes host csv.
Proof.
  rewrite gas_outcome.
  destruct (Nat.ltb _ 2); [discriminate |].
  destruct (_ =? -1)%Z; [discriminate |].
  destruct (_ =? -1)%Z; [discriminate |].
  destruct (rawReadings _) as [| x xs]; [discriminate |].
  intros [= <-]. repeat split. discriminate.
Qed.

(** C6.  When either parser returns, the time values of its readings
    are strictly increasing, they are the time values of the raw
    readings of the row loop and no other, and the value under each
    is the sum of the raw values of that time value, unclamped. *)
Theorem C6_normalized_stream :
  (forall host csv r,
      PgeCsvParser.parsePgeIntervalCsv host csv = Returns r ->
      normalizes (rawReadings (Electric.loop host csv)) (readings r))
  /\ (forall host csv r,
        PgeGasCsvParser.parsePgeGasCsv host csv = Returns r ->
        normalizes (rawReadings (Gas.loop host csv)) (readings r)).
Proof.
  split; intros host csv r H.
  - apply electric_returns in H as (_ & -> & _). apply mergeReadings_normalizes.
  - apply gas_returns in H as (_ & -> & _). apply mergeReadings_normalizes.
Qed.

(* ================================================================= *)
(** ** Header detection *)

Section HeaderScan.
Variable unit : string.

Lemma score_nonneg row : (0 <= scoreHeaderRowWith unit row)%Z.
Proof.
  unfold scoreHeaderRowWith.
  repeat match goal with |- context [if ?b then _ else _] => destruct b end; lia.
Qed.

Lemma eligibleRow_dec r :
  Nat.ltb (List.length (filter (fun c => negb (isEmpty c)) (map trim r))) 3 = false
  <-> eligibleRow r.
Proof. unfold eligibleRow. rewrite Nat.ltb_ge. tauto. Qed.

Lemma scanHeaderRow_scanned seen i best r :
  (0 <= i)%Z -> scanned unit seen i best ->
  scanned unit (seen ++ [r]) (i + 1) (scanHeaderRow unit best i r).
Proof.
  intros Hi [Hmax Hbest]. unfold scanHeaderRow.
  destruct (Nat.ltb _ 3) eqn:E.
  - split.
    + apply Forall_app. split; [assumption |]. constructor; [| constructor].
      intros He. apply eligibleRow_dec in He. congruence.
    + destruct Hbest as [H | [H1 H2]]; [now left | right].
      split; [lia |]. apply Exists_app. now left.
  - apply eligibleRow_dec in E.
    destruct (Z.gtb_spec (scoreHeaderRowWith unit (map trim r)) (bestScore best)) as [Hgt | Hle].
    + split; cbn [bestScore bestIdx].
      * apply Forall_app. split.
        -- eapply Forall_impl; [| exact Hmax]. cbv beta. intros a Ha He.
           specialize (Ha He). lia.
        -- constructor; [| constructor]. intros _. lia.
      * right. split; [lia |]. apply Exists_app. right. constructor. auto.
    + split.
      * apply Forall_app. split; [assumption |]. constructor; [| constructor].
        intros _. exact Hle.
      * destruct Hbest as [H | [H1 H2]]; [now left | right].
        split; [lia |]. apply Exists_app. now left.
Qed.

Lemma scanHeaderRows_scanned rows : forall seen i best,
  (0 <= i)%Z -> scanned unit seen i best ->
  scanned unit (seen ++ rows) (i + Z.of_nat (List.length rows))
          (scanHeaderRows unit rows i best).
Proof.
  induction rows as [| r rows IH]; intros seen i best Hi Hs; simpl.
  - rewrite app_nil_r, Z.add_0_r. exact Hs.
  - replace (seen ++ r :: rows) with ((seen ++ [r]) ++ rows)
      by (rewrite <- app_assoc; reflexivity).
    replace (i + Z.pos (Pos.of_succ_nat (List.length rows)))%Z
      with ((i + 1) + Z.of_nat (List.length rows))%Z by lia.
    apply IH; [lia |]. now apply scanHeaderRow_scanned.
Qed.

Variable threshold : Z.
Hypothesis threshold_pos : (0 < threshold)%Z.

(** The header row is found exactly when a row that counts, among
    the first 80, reaches the threshold; the index returned is then
    that of a row. *)
Lemma detectHeaderRowIndex_found rows :
  detectHeaderRowIndexWith unit threshold rows <> (-1)%Z
  <-> hasHeaderRow unit threshold rows.
Proof.
  unfold detectHeaderRowIndexWith, hasHeaderRow.
  assert (Hs : scanned unit [] 0 (mkBest (-1) 0)).
  { split; [constructor | left; split; reflexivity]. }
  apply (scanHeaderRows_scanned (firstn 80 rows) [] 0%Z _ (Z.le_refl 0)) in Hs.
  cbn [app] in Hs. destruct Hs as [Hmax Hbest].
  set (best := scanHeaderRows unit (firstn 80 rows) 0 (mkBest (-1) 0)) in *.
  destruct (Z.geb_spec (bestScore best) threshold) as [Hge | Hlt].
  - destruct Hbest as [[_ H0] | [Hidx Hex]]; [lia |].
    split; [intros _ | lia].
    eapply Exists_impl; [| exact Hex]. simpl. intros r [He Hr].
    split; [assumption |]. lia.
  - split; [congruence |]. intros Hex. exfalso.
    apply Exists_exists in Hex as (r & Hin & He & Hr).
    rewrite Forall_forall in Hmax. specialize (Hmax r Hin He).
    lia.
Qed.

Lemma detectHeaderRowIndex_range rows :
  detectHeaderRowIndexWith unit threshold rows = (-1)%Z
  \/ (0 <= detectHeaderRowIndexWith unit threshold rows
      < Z.of_nat (List.length rows))%Z.
Proof.
  unfold detectHeaderRowIndexWith.
  assert (Hs : scanned unit [] 0 (mkBest (-1) 0)).
  { split; [constructor | left; split; reflexivity]. }
  apply (scanHeaderRows_scanned (firstn 80 rows) [] 0%Z _ (Z.le_refl 0)) in Hs.
  cbn [app] in Hs. destruct Hs as [_ Hbest].
  destruct (_ >=? _)%Z; [| now left].
  destruct Hbest as [[-> _] | [Hidx _]]; [now left | right].
  rewrite length_firstn in Hidx. lia.
Qed.
End HeaderScan.

(* ================================================================= *)
(** ** Column lookup and the row loop *)

Lemma findIndexFrom_range {A} (p : A -> bool) l : forall i,
  findIndexFrom p l i = (-1)%Z \/ (i <= findIndexFrom p l i)%Z.
Proof.
  induction l as [| x l IH]; intro i; simpl; [now left |].
  destruct (p x); [right; lia |].
  destruct (IH (i + 1)%Z) as [H | H]; [now left | right; lia].
Qed.

Lemma findIndexFrom_found {A} (p : A -> bool) l : forall i,
  (0 <= i)%Z -> found (findIndexFrom p l i) = existsb p l.
Proof.
  unfold found. induction l as [| x l IH]; intros i Hi; simpl; [reflexivity |].
  destruct (p x); simpl.
  - destruct (Z.eqb_spec i (-1)); [lia | reflexivity].
  - apply IH. lia.
Qed.

Lemma findIndex_found {A} (p : A -> bool) l : found (findIndex p l) = existsb p l.
Proof. apply findIndexFrom_found. lia. Qed.

Lemma existsb_orb {A} (p q : A -> bool) l :
  existsb (fun x => p x || q x) l = existsb p l || existsb q l.
Proof.
  induction l as [| x l IH]; simpl; [reflexivity |].
  rewrite IH. destruct (p x), (q x), (existsb p l), (existsb q l); reflexivity.
Qed.

Lemma usageIdx_found headers :
  found (usageIdx (PgeCsvParser.resolveColumns headers)) = hasUsageColumn headers.
Proof.
  assert (E : existsb usageCandidate headers
              = existsb (fun h => includes "kwh" h
                                  && includesAny PgeCsvParser.usageNouns h) headers
                || existsb (fun h => includes "kwh" h
                                     && negb (includesAny PgeCsvParser.moneyWords h))
                           headers).
  { rewrite <- existsb_orb.
    induction headers as [| h hs IHh]; simpl; [reflexivity |].
    rewrite IHh. unfold usageCandidate.
    destruct (includes "kwh" h); reflexivity. }
  unfold PgeCsvParser.resolveColumns, hasUsageColumn, solarPair. cbn [usageIdx].
  rewrite E, !findIndex_found.
  destruct (existsb (fun h => includes "import" h && includes "kwh" h) headers) eqn:Ei;
    destruct (existsb (fun h => includes "export" h && includes "kwh" h) headers) eqn:Ee;
    cbn [andb orb];
    try (rewrite findIndex_found; exact Ei);
    (destruct (existsb (fun h => includes "kwh" h && includesAny _ h) headers) eqn:Ea;
     rewrite findIndex_found; [exact Ea | reflexivity]).
Qed.

Lemma found_false idx : found idx = false <-> idx = (-1)%Z.
Proof. unfold found. rewrite negb_false_iff. apply Z.eqb_eq. Qed.

Lemma readRows_from readRow rows : forall st,
  rawReadings (fold_left
                 (fun st row =>
                    match readRow row with
                    | Some r => mkRowLoop (rawReadings st ++ [r]) (skipped st)
                    | None => mkRowLoop (rawReadings st) (skipped st + 1)%Z
                    end) rows st)
  = rawReadings st ++ keptReadings readRow rows
  /\ skipped (fold_left
                (fun st row =>
                   match readRow row with
                   | Some r => mkRowLoop (rawReadings st ++ [r]) (skipped st)
                   | None => mkRowLoop (rawReadings st) (skipped st + 1)%Z
                   end) rows st)
     = (skipped st + Z.of_nat (skippedCount readRow rows))%Z.
Proof.
  unfold keptReadings, skippedCount.
  induction rows as [| row rows IH]; intro st; simpl.
  - rewrite app_nil_r. split; [reflexivity | lia].
  - destruct (IH (match readRow row with
                  | Some r => mkRowLoop (rawReadings st ++ [r]) (skipped st)
                  | None => mkRowLoop (rawReadings st) (skipped st + 1)%Z
                  end)) as [-> ->].
    destruct (readRow row); simpl.
    + rewrite <- app_assoc. split; [reflexivity | lia].
    + split; [reflexivity | lia].
Qed.

(** Every row either adds its reading or adds one to the skip count. *)
Lemma readRows_spec readRow rows :
  rawReadings (readRows readRow rows) = keptReadings readRow rows
  /\ skipped (readRows readRow rows) = Z.of_nat (skippedCount readRow rows)
  /\ (List.length (keptReadings readRow rows) + skippedCount readRow rows
      = List.length rows)%nat.
Proof.
  unfold readRows.
  destruct (readRows_from readRow rows (mkRowLoop [] 0)) as [-> ->].
  repeat split.
  unfold keptReadings, skippedCount.
  induction rows as [| row rows IH]; simpl; [reflexivity |].
  destruct (readRow row); simpl; rewrite ?length_app; simpl; lia.
Qed.

Lemma keptReadings_nil readRow rows :
  keptReadings readRow rows = [] <-> Forall (fun row => readRow row = None) rows.
Proof.
  unfold keptReadings. induction rows as [| row rows IH]; simpl.
  - split; auto.
  - destruct (readRow row) eqn:E; simpl.
    + split; [discriminate |]. intros H. inversion H; congruence.
    + rewrite IH. split; intros H; [now constructor | now inversion H].
Qed.

Lemma keptReadings_some readRow rows :
  keptReadings readRow rows <> [] <-> Exists (yieldsReading readRow) rows.
Proof.
  unfold keptReadings, yieldsReading. induction rows as [| row rows IH]; simpl.
  - split; [congruence | intros H; inversion H].
  - destruct (readRow row) eqn:E; simpl.
    + split; [| discriminate]. intros _. left. eauto.
    + rewrite IH. split; intros H; [now right |].
      inversion H as [? ? [r Hr] | ]; subst; [congruence | assumption].
Qed.

(* ================================================================= *)
(** ** Fatal errors *)

Lemma four_pos : (0 < 4)%Z. Proof. lia. Qed.
Lemma three_pos : (0 < 3)%Z. Proof. lia. Qed.

Lemma electric_header csv :
  (Electric.headerIdx csv =? -1)%Z = false <-> hasHeaderRow "kwh" 4 (nonBlankRows csv).
Proof.
  rewrite Z.eqb_neq. apply (detectHeaderRowIndex_found "kwh" 4 four_pos).
Qed.

Lemma gas_header csv :
  (Gas.headerIdx csv =? -1)%Z = false <-> hasHeaderRow "therm" 3 (nonBlankRows csv).
Proof.
  rewrite Z.eqb_neq. apply (detectHeaderRowIndex_found "therm" 3 three_pos).
Qed.

Lemma electric_usage csv :
  (usageIdx (Electric.columns csv) =? -1)%Z = false
  <-> hasUsageColumn (Electric.headers csv) = true.
Proof.
  unfold Electric.columns. rewrite <- usageIdx_found. unfold found.
  now rewrite negb_true_iff.
Qed.

Lemma none_or_some readRow rows :
  Forall (fun row => readRow row = None) rows ->
  Exists (yieldsReading readRow) rows -> False.
Proof.
  intros Hall Hex. apply Exists_exists in Hex as (row & Hin & r & Hr).
  rewrite Forall_forall in Hall. rewrite (Hall row Hin) in Hr. discriminate.
Qed.

(** The parser goes through its four checks in order. *)
Lemma electric_cases host csv :
  let outcome := PgeCsvParser.parsePgeIntervalCsv host csv in
  let rows := nonBlankRows csv in
  let readRow := PgeCsvParser.readRow host (Electric.columns csv) in
  ((List.length rows < 2)%nat /\ outcome = Throws EmptyOrUnreadable)
  \/ ((2 <= List.length rows)%nat /\ ~ hasHeaderRow "kwh" 4 rows
      /\ outcome = Throws NoHeaderRow)
  \/ ((2 <= List.length rows)%nat /\ hasHeaderRow "kwh" 4 rows
      /\ hasUsageColumn (Electric.headers csv) = false
      /\ outcome = Throws NoUsageColumn)
  \/ ((2 <= List.length rows)%nat /\ hasHeaderRow "kwh" 4 rows
      /\ hasUsageColumn (Electric.headers csv) = true
      /\ Forall (fun row => readRow row = None) (Electric.dataRows csv)
      /\ outcome = Throws NoReadingsParsed)
  \/ ((2 <= List.length rows)%nat /\ hasHeaderRow "kwh" 4 rows
      /\ hasUsageColumn (Electric.headers csv) = true
      /\ Exists (yieldsReading readRow) (Electric.dataRows csv)
      /\ exists r, outcome = Returns r).
Proof.
  intros outcome rows readRow.
  assert (Hk := keptReadings_nil readRow (Electric.dataRows csv)).
  assert (Hs := keptReadings_some readRow (Electric.dataRows csv)).
  destruct (readRows_spec readRow (Electric.dataRows csv)) as (Hraw & _ & _).
  rewrite <- Hraw in Hk, Hs.
  change (readRows readRow (Electric.dataRows csv)) with (Electric.loop host csv) in Hk, Hs.
  assert (Hh := electric_header csv). assert (Hu := electric_usage csv).
  subst outcome. rewrite electric_outcome. fold rows in Hh |- *.
  destruct (Nat.ltb_spec (List.length rows) 2) as [Hlen | Hlen]; [now left | right].
  destruct (Electric.headerIdx csv =? -1)%Z.
  { left. repeat split; try assumption. intros H. apply Hh in H. discriminate. }
  right. assert (Hyes : hasHeaderRow "kwh" 4 rows) by (apply Hh; reflexivity).
  destruct (usageIdx (Electric.columns csv) =? -1)%Z.
  { left. repeat split; try assumption.
    destruct (hasUsageColumn _); [| reflexivity].
    destruct Hu as [_ Hu]. discriminate (Hu eq_refl). }
  right.
  assert (Hyu : hasUsageColumn (Electric.headers csv) = true) by (apply Hu; reflexivity).
  destruct (rawReadings (Electric.loop host csv)) as [| x xs].
  - left. split; [assumption |]. split; [assumption |]. split; [assumption |].
    split; [| reflexivity]. apply Hk. reflexivity.
  - right. split; [assumption |]. split; [assumption |]. split; [assumption |].
    split; [| eauto]. apply Hs. discriminate.
Qed.

Lemma gas_no_header host csv :
  PgeGasCsvParser.parsePgeGasCsv host csv = Throws NoHeaderRow
  <-> (2 <= List.length (nonBlankRows csv))%nat
      /\ ~ hasHeaderRow "therm" 3 (nonBlankRows csv).
Proof.
  assert (Hg := gas_header csv). rewrite gas_outcome.
  destruct (Nat.ltb_spec (List.length (nonBlankRows csv)) 2) as [Hlen | Hlen].
  { split; [discriminate | lia]. }
  destruct (Gas.headerIdx csv =? -1)%Z.
  - split; [intros _ | reflexivity]. split; [lia |].
    intros H. apply Hg in H. discriminate.
  - split.
    + destruct (_ =? -1)%Z; [discriminate |]. destruct (rawReadings _); discriminate.
    + intros [_ H]. exfalso. apply H, Hg. reflexivity.
Qed.

(** C7.  [parsePgeIntervalCsv] throws its four errors in exactly these
    cases, tried in this order, and returns in every other case: fewer
    than two non-blank rows; no row among the first 80 with at least
    three non-blank cells and a score of 4 or more; no usage column
    among the headers; no data row that yields a reading.  The gas
    parser detects its header with a threshold of 3. *)
Theorem C7_fatal_errors host csv :
  let outcome := PgeCsvParser.parsePgeIntervalCsv host csv in
  let rows := nonBlankRows csv in
  let readRow := PgeCsvParser.readRow host (Electric.columns csv) in
  (outcome = Throws EmptyOrUnreadable <-> (List.length rows < 2)%nat)
  /\ (outcome = Throws NoHeaderRow <->
      (2 <= List.length rows)%nat /\ ~ hasHeaderRow "kwh" 4 rows)
  /\ (outcome = Throws NoUsageColumn <->
      (2 <= List.length rows)%nat /\ hasHeaderRow "kwh" 4 rows
      /\ hasUsageColumn (Electric.headers csv) = false)
  /\ (outcome = Throws NoReadingsParsed <->
      (2 <= List.length rows)%nat /\ hasHeaderRow "kwh" 4 rows
      /\ hasUsageColumn (Electric.headers csv) = true
      /\ Forall (fun row => readRow row = None) (Electric.dataRows csv))
  /\ ((exists r, outcome = Returns r) <->
      (2 <= List.length rows)%nat /\ hasHeaderRow "kwh" 4 rows
      /\ hasUsageColumn (Electric.headers csv) = true
      /\ Exists (yieldsReading readRow) (Electric.dataRows csv))
  /\ (PgeGasCsvParser.detectHeaderRowIndex rows <> (-1)%Z <-> hasHeaderRow "therm" 3 rows)
  /\ (PgeGasCsvParser.parsePgeGasCsv host csv = Throws NoHeaderRow <->
      (2 <= List.length rows)%nat /\ ~ hasHeaderRow "therm" 3 rows).
Proof.
  intros outcome rows readRow.
  assert (Hcases := electric_cases host csv).
  assert (Hx := none_or_some readRow (Electric.dataRows csv)).
  cbv zeta in Hcases. fold outcome rows readRow in Hcases.
  split; [| split; [| split; [| split; [| split; [| split]]]]];
    [ .. | apply (detectHeaderRowIndex_found "therm" 3 three_pos)
         | apply gas_no_header ];
    destruct Hcases as
      [ (H1 & Ho) | [ (H1 & H2 & Ho) | [ (H1 & H2 & H3 & Ho)
      | [ (H1 & H2 & H3 & H4 & Ho) | (H1 & H2 & H3 & H4 & r & Ho) ]]]];
    rewrite Ho;
    (split;
     [ intros Hout;
       first [ discriminate Hout
             | repeat split; assumption
             | destruct Hout as [r' Hout]; discriminate Hout ]
     | intros Hcond;
       first [ reflexivity
             | now exists r
             | exfalso; decompose [and] Hcond; first [lia | contradiction | congruence | auto] ] ]).
Qed.

(** C7 at an export that parses: none of the four cases applies. *)
Lemma C7_fatal_errors_witness :
  (2 <= List.length (nonBlankRows csvUsage))%nat
  /\ hasHeaderRow "kwh" 4 (nonBlankRows csvUsage)
  /\ hasUsageColumn (Electric.headers csvUsage) = true
  /\ Exists (yieldsReading (PgeCsvParser.readRow utcHost (Electric.columns csvUsage)))
            (Electric.dataRows csvUsage).
Proof.
  apply (proj1 (proj1 (proj2 (proj2 (proj2 (proj2
           (C7_fatal_errors utcHost csvUsage))))))).
  eexists. vm_compute. reflexivity.
Defined.

(* ================================================================= *)
(** ** Skipped rows *)

Lemma readRow_plain host cols row :
  PgeCsvParser.hasSolarColumns cols = false ->
  (PgeCsvParser.readRow host cols row = None <->
   parseNumber (cellAt row (usageIdx cols)) = None
   \/ resolveTimestamp host (15 * 60 * 1000) cols row = None).
Proof.
  intros Hs. unfold PgeCsvParser.readRow, PgeCsvParser.rowUsage. rewrite Hs.
  destruct (parseNumber _) as [q |]; [| tauto].
  destruct (resolveTimestamp _ _ _ _) as [ts |].
  - split; [discriminate | intros [H | H]; discriminate].
  - tauto.
Qed.

Lemma readRow_solar host cols row :
  PgeCsvParser.hasSolarColumns cols = true ->
  (PgeCsvParser.readRow host cols row = None <->
   resolveTimestamp host (15 * 60 * 1000) cols row = None)
  /\ (forall ts,
         resolveTimestamp host (15 * 60 * 1000) cols row = Some ts ->
         PgeCsvParser.readRow host cols row
         = Some (ts, orZero (parseNumber (cellAt row (importIdx cols)))
                     - orZero (parseNumber (cellAt row (exportIdx cols))))).
Proof.
  intros Hs. unfold PgeCsvParser.readRow, PgeCsvParser.rowUsage. rewrite Hs.
  destruct (resolveTimestamp _ _ _ _) as [ts |].
  - split; [split; discriminate |]. intros ts' [= <-]. reflexivity.
  - split; [tauto | discriminate].
Qed.

Lemma skip_warning host csv :
  filter isSkipWarning (electricNotes host csv)
  = if (0 <? skipped (Electric.loop host csv))%Z
    then [SkippedRows (skipped (Electric.loop host csv))] else [].
Proof.
  unfold electricNotes. rewrite !filter_app.
  rewrite Z.gtb_ltb.
  assert (E1 : filter isSkipWarning
                 (if PgeCsvParser.hasSolarColumns (Electric.columns csv)
                  then [SolarNetUsage] else []) = [])
    by (destruct (PgeCsvParser.hasSolarColumns _); reflexivity).
  assert (E3 : filter isSkipWarning
                 match typicalInterval 2000 60000
                         (mergeReadings (rawReadings (Electric.loop host csv))) with
                 | Some minutes =>
                     if existsb (Z.eqb minutes) [15; 30; 60]%Z then []
                     else [AtypicalInterval minutes]
                 | None => []
                 end = []).
  { destruct (typicalInterval _ _ _) as [m |]; [| reflexivity].
    destruct (existsb _ _); reflexivity. }
  rewrite E1, E3, app_nil_r. simpl.
  destruct (0 <? _)%Z; reflexivity.
Qed.

(** C8 does not hold as stated in solar mode: the row of 00:30, whose
    import cell does not parse, is kept as a reading of -0.5 kWh, and
    no row is reported as skipped. *)
Lemma C8_counterexample :
  PgeCsvParser.hasSolarColumns (Electric.columns csvSolar) = true
  /\ nth 1 (Electric.dataRows csvSolar) []
     = ["01/18/2025"; "00:30"; "n/a"; "0.5"]%string
  /\ parseNumber (cellAt (nth 1 (Electric.dataRows csvSolar) [])
                         (importIdx (Electric.columns csvSolar))) = None
  /\ exists r1 r2 r3,
       PgeCsvParser.parsePgeIntervalCsv utcHost csvSolar
       = Returns (mkParsed [r1; r2; r3] [SolarNetUsage])
       /\ timeOf r2 = 1737160200000%Z
       /\ value r2 == - 0.5.
Proof.
  split; [reflexivity |]. split; [reflexivity |]. split; [reflexivity |].
  do 3 eexists. split; [vm_compute; reflexivity |].
  split; reflexivity.
Qed.

(** C8, as amended.  Every data row either adds one reading or adds
    one to the skip counter (first part).  Without solar columns a row
    is skipped exactly when its usage cell does not parse or no
    timestamp strategy succeeds (second part); with solar columns it
    is skipped exactly when no timestamp strategy succeeds, an import
    or export cell that does not parse counting as 0 in import minus
    export (third part).  The skips are reported in one warning that
    carries their count, and in none when there are none (fourth
    part), and the parse returns as soon as one data row yields a
    reading (fifth part). *)
Theorem C8_row_level_skips :
  (forall host cols rows,
      rawReadings (readRows (PgeCsvParser.readRow host cols) rows)
      = keptReadings (PgeCsvParser.readRow host cols) rows
      /\ skipped (readRows (PgeCsvParser.readRow host cols) rows)
         = Z.of_nat (skippedCount (PgeCsvParser.readRow host cols) rows)
      /\ (List.length (keptReadings (PgeCsvParser.readRow host cols) rows)
          + skippedCount (PgeCsvParser.readRow host cols) rows
          = List.length rows)%nat)
  /\ (forall host cols row,
        PgeCsvParser.hasSolarColumns cols = false ->
        (PgeCsvParser.readRow host cols row = None <->
         parseNumber (cellAt row (usageIdx cols)) = None
         \/ resolveTimestamp host (15 * 60 * 1000) cols row = None))
  /\ (forall host cols row,
        PgeCsvParser.hasSolarColumns cols = true ->
        (PgeCsvParser.readRow host cols row = None <->
         resolveTimestamp host (15 * 60 * 1000) cols row = None)
        /\ (forall ts,
               resolveTimestamp host (15 * 60 * 1000) cols row = Some ts ->
               PgeCsvParser.readRow host cols row
               = Some (ts, orZero (parseNumber (cellAt row (importIdx cols)))
                           - orZero (parseNumber (cellAt row (exportIdx cols))))))
  /\ (forall host csv r,
        PgeCsvParser.parsePgeIntervalCsv host csv = Returns r ->
        filter isSkipWarning (warnings r)
        = if (0 <? skipped (Electric.loop host csv))%Z
          then [SkippedRows (skipped (Electric.loop host csv))] else [])
  /\ (forall host csv,
        (2 <= List.length (nonBlankRows csv))%nat ->
        hasHeaderRow "kwh" 4 (nonBlankRows csv) ->
        hasUsageColumn (Electric.headers csv) = true ->
        Exists (yieldsReading (PgeCsvParser.readRow host (Electric.columns csv)))
               (Electric.dataRows csv) ->
        exists r, PgeCsvParser.parsePgeIntervalCsv host csv = Returns r).
Proof.
  split; [| split; [| split; [| split]]].
  - intros host cols rows. apply readRows_spec.
  - apply readRow_plain.
  - apply readRow_solar.
  - intros host csv r H. apply electric_returns in H as (_ & _ & ->).
    apply skip_warning.
  - intros host csv H1 H2 H3 H4.
    assert (Hx := none_or_some (PgeCsvParser.readRow host (Electric.columns csv))
                               (Electric.dataRows csv)).
    destruct (electric_cases host csv) as
      [ (? & _) | [ (_ & ? & _) | [ (_ & _ & ? & _)
      | [ (_ & _ & _ & ? & _) | (_ & _ & _ & _ & Hr) ]]]];
      first [ exact Hr | exfalso; first [lia | contradiction | congruence | auto] ].
Qed.

(** C6 at an export with two rows of the same timestamp. *)
Lemma C6_normalized_stream_witness :
  exists r,
    PgeCsvParser.parsePgeIntervalCsv utcHost csvUsage = Returns r
    /\ normalizes (rawReadings (Electric.loop utcHost csvUsage)) (readings r).
Proof.
  eexists. split.
  - vm_compute. reflexivity.
  - apply (proj1 C6_normalized_stream). vm_compute. reflexivity.
Defined.

(** C8 at a solar row whose import cell does not parse. *)
Lemma C8_row_level_skips_witness :
  PgeCsvParser.readRow utcHost solarColumns ["01/18/2025"; "00:30"; "n/a"; "0.5"]%string
  = Some (1737160200000%Z,
          orZero (parseNumber (cellAt ["01/18/2025"; "00:30"; "n/a"; "0.5"]%string
                                      (importIdx solarColumns)))
          - orZero (parseNumber (cellAt ["01/18/2025"; "00:30"; "n/a"; "0.5"]%string
                                        (exportIdx solarColumns)))).
Proof.
  apply (proj1 (proj2 (proj2 C8_row_level_skips))).
  - reflexivity.
  - reflexivity.
Defined.

(** The scenario of the specification: the two rows of 00:15 are one
    reading of 1.234 + 1.000 kWh, each cell read as the nearest
    double, the total row is skipped and reported once. *)
Example duplicate_rows_sum :
  exists r1 r2 r3,
    PgeCsvParser.parsePgeIntervalCsv utcHost csvUsage
    = Returns (mkParsed [r1; r2; r3] [SkippedRows 1])
    /\ map timeOf [r1; r2; r3] = [1737158400000; 1737159300000; 1737160200000]%Z
    /\ value r1 == 0.5 /\ value r2 == roundToDouble 1.234 + 1.000 /\ value r3 == 2.5.
Proof.
  do 3 eexists. split; [vm_compute; reflexivity |].
  repeat split; reflexivity.
Qed.

(** Import 2.0 and export 0.5 net to 1.5, with the solar note. *)
Example net_usage :
  exists r1 r2 r3,
    PgeCsvParser.parsePgeIntervalCsv utcHost csvSolar
    = Returns (mkParsed [r1; r2; r3] [SolarNetUsage])
    /\ value r1 == 1.5.
Proof.
  do 3 eexists. split; [vm_compute; reflexivity |]. reflexivity.
Qed.

Example fatal_errors :
  PgeCsvParser.parsePgeIntervalCsv utcHost "a,b,c" = Throws EmptyOrUnreadable
  /\ PgeCsvParser.parsePgeIntervalCsv utcHost "Name,Address,Account
x,y,z" = Throws NoHeaderRow
  /\ PgeCsvParser.parsePgeIntervalCsv utcHost "date,time,kwh cost
1,2,3" = Throws NoUsageColumn
  /\ PgeCsvParser.parsePgeIntervalCsv utcHost "date,time,usage kwh
01/18/2025,00:15,n/a" = Throws NoReadingsParsed
  /\ PgeCsvParser.parsePgeIntervalCsv utcHost "a,b,kwh
1,2,3" = Throws NoHeaderRow
  /\ PgeGasCsvParser.parsePgeGasCsv utcHost "a,b,therms
1,2,n/a" = Throws NoReadingsParsed
  /\ PgeGasCsvParser.parsePgeGasCsv utcHost "date,time,reading
1,2,3" = Throws NoHeaderRow
  /\ PgeGasCsvParser.parsePgeGasCsv utcHost "date,time,usage
1,2,3" = Throws NoUsageColumn.
Proof. repeat split; vm_compute; reflexivity. Qed.

(** The example files and the fatal inputs above are read the same
    way whatever the host's native parser answers. *)
Example native_parser_not_consulted (native : string -> option Z) :
  let host := mkHost utcLocal native utcCalendar in
  PgeCsvParser.parsePgeIntervalCsv host csvUsage
  = PgeCsvParser.parsePgeIntervalCsv utcHost csvUsage
  /\ PgeCsvParser.parsePgeIntervalCsv host csvSolar
     = PgeCsvParser.parsePgeIntervalCsv utcHost csvSolar
  /\ PgeGasCsvParser.parsePgeGasCsv host csvGas
     = PgeGasCsvParser.parsePgeGasCsv utcHost csvGas
  /\ PgeCsvParser.parsePgeIntervalCsv host "date,time,usage kwh
01/18/2025,00:15,n/a" = Throws NoReadingsParsed
  /\ PgeGasCsvParser.parsePgeGasCsv host "a,b,therms
1,2,n/a" = Throws NoReadingsParsed.
Proof. repeat split; vm_compute; reflexivity. Qed.

(* ================================================================= *)
(** ** The field interpreters on the formats the source names *)

(** "1,234.56", "0.123 kWh", "$12.34": separators are dropped and the
    first number of the cell is read, as the double nearest to it. *)
Example parseNumber_formats :
  map parseNumber ["1,234.56"; "0.123 kWh"; "$12.34"; "-5"; "1.2.3"; "n/a"; ""]%string
  = [Some (roundToDouble 1234.56); Some (roundToDouble 0.123); Some (roundToDouble 12.34);
     Some (-5); Some (roundToDouble 1.2); None; None]
  /\ roundToDouble 1234.56 = 2714826150374277 # 2199023255552
  /\ roundToDouble (1 # 10) = 3602879701896397 # 36028797018963968.
Proof. repeat split; vm_compute; reflexivity. Qed.

(** Beyond 53 bits a numeral is rounded, and one that rounds to
    Infinity is refused; the largest double, 2 ^ 1024 - 2 ^ 971, is
    read back.  An exponent is not part of the numeral. *)
Example parseNumber_rounds :
  parseNumber "9007199254740993" = Some 9007199254740992
  /\ parseNumber (stringOfZ (10 ^ 309)) = None
  /\ parseNumber (stringOfZ (2 ^ 1024 - 2 ^ 971)) = Some (infinity - inject_Z (2 ^ 971))
  /\ parseNumber "5e-324" = Some 5.
Proof. repeat split; vm_compute; reflexivity. Qed.

(** "HH:MM", "HH:MM:SS", "H:MM AM": 12 AM is hour 0, 12 PM is hour 12,
    hour 24 is let through, and a 12-hour time outside 1 to 12 is
    refused. *)
Example parseTime_formats :
  map parseTime ["00:15"; "10:15:30"; "12:15 AM"; "12:00 pm"; "1:05PM"; "24:00";
                 "25:00"; "13:00 PM"; "0:30 am"; "10:61"; "7:5"]%string
  = [Some (0, 15, 0); Some (10, 15, 30); Some (0, 15, 0); Some (12, 0, 0);
     Some (13, 5, 0); Some (24, 0, 0); None; None; None; None; None]%Z.
Proof. vm_compute. reflexivity. Qed.

(** YYYY-MM-DD, MM/DD/YYYY or M/D/YY, MM-DD-YYYY; the day is checked
    against 1 to 31 and not against the month. *)
Example parseUsDate_formats :
  map parseUsDate ["2025-01-18"; "01/18/2025"; "1/8/25"; "01-18-2025"; "02/31/2025";
                   "13/01/2025"; "2025-1-18"; "1/0/2025"]%string
  = [Some (2025, 0, 18); Some (2025, 0, 18); Some (2025, 0, 8); Some (2025, 0, 18);
     Some (2025, 1, 31); None; None; None]%Z.
Proof. vm_compute. reflexivity. Qed.

(** A quoted cell keeps its commas and line feeds, a doubled quote in
    it is one quote, and CR LF ends a row as LF does. *)
Example parseCsvRows_quotes :
  parseCsvRows ("a," ++ String quoteChar "b,c" ++ String quoteChar ",d")%string
  = [["a"; "b,c"; "d"]]%string
  /\ parseCsvRows ("a," ++ String quoteChar "x" ++ String quoteChar (String quoteChar "y")
                   ++ String quoteChar ",d")%string
     = [["a"; ("x" ++ String quoteChar "y")%string; "d"]]%string
  /\ parseCsvRows ("a,b" ++ String "013" (String "010" "c,d") ++ String "013" "e")%string
     = [["a"; "b"]; ["c"; "d"]; ["e"]]%string
  /\ parseCsvRows ("a,b" ++ String "010" (" , " ++ String "010" "c"))%string
     = [["a"; "b"]; ["c"]]%string.
Proof. repeat split; vm_compute; reflexivity. Qed.

Example normalizeHeader_formats :
  map normalizeHeader ["  Usage  (kWh) "; "START_DATE"; "Interval-Start"]%string
  = ["usage kwh"; "startdate"; "intervalstart"]%string.
Proof. vm_compute. reflexivity. Qed.

(** "01/18/2025 12:15 AM" in one cell, on a host whose native parser
    refuses it. *)
Example parseSingleDateTimeField_split :
  parseSingleDateTimeField utcHost "01/18/2025 12:15 AM" = Some 1737159300000%Z
  /\ parseSingleDateTimeField utcHost "01/18/2025" = None.
Proof. split; vm_compute; reflexivity. Qed.

(* ################################################################# *)
(** * Further properties of the code *)

(* ================================================================= *)
(** ** Sums over groups *)

Lemma sumBy_ext {A} (f g : A -> Q) l :
  (forall x, In x l -> f x == g x) -> sumBy f l == sumBy g l.
Proof.
  induction l as [| x l IH]; intros H.
  - reflexivity.
  - rewrite !sumBy_cons, IH, (H x); [reflexivity | now left |].
    intros y Hy. apply H. now right.
Qed.

Lemma sumBy_plus {A} (f g : A -> Q) l :
  sumBy (fun x => f x + g x) l == sumBy f l + sumBy g l.
Proof.
  induction l as [| x l IH].
  - rewrite !sumBy_nil. ring.
  - rewrite !sumBy_cons, IH. ring.
Qed.

Lemma sumBy_zero {A} (f : A -> Q) l :
  (forall x, In x l -> f x == 0) -> sumBy f l == 0.
Proof.
  intros H. rewrite (sumBy_ext f (fun _ => 0) l H).
  induction l as [| x l IH]; [reflexivity |].
  rewrite sumBy_cons, IH; [ring |]. intros y Hy. apply H. now right.
Qed.

Lemma sumBy_map {A B} (g : A -> B) (f : B -> Q) l :
  sumBy f (map g l) == sumBy (fun x => f (g x)) l.
Proof.
  induction l as [| x l IH]; [reflexivity |].
  simpl map. rewrite !sumBy_cons, IH. reflexivity.
Qed.

Section Groups.
Context {K A : Type} (eqb : K -> K -> bool).
Hypothesis eqb_eq : forall x y, eqb x y = true <-> x = y.
Variables (key : A -> K) (f : A -> Q).

Lemma sumBy_indicator k v ks :
  NoDup ks -> In k ks ->
  sumBy (fun k' => if eqb k k' then v else 0) ks == v.
Proof.
  induction 1 as [| k0 ks Hn Hnd IH]; intros Hin; [contradiction |].
  rewrite sumBy_cons. destruct Hin as [-> | Hin].
  - rewrite (eqb_refl_true eqb eqb_eq).
    rewrite sumBy_zero; [ring |].
    intros k' Hk'. rewrite (eqb_neq_false eqb eqb_eq); [reflexivity |].
    intros ->. contradiction.
  - rewrite IH by assumption.
    rewrite (eqb_neq_false eqb eqb_eq); [ring |].
    intros ->. contradiction.
Qed.

(** Summing group by group is summing everything, when every item has
    its key among the distinct keys [ks]. *)
Lemma sumBy_groups l : forall ks,
  NoDup ks -> (forall x, In x l -> In (key x) ks) ->
  sumBy (fun k => sumBy f (filter (fun x => eqb (key x) k) l)) ks == sumBy f l.
Proof.
  induction l as [| x l IH]; intros ks Hnd Hin.
  - simpl. rewrite sumBy_zero; [reflexivity |]. intros; reflexivity.
  - assert (E : sumBy (fun k => sumBy f (filter (fun y => eqb (key y) k) (x :: l))) ks
                == sumBy (fun k => (if eqb (key x) k then f x else 0)
                                   + sumBy f (filter (fun y => eqb (key y) k) l)) ks).
    { apply sumBy_ext. intros k _. simpl.
      destruct (eqb (key x) k); [rewrite sumBy_cons |]; ring. }
    rewrite E, sumBy_plus, sumBy_indicator, IH, sumBy_cons; auto.
    + reflexivity.
    + intros y Hy. apply Hin. now right.
    + apply Hin. now left.
Qed.
End Groups.

(* ================================================================= *)
(** ** The month buckets of the cost engine *)

Lemma assocGet_None {K V} (eqb : K -> K -> bool)
    (eqb_eq : forall x y, eqb x y = true <-> x = y) k (m : list (K * V)) :
  assocGet eqb k m = None <-> ~ In k (map fst m).
Proof.
  induction m as [| [k' v] m IH]; simpl; [tauto |].
  destruct (eqb k' k) eqn:E.
  - apply eqb_eq in E. split; [discriminate | tauto].
  - rewrite IH. split; [| tauto]. intros H [-> | H']; auto.
    rewrite (eqb_refl_true eqb eqb_eq) in E. discriminate.
Qed.

Lemma sumBy_mapSet (g : Bucket -> Q) k nb (pm : list (string * Bucket)) :
  sumBy (fun kv => g (snd kv)) (mapSet k nb pm)
  == sumBy (fun kv => g (snd kv)) pm
     - match mapGet k pm with Some b => g b | None => 0 end
     + g nb.
Proof.
  unfold mapSet, mapGet. induction pm as [| [k' v'] pm IH]; simpl.
  - rewrite sumBy_cons, sumBy_nil. simpl. ring.
  - destruct (String.eqb k' k); rewrite !sumBy_cons; simpl; [ring |].
    rewrite IH. ring.
Qed.

Lemma readingsOfMonth_none k seen :
  ~ In k (map monthOf seen) -> readingsOfMonth k seen = [].
Proof.
  unfold readingsOfMonth. induction seen as [| r seen IH]; simpl; [reflexivity |].
  intros H. destruct (String.eqb_spec (monthOf r) k) as [E | E].
  - exfalso. apply H. now left.
  - apply IH. tauto.
Qed.

Lemma accounts_init : accounts initLoop [].
Proof.
  unfold accounts, initLoop; simpl. repeat split; try (constructor || tauto || contradiction).
Qed.

Lemma accumulate_accounts st seen r q :
  accounts st seen ->
  accounts (accumulate (resetOnMonthChange st (timestamp r)) (monthKeyOf (timestamp r)) r q)
           (r :: seen).
Proof.
  intros (Hnd & Hk & Hu & Hc).
  assert (Hpm : periodMap (resetOnMonthChange st (timestamp r)) = periodMap st)
    by (unfold resetOnMonthChange; destruct (negb _); reflexivity).
  assert (Hrt : runTotalCost (resetOnMonthChange st (timestamp r)) = runTotalCost st)
    by (unfold resetOnMonthChange; destruct (negb _); reflexivity).
  unfold accounts, accumulate. cbn [periodMap runTotalCost]. rewrite Hpm, Hrt.
  set (k := monthKeyOf (timestamp r)).
  set (b := match mapGet k (periodMap st) with Some b => b | None => mkBucket 0 0 end).
  set (nb := mkBucket (bUsage b + value r) (bCost b + value r * q)).
  assert (Hb : bUsage b == sumBy value (readingsOfMonth k seen)).
  { subst b. destruct (mapGet k (periodMap st)) as [b0 |] eqn:E.
    - apply Hu. now apply (assocGet_In String.eqb string_eqb_eq).
    - apply (assocGet_None String.eqb string_eqb_eq) in E.
      rewrite readingsOfMonth_none by (rewrite <- Hk; exact E). reflexivity. }
  split; [apply (keys_set_NoDup String.eqb string_eqb_eq); exact Hnd |].
  split; [| split].
  - intros k'. unfold mapSet. rewrite (keys_set_In String.eqb string_eqb_eq).
    simpl. rewrite Hk. unfold monthOf at 1. fold k. split; intros [H | H]; auto.
  - intros k' b' Hin.
    apply (In_assocGet String.eqb string_eqb_eq) in Hin;
      [| apply (keys_set_NoDup String.eqb string_eqb_eq); exact Hnd].
    unfold readingsOfMonth. simpl. unfold monthOf at 1. fold k.
    destruct (String.eqb_spec k k') as [<- | Hne].
    + unfold mapSet in Hin. rewrite (assocGet_set_same String.eqb string_eqb_eq) in Hin.
      injection Hin as <-. subst nb. cbn [bUsage]. rewrite sumBy_cons, Hb.
      unfold readingsOfMonth. ring.
    + unfold mapSet in Hin.
      rewrite (assocGet_set_other String.eqb string_eqb_eq) in Hin by exact Hne.
      apply Hu. now apply (assocGet_In String.eqb string_eqb_eq).
  - rewrite (sumBy_mapSet bCost), <- Hc. fold b.
    assert (E : match mapGet k (periodMap st) with Some b0 => bCost b0 | None => 0 end
                == bCost b).
    { subst b. destruct (mapGet k (periodMap st)); reflexivity. }
    rewrite E. subst nb. cbn [bCost]. ring.
Qed.

Lemma forEach_accounts rateFor l : forall st seen st',
  accounts st seen -> forEach (stepWith rateFor) l st = Some st' ->
  accounts st' (rev l ++ seen).
Proof.
  induction l as [| r l IH]; intros st seen st' Ha Hf; simpl in Hf |- *.
  - now injection Hf as <-.
  - unfold stepWith in Hf at 1.
    destruct (rateFor _ _) as [q |]; [| discriminate].
    rewrite <- app_assoc. apply (IH _ (r :: seen) _ (accumulate_accounts st seen r q Ha) Hf).
Qed.

(* ---------- the order of month keys ---------- *)

Lemma compare_lt_trans a b c :
  String.compare a b = Lt -> String.compare b c = Lt -> String.compare a c = Lt.
Proof.
  intros H1 H2. apply OrderedTypeEx.String_as_OT.cmp_lt.
  apply OrderedTypeEx.String_as_OT.cmp_lt in H1, H2.
  eapply OrderedTypeEx.String_as_OT.lt_trans; eassumption.
Qed.

Lemma compare_le_trans a b c :
  String.compare a b <> Gt -> String.compare b c <> Gt -> String.compare a c <> Gt.
Proof.
  intros H1 H2.
  destruct (String.compare a b) eqn:E1; [| | congruence].
  - apply String.compare_eq_iff in E1. now subst.
  - destruct (String.compare b c) eqn:E2; [| | congruence].
    + apply String.compare_eq_iff in E2. subst. now rewrite E1.
    + now rewrite (compare_lt_trans a b c E1 E2).
Qed.

Lemma compare_refl a : String.compare a a = Eq.
Proof.
  pose proof (String.compare_antisym a a) as H.
  destruct (String.compare a a); simpl in H; congruence.
Qed.


Lemma StronglySorted_flip_NoDup {A} (R : A -> A -> Prop) (key : A -> string) l :
  (forall a b, R a b -> key a <> key b) -> StronglySorted R l -> NoDup (map key l).
Proof.
  intros HR. induction 1 as [| x l Hs IH Hx]; simpl; constructor; [| exact IH].
  rewrite Forall_forall in Hx. intros Hin.
  apply in_map_iff in Hin as (y & Hy & Hin). apply (HR x y (Hx y Hin)). congruence.
Qed.

(* ---------- what calculateDetailedCost returns ---------- *)

Lemma buildBreakdown_perm t pm :
  Permutation (buildBreakdown t pm)
    (map (fun kv => mkBreakdown (fst kv) (bUsage (snd kv))
                                (bCost (snd kv) + fixedMonthlyCharge t)) pm).
Proof. apply sortBy_perm. Qed.

Lemma buildBreakdown_names t pm :
  Permutation (map monthName (buildBreakdown t pm)) (map fst pm).
Proof.
  rewrite (Permutation_map monthName (buildBreakdown_perm t pm)), map_map.
  simpl. reflexivity.
Qed.

Lemma buildBreakdown_sorted t pm :
  NoDup (map fst pm) -> StronglySorted newerFirst (buildBreakdown t pm).
Proof.
  intros Hnd.
  assert (Hs : StronglySorted
                 (fun a b => String.compare (monthName b) (monthName a) <> Gt)
                 (buildBreakdown t pm)).
  { apply sortBy_sorted.
    - intros x y z H1 H2. eapply compare_le_trans; eassumption.
    - intros x y H. unfold localeCompare in H.
      rewrite String.compare_antisym.
      destruct (String.compare (monthName y) (monthName x)); simpl; congruence.
    - intros x y H. unfold localeCompare in H.
      destruct (String.compare (monthName y) (monthName x)); congruence. }
  assert (Hn : NoDup (map monthName (buildBreakdown t pm))).
  { eapply Permutation_NoDup; [symmetry; apply buildBreakdown_names | exact Hnd]. }
  clear Hnd. induction Hs as [| x l Hs IH Hx]; [constructor |].
  simpl in Hn. inversion Hn as [| ? ? Hnotin Hn']; subst.
  constructor; [auto |].
  rewrite Forall_forall in Hx |- *. intros y Hy. specialize (Hx y Hy).
  unfold newerFirst, localeCompare.
  destruct (String.compare (monthName y) (monthName x)) eqn:E; [| reflexivity | congruence].
  apply String.compare_eq_iff in E. exfalso. apply Hnotin. rewrite <- E. now apply in_map.
Qed.


Section Returned.
Variable rateFor : Q -> Date -> option Q.
Variables (rs : list EnergyReading) (t : Tariff) (st : LoopState).
Hypothesis Hrun : forEach (stepWith rateFor) rs initLoop = Some st.

Let months := buildBreakdown t (periodMap st).

Lemma run_accounts : accounts st (rev rs).
Proof.
  pose proof (forEach_accounts rateFor rs initLoop [] st accounts_init Hrun) as H.
  now rewrite app_nil_r in H.
Qed.

Lemma returned_sorted : StronglySorted newerFirst months.
Proof. apply buildBreakdown_sorted, run_accounts. Qed.

Lemma returned_months k : In k (map monthName months) <-> In k (map monthOf rs).
Proof.
  destruct run_accounts as (_ & Hk & _).
  transitivity (In k (map fst (periodMap st))).
  - split; apply Permutation_in; [| symmetry]; apply buildBreakdown_names.
  - rewrite Hk, map_rev. symmetry. apply in_rev.
Qed.


Lemma returned_total :
  runTotalCost st
  + inject_Z (Z.of_nat (List.length months)) * fixedMonthlyCharge t
  == sumBy cost months.
Proof.
  destruct run_accounts as (_ & _ & _ & Hc). unfold months.
  rewrite (sumBy_permutation cost _ _ (buildBreakdown_perm t (periodMap st))).
  rewrite (Permutation_length (buildBreakdown_perm t (periodMap st))).
  rewrite length_map, sumBy_map, Hc. simpl. clear.
  induction (periodMap st) as [| kv pm IH].
  - simpl. rewrite !sumBy_nil. ring.
  - rewrite !sumBy_cons, <- IH.
    change (List.length (kv :: pm)) with (S (List.length pm)).
    rewrite Nat2Z.inj_succ. unfold Z.succ. rewrite inject_Z_plus. ring.
Qed.

Lemma returned_usage_total : sumBy usage months == sumBy value rs.
Proof.
  destruct run_accounts as (Hnd & Hk & Hu & _). unfold months.
  rewrite (sumBy_permutation usage _ _ (buildBreakdown_perm t (periodMap st))).
  rewrite sumBy_map. simpl.
  rewrite (sumBy_ext _ (fun kv => sumBy value (readingsOfMonth (fst kv) (rev rs)))).
  2:{ intros [k b] Hin. simpl. now apply Hu. }
  rewrite <- (sumBy_map fst (fun k => sumBy value (readingsOfMonth k (rev rs)))).
  unfold readingsOfMonth.
  rewrite (sumBy_groups String.eqb string_eqb_eq monthOf value (rev rs)); auto.
  - apply sumBy_permutation. symmetry. apply Permutation_rev.
  - intros x Hx. apply Hk. now apply in_map.
Qed.
End Returned.

Lemma ec_run rs t res :
  EnergyCalculator.calculateDetailedCost rs t = Some res ->
  exists st, forEach (stepWith (EnergyCalculator.rateFor t)) rs initLoop = Some st
    /\ res = mkDetailed
               (runTotalCost st
                + inject_Z (Z.of_nat (List.length (buildBreakdown t (periodMap st))))
                  * fixedMonthlyCharge t)
               (buildBreakdown t (periodMap st)).
Proof.
  unfold EnergyCalculator.calculateDetailedCost.
  change (EnergyCalculator.step t) with (stepWith (EnergyCalculator.rateFor t)).
  destruct (forEach _ rs initLoop) as [st |]; [| discriminate].
  intros [= <-]. eauto.
Qed.

Lemma rev_run rs t res :
  Revised.calculateDetailedCost rs t = Some res ->
  exists st, forEach (stepWith (Revised.rateFor t)) rs initLoop = Some st
    /\ res = mkDetailed
               (runTotalCost st
                + inject_Z (Z.of_nat (List.length (buildBreakdown t (periodMap st))))
                  * fixedMonthlyCharge t)
               (buildBreakdown t (periodMap st)).
Proof.
  unfold Revised.calculateDetailedCost.
  change (Revised.step t) with (stepWith (Revised.rateFor t)).
  destruct (forEach _ rs initLoop) as [st |]; [| discriminate].
  intros [= <-]. eauto.
Qed.




(* ---------- the fixed charge ---------- *)

Lemma sortInsert_Forall2 {A} (gtb : A -> A -> bool) (R : A -> A -> Prop) :
  (forall x x' y y', R x x' -> R y y' -> gtb x y = gtb x' y') ->
  forall x x' l l', R x x' -> Forall2 R l l' ->
                    Forall2 R (sortInsert gtb x l) (sortInsert gtb x' l').
Proof.
  intros Hg x x' l l' Hx Hl.
  induction Hl as [| y y' l l' Hy Hl IH]; simpl; [now repeat constructor |].
  rewrite (Hg x x' y y' Hx Hy). destruct (gtb x' y'); now repeat constructor.
Qed.

Lemma sortBy_Forall2 {A} (gtb : A -> A -> bool) (R : A -> A -> Prop) :
  (forall x x' y y', R x x' -> R y y' -> gtb x y = gtb x' y') ->
  forall l l', Forall2 R l l' -> Forall2 R (sortBy gtb l) (sortBy gtb l').
Proof.
  intros Hg l l' Hl. induction Hl as [| x x' l l' Hx Hl IH]; simpl; [constructor |].
  now apply sortInsert_Forall2.
Qed.

Lemma buildBreakdown_fixed t pm :
  Forall2 (fun m m0 => monthName m = monthName m0 /\ usage m = usage m0
                       /\ cost m == cost m0 + fixedMonthlyCharge t)
          (buildBreakdown t pm) (buildBreakdown (withFixedCharge 0 t) pm).
Proof.
  unfold buildBreakdown. apply sortBy_Forall2.
  - intros x x' y y' (Hx & _) (Hy & _). now rewrite Hx, Hy.
  - induction pm as [| kv pm IH]; simpl; constructor; [| exact IH].
    simpl. repeat split. ring.
Qed.

Lemma costBy_run rev rs t res :
  costBy rev rs t = Some res ->
  exists rateFor st,
    forEach (stepWith rateFor) rs initLoop = Some st
    /\ res = mkDetailed
               (runTotalCost st
                + inject_Z (Z.of_nat (List.length (buildBreakdown t (periodMap st))))
                  * fixedMonthlyCharge t)
               (buildBreakdown t (periodMap st))
    /\ costBy rev rs (withFixedCharge 0 t)
       = Some (mkDetailed
                 (runTotalCost st
                  + inject_Z (Z.of_nat (List.length
                       (buildBreakdown (withFixedCharge 0 t) (periodMap st)))) * 0)
                 (buildBreakdown (withFixedCharge 0 t) (periodMap st))).
Proof.
  destruct rev; cbn [costBy]; intros H.
  - destruct (ec_run rs t res H) as (st & Hf & ->).
    exists (EnergyCalculator.rateFor t), st. split; [exact Hf |]. split; [reflexivity |].
    unfold EnergyCalculator.calculateDetailedCost.
    change (EnergyCalculator.step (withFixedCharge 0 t))
      with (stepWith (EnergyCalculator.rateFor t)).
    now rewrite Hf.
  - destruct (rev_run rs t res H) as (st & Hf & ->).
    exists (Revised.rateFor t), st. split; [exact Hf |]. split; [reflexivity |].
    unfold Revised.calculateDetailedCost.
    change (Revised.step (withFixedCharge 0 t)) with (stepWith (Revised.rateFor t)).
    now rewrite Hf.
Qed.

(** X2.  In either revision the total cost is the sum of the monthly
    costs of the breakdown and the monthly usages add up to what was
    read.  Each monthly cost carries the fixed charge once: it is the
    cost of that month under the same tariff without fixed charge plus
    the fixed charge, month by month, and the total without fixed
    charge is the total less one fixed charge per month. *)
Theorem totals_add_up rev rs t res :
  costBy rev rs t = Some res ->
  dcTotalCost res == sumBy cost (dcBreakdown res)
  /\ sumBy usage (dcBreakdown res) == sumBy value rs
  /\ exists bare,
       costBy rev rs (withFixedCharge 0 t) = Some bare
       /\ Forall2 (fun m m0 => monthName m = monthName m0 /\ usage m = usage m0
                               /\ cost m == cost m0 + fixedMonthlyCharge t)
                  (dcBreakdown res) (dcBreakdown bare)
       /\ dcTotalCost bare == energyOnly t res.
Proof.
  intros H. destruct (costBy_run rev rs t res H) as (rf & st & Hf & -> & Hbare).
  cbn [dcBreakdown dcTotalCost]. split; [| split].
  - exact (returned_total rf rs t st Hf).
  - exact (returned_usage_total rf rs t st Hf).
  - eexists. split; [exact Hbare |]. cbn [dcBreakdown dcTotalCost].
    split; [apply buildBreakdown_fixed |].
    unfold energyOnly. cbn [dcBreakdown dcTotalCost]. ring.
Qed.

(** X2 on E-Home, whose fixed charge is 15, over two months. *)
Lemma totals_add_up_witness :
  exists res,
    costBy revised twoMonths eHome = Some res
    /\ dcTotalCost res == sumBy cost (dcBreakdown res)
    /\ sumBy usage (dcBreakdown res) == sumBy value twoMonths
    /\ exists bare,
         costBy revised twoMonths (withFixedCharge 0 eHome) = Some bare
         /\ Forall2 (fun m m0 => monthName m = monthName m0 /\ usage m = usage m0
                                 /\ cost m == cost m0 + fixedMonthlyCharge eHome)
                    (dcBreakdown res) (dcBreakdown bare)
         /\ dcTotalCost bare == energyOnly eHome res.
Proof.
  eexists. split; [vm_compute; reflexivity |].
  apply (totals_add_up revised twoMonths eHome). vm_compute. reflexivity.
Defined.

(* ---------- the TypeError ---------- *)

Lemma ec_rateFor_none t c d : periods t = [] -> EnergyCalculator.rateFor t c d = None.
Proof.
  intros Hp. unfold EnergyCalculator.rateFor. rewrite Hp. destruct (type t); reflexivity.
Qed.

Lemma rev_rateFor_none t c d : periods t = [] -> Revised.rateFor t c d = None.
Proof.
  intros Hp. unfold Revised.rateFor. rewrite Hp. destruct (type t); reflexivity.
Qed.

Lemma ec_throws rs t :
  EnergyCalculator.calculateDetailedCost rs t = None <-> rs <> [] /\ periods t = [].
Proof.
  split.
  - intros H. destruct (periods t) as [| p ps] eqn:Hp.
    + split; [| reflexivity]. intros ->. discriminate H.
    + destruct (ec_calc_total rs t) as (c & Hc & _); [rewrite Hp; discriminate |].
      congruence.
  - intros [Hrs Hp]. destruct rs as [| r rs]; [congruence |].
    unfold EnergyCalculator.calculateDetailedCost. simpl.
    unfold EnergyCalculator.step at 1. now rewrite ec_rateFor_none.
Qed.

Lemma rev_calc_total rs t :
  periods t <> [] ->
  exists c, Revised.calculateDetailedCost rs t = Some c
    /\ energyOnly t c == pricedEnergy (revRate t) [] rs.
Proof.
  intros Hp. apply rev_calc_priced. intros c d. now apply rev_rateFor_total.
Qed.

Lemma rev_throws rs t :
  Revised.calculateDetailedCost rs t = None <-> rs <> [] /\ periods t = [].
Proof.
  split.
  - intros H. destruct (periods t) as [| p ps] eqn:Hp.
    + split; [| reflexivity]. intros ->. discriminate H.
    + destruct (rev_calc_total rs t) as (c & Hc & _); [rewrite Hp; discriminate |].
      congruence.
  - intros [Hrs Hp]. destruct rs as [| r rs]; [congruence |].
    unfold Revised.calculateDetailedCost. simpl.
    unfold Revised.step at 1. now rewrite rev_rateFor_none.
Qed.

(** X3.  In either revision [calculateDetailedCost] throws (the
    [TypeError] of reading [tariff.periods[0].rate]) exactly when the
    tariff has no period and there is at least one reading; with no
    reading it returns a total of 0 and an empty breakdown whatever
    the tariff. *)
Theorem calculateDetailedCost_throws rs t :
  (EnergyCalculator.calculateDetailedCost rs t = None <-> rs <> [] /\ periods t = [])
  /\ (Revised.calculateDetailedCost rs t = None <-> rs <> [] /\ periods t = [])
  /\ (exists res, EnergyCalculator.calculateDetailedCost [] t = Some res
                  /\ dcTotalCost res == 0 /\ dcBreakdown res = [])
  /\ (exists res, Revised.calculateDetailedCost [] t = Some res
                  /\ dcTotalCost res == 0 /\ dcBreakdown res = []).
Proof.
  split; [apply ec_throws |]. split; [apply rev_throws |].
  split; eexists; (split; [reflexivity |]); split; try reflexivity;
    cbn; unfold Qeq; simpl; ring.
Qed.

(* ---------- time-of-use costs and the order of the readings ---------- *)

Lemma priced_any_order rateAt :
  (forall c c' d, rateAt c d = rateAt c' d) ->
  forall l seen, pricedEnergy rateAt seen l == sumBy (touCharge rateAt) l.
Proof.
  intros Hind. induction l as [| r l IH]; intro seen; simpl.
  - reflexivity.
  - rewrite sumBy_cons, IH. unfold touCharge at 1.
    now rewrite (Hind _ 0 (timestamp r)).
Qed.

Lemma ecRate_tou t : type t = tou -> forall c c' d, ecRate t c d = ecRate t c' d.
Proof. intros Ht c c' d. unfold ecRate, EnergyCalculator.rateFor. now rewrite Ht. Qed.

Lemma revRate_tou t : type t = tou -> forall c c' d, revRate t c d = revRate t c' d.
Proof. intros Ht c c' d. unfold revRate, Revised.rateFor. now rewrite Ht. Qed.

Lemma sorted_unique {A} (R : A -> A -> Prop) :
  (forall x, ~ R x x) -> (forall x y z, R x y -> R y z -> R x z) ->
  forall l1 l2, StronglySorted R l1 -> StronglySorted R l2 ->
                (forall x, In x l1 <-> In x l2) -> l1 = l2.
Proof.
  intros Hirr Htr. induction l1 as [| x l1 IH]; intros [| y l2] H1 H2 Hin.
  - reflexivity.
  - exfalso. apply (Hin y). now left.
  - exfalso. apply (Hin x). now left.
  - inversion H1 as [| ? ? H1' Hx]; inversion H2 as [| ? ? H2' Hy]; subst.
    rewrite Forall_forall in Hx, Hy.
    assert (x = y) as ->.
    { destruct (proj1 (Hin x) (or_introl eq_refl)) as [E | E]; [congruence |].
      destruct (proj2 (Hin y) (or_introl eq_refl)) as [E' | E']; [congruence |].
      exfalso. apply (Hirr x). eapply Htr; [apply Hx | apply Hy]; assumption. }
    f_equal. apply IH; try assumption. intros z. split; intros Hz.
    + destruct (proj1 (Hin z) (or_intror Hz)) as [<- | E]; [| exact E].
      exfalso. exact (Hirr _ (Hx _ Hz)).
    + destruct (proj2 (Hin z) (or_intror Hz)) as [<- | E]; [| exact E].
      exfalso. exact (Hirr _ (Hy _ Hz)).
Qed.

Lemma newerFirst_names l :
  StronglySorted newerFirst l ->
  StronglySorted (fun a b => String.compare b a = Lt) (map monthName l).
Proof.
  induction 1 as [| x l Hs IH Hx]; simpl; constructor; [exact IH |].
  rewrite Forall_forall in Hx |- *. intros k Hk.
  apply in_map_iff in Hk as (y & <- & Hy). exact (Hx y Hy).
Qed.

Lemma same_months b b' :
  StronglySorted newerFirst b -> StronglySorted newerFirst b' ->
  (forall k, In k (map monthName b) <-> In k (map monthName b')) ->
  map monthName b = map monthName b'.
Proof.
  intros H1 H2 Hin.
  apply (sorted_unique (fun a b => String.compare b a = Lt)).
  - intros x. rewrite compare_refl. discriminate.
  - intros x y z Hxy Hyz. eapply compare_lt_trans; eassumption.
  - now apply newerFirst_names.
  - now apply newerFirst_names.
  - exact Hin.
Qed.

Section AnyOrder.
Variable rateFor : Q -> Date -> option Q.
Variable rateAt : Q -> Date -> Q.
Hypothesis rateFor_total : forall c d, rateFor c d = Some (rateAt c d).
Hypothesis rate_of_date : forall c c' d, rateAt c d = rateAt c' d.
Variable t : Tariff.

Lemma run_any_order rs rs' :
  Permutation rs rs' ->
  exists st st',
    forEach (stepWith rateFor) rs initLoop = Some st
    /\ forEach (stepWith rateFor) rs' initLoop = Some st'
    /\ runTotalCost st == runTotalCost st'
    /\ map monthName (buildBreakdown t (periodMap st))
       = map monthName (buildBreakdown t (periodMap st')).
Proof.
  intros Hp.
  destruct (forEach_priced rateFor rateAt rateFor_total rs initLoop [] tracks_init)
    as (st & Hf & _ & Hc).
  destruct (forEach_priced rateFor rateAt rateFor_total rs' initLoop [] tracks_init)
    as (st' & Hf' & _ & Hc').
  exists st, st'. split; [exact Hf |]. split; [exact Hf' |]. split.
  - rewrite Hc, Hc', !(priced_any_order rateAt rate_of_date).
    now rewrite (sumBy_permutation _ _ _ Hp).
  - apply same_months.
    + exact (returned_sorted rateFor rs t st Hf).
    + exact (returned_sorted rateFor rs' t st' Hf').
    + intros k. rewrite (returned_months rateFor rs t st Hf k).
      rewrite (returned_months rateFor rs' t st' Hf' k).
      split; apply Permutation_in; [| symmetry]; now apply Permutation_map.
Qed.
End AnyOrder.

(** X4.  For a time-of-use tariff the order of the readings does not
    matter: in either revision, two reading lists that are
    permutations of each other get the same total cost and the same
    months in the breakdown.  (For a flat or tiered tariff the running
    counter makes the order matter.) *)
Theorem tou_cost_any_order rs rs' t :
  type t = tou -> periods t <> [] -> Permutation rs rs' ->
  (exists res res',
      EnergyCalculator.calculateDetailedCost rs t = Some res
      /\ EnergyCalculator.calculateDetailedCost rs' t = Some res'
      /\ dcTotalCost res == dcTotalCost res'
      /\ map monthName (dcBreakdown res) = map monthName (dcBreakdown res'))
  /\ (exists res res',
        Revised.calculateDetailedCost rs t = Some res
        /\ Revised.calculateDetailedCost rs' t = Some res'
        /\ dcTotalCost res == dcTotalCost res'
        /\ map monthName (dcBreakdown res) = map monthName (dcBreakdown res')).
Proof.
  intros Ht Hp Hperm. split.
  - destruct (run_any_order (EnergyCalculator.rateFor t) (ecRate t)
                (fun c d => ec_rateFor_total t c d Hp) (ecRate_tou t Ht) t rs rs' Hperm)
      as (st & st' & Hf & Hf' & Hc & Hn).
    unfold EnergyCalculator.calculateDetailedCost.
    change (EnergyCalculator.step t) with (stepWith (EnergyCalculator.rateFor t)).
    rewrite Hf, Hf'. do 2 eexists. split; [reflexivity |]. split; [reflexivity |].
    cbn [dcTotalCost dcBreakdown]. split; [| exact Hn].
    rewrite Hc. apply (f_equal (@List.length _)) in Hn. rewrite !length_map in Hn.
    now rewrite Hn.
  - destruct (run_any_order (Revised.rateFor t) (revRate t)
                (fun c d => rev_rateFor_total t c d Hp) (revRate_tou t Ht) t rs rs' Hperm)
      as (st & st' & Hf & Hf' & Hc & Hn).
    unfold Revised.calculateDetailedCost.
    change (Revised.step t) with (stepWith (Revised.rateFor t)).
    rewrite Hf, Hf'. do 2 eexists. split; [reflexivity |]. split; [reflexivity |].
    cbn [dcTotalCost dcBreakdown]. split; [| exact Hn].
    rewrite Hc. apply (f_equal (@List.length _)) in Hn. rewrite !length_map in Hn.
    now rewrite Hn.
Qed.

(** X4 at the readings of two months, forwards and backwards. *)
Lemma tou_cost_any_order_witness :
  exists res res',
    EnergyCalculator.calculateDetailedCost twoMonths eHome = Some res
    /\ EnergyCalculator.calculateDetailedCost (rev twoMonths) eHome = Some res'
    /\ dcTotalCost res == dcTotalCost res'
    /\ map monthName (dcBreakdown res) = map monthName (dcBreakdown res').
Proof.
  apply (tou_cost_any_order twoMonths (rev twoMonths) eHome).
  - reflexivity.
  - discriminate.
  - apply Permutation_rev.
Defined.

(* ---------- compareTariffs, for either revision ---------- *)

Lemma mapM_None {A B} (f : A -> option B) l :
  mapM f l = None <-> Exists (fun x => f x = None) l.
Proof.
  induction l as [| x l IH]; simpl.
  - split; [discriminate | intros H; inversion H].
  - destruct (f x) as [y |] eqn:E.
    + destruct (mapM f l) as [ys |].
      * split; [discriminate |]. intros H. inversion H as [? ? Hx | ? ? Hl]; subst.
        -- congruence.
        -- apply IH in Hl. discriminate.
      * split; [| reflexivity]. intros _. right. now apply IH.
    + split; [| reflexivity]. intros _. now left.
Qed.

Section Comparison.
Variable calc : list EnergyReading -> Tariff -> option DetailedCost.
Hypothesis calc_throws : forall rs t, calc rs t = None <-> rs <> [] /\ periods t = [].

Lemma compareWith_shape rs cur all res :
  rs <> [] -> compareWith calc rs cur all = Some res ->
  exists current cc,
    currentOf cur all = Some current
    /\ calc rs current = Some cc
    /\ Forall2 (fun t r => exists c, calc rs t = Some c
                                     /\ r = comparisonOf rs current cc t c) all res.
Proof.
  intros Hrs Hres. destruct rs as [| first rest]; [congruence |].
  unfold compareWith in Hres. fold (currentOf cur all) in Hres.
  destruct (currentOf cur all) as [current |]; [| discriminate].
  destruct (calc (first :: rest) current) as [cc |] eqn:Hcc; [| discriminate].
  exists current, cc. split; [reflexivity |]. split; [exact Hcc |].
  cbv zeta in Hres. apply mapM_Forall2 in Hres.
  induction Hres as [| t r all' res' Hb _ IH]; constructor; [| exact IH].
  destruct (calc (first :: rest) t) as [c |] eqn:Hc; [| discriminate].
  injection Hb as <-. exists c. split; reflexivity.
Qed.

Lemma compareWith_throws rs cur all :
  rs <> [] ->
  (compareWith calc rs cur all = None
   <-> all = [] \/ Exists (fun t => periods t = []) all).
Proof.
  intros Hrs. destruct rs as [| first rest]; [congruence |].
  unfold compareWith. fold (currentOf cur all).
  destruct (currentOf cur all) as [current |] eqn:Hcur.
  - assert (Hin := currentOf_In _ _ _ Hcur).
    destruct (calc (first :: rest) current) as [cc |] eqn:Hcc.
    + cbv zeta. rewrite mapM_None. split.
      * intros H. right. apply Exists_exists in H as (t & Ht & Hn).
        apply Exists_exists. exists t. split; [exact Ht |].
        destruct (calc (first :: rest) t) eqn:E; [discriminate |].
        now apply calc_throws in E.
      * intros [-> | H]; [contradiction |].
        apply Exists_exists in H as (t & Ht & Hp). apply Exists_exists.
        exists t. split; [exact Ht |].
        assert (E : calc (first :: rest) t = None) by (apply calc_throws; split; congruence).
        now rewrite E.
    + split; [| reflexivity]. intros _. right. apply Exists_exists.
      exists current. split; [exact Hin |]. now apply calc_throws in Hcc.
  - split; [| reflexivity]. intros _. left.
    unfold currentOf in Hcur. destruct (find _ all); [discriminate |].
    destruct all; [reflexivity | discriminate].
Qed.

Lemma compareWith_fallback rs cur first rest :
  Forall (fun t => id t <> cur) (first :: rest) ->
  compareWith calc rs cur (first :: rest) = compareWith calc rs (id first) (first :: rest).
Proof.
  intros Hno. destruct rs as [| r rs]; [reflexivity |].
  unfold compareWith.
  assert (E1 : find (fun t => String.eqb (id t) cur) (first :: rest) = None).
  { induction Hno as [| t l Ht _ IH]; simpl; [reflexivity |].
    apply String.eqb_neq in Ht. now rewrite Ht. }
  rewrite E1. simpl find. rewrite String.eqb_refl. reflexivity.
Qed.
End Comparison.

Lemma either_shape rs cur all res :
  rs <> [] ->
  EnergyCalculator.compareTariffs rs cur all = Some res
  \/ Revised.compareTariffs rs cur all = Some res ->
  exists calc current cc,
    currentOf cur all = Some current
    /\ calc rs current = Some cc
    /\ Forall2 (fun t r => exists c, calc rs t = Some c
                                     /\ r = comparisonOf rs current cc t c) all res.
Proof.
  intros Hrs [H | H].
  - exists EnergyCalculator.calculateDetailedCost.
    now apply compareWith_shape with (calc := EnergyCalculator.calculateDetailedCost).
  - exists Revised.calculateDetailedCost.
    now apply compareWith_shape with (calc := Revised.calculateDetailedCost).
Qed.

(** X5.  For a non-empty reading list, [compareTariffs] of either
    revision throws exactly when the roster is empty or one of its
    tariffs has no period; for an empty reading list it returns the
    empty list whatever the roster. *)
Theorem compareTariffs_throws rs cur all :
  rs <> [] ->
  (EnergyCalculator.compareTariffs rs cur all = None
   <-> all = [] \/ Exists (fun t => periods t = []) all)
  /\ (Revised.compareTariffs rs cur all = None
      <-> all = [] \/ Exists (fun t => periods t = []) all)
  /\ EnergyCalculator.compareTariffs [] cur all = Some []
  /\ Revised.compareTariffs [] cur all = Some [].
Proof.
  intros Hrs. split; [| split; [| split; reflexivity]].
  - exact (compareWith_throws EnergyCalculator.calculateDetailedCost ec_throws rs cur all Hrs).
  - exact (compareWith_throws Revised.calculateDetailedCost rev_throws rs cur all Hrs).
Qed.

(** X5 at a roster one of whose tariffs has no period. *)
Lemma compareTariffs_throws_witness :
  EnergyCalculator.compareTariffs twoMonths "pge-e-home" [eHome; noPeriods] = None
  /\ Revised.compareTariffs twoMonths "pge-e-home" [] = None.
Proof.
  destruct (compareTariffs_throws twoMonths "pge-e-home" [eHome; noPeriods])
    as (H1 & _); [discriminate |].
  destruct (compareTariffs_throws twoMonths "pge-e-home" [])
    as (_ & H2 & _); [discriminate |].
  split.
  - apply H1. right. right. left. reflexivity.
  - apply H2. now left.
Defined.

(** X6.  When [compareTariffs] of either revision returns for a
    non-empty reading list, it returns one entry per tariff of the
    roster, in order, carrying the id and the name of its tariff and
    the total of the readings; and the entry of the tariff compared
    against has savings of zero. *)
Theorem current_saves_nothing rs cur all res :
  rs <> [] ->
  EnergyCalculator.compareTariffs rs cur all = Some res
  \/ Revised.compareTariffs rs cur all = Some res ->
  exists current,
    currentOf cur all = Some current
    /\ Forall2 (fun t r =>
                  tariffId r = id t
                  /\ tariffName r = tariffLabel t
                  /\ totalUsage r = sumBy value rs
                  /\ (t = current -> savingsVsCurrent r == 0)) all res.
Proof.
  intros Hrs H.
  destruct (either_shape rs cur all res Hrs H) as (calc & current & cc & Hcur & Hcc & Hall).
  exists current. split; [exact Hcur |]. clear H Hcur.
  induction Hall as [| t r all' res' (c & Hc & ->) _ IH]; [constructor |].
  constructor; [| exact IH].
  repeat split. intros ->. cbn [savingsVsCurrent comparisonOf].
  assert (c = cc) as -> by congruence. ring.
Qed.

(** X6 at the two tariffs of the examples, compared against E-Home. *)
Lemma current_saves_nothing_witness :
  exists res current,
    EnergyCalculator.compareTariffs twoMonths "pge-e-home" [flat038; eHome] = Some res
    /\ currentOf "pge-e-home" [flat038; eHome] = Some current
    /\ Forall2 (fun t r =>
                  tariffId r = id t
                  /\ tariffName r = tariffLabel t
                  /\ totalUsage r = sumBy value twoMonths
                  /\ (t = current -> savingsVsCurrent r == 0)) [flat038; eHome] res.
Proof.
  eexists.
  assert (H : EnergyCalculator.compareTariffs twoMonths "pge-e-home" [flat038; eHome]
              = Some _) by (vm_compute; reflexivity).
  destruct (current_saves_nothing twoMonths "pge-e-home" [flat038; eHome] _
              ltac:(discriminate) (or_introl H)) as (current & Hcur & Hall).
  exists current. split; [exact H |]. split; assumption.
Defined.

(** X7.  A current tariff id that no tariff of the roster carries is
    treated as the id of the first tariff of the roster, in either
    revision. *)
Theorem unknown_id_falls_back rs cur first rest :
  Forall (fun t => id t <> cur) (first :: rest) ->
  EnergyCalculator.compareTariffs rs cur (first :: rest)
  = EnergyCalculator.compareTariffs rs (id first) (first :: rest)
  /\ Revised.compareTariffs rs cur (first :: rest)
     = Revised.compareTariffs rs (id first) (first :: rest).
Proof.
  intros H. split; now apply compareWith_fallback.
Qed.

Lemma unknown_id_falls_back_witness :
  EnergyCalculator.compareTariffs twoMonths "sce-tou" [flat038; eHome]
  = EnergyCalculator.compareTariffs twoMonths (id flat038) [flat038; eHome]
  /\ Revised.compareTariffs twoMonths "sce-tou" [flat038; eHome]
     = Revised.compareTariffs twoMonths (id flat038) [flat038; eHome].
Proof.
  apply unknown_id_falls_back. repeat constructor; discriminate.
Defined.

Lemma short_window rs first :
  hd_error rs = Some first ->
  (getTime (timestamp (last rs first)) - getTime (timestamp first) <= 8640000)%Z ->
  30 / daysInReadings rs == 300.
Proof.
  intros Hhd Hspan. destruct rs as [| r rs]; [discriminate |].
  injection Hhd as ->. unfold daysInReadings.
  set (span := (getTime (timestamp (last (first :: rs) first))
                - getTime (timestamp first))%Z) in *.
  assert (Hle : inject_Z span / inject_Z 86400000 <= 0.1).
  { apply Qle_shift_div_r; [reflexivity |].
    assert (E : 0.1 * inject_Z 86400000 == inject_Z 8640000) by reflexivity.
    rewrite E. now rewrite <- Zle_Qle. }
  rewrite (Q.max_l _ _ Hle). reflexivity.
Qed.

(** X8.  When the readings span a tenth of a day or less (one reading,
    readings of one instant, or a last reading earlier than the
    first), the span counts as a tenth of a day: in either revision
    the monthly estimate of every tariff is 300 times its energy cost
    plus its fixed charge. *)
Theorem short_window_estimate rs first cur all res :
  hd_error rs = Some first ->
  (getTime (timestamp (last rs first)) - getTime (timestamp first) <= 8640000)%Z ->
  EnergyCalculator.compareTariffs rs cur all = Some res
  \/ Revised.compareTariffs rs cur all = Some res ->
  Forall2 (fun t r =>
             estimatedMonthlyCost r
             == 300 * (totalCost r
                       - inject_Z (Z.of_nat (List.length (breakdown r)))
                         * fixedMonthlyCharge t)
                + fixedMonthlyCharge t) all res.
Proof.
  intros Hhd Hspan H.
  assert (Hrs : rs <> []) by (destruct rs; [discriminate | discriminate]).
  destruct (either_shape rs cur all res Hrs H) as (calc & current & cc & _ & _ & Hall).
  pose proof (short_window rs first Hhd Hspan) as Hm. clear H.
  induction Hall as [| t r all' res' (c & Hc & ->) _ IH]; [constructor |].
  constructor; [| exact IH].
  cbn [estimatedMonthlyCost totalCost breakdown comparisonOf].
  unfold monthlyEstimate, energyOnly. rewrite Hm. ring.
Qed.

(** X8 at a single reading. *)
Lemma short_window_estimate_witness :
  exists res,
    Revised.compareTariffs [mkReading jan10 2] "pge-e-home" [flat038; eHome] = Some res
    /\ Forall2 (fun t r =>
                  estimatedMonthlyCost r
                  == 300 * (totalCost r
                            - inject_Z (Z.of_nat (List.length (breakdown r)))
                              * fixedMonthlyCharge t)
                     + fixedMonthlyCharge t) [flat038; eHome] res.
Proof.
  eexists. split; [vm_compute; reflexivity |].
  apply (short_window_estimate [mkReading jan10 2] (mkReading jan10 2) "pge-e-home").
  - reflexivity.
  - simpl. lia.
  - right. vm_compute. reflexivity.
Defined.

(* ================================================================= *)
(** ** The gas calculator: totals and savings *)

Lemma groupInto_keys_only {K V W A} (eqb : K -> K -> bool) (key : A -> K)
    (upd : option V -> A -> V) (upd' : option W -> A -> W) l :
  forall m0 m0', map fst m0 = map fst m0' ->
    map fst (groupInto eqb key upd l m0) = map fst (groupInto eqb key upd' l m0').
Proof.
  unfold groupInto. induction l as [| x l IH]; intros m0 m0' H; simpl; [exact H |].
  apply IH.
  assert (Hset : forall (U : Type) (k : K) (u : U) (m : list (K * U)),
             map fst (assocSet eqb k u m)
             = if existsb (fun k' => eqb k' k) (map fst m) then map fst m
               else map fst m ++ [k]).
  { intros U k u m. induction m as [| [k' u'] m IHm]; simpl; [reflexivity |].
    destruct (eqb k' k); simpl; [reflexivity |]. rewrite IHm.
    destruct (existsb _ _); reflexivity. }
  rewrite !Hset, H. reflexivity.
Qed.

Lemma monthlyUsage_keys rs :
  map fst (GasCost.monthlyUsage rs) = map fst (GasCalculator.groupByMonth rs).
Proof. apply groupInto_keys_only. reflexivity. Qed.

Lemma fold_usage (xs : list GasReading) : forall a,
  exists q,
    fold_left (fun o r => Some (match o with Some v => v | None => 0 end + value r))
              xs (Some a) = Some q
    /\ q == a + sumBy value xs.
Proof.
  induction xs as [| x xs IH]; intro a; simpl.
  - exists a. split; [reflexivity |]. rewrite sumBy_nil. ring.
  - destruct (IH (a + value x)) as (q & Hq & E). exists q. split; [exact Hq |].
    rewrite E, sumBy_cons. ring.
Qed.

Lemma monthlyUsage_entry rs k u :
  In (k, u) (GasCost.monthlyUsage rs) -> u == sumBy value (readingsOfMonth k rs).
Proof.
  intros Hin. unfold GasCost.monthlyUsage in Hin.
  apply (In_assocGet String.eqb string_eqb_eq) in Hin.
  2:{ apply (groupInto_NoDup String.eqb string_eqb_eq). constructor. }
  rewrite (groupInto_get String.eqb string_eqb_eq) in Hin.
  change (filter _ rs) with (readingsOfMonth k rs) in Hin.
  destruct (readingsOfMonth k rs) as [| x xs]; simpl in Hin; [discriminate |].
  destruct (fold_usage xs (0 + value x)) as (q & Hq & E).
  rewrite Hq in Hin. injection Hin as <-.
  rewrite E, sumBy_cons. ring.
Qed.

Lemma fold_addMonth t entries : forall acc,
  let sums := fold_left (GasCost.addMonth t) entries acc in
  GasCost.sumTherms sums == GasCost.sumTherms acc + sumBy snd entries
  /\ GasCost.sumBaselineTherms sums
     == GasCost.sumBaselineTherms acc
        + sumBy (fun e => Qmin (snd e) (GasCalculator.baselineTherms t)) entries
  /\ GasCost.sumOverBaselineTherms sums
     == GasCost.sumOverBaselineTherms acc
        + sumBy (fun e => Qmax 0 (snd e - GasCalculator.baselineTherms t)) entries
  /\ GasCost.sumBaselineCost sums + GasCost.sumOverBaselineCost sums
     == GasCost.sumBaselineCost acc + GasCost.sumOverBaselineCost acc
        + sumBy (fun e => gasEnergyCost t (snd e)) entries.
Proof.
  induction entries as [| e entries IH]; intro acc; simpl.
  - rewrite !sumBy_nil. repeat split; ring.
  - destruct (IH (GasCost.addMonth t acc e)) as (H1 & H2 & H3 & H4).
    rewrite !sumBy_cons. cbv zeta in *. rewrite H1, H2, H3, H4.
    unfold gasEnergyCost. simpl. repeat split; ring.
Qed.

Lemma split_at_baseline u b : Qmin u b + Qmax 0 (u - b) == u.
Proof.
  destruct (Qlt_le_dec u b) as [H | H].
  - rewrite Q.min_l, Q.max_l; lra.
  - rewrite Q.min_r, Q.max_r; lra.
Qed.

#[export] Instance gasEnergyCost_Proper t : Proper (Qeq ==> Qeq) (gasEnergyCost t).
Proof. intros u u' H. unfold gasEnergyCost. now rewrite H. Qed.

Lemma sumBy_plus_const {A} (f : A -> Q) c l :
  sumBy (fun x => f x + c) l == sumBy f l + inject_Z (Z.of_nat (List.length l)) * c.
Proof.
  induction l as [| x l IH].
  - simpl. rewrite !sumBy_nil. ring.
  - rewrite !sumBy_cons, IH.
    change (List.length (x :: l)) with (S (List.length l)).
    rewrite Nat2Z.inj_succ. unfold Z.succ. rewrite inject_Z_plus. ring.
Qed.

Lemma monthlyUsage_sum (F : Q -> Q) rs :
  Proper (Qeq ==> Qeq) F ->
  sumBy (fun e => F (snd e)) (GasCost.monthlyUsage rs)
  == sumBy (fun k => F (sumBy value (readingsOfMonth k rs)))
           (map fst (GasCalculator.groupByMonth rs)).
Proof.
  intros HF. rewrite <- monthlyUsage_keys, sumBy_map.
  apply sumBy_ext. intros [k u] Hin. simpl. apply HF. now apply monthlyUsage_entry.
Qed.

Lemma groupByMonth_sum (F : Q -> Q) rs :
  sumBy (fun e => F (sumBy value (snd e))) (GasCalculator.groupByMonth rs)
  == sumBy (fun k => F (sumBy value (readingsOfMonth k rs)))
           (map fst (GasCalculator.groupByMonth rs)).
Proof.
  rewrite sumBy_map. apply sumBy_ext. intros [k g] Hin. simpl.
  apply groupByMonth_entry in Hin as [-> _]. reflexivity.
Qed.

Lemma months_cover rs x :
  In x rs -> In (monthOf x) (map fst (GasCalculator.groupByMonth rs)).
Proof. intros H. apply groupByMonth_keys. now apply in_map. Qed.

Lemma usage_by_month rs :
  sumBy (fun k => sumBy value (readingsOfMonth k rs))
        (map fst (GasCalculator.groupByMonth rs))
  == sumBy value rs.
Proof.
  unfold readingsOfMonth.
  apply (sumBy_groups String.eqb string_eqb_eq monthOf value rs).
  - apply groupByMonth_NoDup.
  - apply months_cover.
Qed.

Lemma gas_breakdown_cost rs t :
  sumBy cost (GasCalculator.calculateGasMonthlyBreakdown rs t)
  == sumBy (fun k => gasEnergyCost t (sumBy value (readingsOfMonth k rs)))
           (map fst (GasCalculator.groupByMonth rs))
     + inject_Z (Z.of_nat (List.length (GasCalculator.groupByMonth rs)))
       * GasCalculator.fixedMonthlyCharge t.
Proof.
  rewrite (sumBy_permutation cost _ _ (breakdown_perm rs t)), sumBy_map.
  rewrite <- (groupByMonth_sum (gasEnergyCost t)), <- sumBy_plus_const.
  apply sumBy_ext. intros e _. reflexivity.
Qed.

Lemma gas_breakdown_usage rs t :
  sumBy usage (GasCalculator.calculateGasMonthlyBreakdown rs t) == sumBy value rs.
Proof.
  rewrite (sumBy_permutation usage _ _ (breakdown_perm rs t)), sumBy_map.
  rewrite <- usage_by_month, <- (groupByMonth_sum (fun q => q)).
  apply sumBy_ext. intros e _. reflexivity.
Qed.

(** X9.  [calculateGasCost] splits what was read at the baseline and
    loses nothing: its total therms are the sum of the readings, the
    baseline and over-baseline therms add up to the total therms, the
    over-baseline therms are never negative, and the total cost is
    the two energy costs plus the fixed charges. *)
Theorem gas_cost_parts rs t :
  GasCost.totalTherms (GasCost.calculateGasCost rs t) == sumBy value rs
  /\ GasCost.baselineTherms (GasCost.calculateGasCost rs t)
     + GasCost.overBaselineTherms (GasCost.calculateGasCost rs t)
     == GasCost.totalTherms (GasCost.calculateGasCost rs t)
  /\ 0 <= GasCost.overBaselineTherms (GasCost.calculateGasCost rs t)
  /\ GasCost.totalCost (GasCost.calculateGasCost rs t)
     == GasCost.baselineCost (GasCost.calculateGasCost rs t)
        + GasCost.overBaselineCost (GasCost.calculateGasCost rs t)
        + GasCost.fixedCharges (GasCost.calculateGasCost rs t).
Proof.
  destruct rs as [| r rs].
  { repeat split; cbn; try reflexivity; lra. }
  set (l := r :: rs). unfold GasCost.calculateGasCost.
  change (match l with [] => _ | _ :: _ => ?x end) with x.
  cbv zeta. cbn [GasCost.totalTherms GasCost.baselineTherms GasCost.overBaselineTherms
                 GasCost.totalCost GasCost.baselineCost GasCost.overBaselineCost
                 GasCost.fixedCharges].
  destruct (fold_addMonth t (GasCost.monthlyUsage l) (GasCost.mkSums 0 0 0 0 0))
    as (H1 & H2 & H3 & _).
  cbv zeta in H1, H2, H3. cbn [GasCost.sumTherms GasCost.sumBaselineTherms
                                GasCost.sumOverBaselineTherms] in H1, H2, H3.
  split; [| split; [| split]].
  - rewrite H1, (monthlyUsage_sum (fun q => q)) by (intros ? ? E; exact E).
    rewrite usage_by_month. ring.
  - rewrite H1, H2, H3.
    assert (E : sumBy snd (GasCost.monthlyUsage l)
                == sumBy (fun e => Qmin (snd e) (GasCalculator.baselineTherms t)
                                   + Qmax 0 (snd e - GasCalculator.baselineTherms t))
                         (GasCost.monthlyUsage l)).
    { apply sumBy_ext. intros e _. now rewrite split_at_baseline. }
    rewrite E, sumBy_plus. ring.
  - rewrite H3. assert (H0 : 0 <= sumBy (fun e => Qmax 0 (snd e - GasCalculator.baselineTherms t))
                                     (GasCost.monthlyUsage l)).
    { apply sumBy_nonneg. rewrite Forall_forall. intros e _. apply Q.le_max_l. }
    lra.
  - reflexivity.
Qed.

(** X10.  The two ways the file computes a gas bill agree:
    [calculateGasCost] and [calculateGasComparison] give the same
    total cost and the same total usage, and the fixed charges of the
    former are one fixed charge per month of the breakdown of the
    latter. *)
Theorem gas_cost_agrees rs t :
  GasCost.totalCost (GasCost.calculateGasCost rs t)
  == GasCalculator.totalCost (GasCalculator.calculateGasComparison rs t)
  /\ GasCost.totalTherms (GasCost.calculateGasCost rs t)
     == GasCalculator.totalUsage (GasCalculator.calculateGasComparison rs t)
  /\ GasCost.fixedCharges (GasCost.calculateGasCost rs t)
     == inject_Z (Z.of_nat (List.length
                   (GasCalculator.breakdown (GasCalculator.calculateGasComparison rs t))))
        * GasCalculator.fixedMonthlyCharge t.
Proof.
  cbn [GasCalculator.calculateGasComparison GasCalculator.totalCost
       GasCalculator.totalUsage GasCalculator.breakdown].
  destruct rs as [| r rs].
  { repeat split; cbn; first [reflexivity | ring]. }
  set (l := r :: rs).
  assert (Hlen : List.length (GasCalculator.calculateGasMonthlyBreakdown l t)
                 = List.length (GasCost.monthlyUsage l)).
  { rewrite (Permutation_length (breakdown_perm l t)), length_map.
    rewrite <- (length_map fst (GasCost.monthlyUsage l)), monthlyUsage_keys.
    now rewrite length_map. }
  rewrite gas_breakdown_cost, gas_breakdown_usage, Hlen.
  unfold GasCost.calculateGasCost.
  change (match l with [] => _ | _ :: _ => ?x end) with x.
  cbv zeta. cbn [GasCost.totalTherms GasCost.totalCost GasCost.fixedCharges].
  destruct (fold_addMonth t (GasCost.monthlyUsage l) (GasCost.mkSums 0 0 0 0 0))
    as (H1 & _ & _ & H4).
  cbv zeta in H1, H4. cbn [GasCost.sumTherms GasCost.sumBaselineCost
                            GasCost.sumOverBaselineCost] in H1, H4.
  split; [| split].
  - rewrite H4, (monthlyUsage_sum (gasEnergyCost t)) by apply gasEnergyCost_Proper.
    rewrite <- (length_map fst (GasCalculator.groupByMonth l)), <- monthlyUsage_keys.
    rewrite length_map. ring.
  - rewrite H1, (monthlyUsage_sum (fun q => q)) by (intros ? ? E; exact E).
    rewrite usage_by_month. ring.
  - reflexivity.
Qed.



Lemma offsetsGas_positive load :
  GasCost.offsetsGas load = true
  <-> exists therms, GasCost.replacesGasTherms load = Some therms /\ 0 < therms.
Proof.
  unfold GasCost.offsetsGas. destruct (GasCost.replacesGasTherms load) as [th |].
  - rewrite andb_true_iff, negb_true_iff, Qltb_lt. split.
    + intros [_ H]. eauto.
    + intros (th' & [= <-] & H). split; [| exact H].
      destruct (Qeq_bool th 0) eqn:E; [| reflexivity].
      apply Qeq_bool_iff in E. lra.
  - split; [discriminate | intros (th & H & _); discriminate].
Qed.

Lemma addLoad_offset acc load :
  fst (GasCost.addLoad acc load) == fst acc + thermsOffsetBy load
  /\ snd (GasCost.addLoad acc load) = snd acc ++ appliancesOf load.
Proof.
  unfold GasCost.addLoad, thermsOffsetBy, appliancesOf.
  destruct (GasCost.offsetsGas load) eqn:E.
  - apply offsetsGas_positive in E as (th & Hth & Hpos). rewrite Hth.
    apply Qltb_lt in Hpos. rewrite Hpos. simpl. split; [reflexivity |].
    destruct (GasCost.replacesGasAppliance load) as [a |]; [| now rewrite app_nil_r].
    destruct (String.eqb a ""); simpl; [now rewrite app_nil_r | reflexivity].
  - split; [| now rewrite app_nil_r].
    destruct (GasCost.replacesGasTherms load) as [th |] eqn:Hth; [| ring].
    destruct (Qltb 0 th) eqn:Hpos; [| ring].
    exfalso. apply Qltb_lt in Hpos.
    assert (GasCost.offsetsGas load = true) by (apply offsetsGas_positive; eauto).
    congruence.
Qed.

Lemma fold_addLoad loads : forall acc,
  fst (fold_left GasCost.addLoad loads acc) == fst acc + sumBy thermsOffsetBy loads
  /\ snd (fold_left GasCost.addLoad loads acc) = snd acc ++ flat_map appliancesOf loads.
Proof.
  induction loads as [| load loads IH]; intro acc; simpl.
  - rewrite sumBy_nil, app_nil_r. split; [ring | reflexivity].
  - destruct (IH (GasCost.addLoad acc load)) as [H1 H2].
    destruct (addLoad_offset acc load) as [H3 H4].
    rewrite H1, H2, H3, H4, sumBy_cons, <- app_assoc. split; [ring | reflexivity].
Qed.

Lemma thermsOffsetBy_nonneg load : 0 <= thermsOffsetBy load.
Proof.
  unfold thermsOffsetBy. destruct (GasCost.replacesGasTherms load) as [th |]; [| lra].
  destruct (Qltb 0 th) eqn:E; [| lra]. apply Qltb_lt in E. lra.
Qed.

(** X12.  [calculateGasSavingsFromElectrification] offsets the
    positive [replacesGasTherms] of the loads and nothing else: the
    offset is their sum and is never negative, a load without the
    field, or with zero or negative therms, adds neither therms nor
    an appliance, and the savings are the offset at the mean of the
    two rates.  Offsets, appliances and savings of two lists of loads
    add up. *)
Theorem gas_savings_add_up loads more t :
  GasCost.monthlyThermsOffset (GasCost.calculateGasSavingsFromElectrification loads t)
  == sumBy thermsOffsetBy loads
  /\ 0 <= GasCost.monthlyThermsOffset (GasCost.calculateGasSavingsFromElectrification loads t)
  /\ GasCost.appliances (GasCost.calculateGasSavingsFromElectrification loads t)
     = flat_map appliancesOf loads
  /\ GasCost.monthlySavings (GasCost.calculateGasSavingsFromElectrification loads t)
     == GasCost.monthlyThermsOffset (GasCost.calculateGasSavingsFromElectrification loads t)
        * ((GasCalculator.baselineRate t + GasCalculator.overBaselineRate t) / 2)
  /\ GasCost.monthlyThermsOffset
       (GasCost.calculateGasSavingsFromElectrification (loads ++ more) t)
     == GasCost.monthlyThermsOffset (GasCost.calculateGasSavingsFromElectrification loads t)
        + GasCost.monthlyThermsOffset (GasCost.calculateGasSavingsFromElectrification more t)
  /\ GasCost.appliances (GasCost.calculateGasSavingsFromElectrification (loads ++ more) t)
     = GasCost.appliances (GasCost.calculateGasSavingsFromElectrification loads t)
       ++ GasCost.appliances (GasCost.calculateGasSavingsFromElectrification more t)
  /\ GasCost.monthlySavings (GasCost.calculateGasSavingsFromElectrification (loads ++ more) t)
     == GasCost.monthlySavings (GasCost.calculateGasSavingsFromElectrification loads t)
        + GasCost.monthlySavings (GasCost.calculateGasSavingsFromElectrification more t).
Proof.
  unfold GasCost.calculateGasSavingsFromElectrification.
  cbn [GasCost.monthlyThermsOffset GasCost.appliances GasCost.monthlySavings].
  destruct (fold_addLoad loads (0, [])) as [H1 H2].
  destruct (fold_addLoad more (0, [])) as [H3 H4].
  destruct (fold_addLoad (loads ++ more) (0, [])) as [H5 H6].
  simpl fst in *. simpl snd in *.
  rewrite H1, H2, H3, H4, H5, H6, sumBy_app, flat_map_app. simpl.
  repeat split; try ring.
  assert (0 <= sumBy thermsOffsetBy loads).
  { apply sumBy_nonneg. rewrite Forall_forall. intros l _. apply thermsOffsetBy_nonneg. }
  lra.
Qed.

(** A furnace replaced and a car charger added: 35 therms a month at
    the mean of 2 and 3 dollars. *)
Example gas_savings_furnace :
  GasCost.calculateGasSavingsFromElectrification [evCharger; furnace] gasTariff1
  = GasCost.mkGasSavings (35 * ((2 + 3) / 2)) 35 ["gas furnace"%string].
Proof. vm_compute. reflexivity. Qed.

(* ================================================================= *)
(** ** The gas parser: errors and skipped rows *)

Lemma thermsIdx_found headers :
  found (usageIdx (PgeGasCsvParser.resolveColumns headers)) = hasThermsColumn headers.
Proof.
  assert (E : existsb thermsCandidate headers
              = existsb (fun h => includes "therm" h
                                  && includesAny PgeGasCsvParser.usageNouns h) headers
                || existsb (fun h => includes "therm" h
                                     && negb (includesAny PgeGasCsvParser.moneyWords h))
                           headers).
  { rewrite <- existsb_orb.
    induction headers as [| h hs IHh]; simpl; [reflexivity |].
    rewrite IHh. unfold thermsCandidate.
    destruct (includes "therm" h); reflexivity. }
  unfold PgeGasCsvParser.resolveColumns, hasThermsColumn. cbn [usageIdx].
  rewrite E, !findIndex_found.
  destruct (existsb (fun h => includes "therm" h && includesAny _ h) headers) eqn:Ea;
    rewrite findIndex_found; [exact Ea | reflexivity].
Qed.

Lemma gas_usage csv :
  (usageIdx (Gas.columns csv) =? -1)%Z = false
  <-> hasThermsColumn (Gas.headers csv) = true.
Proof.
  unfold Gas.columns. rewrite <- thermsIdx_found. unfold found.
  now rewrite negb_true_iff.
Qed.

(** The gas parser goes through the same four checks in order. *)
Lemma gas_cases host csv :
  let outcome := PgeGasCsvParser.parsePgeGasCsv host csv in
  let rows := nonBlankRows csv in
  let readRow := PgeGasCsvParser.readRow host (Gas.columns csv) in
  ((List.length rows < 2)%nat /\ outcome = Throws EmptyOrUnreadable)
  \/ ((2 <= List.length rows)%nat /\ ~ hasHeaderRow "therm" 3 rows
      /\ outcome = Throws NoHeaderRow)
  \/ ((2 <= List.length rows)%nat /\ hasHeaderRow "therm" 3 rows
      /\ hasThermsColumn (Gas.headers csv) = false
      /\ outcome = Throws NoUsageColumn)
  \/ ((2 <= List.length rows)%nat /\ hasHeaderRow "therm" 3 rows
      /\ hasThermsColumn (Gas.headers csv) = true
      /\ Forall (fun row => readRow row = None) (Gas.dataRows csv)
      /\ outcome = Throws NoReadingsParsed)
  \/ ((2 <= List.length rows)%nat /\ hasHeaderRow "therm" 3 rows
      /\ hasThermsColumn (Gas.headers csv) = true
      /\ Exists (yieldsReading readRow) (Gas.dataRows csv)
      /\ exists r, outcome = Returns r).
Proof.
  intros outcome rows readRow.
  assert (Hk := keptReadings_nil readRow (Gas.dataRows csv)).
  assert (Hs := keptReadings_some readRow (Gas.dataRows csv)).
  destruct (readRows_spec readRow (Gas.dataRows csv)) as (Hraw & _ & _).
  rewrite <- Hraw in Hk, Hs.
  change (readRows readRow (Gas.dataRows csv)) with (Gas.loop host csv) in Hk, Hs.
  assert (Hh := gas_header csv). assert (Hu := gas_usage csv).
  subst outcome. rewrite gas_outcome. fold rows in Hh |- *.
  destruct (Nat.ltb_spec (List.length rows) 2) as [Hlen | Hlen]; [now left | right].
  destruct (Gas.headerIdx csv =? -1)%Z.
  { left. repeat split; try assumption. intros H. apply Hh in H. discriminate. }
  right. assert (Hyes : hasHeaderRow "therm" 3 rows) by (apply Hh; reflexivity).
  destruct (usageIdx (Gas.columns csv) =? -1)%Z.
  { left. repeat split; try assumption.
    destruct (hasThermsColumn _); [| reflexivity].
    destruct Hu as [_ Hu]. discriminate (Hu eq_refl). }
  right.
  assert (Hyu : hasThermsColumn (Gas.headers csv) = true) by (apply Hu; reflexivity).
  destruct (rawReadings (Gas.loop host csv)) as [| x xs].
  - left. split; [assumption |]. split; [assumption |]. split; [assumption |].
    split; [| reflexivity]. apply Hk. reflexivity.
  - right. split; [assumption |]. split; [assumption |]. split; [assumption |].
    split; [| eauto]. apply Hs. discriminate.
Qed.

(** X13.  [parsePgeGasCsv] throws its four errors in exactly these
    cases, tried in this order, and returns in every other case: fewer
    than two non-blank rows; no row among the first 80 with at least
    three non-blank cells and a score of 3 or more; no header that
    names therms together with a usage noun or without a money word;
    no data row that yields a reading. *)
Theorem gas_fatal_errors host csv :
  (PgeGasCsvParser.parsePgeGasCsv host csv = Throws EmptyOrUnreadable
   <-> (List.length (nonBlankRows csv) < 2)%nat)
  /\ (PgeGasCsvParser.parsePgeGasCsv host csv = Throws NoHeaderRow
      <-> (2 <= List.length (nonBlankRows csv))%nat
          /\ ~ hasHeaderRow "therm" 3 (nonBlankRows csv))
  /\ (PgeGasCsvParser.parsePgeGasCsv host csv = Throws NoUsageColumn
      <-> (2 <= List.length (nonBlankRows csv))%nat
          /\ hasHeaderRow "therm" 3 (nonBlankRows csv)
          /\ hasThermsColumn (Gas.headers csv) = false)
  /\ (PgeGasCsvParser.parsePgeGasCsv host csv = Throws NoReadingsParsed
      <-> (2 <= List.length (nonBlankRows csv))%nat
          /\ hasHeaderRow "therm" 3 (nonBlankRows csv)
          /\ hasThermsColumn (Gas.headers csv) = true
          /\ Forall (fun row => PgeGasCsvParser.readRow host (Gas.columns csv) row = None)
                    (Gas.dataRows csv))
  /\ ((exists r, PgeGasCsvParser.parsePgeGasCsv host csv = Returns r)
      <-> (2 <= List.length (nonBlankRows csv))%nat
          /\ hasHeaderRow "therm" 3 (nonBlankRows csv)
          /\ hasThermsColumn (Gas.headers csv) = true
          /\ Exists (yieldsReading (PgeGasCsvParser.readRow host (Gas.columns csv)))
                    (Gas.dataRows csv)).
Proof.
  assert (Hcases := gas_cases host csv).
  assert (Hx := none_or_some (PgeGasCsvParser.readRow host (Gas.columns csv))
                             (Gas.dataRows csv)).
  cbv zeta in Hcases.
  split; [| split; [| split; [| split]]];
    destruct Hcases as
      [ (H1 & Ho) | [ (H1 & H2 & Ho) | [ (H1 & H2 & H3 & Ho)
      | [ (H1 & H2 & H3 & H4 & Ho) | (H1 & H2 & H3 & H4 & r & Ho) ]]]];
    rewrite Ho;
    (split;
     [ intros Hout;
       first [ discriminate Hout
             | repeat split; assumption
             | destruct Hout as [r' Hout]; discriminate Hout ]
     | intros Hcond;
       first [ reflexivity
             | now exists r
             | exfalso; decompose [and] Hcond; first [lia | contradiction | congruence | auto] ] ]).
Qed.

(** X13 at a gas export that parses. *)
Lemma gas_fatal_errors_witness :
  (2 <= List.length (nonBlankRows csvGas))%nat
  /\ hasHeaderRow "therm" 3 (nonBlankRows csvGas)
  /\ hasThermsColumn (Gas.headers csvGas) = true
  /\ Exists (yieldsReading (PgeGasCsvParser.readRow utcHost (Gas.columns csvGas)))
            (Gas.dataRows csvGas).
Proof.
  apply (proj1 (proj2 (proj2 (proj2 (proj2 (gas_fatal_errors utcHost csvGas)))))).
  eexists. vm_compute. reflexivity.
Defined.

Lemma gas_readRow host cols row :
  PgeGasCsvParser.readRow host cols row = None
  <-> parseNumber (cellAt row (usageIdx cols)) = None
      \/ resolveTimestamp host (60 * 60 * 1000) cols row = None.
Proof.
  unfold PgeGasCsvParser.readRow.
  destruct (parseNumber _) as [q |]; [| tauto].
  destruct (resolveTimestamp _ _ _ _) as [ts |].
  - split; [discriminate | intros [H | H]; discriminate].
  - tauto.
Qed.

Lemma gas_skip_warning host csv :
  filter isSkipWarning (gasNotes host csv)
  = if (0 <? skipped (Gas.loop host csv))%Z
    then [SkippedRows (skipped (Gas.loop host csv))] else [].
Proof.
  unfold gasNotes. rewrite !filter_app, Z.gtb_ltb.
  assert (E : filter isSkipWarning
                match typicalInterval 500 (60 * 60 * 1000)
                        (mergeReadings (rawReadings (Gas.loop host csv))) with
                | Some hours =>
                    if negb (hours =? 1)%Z && negb (hours =? 24)%Z
                    then [AtypicalInterval hours] else []
                | None => []
                end = []).
  { destruct (typicalInterval _ _ _) as [m |]; [| reflexivity].
    destruct (_ && _)%bool; reflexivity. }
  rewrite E, app_nil_r. destruct (0 <? _)%Z; reflexivity.
Qed.

(** X14.  In the gas parser a data row is skipped exactly when its
    therms cell does not parse or no timestamp strategy succeeds (an
    end timestamp is moved back by one hour); every data row either
    adds a reading or adds one to the skip count; and a parse that
    returns reports the skips in one warning that carries their
    count, and in none when there are none. *)
Theorem gas_row_level_skips :
  (forall host cols row,
      PgeGasCsvParser.readRow host cols row = None
      <-> parseNumber (cellAt row (usageIdx cols)) = None
          \/ resolveTimestamp host (60 * 60 * 1000) cols row = None)
  /\ (forall host csv,
        (List.length (rawReadings (Gas.loop host csv))
         + skippedCount (PgeGasCsvParser.readRow host (Gas.columns csv)) (Gas.dataRows csv)
         = List.length (Gas.dataRows csv))%nat
        /\ skipped (Gas.loop host csv)
           = Z.of_nat (skippedCount (PgeGasCsvParser.readRow host (Gas.columns csv))
                                    (Gas.dataRows csv)))
  /\ (forall host csv r,
        PgeGasCsvParser.parsePgeGasCsv host csv = Returns r ->
        filter isSkipWarning (warnings r)
        = if (0 <? skipped (Gas.loop host csv))%Z
          then [SkippedRows (skipped (Gas.loop host csv))] else []).
Proof.
  split; [exact gas_readRow |]. split.
  - intros host csv. unfold Gas.loop.
    destruct (readRows_spec (PgeGasCsvParser.readRow host (Gas.columns csv))
                            (Gas.dataRows csv)) as (-> & -> & H).
    split; [exact H | reflexivity].
  - intros host csv r H. apply gas_returns in H as (_ & _ & ->).
    apply gas_skip_warning.
Qed.

(** X14 at a gas export with one row that does not parse. *)
Lemma gas_row_level_skips_witness :
  exists r,
    PgeGasCsvParser.parsePgeGasCsv utcHost csvGas = Returns r
    /\ filter isSkipWarning (warnings r)
       = if (0 <? skipped (Gas.loop utcHost csvGas))%Z
         then [SkippedRows (skipped (Gas.loop utcHost csvGas))] else [].
Proof.
  eexists. split; [vm_compute; reflexivity |].
  apply (proj2 (proj2 gas_row_level_skips)). vm_compute. reflexivity.
Defined.

(* ================================================================= *)
(** ** What normalisation keeps *)

Lemma sorted_lt_NoDup l : StronglySorted Z.lt l -> NoDup l.
Proof.
  induction 1 as [| x l Hs IH Hx]; constructor; [| exact IH].
  rewrite Forall_forall in Hx. intros Hin. specialize (Hx x Hin). lia.
Qed.

Lemma normalizes_sum raw out :
  normalizes raw out -> sumBy value out == sumBy snd raw.
Proof.
  intros (Hs & Ht & Hv).
  rewrite (sumBy_ext value (fun r => sumBy snd (rawAt (timeOf r) raw))).
  2:{ rewrite Forall_forall in Hv. exact Hv. }
  rewrite <- (sumBy_map timeOf (fun t => sumBy snd (rawAt t raw))).
  unfold rawAt. apply (sumBy_groups Z.eqb Zeqb_eq fst snd raw).
  - now apply sorted_lt_NoDup.
  - intros x Hx. apply Ht. now apply in_map.
Qed.

Lemma normalizes_length raw out :
  normalizes raw out ->
  (List.length out <= List.length raw)%nat /\ (raw <> [] -> out <> []).
Proof.
  intros (Hs & Ht & _). split.
  - assert (H : (List.length (map timeOf out) <= List.length (map fst raw))%nat).
    { apply NoDup_incl_length; [now apply sorted_lt_NoDup |]. intros t. apply Ht. }
    now rewrite !length_map in H.
  - intros Hraw ->. destruct raw as [| x raw]; [congruence |].
    apply (Ht (fst x)). now left.
Qed.

(** X15.  When either parser returns, it returns at least one
    reading and at most one per data row that was not skipped, and
    merging the rows of one timestamp loses no usage: the values of
    the readings returned add up to the values of the rows read. *)
Theorem parse_keeps_usage :
  (forall host csv r,
      PgeCsvParser.parsePgeIntervalCsv host csv = Returns r ->
      readings r <> []
      /\ (List.length (readings r)
          + skippedCount (PgeCsvParser.readRow host (Electric.columns csv))
                         (Electric.dataRows csv)
          <= List.length (Electric.dataRows csv))%nat
      /\ sumBy value (readings r) == sumBy snd (rawReadings (Electric.loop host csv)))
  /\ (forall host csv r,
        PgeGasCsvParser.parsePgeGasCsv host csv = Returns r ->
        readings r <> []
        /\ (List.length (readings r)
            + skippedCount (PgeGasCsvParser.readRow host (Gas.columns csv))
                           (Gas.dataRows csv)
            <= List.length (Gas.dataRows csv))%nat
        /\ sumBy value (readings r) == sumBy snd (rawReadings (Gas.loop host csv))).
Proof.
  split; intros host csv r H.
  - apply electric_returns in H as (Hne & -> & _).
    pose proof (mergeReadings_normalizes host (rawReadings (Electric.loop host csv))) as Hn.
    destruct (normalizes_length _ _ Hn) as [Hlen Hsome].
    split; [now apply Hsome |]. split; [| now apply normalizes_sum].
    unfold Electric.loop in Hlen |- *.
    destruct (readRows_spec (PgeCsvParser.readRow host (Electric.columns csv))
                            (Electric.dataRows csv)) as (Hraw & _ & Hall).
    rewrite Hraw in Hlen |- *. lia.
  - apply gas_returns in H as (Hne & -> & _).
    pose proof (mergeReadings_normalizes host (rawReadings (Gas.loop host csv))) as Hn.
    destruct (normalizes_length _ _ Hn) as [Hlen Hsome].
    split; [now apply Hsome |]. split; [| now apply normalizes_sum].
    unfold Gas.loop in Hlen |- *.
    destruct (readRows_spec (PgeGasCsvParser.readRow host (Gas.columns csv))
                            (Gas.dataRows csv)) as (Hraw & _ & Hall).
    rewrite Hraw in Hlen |- *. lia.
Qed.

(** X15 at the export with two rows of one timestamp and a total
    row. *)
Lemma parse_keeps_usage_witness :
  exists r,
    PgeCsvParser.parsePgeIntervalCsv utcHost csvUsage = Returns r
    /\ readings r <> []
    /\ (List.length (readings r)
        + skippedCount (PgeCsvParser.readRow utcHost (Electric.columns csvUsage))
                       (Electric.dataRows csvUsage)
        <= List.length (Electric.dataRows csvUsage))%nat
    /\ sumBy value (readings r) == sumBy snd (rawReadings (Electric.loop utcHost csvUsage)).
Proof.
  eexists. split; [vm_compute; reflexivity |].
  apply (proj1 parse_keeps_usage). vm_compute. reflexivity.
Defined.

(* ================================================================= *)
(** ** The fields of a time and of a date *)

Lemma isDigit_value c : isDigit c = true -> (0 <= digitValue c <= 9)%Z.
Proof.
  unfold isDigit, digitValue. cbv zeta. rewrite andb_true_iff, !N.leb_le.
  generalize (codeOf c). intros n [H1 H2]. lia.
Qed.

Lemma digits_from_nonneg s : forall acc,
  allDigits s = true -> (0 <= acc)%Z ->
  (0 <= (fix go (s : string) (acc : Z) : Z :=
           match s with
           | EmptyString => acc
           | String c s' => go s' (10 * acc + digitValue c)%Z
           end) s acc)%Z.
Proof.
  induction s as [| c s IH]; intros acc Hd Hacc; cbn [allDigits] in Hd; [exact Hacc |].
  apply andb_true_iff in Hd as [Hc Hs]. apply IH; [exact Hs |].
  apply isDigit_value in Hc. revert Hc. generalize (digitValue c). intros v Hv. lia.
Qed.

Lemma digitsToZ_nonneg s : allDigits s = true -> (0 <= digitsToZ s)%Z.
Proof. intros H. unfold digitsToZ. apply digits_from_nonneg; [exact H | lia]. Qed.

Lemma colonTwoDigits_digits s mm rest :
  colonTwoDigits s = Some (mm, rest) -> allDigits mm = true.
Proof.
  unfold colonTwoDigits.
  destruct s as [| c s]; [discriminate |].
  destruct c as [[] [] [] [] [] [] [] []]; try discriminate.
  destruct s as [| a [| b r]]; try discriminate.
  destruct (isDigit a) eqn:Ea, (isDigit b) eqn:Eb; simpl; try discriminate.
  intros [= <- _]. simpl. now rewrite Ea, Eb.
Qed.

Lemma matchTimeAt_digits s m :
  matchTimeAt s = Some m ->
  allDigits (tmHours m) = true
  /\ allDigits (match tmMinutes m with Some x => x | None => "0"%string end) = true
  /\ allDigits (match tmSeconds m with Some x => x | None => "0"%string end) = true.
Proof.
  unfold matchTimeAt. destruct s as [| d1 s1]; [discriminate |].
  destruct (isDigit d1) eqn:E1; [| discriminate].
  set (hs := match s1 with
             | String d2 s2 =>
                 if isDigit d2 then (String d1 (String d2 EmptyString), s2)
                 else (String d1 EmptyString, s1)
             | EmptyString => (String d1 EmptyString, s1)
             end).
  assert (Hh : allDigits (fst hs) = true).
  { subst hs. destruct s1 as [| d2 s2]; simpl; [now rewrite E1 |].
    destruct (isDigit d2) eqn:E2; simpl; now rewrite E1, ?E2. }
  destruct hs as [hours afterHours]. simpl in Hh.
  destruct (colonTwoDigits afterHours) as [[mm r1] |] eqn:Em.
  - apply colonTwoDigits_digits in Em.
    destruct (colonTwoDigits r1) as [[ss r2] |] eqn:Es.
    + apply colonTwoDigits_digits in Es.
      destruct (amPmAt _) as [ampm rest]. intros [= <-]. simpl. auto.
    + destruct (amPmAt _) as [ampm rest]. intros [= <-]. simpl. auto.
  - destruct (colonTwoDigits afterHours) as [[ss r2] |] eqn:Es; [discriminate |].
    destruct (amPmAt _) as [ampm rest]. intros [= <-]. simpl. auto.
Qed.

Lemma parseTime_range s h m sec :
  parseTime s = Some (h, m, sec) ->
  (0 <= h <= 24 /\ 0 <= m <= 59 /\ 0 <= sec <= 59)%Z.
Proof.
  unfold parseTime. destruct (isEmpty (trim s)); [discriminate |].
  destruct (matchTimeAt _) as [tm |] eqn:Etm; [| discriminate].
  apply matchTimeAt_digits in Etm as (Hh & Hm & Hs).
  apply digitsToZ_nonneg in Hh, Hm, Hs.
  destruct (negb _); [discriminate |].
  revert Hh Hm Hs.
  generalize (digitsToZ (tmHours tm)),
             (digitsToZ (match tmMinutes tm with Some x => x | None => "0"%string end)),
             (digitsToZ (match tmSeconds tm with Some x => x | None => "0"%string end)).
  intros hh mm ss Hh Hm Hs. cbv zeta.
  destruct (Z.gtb_spec mm 59); [discriminate |].
  destruct (Z.gtb_spec ss 59); [discriminate |]. simpl orb. cbv iota.
  destruct (Z.gtb_spec hh 24); [discriminate |].
  destruct (negb (isEmpty (tmAmPm tm))).
  - destruct (Z.ltb_spec hh 1); [discriminate |].
    destruct (Z.gtb_spec hh 12); [discriminate |]. simpl orb. cbv iota.
    destruct (String.eqb (tmAmPm tm) "pm"), (String.eqb (tmAmPm tm) "am");
      simpl andb;
      repeat match goal with
             | |- context [(?a =? ?b)%Z] => destruct (Z.eqb_spec a b)
             end; simpl; intros [= <- <- <-]; lia.
  - intros [= <- <- <-]. lia.
Qed.

Lemma checkedDate_range y mo d r :
  checkedDate y mo d = Some r ->
  r = (y, mo, d) /\ (0 <= mo <= 11 /\ 1 <= d <= 31)%Z.
Proof.
  unfold checkedDate.
  destruct (Z.ltb_spec mo 0), (Z.gtb_spec mo 11); simpl; try discriminate.
  destruct (Z.ltb_spec d 1), (Z.gtb_spec d 31); simpl; try discriminate.
  intros [= <-]. split; [reflexivity | lia].
Qed.

Lemma parseUsDate_range s y mo d :
  parseUsDate s = Some (y, mo, d) ->
  (0 <= y /\ 0 <= mo <= 11 /\ 1 <= d <= 31)%Z.
Proof.
  unfold parseUsDate. destruct (isEmpty (trim s)); [discriminate |].
  destruct (splitOn "-" (trim s)) as [| p1 [| p2 [| p3 [| p4 ps]]]] eqn:Ei;
    destruct (splitOn "/" (trim s)) as [| q1 [| q2 [| q3 [| q4 qs]]]] eqn:Es;
    try discriminate;
    repeat match goal with
           | |- context [if ?b then _ else _] =>
               let E := fresh "E" in destruct b eqn:E
           end;
    try discriminate;
    intros H; apply checkedDate_range in H as [[= -> -> ->] Hr]; revert Hr;
    repeat match goal with
           | H : (_ && _)%bool = true |- _ => apply andb_true_iff in H as [? ?]
           end;
    repeat match goal with
           | H : allDigits ?x = true |- _ => apply digitsToZ_nonneg in H; revert H
           end;
    repeat match goal with
           | |- context [digitsToZ ?x] => generalize (digitsToZ x)
           end;
    intros; lia.
Qed.

(** X16.  The fields [parseTime] and [parseUsDate] return are in
    range: an hour from 0 to 24, minutes and seconds from 0 to 59; a
    month index from 0 to 11, a day from 1 to 31 and a year that is
    not negative. *)
Theorem parsed_fields_in_range :
  (forall s h m sec,
      parseTime s = Some (h, m, sec) ->
      (0 <= h <= 24 /\ 0 <= m <= 59 /\ 0 <= sec <= 59)%Z)
  /\ (forall s y mo d,
        parseUsDate s = Some (y, mo, d) ->
        (0 <= y /\ 0 <= mo <= 11 /\ 1 <= d <= 31)%Z).
Proof. split; [exact parseTime_range | exact parseUsDate_range]. Qed.

(** X16 at "12:15 AM" and "1/18/25". *)
Lemma parsed_fields_in_range_witness :
  (exists h m sec,
      parseTime "12:15 AM" = Some (h, m, sec)
      /\ (0 <= h <= 24 /\ 0 <= m <= 59 /\ 0 <= sec <= 59)%Z)
  /\ (exists y mo d,
        parseUsDate "1/18/25" = Some (y, mo, d)
        /\ (0 <= y /\ 0 <= mo <= 11 /\ 1 <= d <= 31)%Z).
Proof.
  split.
  - do 3 eexists. split; [reflexivity |].
    apply (proj1 parsed_fields_in_range "12:15 AM"%string). reflexivity.
  - do 3 eexists. split; [reflexivity |].
    apply (proj2 parsed_fields_in_range "1/18/25"%string). reflexivity.
Defined.

(* ================================================================= *)
(** ** Numbers in decimal notation *)

Lemma digitsToZ_from s : digitsToZ s = digitsFrom s 0.
Proof. reflexivity. Qed.

Lemma uint_allDigits d : allDigits (NilEmpty.string_of_uint d) = true.
Proof. induction d; simpl; auto. Qed.

Lemma uint_from_pos d : forall acc,
  digitsFrom (NilEmpty.string_of_uint d) (Z.pos acc) = Z.pos (Pos.of_uint_acc d acc).
Proof.
  induction d; intro acc; cbn [NilEmpty.string_of_uint digitsFrom Pos.of_uint_acc];
    [reflexivity | ..];
    match goal with
    | |- context [digitValue ?c] =>
        let v := eval vm_compute in (digitValue c) in change (digitValue c) with v
    end;
    rewrite <- IHd; f_equal; lia.
Qed.

Lemma uint_from_zero d :
  digitsFrom (NilEmpty.string_of_uint d) 0 = Z.of_N (Pos.of_uint d).
Proof.
  induction d; cbn [NilEmpty.string_of_uint digitsFrom Pos.of_uint];
    [reflexivity | ..];
    match goal with
    | |- context [digitValue ?c] =>
        let v := eval vm_compute in (digitValue c) in change (digitValue c) with v
    end;
    [exact IHd | ..]; simpl Z.add; rewrite uint_from_pos; reflexivity.
Qed.

Lemma spanDigits_all s : allDigits s = true -> spanDigits s = (s, EmptyString).
Proof.
  induction s as [| c s IH]; simpl; [reflexivity |].
  intros H. apply andb_true_iff in H as [Hc Hs]. now rewrite Hc, IH.
Qed.

Lemma digit_not_white c : isDigit c = true -> isWhite c = false.
Proof.
  unfold isDigit, isWhite. cbv zeta. generalize (codeOf c). intros n H.
  apply andb_true_iff in H as [H1 H2]. apply N.leb_le in H1, H2.
  repeat match goal with
         | |- context [(?a <=? ?b)%N] => destruct (N.leb_spec a b)
         | |- context [(?a =? ?b)%N] => destruct (N.eqb_spec a b)
         end; simpl; try reflexivity; lia.
Qed.

Lemma trimEnd_digits s : allDigits s = true -> trimEnd s = s.
Proof.
  induction s as [| c s IH]; simpl; [reflexivity |].
  intros H. apply andb_true_iff in H as [Hc Hs]. rewrite IH by exact Hs.
  destruct s; [| reflexivity]. now rewrite (digit_not_white c Hc).
Qed.

Lemma filter_digits p s :
  (forall c, isDigit c = true -> p c = true) -> allDigits s = true -> filterString p s = s.
Proof.
  intros Hp. induction s as [| c s IH]; simpl; [reflexivity |].
  intros H. apply andb_true_iff in H as [Hc Hs]. now rewrite (Hp c Hc), IH.
Qed.

Lemma digit_not_comma c : isDigit c = true -> negb (Ascii.eqb c ",") = true.
Proof.
  intros H. destruct (Ascii.eqb_spec c ","%char) as [-> | _]; [discriminate | reflexivity].
Qed.

(* ---------- integers in binary64 ---------- *)

Lemma roundHalfEven_exact k d : (0 < d)%Z -> roundHalfEven (k * d) d = k.
Proof.
  intros Hd. unfold roundHalfEven.
  rewrite Z.mod_mul, Z.div_mul by lia.
  change (2 * 0)%Z with 0%Z. now rewrite (proj2 (Z.compare_lt_iff 0 d) Hd).
Qed.

Lemma roundHalfEven_one k : roundHalfEven k 1 = k.
Proof. unfold roundHalfEven. now rewrite Z.mod_1_r, Z.div_1_r. Qed.

Lemma floorLog2_int n : n <> 0%Z -> floorLog2 (inject_Z n) = Z.log2 (Z.abs n).
Proof.
  intros Hn. unfold floorLog2. cbn [Qnum Qden inject_Z].
  change (Z.log2 1) with 0%Z. rewrite Z.sub_0_r.
  pose proof (Z.log2_nonneg (Z.abs n)) as H0.
  rewrite (proj2 (Z.leb_le 0 _) H0), Z.mul_1_l.
  destruct (Z.log2_spec (Z.abs n)) as [Hlo _]; [lia |].
  now rewrite (proj2 (Z.leb_le _ _) Hlo).
Qed.

Lemma Qred_inject_Z n : Qred (inject_Z n) = inject_Z n.
Proof.
  unfold Qred, inject_Z.
  pose proof (Z.ggcd_gcd n 1) as Hg. pose proof (Z.ggcd_correct_divisors n 1) as Hd.
  destruct (Z.ggcd n 1) as (g, (aa, bb)). cbn [fst snd] in *.
  rewrite Z.gcd_1_r in Hg. subst g. destruct Hd as [H1 H2].
  rewrite Z.mul_1_l in H1, H2. now subst.
Qed.

Lemma Qred_int x n : x == inject_Z n -> Qred x = inject_Z n.
Proof. intros H. rewrite (Qred_complete _ _ H). apply Qred_inject_Z. Qed.

Lemma roundToDouble_int n :
  (Z.abs n <= 2 ^ 53)%Z -> roundToDouble (inject_Z n) = inject_Z n.
Proof.
  intros Hn. unfold roundToDouble. cbn [Qnum Qden inject_Z].
  destruct (Z.eqb_spec n 0) as [-> | Hz]; [reflexivity |].
  fold (inject_Z n). rewrite (floorLog2_int n Hz).
  assert (Ha : (0 <= Z.log2 (Z.abs n) <= 53)%Z).
  { split; [apply Z.log2_nonneg |].
    change 53%Z with (Z.log2 (2 ^ 53)). now apply Z.log2_le_mono. }
  destruct (Z.log2_spec (Z.abs n)) as [Hlo _]; [lia |].
  set (a := Z.log2 (Z.abs n)) in *.
  rewrite Z.max_l by lia. cbv zeta.
  set (e := (a - 52)%Z). assert (He : (-52 <= e <= 1)%Z) by (unfold e; lia).
  destruct (Z.ltb_spec 971 e); [lia |].
  destruct (Z.eqb_spec e 971); [lia |]. cbn [orb andb].
  apply Qred_int.
  destruct (Z.leb_spec 0 e) as [He0 | He0].
  - assert (Hdiv : exists k, n = (k * (1 * 2 ^ e))%Z).
    { assert (e = 0 \/ e = 1)%Z as [E | E] by lia; rewrite E.
      - exists n. cbn. lia.
      - assert (Z.abs n = 2 ^ 53)%Z as Habs.
        { assert (a = 53%Z) as Ea by (unfold e in E; lia). rewrite Ea in Hlo. lia. }
        change (1 * 2 ^ 1)%Z with 2%Z.
        destruct (Z.abs_eq_or_opp n) as [E' | E']; rewrite E' in Habs.
        + exists (2 ^ 52)%Z. rewrite Habs. reflexivity.
        + exists (- 2 ^ 52)%Z. assert (n = - 2 ^ 53)%Z as -> by lia. reflexivity. }
    destruct Hdiv as (k & Hk). rewrite Hk at 1.
    rewrite roundHalfEven_exact by (rewrite Z.mul_1_l; apply Z.pow_pos_nonneg; lia).
    unfold pow2. rewrite (proj2 (Z.leb_le 0 _) He0).
    rewrite <- inject_Z_mult. rewrite Z.mul_1_l in Hk. now rewrite <- Hk.
  - rewrite roundHalfEven_one.
    unfold pow2. destruct (Z.leb_spec 0 e); [lia |].
    assert (Hp : (0 < 2 ^ (- e))%Z) by (apply Z.pow_pos_nonneg; lia).
    unfold Qeq. cbn [Qnum Qden inject_Z Qmult].
    rewrite Pos.mul_1_l, Z2Pos.id by exact Hp. ring.
Qed.

Lemma isFinite_int n : (Z.abs n <= 2 ^ 53)%Z -> isFinite (inject_Z n) = true.
Proof.
  intros Hn. unfold isFinite, infinity.
  assert (H : (2 ^ 53 < 2 ^ 1024)%Z) by (apply Z.pow_lt_mono_r; lia).
  apply andb_true_iff. split; apply Qltb_lt.
  - rewrite <- inject_Z_opp, <- Zlt_Qlt. lia.
  - rewrite <- Zlt_Qlt. lia.
Qed.

Lemma toNumber_int n :
  (Z.abs n <= 2 ^ 53)%Z -> toNumber (inject_Z n) = Some (inject_Z n).
Proof.
  intros Hn. unfold toNumber. cbv zeta.
  now rewrite (roundToDouble_int n Hn), (isFinite_int n Hn).
Qed.

Lemma parseNumber_digits c s :
  allDigits (String c s) = true ->
  parseNumber (String c s) = toNumber (inject_Z (digitsToZ (String c s)))
  /\ parseNumber (String "-" (String c s)) = toNumber (inject_Z (- digitsToZ (String c s))).
Proof.
  intros Hd. pose proof Hd as Hd'. cbn [allDigits] in Hd'.
  apply andb_true_iff in Hd' as [Hc Hs].
  assert (Hu : unsignedAt (String c s) = inject_Z (digitsToZ (String c s))).
  { unfold unsignedAt. now rewrite (spanDigits_all _ Hd). }
  unfold parseNumber, trim. split.
  - cbn [trimStart]. rewrite (digit_not_white c Hc).
    pose proof (trimEnd_digits _ Hd) as Ht. rewrite Ht.
    cbn [isEmpty]. pose proof (filter_digits _ _ digit_not_comma Hd) as Hf. rewrite Hf.
    cbn [firstNumber numberAt]. rewrite Hc.
    destruct c as [[] [] [] [] [] [] [] []]; try discriminate Hc; now rewrite Hu.
  - cbn [trimStart isWhite]. change (isWhite "-") with false. cbv iota.
    assert (Ht : trimEnd (String "-" (String c s)) = String "-" (String c s)).
    { pose proof (trimEnd_digits _ Hd) as Ht.
      change (trimEnd (String "-" (String c s)))
        with (match trimEnd (String c s) with
              | EmptyString => if isWhite "-" then EmptyString else String "-" EmptyString
              | t => String "-" t
              end).
      now rewrite Ht. }
    rewrite Ht. cbn [isEmpty].
    pose proof (filter_digits _ _ digit_not_comma Hd) as Hf.
    change (filterString (fun c0 => negb (Ascii.eqb c0 ",")) (String "-" (String c s)))
      with (String "-" (filterString (fun c0 => negb (Ascii.eqb c0 ",")) (String c s))).
    rewrite Hf. cbn [firstNumber numberAt]. rewrite Hc, Hu. reflexivity.
Qed.

Lemma parseNumber_integer n : parseNumber (stringOfZ n) = toNumber (inject_Z n).
Proof.
  unfold stringOfZ. rewrite <- (DecimalZ.of_to n) at 2.
  destruct n as [| p | p]; cbn [Z.to_int NilEmpty.string_of_int Z.of_int].
  - reflexivity.
  - pose proof (uint_allDigits (Pos.to_uint p)) as Hd.
    pose proof (DecimalPos.Unsigned.to_uint_nonnil p) as Hn.
    unfold Z.of_uint. rewrite <- uint_from_zero, <- digitsToZ_from.
    destruct (Pos.to_uint p); try congruence;
      cbn [NilEmpty.string_of_uint] in *; now apply parseNumber_digits.
  - pose proof (uint_allDigits (Pos.to_uint p)) as Hd.
    pose proof (DecimalPos.Unsigned.to_uint_nonnil p) as Hn.
    unfold Z.of_uint. rewrite <- uint_from_zero, <- digitsToZ_from.
    destruct (Pos.to_uint p); try congruence;
      cbn [NilEmpty.string_of_uint] in *; now apply parseNumber_digits.
Qed.

(** X17.  [parseNumber] reads the decimal notation of every integer of
    magnitude up to 2 ^ 53 back as that integer. *)
Theorem parseNumber_reads_integers n :
  (Z.abs n <= 2 ^ 53)%Z -> parseNumber (stringOfZ n) = Some (inject_Z n).
Proof.
  intros Hn. rewrite parseNumber_integer. now apply toNumber_int.
Qed.

(** X17 at - 2 ^ 53. *)
Lemma parseNumber_reads_integers_witness :
  parseNumber (stringOfZ (-9007199254740992)) = Some (inject_Z (-9007199254740992)).
Proof. apply parseNumber_reads_integers. vm_compute. discriminate. Defined.

(* ================================================================= *)
(** ** The CSV scanner *)

Lemma pushRow_content st :
  Forall (fun r => hasContent r = true) (csvRows st) ->
  Forall (fun r => hasContent r = true) (csvRows (pushRow st)).
Proof.
  intros H. unfold pushRow. cbn [csvRows].
  destruct (existsb _ (csvRow st)) eqn:E; [| exact H].
  apply Forall_app. split; [exact H |]. constructor; [exact E | constructor].
Qed.

Lemma scanCsv_content n : forall text st,
  (String.length text <= n)%nat ->
  Forall (fun r => hasContent r = true) (csvRows st) ->
  Forall (fun r => hasContent r = true) (csvRows (scanCsv text st)).
Proof.
  induction n as [| n IH]; intros text st Hlen Hst.
  - destruct text; [exact Hst | simpl in Hlen; lia].
  - destruct text as [| ch rest]; [exact Hst |]. simpl in Hlen.
    cbn [scanCsv].
    destruct (Ascii.eqb ch quoteChar).
    + destruct (inQuotes st).
      * destruct rest as [| ch' rest'].
        -- apply IH; [simpl; lia | exact Hst].
        -- destruct (Ascii.eqb ch' quoteChar).
           ++ apply IH; [simpl in Hlen; lia | exact Hst].
           ++ apply IH; [simpl in Hlen |- *; lia | exact Hst].
      * apply IH; [lia | exact Hst].
    + destruct (negb (inQuotes st) && Ascii.eqb ch ",").
      * apply IH; [lia | exact Hst].
      * destruct (negb (inQuotes st) && (codeOf ch =? 10)%N).
        -- apply IH; [lia |]. apply pushRow_content. exact Hst.
        -- apply IH; [lia | exact Hst].
Qed.

Lemma parseCsvRows_content csv :
  Forall (fun r => hasContent r = true) (parseCsvRows csv).
Proof.
  unfold parseCsvRows. apply pushRow_content. cbn [pushCell csvRows].
  apply (scanCsv_content (String.length (normalizeNewlines csv))); [lia | constructor].
Qed.

Lemma string_app_assoc (a b c : string) : ((a ++ b) ++ c = a ++ (b ++ c))%string.
Proof. induction a as [| ch a IH]; simpl; [reflexivity | now rewrite IH]. Qed.

Lemma string_app_nil (a : string) : (a ++ "" = a)%string.
Proof. induction a as [| ch a IH]; simpl; [reflexivity | now rewrite IH]. Qed.

Lemma plainChar_spec c :
  plainChar c = true ->
  Ascii.eqb c quoteChar = false /\ Ascii.eqb c "," = false
  /\ (codeOf c =? 10)%N = false /\ (codeOf c =? 13)%N = false.
Proof.
  unfold plainChar. rewrite !andb_true_iff, !negb_true_iff. tauto.
Qed.

Lemma noReturn_app a b : noReturn (a ++ b) = noReturn a && noReturn b.
Proof.
  induction a as [| c a IH]; simpl; [reflexivity |]. rewrite IH. now rewrite andb_assoc.
Qed.

Lemma plainCell_noReturn c : plainCell c = true -> noReturn c = true.
Proof.
  induction c as [| ch c IH]; simpl; [reflexivity |].
  intros H. apply andb_true_iff in H as [Hc Hs].
  apply plainChar_spec in Hc as (_ & _ & _ & Hr). now rewrite Hr, IH.
Qed.

Lemma join_noReturn sep cells :
  noReturn sep = true -> Forall (fun c => noReturn c = true) cells ->
  noReturn (join sep cells) = true.
Proof.
  intros Hsep. induction 1 as [| c cells Hc _ IH]; [reflexivity |].
  destruct cells as [| c' cells]; [exact Hc |].
  change (join sep (c :: c' :: cells)) with (c ++ sep ++ join sep (c' :: cells))%string.
  now rewrite !noReturn_app, Hc, Hsep, IH.
Qed.

Lemma normalizeNewlines_noReturn s : noReturn s = true -> normalizeNewlines s = s.
Proof.
  induction s as [| c s IH]; simpl; [reflexivity |].
  intros H. apply andb_true_iff in H as [Hc Hs]. apply negb_true_iff in Hc.
  now rewrite Hc, IH.
Qed.

Lemma scanCsv_comma rest rows row cell :
  scanCsv (String "," rest) (mkCsv rows row cell false)
  = scanCsv rest (mkCsv rows (row ++ [cell]) EmptyString false).
Proof. reflexivity. Qed.

Lemma scanCsv_lineFeed rest rows row cell :
  scanCsv (String "010" rest) (mkCsv rows row cell false)
  = scanCsv rest (pushRow (pushCell (mkCsv rows row cell false))).
Proof. reflexivity. Qed.

Lemma scanCsv_plainChar ch rest rows row cell :
  plainChar ch = true ->
  scanCsv (String ch rest) (mkCsv rows row cell false)
  = scanCsv rest (mkCsv rows row (cell ++ String ch EmptyString) false).
Proof.
  intros H. apply plainChar_spec in H as (Hq & Hcomma & Hlf & _).
  cbn [scanCsv inQuotes]. rewrite Hq, Hcomma, Hlf. reflexivity.
Qed.

(** A plain cell is copied into the cell under construction. *)
Lemma scanCsv_cell c : forall rest rows row cell,
  plainCell c = true ->
  scanCsv (c ++ rest) (mkCsv rows row cell false)
  = scanCsv rest (mkCsv rows row (cell ++ c) false).
Proof.
  induction c as [| ch c IH]; intros rest rows row cell Hc.
  - simpl. now rewrite string_app_nil.
  - cbn [plainCell] in Hc. apply andb_true_iff in Hc as [Hch Hc].
    change (String ch c ++ rest)%string with (String ch (c ++ rest)%string).
    rewrite (scanCsv_plainChar ch _ rows row cell Hch).
    rewrite IH by exact Hc. now rewrite string_app_assoc.
Qed.

(** A line of plain cells, up to its end: the cells are pushed in
    order. *)
Lemma scanCsv_line row : forall rest rows done,
  Forall (fun c => plainCell c = true) row ->
  exists cell,
    scanCsv (join "," row ++ rest) (mkCsv rows done EmptyString false)
    = scanCsv rest (mkCsv rows (done ++ removelast (cellsOf row)) cell false)
    /\ cell = last (cellsOf row) EmptyString.
Proof.
  induction row as [| c row IH]; intros rest rows done Hrow.
  - exists EmptyString. simpl. rewrite app_nil_r. split; reflexivity.
  - inversion Hrow as [| ? ? Hc Hrow']; subst.
    destruct row as [| c' row].
    + exists c. cbn [join]. rewrite (scanCsv_cell c rest rows done EmptyString Hc).
      simpl. rewrite app_nil_r. split; reflexivity.
    + change (join "," (c :: c' :: row))
        with (c ++ "," ++ join "," (c' :: row))%string.
      rewrite !string_app_assoc.
      rewrite (scanCsv_cell c _ rows done EmptyString Hc).
      change ("," ++ join "," (c' :: row) ++ rest)%string
        with (String "," (join "," (c' :: row) ++ rest)%string).
      change (EmptyString ++ c)%string with c. rewrite scanCsv_comma.
      destruct (IH rest rows (done ++ [c]) Hrow') as (cell & Hscan & Hcell).
      exists cell. rewrite Hscan. split.
      * f_equal. f_equal. change (cellsOf (c :: c' :: row)) with (c :: cellsOf (c' :: row)).
        change (cellsOf (c' :: row)) with (c' :: row).
        cbn [removelast]. now rewrite <- app_assoc.
      * exact Hcell.
Qed.

Lemma cellsOf_split row : removelast (cellsOf row) ++ [last (cellsOf row) EmptyString]
                          = cellsOf row.
Proof.
  symmetry. apply app_removelast_last. destruct row; discriminate.
Qed.

Lemma cellsOf_content row : hasContent (cellsOf row) = hasContent row.
Proof. destruct row; reflexivity. Qed.

Lemma cellsOf_row row : hasContent row = true -> cellsOf row = row.
Proof. destruct row; [discriminate | reflexivity]. Qed.

(** The end of a line: the row is kept when it has content. *)
Lemma endOfLine rows row cell :
  pushRow (pushCell (mkCsv rows (removelast (cellsOf row)) cell false))
  = mkCsv (rows ++ (if hasContent (removelast (cellsOf row) ++ [cell])
                    then [removelast (cellsOf row) ++ [cell]] else []))
          [] EmptyString false.
Proof.
  unfold pushRow, pushCell. cbn [csvRows csvRow csvCell inQuotes].
  unfold hasContent. destruct (existsb _ _); [reflexivity | now rewrite app_nil_r].
Qed.

Lemma scanCsv_lines lines : forall done,
  Forall (Forall (fun c => plainCell c = true)) lines ->
  csvRows (pushRow (pushCell (scanCsv (linesOf lines) (mkCsv done [] EmptyString false))))
  = done ++ filter hasContent lines.
Proof.
  unfold linesOf. induction lines as [| row lines IH]; intros done Hl.
  - simpl. now rewrite app_nil_r.
  - inversion Hl as [| ? ? Hrow Hl']; subst.
    destruct lines as [| row' lines].
    + cbn [map join].
      destruct (scanCsv_line row EmptyString done [] Hrow) as (cell & Hscan & ->).
      rewrite string_app_nil in Hscan. rewrite Hscan. cbn [scanCsv app].
      rewrite endOfLine, cellsOf_split, cellsOf_content. cbn [csvRows filter].
      destruct (hasContent row) eqn:E; [now rewrite (cellsOf_row row E) | reflexivity].
    + change (join lineFeed (map (join ",") (row :: row' :: lines)))
        with (join "," row ++ lineFeed ++ join lineFeed (map (join ",") (row' :: lines)))%string.
      destruct (scanCsv_line row
                  (lineFeed ++ join lineFeed (map (join ",") (row' :: lines)))%string
                  done [] Hrow) as (cell & Hscan & ->).
      rewrite Hscan. cbn [app].
      change (lineFeed ++ join lineFeed (map (join ",") (row' :: lines)))%string
        with (String "010" (join lineFeed (map (join ",") (row' :: lines)))).
      rewrite scanCsv_lineFeed.
      rewrite endOfLine, cellsOf_split, cellsOf_content.
      rewrite (IH _ Hl'). cbn [filter].
      destruct (hasContent row) eqn:E; [| now rewrite app_nil_r].
      now rewrite (cellsOf_row row E), <- app_assoc.
Qed.

Lemma linesOf_noReturn lines :
  Forall (Forall (fun c => plainCell c = true)) lines -> noReturn (linesOf lines) = true.
Proof.
  intros H. unfold linesOf. apply join_noReturn; [reflexivity |].
  rewrite Forall_forall. intros l Hl. apply in_map_iff in Hl as (row & <- & Hrow).
  apply join_noReturn; [reflexivity |].
  rewrite Forall_forall in H. specialize (H row Hrow).
  eapply Forall_impl; [| exact H]. intros c. apply plainCell_noReturn.
Qed.

(** X18.  On text without quotes the scanner splits at commas and
    line feeds and drops the lines that have no cell with content:
    rows of cells free of quotes, commas and line ends, written one
    per line and separated by commas, are read back as the rows that
    have content.  And whatever the text, no row the scanner returns
    is blank, so that the parsers' own filter of blank rows removes
    nothing. *)
Theorem parseCsvRows_plain_text :
  (forall rows,
      Forall (Forall (fun c => plainCell c = true)) rows ->
      parseCsvRows (linesOf rows) = filter hasContent rows)
  /\ (forall csv,
        Forall (fun r => hasContent r = true) (parseCsvRows csv)
        /\ nonBlankRows csv = parseCsvRows csv).
Proof.
  split.
  - intros rows H. unfold parseCsvRows.
    rewrite (normalizeNewlines_noReturn _ (linesOf_noReturn rows H)).
    now rewrite (scanCsv_lines rows [] H).
  - intros csv. split; [apply parseCsvRows_content |].
    unfold nonBlankRows. pose proof (parseCsvRows_content csv) as H.
    induction H as [| r l Hr _ IH]; [reflexivity |].
    simpl. unfold hasContent in Hr. rewrite Hr. now f_equal.
Qed.

(** X18 at three lines, one of them blank. *)
Lemma parseCsvRows_plain_text_witness :
  parseCsvRows (linesOf [["Date"; "kWh"]; [" "; ""]; ["1/18/25"; "0.5"]]%string)
  = filter hasContent [["Date"; "kWh"]; [" "; ""]; ["1/18/25"; "0.5"]]%string.
Proof.
  apply (proj1 parseCsvRows_plain_text). repeat constructor.
Defined.

(* ================================================================= *)
(** ** Which row is the header *)

Section FirstBest.
Variable unit : string.

Lemma scanHeaderRow_pinned seen best r :
  pinned unit seen best ->
  pinned unit (seen ++ [r]) (scanHeaderRow unit best (Z.of_nat (List.length seen)) r).
Proof.
  intros Hp. unfold scanHeaderRow. fold (headerScore unit r).
  destruct (Nat.ltb _ 3) eqn:E.
  - assert (Hne : ~ eligibleRow r) by (intros He; apply eligibleRow_dec in He; congruence).
    destruct Hp as [(Hi & Hs & Hall) | (r0 & Hn & Hi & He & Hsc & Hbefore & Hall)].
    + left. repeat split; try assumption. apply Forall_app. split; [exact Hall |].
      constructor; [tauto | constructor].
    + right. exists r0.
      assert (Hlt : (Z.to_nat (bestIdx best) < List.length seen)%nat)
        by (apply nth_error_Some; congruence).
      repeat split; try assumption.
      * rewrite nth_error_app1; assumption.
      * rewrite firstn_app.
        replace (Z.to_nat (bestIdx best) - List.length seen)%nat with 0%nat by lia.
        simpl. now rewrite app_nil_r.
      * apply Forall_app. split; [exact Hall |]. constructor; [tauto | constructor].
  - apply eligibleRow_dec in E.
    destruct (Z.gtb_spec (headerScore unit r) (bestScore best)) as [Hgt | Hle].
    + right. exists r. cbn [bestIdx bestScore]. rewrite Nat2Z.id.
      assert (Hold : Forall (fun r' => eligibleRow r' ->
                                       (headerScore unit r' <= bestScore best)%Z) seen).
      { destruct Hp as [(_ & Hs & Hall) | (_ & _ & _ & _ & _ & _ & Hall)];
          [rewrite Hs | ]; exact Hall. }
      repeat split; try assumption; try lia.
      * rewrite nth_error_app2 by lia. now rewrite Nat.sub_diag.
      * rewrite firstn_app, Nat.sub_diag, firstn_all. simpl. rewrite app_nil_r.
        eapply Forall_impl; [| exact Hold]. cbv beta. intros a Ha He.
        specialize (Ha He). lia.
      * apply Forall_app. split.
        -- eapply Forall_impl; [| exact Hold]. cbv beta. intros a Ha He.
           specialize (Ha He). lia.
        -- constructor; [lia | constructor].
    + destruct Hp as [(Hi & Hs & Hall) | (r0 & Hn & Hi & He & Hsc & Hbefore & Hall)].
      * left. repeat split; try assumption. apply Forall_app. split; [exact Hall |].
        constructor; [intros _; lia | constructor].
      * right. exists r0.
        assert (Hlt : (Z.to_nat (bestIdx best) < List.length seen)%nat)
          by (apply nth_error_Some; congruence).
        repeat split; try assumption.
        -- rewrite nth_error_app1; assumption.
        -- rewrite firstn_app.
           replace (Z.to_nat (bestIdx best) - List.length seen)%nat with 0%nat by lia.
           simpl. now rewrite app_nil_r.
        -- apply Forall_app. split; [exact Hall |].
           constructor; [intros _; exact Hle | constructor].
Qed.

Lemma scanHeaderRows_pinned rows : forall seen best,
  pinned unit seen best ->
  pinned unit (seen ++ rows)
         (scanHeaderRows unit rows (Z.of_nat (List.length seen)) best).
Proof.
  induction rows as [| r rows IH]; intros seen best Hp; simpl.
  - now rewrite app_nil_r.
  - replace (seen ++ r :: rows) with ((seen ++ [r]) ++ rows)
      by (rewrite <- app_assoc; reflexivity).
    replace (Z.of_nat (List.length seen) + 1)%Z
      with (Z.of_nat (List.length (seen ++ [r]))) by (rewrite length_app; simpl; lia).
    apply IH. now apply scanHeaderRow_pinned.
Qed.

Variable threshold : Z.

Lemma detectHeaderRowIndex_firstBest rows :
  detectHeaderRowIndexWith unit threshold rows <> (-1)%Z ->
  firstBest unit threshold rows (detectHeaderRowIndexWith unit threshold rows).
Proof.
  unfold detectHeaderRowIndexWith.
  assert (Hp : pinned unit [] (mkBest (-1) 0)).
  { left. repeat split. constructor. }
  apply (scanHeaderRows_pinned (firstn 80 rows) []) in Hp. cbn [app List.length] in Hp.
  change (Z.of_nat 0) with 0%Z in Hp.
  set (best := scanHeaderRows unit (firstn 80 rows) 0 (mkBest (-1) 0)) in *.
  destruct (Z.geb_spec (bestScore best) threshold) as [Hge | Hlt]; [| congruence].
  intros Hidx.
  destruct Hp as [(Hi & _) | (r & Hn & Hi & He & Hsc & Hbefore & Hall)]; [congruence |].
  assert (Hlt : (Z.to_nat (bestIdx best) < List.length (firstn 80 rows))%nat)
    by (apply nth_error_Some; congruence).
  rewrite length_firstn in Hlt.
  unfold firstBest. exists r.
  split; [| split; [lia | split; [exact He | split; [lia |]]]].
  - rewrite nth_error_firstn in Hn.
    destruct (Nat.ltb_spec (Z.to_nat (bestIdx best)) 80); [exact Hn | lia].
  - intros j r' Hj Hr' He'.
    assert (Hin : nth_error (firstn 80 rows) j = Some r').
    { rewrite nth_error_firstn. destruct (Nat.ltb_spec j 80); [exact Hr' | lia]. }
    rewrite Hsc. split.
    + rewrite Forall_forall in Hall. apply Hall; [| exact He'].
      eapply nth_error_In; exact Hin.
    + intros Hjlt. rewrite Forall_forall in Hbefore. apply Hbefore; [| exact He'].
      apply (nth_error_In _ j). rewrite nth_error_firstn.
      destruct (Nat.ltb_spec j (Z.to_nat (bestIdx best))); [exact Hin | lia].
Qed.
End FirstBest.

(** X19.  The row either parser takes as header is the first of the
    highest-scoring rows among the first 80 that have at least three
    non-blank cells: no such row scores higher, every earlier one
    scores lower, and its score reaches the threshold (4 for
    electricity, 3 for gas). *)
Theorem header_is_first_best rows :
  (PgeCsvParser.detectHeaderRowIndex rows <> (-1)%Z ->
   firstBest "kwh" 4 rows (PgeCsvParser.detectHeaderRowIndex rows))
  /\ (PgeGasCsvParser.detectHeaderRowIndex rows <> (-1)%Z ->
      firstBest "therm" 3 rows (PgeGasCsvParser.detectHeaderRowIndex rows)).
Proof.
  split.
  - exact (detectHeaderRowIndex_firstBest "kwh" 4 rows).
  - exact (detectHeaderRowIndex_firstBest "therm" 3 rows).
Qed.

(** X19 at two rows that both qualify: the first one is the header. *)
Lemma header_is_first_best_witness :
  PgeCsvParser.detectHeaderRowIndex twoHeaders = 1%Z
  /\ firstBest "kwh" 4 twoHeaders (PgeCsvParser.detectHeaderRowIndex twoHeaders).
Proof.
  split; [reflexivity |].
  apply (proj1 (header_is_first_best twoHeaders)). vm_compute. discriminate.
Defined.

(* ================================================================= *)
(** ** The interval heuristic *)

Lemma gaps_prefix {A} n : forall (t : list A) p,
  In p (combine (firstn n t) (tl (firstn n t))) -> In p (combine t (tl t)).
Proof.
  induction n as [| n IH]; intros t p; [destruct t; simpl; tauto |].
  destruct t as [| x t]; simpl; [tauto |].
  destruct n as [| n']; [destruct t; simpl; tauto |].
  destruct t as [| y t]; simpl; [tauto |].
  intros [H | H]; [now left | right].
  apply (IH (y :: t) p). exact H.
Qed.

Lemma gaps_length {A} (t : list A) :
  List.length (combine t (tl t)) = (List.length t - 1)%nat.
Proof.
  rewrite length_combine. destruct t; cbn [tl List.length]; lia.
Qed.

Lemma typicalInterval_even limit unit d l :
  (3 <= List.length l)%nat -> (2 <= limit)%nat -> evenlySpaced d l ->
  typicalInterval limit unit l = Some (roundDiv d unit).
Proof.
  intros Hlen Hlim He. unfold typicalInterval.
  apply Nat.leb_le in Hlen. rewrite Hlen. apply Nat.leb_le in Hlen.
  set (times := map fst (firstn limit l)).
  set (diffs := map (fun ab => (snd ab - fst ab)%Z) (combine times (tl times))).
  set (sorted := sortBy (fun a b => (a - b >? 0)%Z) diffs).
  assert (Hall : forall x, In x sorted -> x = d).
  { intros x Hx. apply sortBy_In in Hx. apply in_map_iff in Hx as (p & <- & Hp).
    subst times. rewrite <- firstn_map in Hp. apply gaps_prefix in Hp.
    unfold evenlySpaced in He. rewrite Forall_forall in He. now apply He. }
  assert (Hn : (0 < List.length sorted)%nat).
  { subst sorted. rewrite sortBy_length. subst diffs. rewrite length_map, gaps_length.
    subst times. rewrite length_map, length_firstn. lia. }
  f_equal. f_equal. apply Hall. apply nth_In.
  apply Nat.Div0.div_lt_upper_bound; lia.
Qed.

(** X20.  Readings that come at one fixed spacing get that spacing,
    divided by the unit and rounded, as their typical interval: a
    quarter of an hour gives 15 minutes for the electricity parser and
    raises no warning, and so do half an hour and an hour; below
    three readings there is no typical interval and no warning. *)
Theorem interval_of_even_readings :
  (forall limit unit d l,
      (3 <= List.length l)%nat -> (2 <= limit)%nat -> evenlySpaced d l ->
      typicalInterval limit unit l = Some (roundDiv d unit))
  /\ (forall l minutes,
        (3 <= List.length l)%nat -> In minutes [15; 30; 60]%Z ->
        evenlySpaced (minutes * 60000) l ->
        typicalInterval 2000 60000 l = Some minutes)
  /\ (forall limit unit l,
        (List.length l < 3)%nat -> typicalInterval limit unit l = None).
Proof.
  split; [exact typicalInterval_even |]. split.
  - intros l minutes Hlen Hm He.
    rewrite (typicalInterval_even 2000 60000 (minutes * 60000) l Hlen); [| lia | exact He].
    destruct Hm as [<- | [<- | [<- | []]]]; reflexivity.
  - intros limit unit l Hlen. unfold typicalInterval.
    destruct (Nat.leb_spec 3 (List.length l)); [lia | reflexivity].
Qed.

(** X20 at four readings a quarter of an hour apart. *)
Lemma interval_of_even_readings_witness :
  typicalInterval 2000 60000 quarterHours = Some 15%Z.
Proof.
  apply (proj1 (proj2 interval_of_even_readings)).
  - simpl. lia.
  - now left.
  - repeat constructor.
Defined.

(* ================================================================= *)
(** ** Normalising twice *)

Lemma Qplus_0_l_eq (v : Q) : 0 + v = v.
Proof.
  destruct v as [n d]. unfold Qplus. simpl. now rewrite Z.mul_1_r.
Qed.

Lemma sortBy_sorted_id (l : list RawReading) :
  StronglySorted Z.lt (map fst l) -> sortBy byTime l = l.
Proof.
  induction l as [| x l IH]; intros Hs; [reflexivity |].
  simpl in Hs. inversion Hs as [| ? ? Hs' Hx]; subst.
  simpl. rewrite IH by exact Hs'.
  destruct l as [| y l]; [reflexivity |].
  simpl. inversion Hx as [| ? ? Hxy _]; subst.
  unfold byTime. destruct (Z.gtb_spec (fst x - fst y) 0); [lia | reflexivity].
Qed.

Lemma assocSet_fresh {V} k (v : V) m :
  ~ In k (map fst m) -> assocSet Z.eqb k v m = m ++ [(k, v)].
Proof.
  induction m as [| [k' v'] m IH]; simpl; intros H; [reflexivity |].
  destruct (Z.eqb_spec k' k) as [-> | _]; [tauto |].
  rewrite IH; [reflexivity | tauto].
Qed.

Lemma summedOf_distinct l : forall m0,
  NoDup (map fst m0 ++ map fst l) ->
  groupInto Z.eqb fst
    (fun sum (r : RawReading) => match sum with Some v => v | None => 0 end + snd r) l m0
  = m0 ++ l.
Proof.
  unfold groupInto. induction l as [| [k v] l IH]; intros m0 Hnd; simpl.
  - now rewrite app_nil_r.
  - assert (Hk : ~ In k (map fst m0)).
    { intros Hin. apply NoDup_app_remove_r in Hnd as Hm.
      apply (NoDup_remove_2 _ _ _ Hnd). apply in_or_app. now left. }
    assert (Hget : assocGet Z.eqb k m0 = None)
      by (apply (assocGet_None Z.eqb Zeqb_eq); exact Hk).
    rewrite Hget, (assocSet_fresh k _ m0 Hk), Qplus_0_l_eq.
    rewrite IH; [now rewrite <- app_assoc |].
    rewrite map_app. simpl. rewrite <- app_assoc. exact Hnd.
Qed.

Lemma summedOf_id l : NoDup (map fst l) -> summedOf l = l.
Proof. intros H. unfold summedOf. now apply (summedOf_distinct l []). Qed.

Lemma mergeReadings_sorted raw : StronglySorted Z.lt (map fst (mergeReadings raw)).
Proof.
  unfold mergeReadings. fold (summedOf (sortBy byTime raw)).
  apply sorted_strict; [apply byTime_sorted |].
  eapply Permutation_NoDup.
  - symmetry. apply Permutation_map, sortBy_perm.
  - apply (groupInto_NoDup Z.eqb Zeqb_eq). constructor.
Qed.

(** X21.  Normalising is idempotent: the readings a parser has sorted
    and merged are left as they are by sorting and merging them
    again, and they come out in strictly increasing order of time. *)
Theorem mergeReadings_idempotent raw :
  mergeReadings (mergeReadings raw) = mergeReadings raw
  /\ StronglySorted Z.lt (map fst (mergeReadings raw)).
Proof.
  split; [| apply mergeReadings_sorted].
  pose proof (mergeReadings_sorted raw) as Hs.
  set (out := mergeReadings raw) in *.
  unfold mergeReadings at 1. rewrite (sortBy_sorted_id out Hs).
  fold (summedOf out). rewrite (summedOf_id out); [| now apply sorted_lt_NoDup].
  apply (sortBy_sorted_id out Hs).
Qed.

(* ================================================================= *)
(** ** The windows of the application *)

Section Chunks.
Variable key : Date -> string.

Let I (st : App.ChunkLoop) (seen : list EnergyReading) : Prop :=
  List.concat (App.chunks st ++ [App.currentChunk st]) = seen
  /\ runs key (App.currentChunk st :: rev (App.chunks st))
  /\ Forall (fun r => key (timestamp r) = App.lastKey st) (App.currentChunk st).

Lemma chunkStep_runs st seen r :
  I st seen -> I (App.chunkStep key st r) (seen ++ [r]).
Proof.
  intros (Hc & Hr & Hk). unfold App.chunkStep.
  destruct (String.eqb_spec (key (timestamp r)) (App.lastKey st)) as [E | E]; cbn.
  - split; [| split]; cbn [App.chunks App.currentChunk App.lastKey].
    + rewrite <- Hc, !List.concat_app. cbn. rewrite !app_nil_r. now rewrite app_assoc.
    + destruct Hr as ((k & Hne & Hall & Hold) & Hrest). split; [| exact Hrest].
      assert (k = App.lastKey st) as ->.
      { destruct (App.currentChunk st) as [| r0 c]; [congruence |].
        inversion Hall; inversion Hk; subst. congruence. }
      exists (App.lastKey st). split; [| split].
      * destruct (App.currentChunk st); discriminate.
      * apply Forall_app. split; [exact Hk |]. now repeat constructor.
      * exact Hold.
    + apply Forall_app. split; [exact Hk |]. now repeat constructor.
  - split; [| split]; cbn [App.chunks App.currentChunk App.lastKey].
    + rewrite List.concat_app, Hc. cbn. reflexivity.
    + rewrite rev_app_distr. cbn. split; [| exact Hr].
      exists (key (timestamp r)). split; [discriminate |]. split; [now repeat constructor |].
      eapply Forall_impl; [| exact Hk]. cbn. intros a ->. congruence.
    + now repeat constructor.
Qed.

Lemma chunkLoop_runs l st seen :
  I st seen -> I (fold_left (App.chunkStep key) l st) (seen ++ l).
Proof.
  revert st seen. induction l as [| r l IH]; intros st seen H; cbn.
  - now rewrite app_nil_r.
  - replace (seen ++ r :: l) with ((seen ++ [r]) ++ l) by now rewrite <- app_assoc.
    apply IH. now apply chunkStep_runs.
Qed.

Lemma chunkStep_first first :
  App.chunkStep key (App.mkChunks [] [] (key (timestamp first))) first
  = App.mkChunks [] [first] (key (timestamp first)).
Proof. unfold App.chunkStep. cbn. now rewrite String.eqb_refl. Qed.

Lemma chunks_of_loop first rest :
  let st := fold_left (App.chunkStep key) (first :: rest)
              (App.mkChunks [] [] (key (timestamp first))) in
  List.concat (App.chunks st ++ [App.currentChunk st]) = first :: rest
  /\ runs key (rev (App.chunks st ++ [App.currentChunk st])).
Proof.
  cbn [fold_left]. rewrite chunkStep_first. cbv zeta.
  pose proof (chunkLoop_runs rest (App.mkChunks [] [first] (key (timestamp first))) [first])
    as (Hc & Hr & _).
  { split; [reflexivity |]. split; [| now repeat constructor].
    cbn. split; [| exact Logic.I]. exists (key (timestamp first)).
    split; [discriminate |]. split; [now repeat constructor | exact Logic.I]. }
  split; [exact Hc |]. rewrite rev_app_distr. exact Hr.
Qed.
End Chunks.

Lemma runs_nonempty key out : runs key out -> Forall (fun c => c <> []) out.
Proof.
  induction out as [| c older IH]; cbn; [constructor |].
  intros ((k & Hne & _) & Hrest). constructor; [exact Hne | now apply IH].
Qed.

Lemma runs_uniform key out :
  runs key out ->
  Forall (fun c => exists k, Forall (fun r => key (timestamp r) = k) c) out.
Proof.
  induction out as [| c older IH]; cbn; [constructor |].
  intros ((k & _ & Hall & _) & Hrest). constructor; [now exists k | now apply IH].
Qed.

Lemma getChunks_concat host data period :
  List.concat (rev (App.getChunksForPeriod host data period)) = data.
Proof.
  destruct data as [| first rest]; [reflexivity |].
  unfold App.getChunksForPeriod.
  destruct period;
    try (rewrite rev_involutive;
         exact (proj1 (chunks_of_loop (App.groupByKey host _) first rest))).
  cbn. now rewrite app_nil_r.
Qed.

Lemma getChunks_runs host data period :
  period <> App.year ->
  runs (App.groupByKey host period) (App.getChunksForPeriod host data period).
Proof.
  intros Hp. destruct data as [| first rest]; [exact Logic.I |].
  unfold App.getChunksForPeriod.
  destruct period; try congruence;
    exact (proj2 (chunks_of_loop (App.groupByKey host _) first rest)).
Qed.

Lemma getChunks_nonempty host data period :
  Forall (fun c => c <> []) (App.getChunksForPeriod host data period).
Proof.
  destruct (match period with App.year => true | _ => false end) eqn:E.
  - destruct period; try discriminate.
    destruct data as [| first rest]; cbn; [constructor |].
    constructor; [discriminate | constructor].
  - apply runs_nonempty with (key := App.groupByKey host period).
    apply getChunks_runs. intros ->. discriminate.
Qed.

Lemma getChunks_some host data period :
  data <> [] -> App.getChunksForPeriod host data period <> [].
Proof.
  intros Hd E. pose proof (getChunks_concat host data period) as H.
  rewrite E in H. cbn in H. congruence.
Qed.

(** X22.  [getChunksForPeriod] cuts the readings into consecutive
    windows and returns them newest first: put back in order they are
    the readings, none is empty, and for a period other than the year
    the windows are the maximal runs of readings with the same key. *)
Theorem chunks_are_runs host data period :
  List.concat (rev (App.getChunksForPeriod host data period)) = data
  /\ Forall (fun c => c <> []) (App.getChunksForPeriod host data period)
  /\ (period <> App.year ->
      runs (App.groupByKey host period) (App.getChunksForPeriod host data period))
  /\ (period = App.year -> data <> [] ->
      App.getChunksForPeriod host data period = [data]).
Proof.
  split; [apply getChunks_concat |]. split; [apply getChunks_nonempty |].
  split; [apply getChunks_runs |].
  intros -> Hd. destruct data; [congruence | reflexivity].
Qed.
Lemma In_chunk_data host data period c r :
  In c (App.getChunksForPeriod host data period) -> In r c -> In r data.
Proof.
  intros Hc Hr. rewrite <- (getChunks_concat host data period).
  apply in_concat. exists c. split; [| exact Hr]. now apply in_rev in Hc.
Qed.

Lemma data_In_chunk host data period r :
  In r data -> exists c, In c (App.getChunksForPeriod host data period) /\ In r c.
Proof.
  rewrite <- (getChunks_concat host data period) at 1.
  intros H. apply in_concat in H as (c & Hc & Hr).
  exists c. split; [| exact Hr]. now apply in_rev.
Qed.

Lemma at_some {A} (l : list A) i :
  (0 <= i < Z.of_nat (List.length l))%Z ->
  exists x, App.at_ l i = Some x /\ nth_error l (Z.to_nat i) = Some x /\ In x l.
Proof.
  intros Hi. unfold App.at_.
  destruct (i <? 0)%Z eqn:E; [apply Z.ltb_lt in E; lia |].
  destruct (nth_error l (Z.to_nat i)) as [x |] eqn:Hx.
  - exists x. repeat split. now apply nth_error_In in Hx.
  - apply nth_error_None in Hx. lia.
Qed.

Lemma filteredReadings_at cs i :
  (0 <= i < Z.of_nat (List.length cs))%Z ->
  nth_error cs (Z.to_nat i) = Some (App.filteredReadings cs i)
  /\ In (App.filteredReadings cs i) cs.
Proof.
  intros Hi. unfold App.filteredReadings.
  destruct cs as [| c0 cs']; [cbn in Hi; lia |].
  cbv zeta. rewrite Z.min_l by lia.
  destruct (at_some (c0 :: cs') i Hi) as (c & -> & Hn & Hin). now split.
Qed.

Lemma filteredReadings_In cs i :
  cs <> [] -> (0 <= i)%Z -> In (App.filteredReadings cs i) cs.
Proof.
  intros Hcs Hi.
  assert (Hlen : (0 < Z.of_nat (List.length cs))%Z)
    by (destruct cs; [congruence | cbn; lia]).
  destruct (Z.lt_ge_cases i (Z.of_nat (List.length cs))) as [Hlt | Hge].
  - now apply filteredReadings_at.
  - unfold App.filteredReadings. destruct cs as [| c0 cs']; [congruence |].
    cbv zeta. rewrite Z.min_r by lia.
    destruct (at_some (c0 :: cs') (Z.of_nat (List.length (c0 :: cs')) - 1)) as (c & -> & _ & Hin);
      [lia | exact Hin].
Qed.

Lemma navigate_range cs dir prev :
  cs <> [] -> (0 <= App.navigate cs dir prev < Z.of_nat (List.length cs))%Z.
Proof.
  intros Hcs. unfold App.navigate.
  assert (0 < Z.of_nat (List.length cs))%Z by (destruct cs; [congruence | cbn; lia]).
  lia.
Qed.

Lemma last_app_nonempty {A} (l c : list A) d : c <> [] -> last (l ++ c) d = last c d.
Proof.
  intros Hc. induction l as [| x l IH]; [reflexivity |].
  cbn [app]. destruct (l ++ c) eqn:E.
  - apply app_eq_nil in E as [_ ->]. congruence.
  - cbn [last]. exact IH.
Qed.

Lemma last_In {A} (c : list A) d : c <> [] -> In (last c d) c.
Proof.
  induction c as [| x c IH]; [congruence |]. intros _.
  destruct c as [| y c']; [now left |]. right. apply IH. discriminate.
Qed.

(** X23.  With readings loaded, the window shown after any move of
    [navigate] is one of the windows of [getChunksForPeriod], so it is
    not empty; and the window at index 0, where the application starts,
    holds the last reading. *)
Theorem navigation_stays_on_data host data period dir prev :
  data <> [] ->
  (0 <= App.navigate (App.getChunksForPeriod host data period) dir prev
      < Z.of_nat (List.length (App.getChunksForPeriod host data period)))%Z
  /\ In (App.filteredReadings (App.getChunksForPeriod host data period)
           (App.navigate (App.getChunksForPeriod host data period) dir prev))
        (App.getChunksForPeriod host data period)
  /\ App.filteredReadings (App.getChunksForPeriod host data period)
       (App.navigate (App.getChunksForPeriod host data period) dir prev) <> []
  /\ forall d, In (last data d) (App.filteredReadings (App.getChunksForPeriod host data period) 0).
Proof.
  intros Hd.
  pose proof (getChunks_some host data period Hd) as Hcs.
  pose proof (getChunks_nonempty host data period) as Hne.
  pose proof (getChunks_concat host data period) as Hcat.
  pose proof (navigate_range _ dir prev Hcs) as Hnav.
  set (cs := App.getChunksForPeriod host data period) in *.
  assert (Hin : In (App.filteredReadings cs (App.navigate cs dir prev)) cs)
    by (apply filteredReadings_In; [exact Hcs | lia]).
  split; [exact Hnav |]. split; [exact Hin |]. split.
  - rewrite Forall_forall in Hne. now apply Hne.
  - intros d. destruct cs as [| c0 older] eqn:E; [congruence |].
    pose proof (Forall_inv Hne) as Hc0. cbn beta in Hc0.
    assert (E0 : App.filteredReadings (c0 :: older) 0 = c0).
    { destruct (filteredReadings_at (c0 :: older) 0) as (Hat & _); [cbn [List.length]; lia |].
      change (nth_error (c0 :: older) (Z.to_nat 0)) with (Some c0) in Hat. congruence. }
    rewrite E0.
    rewrite <- Hcat. cbn [rev]. rewrite List.concat_app. cbn [List.concat].
    rewrite app_nil_r, last_app_nonempty by exact Hc0. now apply last_In.
Qed.

(** X23 for the three readings of January and February, by month, one
    step back from the newest window. *)
Lemma navigation_stays_on_data_witness :
  (0 <= App.navigate (App.getChunksForPeriod plainLocale twoMonths App.month) 1 0
      < Z.of_nat (List.length (App.getChunksForPeriod plainLocale twoMonths App.month)))%Z
  /\ In (App.filteredReadings (App.getChunksForPeriod plainLocale twoMonths App.month)
           (App.navigate (App.getChunksForPeriod plainLocale twoMonths App.month) 1 0))
        (App.getChunksForPeriod plainLocale twoMonths App.month)
  /\ App.filteredReadings (App.getChunksForPeriod plainLocale twoMonths App.month)
       (App.navigate (App.getChunksForPeriod plainLocale twoMonths App.month) 1 0) <> []
  /\ forall d, In (last twoMonths d)
                  (App.filteredReadings (App.getChunksForPeriod plainLocale twoMonths App.month) 0).
Proof. apply (navigation_stays_on_data plainLocale twoMonths App.month 1 0). discriminate. Defined.

Example chunks_by_month :
  App.getChunksForPeriod plainLocale twoMonths App.month
  = [[mkReading feb10 10]; [mkReading jan10 20; mkReading jan20 15]].
Proof. reflexivity. Qed.

(* ================================================================= *)
(** ** Drilling down *)

Lemma findIndexM_spec {A} (p : A -> option bool) l i :
  Forall (fun x => p x <> None) l -> (0 <= i)%Z ->
  exists idx,
    App.findIndexM p l i = Some idx
    /\ ((idx = (-1)%Z /\ Forall (fun x => p x = Some false) l)
        \/ (exists x, (i <= idx < i + Z.of_nat (List.length l))%Z
                      /\ nth_error l (Z.to_nat (idx - i)) = Some x
                      /\ p x = Some true)).
Proof.
  intros Hall. revert i. induction Hall as [| x l Hx _ IH]; intros i Hi; cbn [App.findIndexM].
  - exists (-1)%Z. split; [reflexivity |]. left. now split.
  - destruct (p x) as [[|] |] eqn:E; [| | congruence].
    + exists i. split; [reflexivity |]. right. exists x.
      rewrite Z.sub_diag. cbn [List.length]. repeat split; [lia | lia | exact E].
    + destruct (IH (i + 1)%Z) as (idx & Hidx & Hcase); [lia |].
      exists idx. split; [exact Hidx |].
      destruct Hcase as [[-> Hf] | (y & Hr & Hn & Hy)].
      * left. split; [reflexivity |]. now constructor.
      * right. exists y. cbn [List.length]. split; [lia |]. split; [| exact Hy].
        replace (Z.to_nat (idx - i)) with (S (Z.to_nat (idx - (i + 1)))) by lia.
        exact Hn.
Qed.

Lemma targetKey_groupByKey host p' :
  p' = App.month \/ p' = App.day -> App.targetKey host p' = App.groupByKey host p'.
Proof. now intros [-> | ->]. Qed.

Lemma finer_cases p p' : finer p = Some p' -> p' = App.month \/ p' = App.day.
Proof. destruct p; cbn; intros [= <-]; auto. Qed.

Lemma uniform_head (key : Date -> string) (c : list EnergyReading) r0 k :
  nth_error c 0 = Some r0 ->
  (exists k', Forall (fun r => key (timestamp r) = k') c) ->
  (key (timestamp r0) = k <-> Forall (fun r => key (timestamp r) = k) c).
Proof.
  intros H0 (k' & Hall). destruct c as [| r c']; [discriminate |].
  injection H0 as ->. split.
  - intros <-. inversion Hall; subst. exact Hall.
  - intros H. now inversion H.
Qed.

(** X24.  [handleDrillDown] never throws.  When it moves, it moves to
    the next finer period and to a window all of whose readings have
    the key of the clicked time; it leaves the state alone exactly
    when the period is the day or no reading has that key. *)
Theorem drill_down_lands_on_target dates host data p ts :
  exists out,
    App.handleDrillDown dates host data p ts = Some out
    /\ (forall p' i, out = App.moveTo p' i ->
          finer p = Some p'
          /\ In (App.filteredReadings (App.getChunksForPeriod host data p') i)
                (App.getChunksForPeriod host data p')
          /\ Forall (fun r => App.groupByKey host p' (timestamp r)
                              = App.groupByKey host p' (newDate dates ts))
                    (App.filteredReadings (App.getChunksForPeriod host data p') i))
    /\ (out = App.stay <->
        forall p', finer p = Some p' ->
          Forall (fun r => App.groupByKey host p' (timestamp r)
                           <> App.groupByKey host p' (newDate dates ts)) data).
Proof.
  unfold App.handleDrillDown. fold (finer p).
  destruct (finer p) as [p' |] eqn:Hp.
  2:{ exists App.stay. split; [reflexivity |]. split; [discriminate |].
      split; [discriminate | reflexivity]. }
  pose proof (finer_cases p p' Hp) as Hp'.
  assert (Hny : p' <> App.year) by (destruct Hp' as [-> | ->]; discriminate).
  cbv zeta. rewrite (targetKey_groupByKey host p' Hp').
  pose proof (getChunks_runs host data p' Hny) as Hruns.
  pose proof (runs_nonempty _ _ Hruns) as Hne.
  pose proof (runs_uniform _ _ Hruns) as Huni.
  set (cs := App.getChunksForPeriod host data p') in *.
  set (k := App.groupByKey host p' (newDate dates ts)).
  set (pred := fun chunk : list EnergyReading => _).
  destruct (findIndexM_spec pred cs 0%Z) as (idx & -> & Hcase); [| lia |].
  { eapply Forall_impl; [| exact Hne]. intros c Hc. unfold pred.
    destruct c; [congruence | discriminate]. }
  destruct Hcase as [[-> Hf] | (c & Hr & Hn & Hc)].
  - exists App.stay. split; [reflexivity |]. split; [discriminate |].
    split; [| reflexivity]. intros _ q [= <-].
    apply Forall_forall. intros r Hin.
    destruct (data_In_chunk host data p' r Hin) as (c & Hcin & Hrc).
    fold cs in Hcin. rewrite Forall_forall in Hf, Huni.
    specialize (Hf c Hcin). specialize (Huni c Hcin). unfold pred in Hf.
    destruct (nth_error c 0) as [r0 |] eqn:H0; [| discriminate].
    injection Hf as Hf. apply String.eqb_neq in Hf.
    intros Hk. apply Hf. apply (uniform_head _ c r0 k H0 Huni).
    destruct Huni as (k' & Hall). rewrite Forall_forall in Hall.
    apply Forall_forall. intros r' Hr'. rewrite (Hall r' Hr'), <- (Hall r Hrc). exact Hk.
  - rewrite Z.sub_0_r in Hn.
    assert (Hidx : (idx =? -1)%Z = false) by (apply Z.eqb_neq; lia).
    rewrite Hidx. cbn [negb].
    destruct (filteredReadings_at cs idx) as (Hat & Hin); [lia |].
    assert (Hc' : App.filteredReadings cs idx = c) by congruence.
    assert (Hall : Forall (fun r => App.groupByKey host p' (timestamp r) = k) c).
    { unfold pred in Hc. destruct (nth_error c 0) as [r0 |] eqn:H0; [| discriminate].
      injection Hc as Hc. apply String.eqb_eq in Hc.
      apply (uniform_head _ c r0 k H0); [| exact Hc].
      rewrite Forall_forall in Huni. apply Huni. now rewrite <- Hc'. }
    exists (App.moveTo p' idx). split; [reflexivity |]. split.
    + intros q i [= <- <-]. fold cs. split; [reflexivity |]. split; [exact Hin |].
      now rewrite Hc'.
    + split; [discriminate |]. intros H. exfalso.
      specialize (H p' eq_refl). rewrite Forall_forall in H.
      rewrite Forall_forall in Hne.
      assert (Hcin : In c cs) by now rewrite <- Hc'.
      destruct c as [| r0 c']; [now apply (Hne [] Hcin) |].
      apply (H r0).
      * apply (In_chunk_data host data p' (r0 :: c') r0 Hcin). now left.
      * now inversion Hall.
Qed.

Example drill_down_to_january :
  App.handleDrillDown utcHost plainLocale twoMonths App.year 1737360000000
  = Some (App.moveTo App.month 1).
Proof. reflexivity. Qed.
(* ================================================================= *)
(** ** The ranking of the tariffs *)

Lemma byEstimate_true a b : App.byEstimate a b = true -> cheaperOrSame b a.
Proof.
  unfold App.byEstimate, cheaperOrSame. intros H. apply Qltb_lt in H. lra.
Qed.

Lemma byEstimate_false a b : App.byEstimate a b = false -> cheaperOrSame a b.
Proof.
  unfold App.byEstimate, cheaperOrSame. intros H. apply Qltb_ge in H. lra.
Qed.

Lemma cheaperOrSame_trans a b c : cheaperOrSame a b -> cheaperOrSame b c -> cheaperOrSame a c.
Proof. unfold cheaperOrSame. intros. lra. Qed.

Lemma byEstimate_sorted l : StronglySorted cheaperOrSame (sortBy App.byEstimate l).
Proof.
  apply sortBy_sorted;
    [exact cheaperOrSame_trans | exact byEstimate_true | exact byEstimate_false].
Qed.

Lemma bestTariff_least l b :
  App.bestTariff l = Some b -> In b l /\ Forall (cheaperOrSame b) l.
Proof.
  unfold App.bestTariff. destruct l as [| c l']; [discriminate |].
  pose proof (byEstimate_sorted (c :: l')) as Hs.
  pose proof (sortBy_In App.byEstimate) as HIn.
  destruct (sortBy App.byEstimate (c :: l')) as [| b' rest] eqn:E; [discriminate |].
  cbn. intros [= ->]. split.
  - apply (HIn b (c :: l')). rewrite E. now left.
  - apply Forall_forall. intros x Hx. apply (HIn x (c :: l')) in Hx. rewrite E in Hx.
    inversion Hs as [| ? ? _ Hb]; subst. destruct Hx as [<- | Hx].
    + unfold cheaperOrSame. lra.
    + rewrite Forall_forall in Hb. now apply Hb.
Qed.

Lemma bestTariff_some l : l <> [] -> exists b, App.bestTariff l = Some b.
Proof.
  intros Hl. unfold App.bestTariff. destruct l as [| c l']; [congruence |].
  pose proof (sortBy_length App.byEstimate (c :: l')) as Hlen.
  destruct (sortBy App.byEstimate (c :: l')) as [| b rest]; [discriminate |].
  now exists b.
Qed.

Lemma Forall2_In_l {A B} (R : A -> B -> Prop) l l' x :
  Forall2 R l l' -> In x l -> exists y, In y l' /\ R x y.
Proof.
  induction 1 as [| a b l l' Hab _ IH]; [contradiction |].
  intros [<- | Hx].
  - exists b. split; [now left | exact Hab].
  - destruct (IH Hx) as (y & Hy & Hxy). exists y. split; [now right | exact Hxy].
Qed.

Lemma Forall2_In_r {A B} (R : A -> B -> Prop) l l' y :
  Forall2 R l l' -> In y l' -> exists x, In x l /\ R x y.
Proof.
  induction 1 as [| a b l l' Hab _ IH]; [contradiction |].
  intros [<- | Hy].
  - exists a. split; [now left | exact Hab].
  - destruct (IH Hy) as (x & Hx & Hxy). exists x. split; [now right | exact Hxy].
Qed.

(** X25.  When [compareTariffs] of either revision returns for a
    non-empty reading list, [bestTariff] is one of its entries, no
    entry has a lower monthly estimate, and its savings against the
    current tariff are not negative. *)
Theorem best_tariff_saves rs cur all res :
  rs <> [] ->
  EnergyCalculator.compareTariffs rs cur all = Some res
  \/ Revised.compareTariffs rs cur all = Some res ->
  exists best,
    App.bestTariff res = Some best
    /\ In best res
    /\ Forall (fun c => estimatedMonthlyCost best <= estimatedMonthlyCost c) res
    /\ 0 <= savingsVsCurrent best.
Proof.
  intros Hrs H.
  destruct (either_shape rs cur all res Hrs H) as (calc & current & cc & Hcur & Hcc & Hall).
  apply currentOf_In in Hcur.
  destruct (Forall2_In_l _ _ _ _ Hall Hcur) as (rc & Hrc & c0 & Hc0 & Erc).
  assert (c0 = cc) as -> by congruence.
  destruct (bestTariff_some res) as (best & Hbest); [intros ->; contradiction |].
  destruct (bestTariff_least res best Hbest) as (Hin & Hle).
  exists best. split; [exact Hbest |]. split; [exact Hin |]. split; [exact Hle |].
  destruct (Forall2_In_r _ _ _ _ Hall Hin) as (t & _ & c & _ & Eb).
  rewrite Forall_forall in Hle. specialize (Hle rc Hrc). unfold cheaperOrSame in Hle.
  subst best rc. cbn [savingsVsCurrent estimatedMonthlyCost comparisonOf] in *. lra.
Qed.

(** X25 at the two tariffs of the examples, compared against E-Home. *)
Lemma best_tariff_saves_witness :
  exists best,
    App.bestTariff
      (match EnergyCalculator.compareTariffs twoMonths "pge-e-home" [flat038; eHome] with
       | Some res => res
       | None => []
       end) = Some best
    /\ 0 <= savingsVsCurrent best.
Proof.
  destruct (EnergyCalculator.compareTariffs twoMonths "pge-e-home" [flat038; eHome])
    as [res |] eqn:E; [| vm_compute in E; discriminate].
  destruct (best_tariff_saves twoMonths "pge-e-home" [flat038; eHome] res)
    as (best & Hb & _ & _ & Hs); [discriminate | now left |].
  exists best. now split.
Defined.

Lemma find_unique {A} (f : A -> string) k l e :
  NoDup (map f l) ->
  find (fun x => String.eqb (f x) k) l = Some e ->
  filter (fun x => String.eqb (f x) k) l = [e].
Proof.
  induction l as [| x l IH]; cbn; [discriminate |].
  intros Hnd. inversion Hnd as [| ? ? Hx Hnd']; subst.
  destruct (String.eqb_spec (f x) k) as [E | E].
  - intros [= ->]. f_equal.
    assert (forall y, In y l -> String.eqb (f y) k = false) as Hno.
    { intros y Hy. apply String.eqb_neq. intros Ey. apply Hx.
      rewrite E, <- Ey. now apply in_map. }
    clear - Hno. induction l as [| y l IH]; [reflexivity |].
    cbn. rewrite (Hno y) by now left. apply IH. intros z Hz. apply Hno. now right.
  - intros H. now apply IH.
Qed.

Lemma find_none_filter {A} (p : A -> bool) l :
  find p l = None -> filter (fun x => negb (p x)) l = l.
Proof.
  induction l as [| x l IH]; cbn; [reflexivity |].
  destruct (p x); [discriminate |]. cbn. intros H. now rewrite IH.
Qed.

Lemma filter_split {A} (p : A -> bool) l :
  Permutation (filter p l ++ filter (fun x => negb (p x)) l) l.
Proof.
  induction l as [| x l IH]; cbn; [constructor |].
  destruct (p x); cbn.
  - now constructor.
  - rewrite <- Permutation_middle. now constructor.
Qed.

(** X26.  [sortedComparisons] puts the entry of the current tariff
    first and the other entries after it by rising monthly estimate;
    when the entries have distinct tariff ids, none is lost. *)
Theorem sortedComparisons_order comparisons currentTariff :
  NoDup (map tariffId comparisons) ->
  Permutation (App.sortedComparisons comparisons currentTariff) comparisons
  /\ (forall e, In e comparisons -> tariffId e = id currentTariff ->
        exists others,
          App.sortedComparisons comparisons currentTariff = e :: others
          /\ StronglySorted cheaperOrSame others
          /\ Forall (fun c => tariffId c <> id currentTariff) others)
  /\ ((forall e, In e comparisons -> tariffId e <> id currentTariff) ->
        StronglySorted cheaperOrSame (App.sortedComparisons comparisons currentTariff)).
Proof.
  intros Hnd. unfold App.sortedComparisons.
  destruct comparisons as [| c0 l0] eqn:El.
  { split; [constructor |]. split; [contradiction | constructor]. }
  rewrite <- El in *. clear El c0 l0. cbv zeta.
  set (p := fun c => String.eqb (tariffId c) (id currentTariff)).
  set (others := sortBy App.byEstimate (filter (fun c => negb (p c)) comparisons)).
  assert (Hothers : Forall (fun c => tariffId c <> id currentTariff) others).
  { apply Forall_forall. intros c Hc. apply sortBy_In in Hc.
    apply filter_In in Hc as [_ Hc]. unfold p in Hc.
    apply negb_true_iff in Hc. now apply String.eqb_neq. }
  destruct (find p comparisons) as [e |] eqn:Hf.
  - pose proof (find_unique tariffId (id currentTariff) comparisons e Hnd Hf) as Hu.
    fold p in Hu.
    split; [| split].
    + rewrite <- (filter_split p comparisons) at 2. rewrite Hu. cbn.
      constructor. apply sortBy_perm.
    + intros e' He' Ee'. exists others.
      assert (In e' (filter p comparisons)) as Hin.
      { apply filter_In. split; [exact He' |]. unfold p. now apply String.eqb_eq. }
      rewrite Hu in Hin. destruct Hin as [<- | []].
      split; [reflexivity |]. split; [apply byEstimate_sorted | exact Hothers].
    + intros Hno. exfalso. apply find_some in Hf as [He Hp].
      apply (Hno e He). unfold p in Hp. now apply String.eqb_eq.
  - split; [| split].
    + unfold others. rewrite sortBy_perm, find_none_filter by exact Hf. reflexivity.
    + intros e He Ee. exfalso.
      apply (find_none _ _ Hf) in He. unfold p in He.
      apply String.eqb_neq in He. contradiction.
    + intros _. apply byEstimate_sorted.
Qed.

(** X26 for three entries, the second being the current tariff's. *)
Lemma sortedComparisons_order_witness :
  Permutation
    (App.sortedComparisons
       [mkComparison "pge-e1" "E-1" 45 20 30 (-5) [];
        mkComparison "pge-e-home" "E-Home" 45 15 25 0 [];
        mkComparison "pge-e-elec" "E-ELEC" 45 12 18 7 []] eHome)
    [mkComparison "pge-e1" "E-1" 45 20 30 (-5) [];
     mkComparison "pge-e-home" "E-Home" 45 15 25 0 [];
     mkComparison "pge-e-elec" "E-ELEC" 45 12 18 7 []].
Proof.
  apply (sortedComparisons_order
           [mkComparison "pge-e1" "E-1" 45 20 30 (-5) [];
            mkComparison "pge-e-home" "E-Home" 45 15 25 0 [];
            mkComparison "pge-e-elec" "E-ELEC" 45 12 18 7 []] eHome).
  repeat constructor; cbn; intuition discriminate.
Defined.

Example sortedComparisons_current_first :
  map tariffId
    (App.sortedComparisons
       [mkComparison "pge-e1" "E-1" 45 20 30 (-5) [];
        mkComparison "pge-e-home" "E-Home" 45 15 25 0 [];
        mkComparison "pge-e-elec" "E-ELEC" 45 12 18 7 []] eHome)
  = ["pge-e-home"; "pge-e-elec"; "pge-e1"]%string.
Proof. reflexivity. Qed.

(* ================================================================= *)
(** ** The simulated loads *)

Lemma isLoadEnabled_toggled k (l : list App.Loads.SimulatedLoad) :
  find (fun x => String.eqb (App.Loads.id (App.Loads.preset x)) k) l <> None ->
  App.isLoadEnabled
    (map (fun x => if String.eqb (App.Loads.id (App.Loads.preset x)) k
                   then App.Loads.mkLoad (App.Loads.preset x) (negb (App.Loads.enabled x))
                   else x) l) k
  = negb (App.isLoadEnabled l k).
Proof.
  unfold App.isLoadEnabled.
  induction l as [| x l IH]; [intros H; now contradiction H |]. cbn [map find].
  destruct (String.eqb (App.Loads.id (App.Loads.preset x)) k) eqn:E.
  - intros _. cbn [App.Loads.preset]. now rewrite E.
  - rewrite E. exact IH.
Qed.

Lemma isLoadEnabled_other k k' (l : list App.Loads.SimulatedLoad) :
  k' <> k ->
  App.isLoadEnabled
    (map (fun x => if String.eqb (App.Loads.id (App.Loads.preset x)) k
                   then App.Loads.mkLoad (App.Loads.preset x) (negb (App.Loads.enabled x))
                   else x) l) k'
  = App.isLoadEnabled l k'.
Proof.
  intros Hk. unfold App.isLoadEnabled.
  induction l as [| x l IH]; [reflexivity |]. cbn [map find].
  destruct (String.eqb_spec (App.Loads.id (App.Loads.preset x)) k) as [E | E].
  - cbn [App.Loads.preset].
    destruct (String.eqb_spec (App.Loads.id (App.Loads.preset x)) k') as [E' | E'];
      [congruence | exact IH].
  - destruct (String.eqb (App.Loads.id (App.Loads.preset x)) k'); [reflexivity | exact IH].
Qed.

Lemma find_app_none {A} (p : A -> bool) l l' :
  find p l = None -> find p (l ++ l') = find p l'.
Proof.
  induction l as [| x l IH]; [reflexivity |]. cbn.
  destruct (p x); [discriminate | exact IH].
Qed.

Lemma find_app_some {A} (p : A -> bool) l l' x :
  find p l = Some x -> find p (l ++ l') = Some x.
Proof.
  induction l as [| y l IH]; [discriminate |]. cbn.
  destruct (p y); [trivial | exact IH].
Qed.

Lemma find_In_map {A} (f : A -> string) k l :
  In k (map f l) <-> find (fun x => String.eqb (f x) k) l <> None.
Proof.
  induction l as [| x l IH]; cbn; [tauto |].
  destruct (String.eqb_spec (f x) k) as [E | E].
  - split; [discriminate | auto].
  - rewrite <- IH. tauto.
Qed.

(** X27.  [toggleSimulatedLoad] flips what [isLoadEnabled] answers for
    a load already in the list or found among the presets, changes
    nothing when the id is in neither, never changes the answer for
    another id, and never removes a load. *)
Theorem toggle_flips_one presets presetId prev :
  ((In presetId (map loadId prev) \/ In presetId (map App.Loads.id presets)) ->
     App.isLoadEnabled (App.toggleSimulatedLoad presets presetId prev) presetId
     = negb (App.isLoadEnabled prev presetId))
  /\ (~ In presetId (map loadId prev) -> ~ In presetId (map App.Loads.id presets) ->
        App.toggleSimulatedLoad presets presetId prev = prev)
  /\ (forall other, other <> presetId ->
        App.isLoadEnabled (App.toggleSimulatedLoad presets presetId prev) other
        = App.isLoadEnabled prev other)
  /\ (forall l, In l prev ->
        In (loadId l) (map loadId (App.toggleSimulatedLoad presets presetId prev))).
Proof.
  unfold App.toggleSimulatedLoad.
  destruct (find (fun l => String.eqb (App.Loads.id (App.Loads.preset l)) presetId) prev)
    as [l0 |] eqn:Hf.
  - split; [| split; [| split]].
    + intros _. apply isLoadEnabled_toggled. rewrite Hf. discriminate.
    + intros Hno _. exfalso. apply Hno. apply find_In_map. unfold loadId.
      rewrite Hf. discriminate.
    + intros other Ho. exact (isLoadEnabled_other presetId other prev Ho).
    + intros l Hl. rewrite map_map. apply in_map_iff.
      exists l. split; [| exact Hl]. unfold loadId.
      destruct (String.eqb (App.Loads.id (App.Loads.preset l)) presetId); reflexivity.
  - destruct (find (fun p => String.eqb (App.Loads.id p) presetId) presets) as [p |] eqn:Hp.
    + apply find_some in Hp as Hp'. destruct Hp' as [_ Hid]. apply String.eqb_eq in Hid.
      split; [| split; [| split]].
      * intros _. unfold App.isLoadEnabled.
        rewrite (find_app_none _ prev _ Hf), Hf. cbn.
        rewrite Hid, String.eqb_refl. reflexivity.
      * intros _ Hno. exfalso. apply Hno. apply find_In_map. rewrite Hp. discriminate.
      * intros other Ho. unfold App.isLoadEnabled.
        destruct (find (fun l => String.eqb (App.Loads.id (App.Loads.preset l)) other) prev)
          as [b |] eqn:Hb.
        -- now rewrite (find_app_some _ prev _ b Hb).
        -- rewrite (find_app_none _ prev _ Hb). cbn. rewrite Hid.
           destruct (String.eqb_spec presetId other); [congruence | reflexivity].
      * intros l Hl. rewrite map_app. apply in_or_app. left. now apply in_map.
    + split; [| split; [| split]].
      * intros [H | H]; exfalso; apply find_In_map in H; unfold loadId in H;
          [now rewrite Hf in H | now rewrite Hp in H].
      * reflexivity.
      * reflexivity.
      * intros l Hl. now apply in_map.
Qed.

Example toggle_twice :
  map App.Loads.enabled
      (App.toggleSimulatedLoad [evPreset; dryerPreset] "ev-standard"
         (App.toggleSimulatedLoad [evPreset; dryerPreset] "ev-standard" []))
  = [false].
Proof. reflexivity. Qed.

(* ================================================================= *)
(** ** The chart *)

Lemma chart_effective_rate p m :
  EnergyChart.getEffectiveRate p m = Revised.getEffectiveRate p m.
Proof. reflexivity. Qed.

Lemma getRateForHour_tou t c d :
  type t = tou ->
  EnergyChart.getRateForHour (getHours d) (getMonth d) t = Revised.rateFor t c d.
Proof.
  intros Ht. unfold EnergyChart.getRateForHour, Revised.rateFor. rewrite Ht.
  reflexivity.
Qed.

Lemma getRateForHour_none h m t :
  EnergyChart.getRateForHour h m t = None <-> periods t = [].
Proof.
  unfold EnergyChart.getRateForHour. destruct (periods t) as [| p0 ps] eqn:E; cbn.
  - tauto.
  - destruct (periodMatches h p0); [split; discriminate |].
    destruct (find _ ps); split; discriminate.
Qed.

(** X28.  For a time-of-use tariff the rate of the chart at a
    reading's hour and month is the rate the revised calculator prices
    the reading at, and the two throw together.  For a flat or tiered
    tariff whose first period covers the hour, it is the calculator's
    rate below the baseline. *)
Theorem chart_rate_is_calculator_rate t c d :
  (type t = tou ->
     EnergyChart.getRateForHour (getHours d) (getMonth d) t = Revised.rateFor t c d)
  /\ (type t <> tou ->
      forall p0 ps, periods t = p0 :: ps ->
        periodMatches (getHours d) p0 = true ->
        c < (if Revised.isSummerMonth (getMonth d) then 270 else 350) ->
        EnergyChart.getRateForHour (getHours d) (getMonth d) t = Revised.rateFor t c d).
Proof.
  split.
  - apply getRateForHour_tou.
  - intros Ht p0 ps Hp Hm Hc.
    unfold EnergyChart.getRateForHour, Revised.rateFor. rewrite Hp. cbn [find nth_error].
    rewrite Hm.
    assert (Hlt : Qltb c (if Revised.isSummerMonth (getMonth d) then 270 else 350) = true).
    { unfold Qltb. apply negb_true_iff. destruct (Qle_bool _ c) eqn:E; [| reflexivity].
      apply Qle_bool_iff in E. lra. }
    destruct (type t); try congruence; cbv zeta; now rewrite Hlt.
Qed.

Lemma sumBy_assocSet {K V} (eqb : K -> K -> bool) (f : V -> Q) k v (m : list (K * V)) :
  sumBy (fun kv => f (snd kv)) (assocSet eqb k v m)
  == sumBy (fun kv => f (snd kv)) m
     - match assocGet eqb k m with Some b => f b | None => 0 end
     + f v.
Proof.
  induction m as [| [k' v'] m IH]; simpl.
  - rewrite sumBy_cons, sumBy_nil. simpl. ring.
  - destruct (eqb k' k); rewrite !sumBy_cons; simpl; [ring |].
    rewrite IH. ring.
Qed.

Lemma assocSet_Forall {K V} (eqb : K -> K -> bool)
    (eqb_eq : forall x y, eqb x y = true <-> x = y)
    (P : K * V -> Prop) k v (m : list (K * V)) :
  P (k, v) -> Forall P m -> Forall P (assocSet eqb k v m).
Proof.
  intros Hv. induction 1 as [| [k' v'] m Hx Hm IH]; simpl.
  - now repeat constructor.
  - destruct (eqb k' k) eqn:E.
    + apply eqb_eq in E. subst k'. now constructor.
    + now constructor.
Qed.

Lemma sorted_le_strict {A} (f : A -> Z) (l : list A) :
  StronglySorted (fun a b => (f a <= f b)%Z) l -> NoDup (map f l) ->
  StronglySorted Z.lt (map f l).
Proof.
  induction 1 as [| x l Hs IH Hx]; simpl; intros Hnd; [constructor |].
  inversion Hnd as [| ? ? Hnotin Hnd']; subst.
  constructor; [auto |].
  rewrite Forall_forall in Hx |- *. intros t Ht.
  apply in_map_iff in Ht as (y & <- & Hy).
  specialize (Hx y Hy). cbn beta in Hx.
  assert (f x <> f y) by (intros E; apply Hnotin; rewrite E; now apply in_map).
  lia.
Qed.

Lemma chartStep_charted host g t m seen r :
  periods t <> [] -> charted t m seen ->
  exists m', EnergyChart.chartStep host g t m r = Some m' /\ charted t m' (seen ++ [r]).
Proof.
  intros Hp (Hnd & Hts & Hu & Hc). unfold EnergyChart.chartStep. cbv zeta.
  pose proof (getRateForHour_none (getHours (timestamp r)) (getMonth (timestamp r)) t) as Hn.
  assert (Hr : chartRate t r
               = match EnergyChart.getRateForHour (getHours (timestamp r))
                         (getMonth (timestamp r)) t with Some q => q | None => 0 end)
    by reflexivity.
  destruct (EnergyChart.getRateForHour _ _ t) as [q |]; [| exfalso; apply Hp, Hn; reflexivity].
  destruct (EnergyChart.keyAndLabel host g (timestamp r)) as [key label].
  eexists. split; [reflexivity |].
  assert (Hold : forall b, numGet key m = Some b -> EnergyChart.barTimestamp b = key).
  { intros b Hb. apply (assocGet_In Z.eqb Zeqb_eq) in Hb.
    rewrite Forall_forall in Hts. exact (Hts (key, b) Hb). }
  unfold numSet. split; [| split; [| split]].
  - apply (keys_set_NoDup Z.eqb Zeqb_eq). exact Hnd.
  - apply (assocSet_Forall Z.eqb Zeqb_eq); [| exact Hts]. cbn.
    destruct (numGet key m) as [b |] eqn:Hb; [now apply Hold | reflexivity].
  - rewrite (sumBy_assocSet Z.eqb EnergyChart.barUsage), sumBy_app, sumBy_cons, sumBy_nil, Hu.
    unfold numGet. destruct (assocGet Z.eqb key m); cbn; ring.
  - rewrite (sumBy_assocSet Z.eqb EnergyChart.barCost), sumBy_app, sumBy_cons, sumBy_nil, Hc, Hr.
    unfold numGet. destruct (assocGet Z.eqb key m); cbn; ring.
Qed.

Lemma chartLoop_charted host g t l : forall m seen,
  periods t <> [] -> charted t m seen ->
  exists m', forEach (EnergyChart.chartStep host g t) l m = Some m'
             /\ charted t m' (seen ++ l).
Proof.
  induction l as [| r l IH]; intros m seen Hp Hm; cbn [forEach].
  - exists m. rewrite app_nil_r. now split.
  - destruct (chartStep_charted host g t m seen r Hp Hm) as (m1 & -> & H1).
    destruct (IH m1 (seen ++ [r]) Hp H1) as (m' & Hf & H').
    exists m'. split; [exact Hf |]. now rewrite <- app_assoc in H'.
Qed.

Lemma charted_init t : charted t [] [].
Proof. repeat split; constructor. Qed.

Lemma tou_energy rs t c :
  type t = tou -> periods t <> [] ->
  Revised.calculateDetailedCost rs t = Some c ->
  energyOnly t c == sumBy (fun r => value r * chartRate t r) rs.
Proof.
  intros Ht Hp Hc.
  destruct (rev_calc_total rs t Hp) as (c' & Hc' & He).
  assert (c' = c) as -> by congruence.
  rewrite He, (priced_any_order (revRate t) (revRate_tou t Ht)).
  apply sumBy_ext. intros r _. unfold touCharge, chartRate, revRate.
  now rewrite (getRateForHour_tou t 0 (timestamp r) Ht).
Qed.
Lemma byTimestamp_sorted (l : list EnergyChart.Bar) :
  StronglySorted (fun a b => (EnergyChart.barTimestamp a <= EnergyChart.barTimestamp b)%Z)
                 (sortBy EnergyChart.byTimestamp l).
Proof.
  apply sortBy_sorted; unfold EnergyChart.byTimestamp.
  - intros x y z. lia.
  - intros x y H. apply Z.gtb_lt in H. lia.
  - intros x y H. rewrite Z.gtb_ltb in H. apply Z.ltb_ge in H. lia.
Qed.

Lemma charted_bars t m seen :
  charted t m seen ->
  sumBy EnergyChart.barUsage (sortBy EnergyChart.byTimestamp (map snd m)) == sumBy value seen
  /\ sumBy EnergyChart.barCost (sortBy EnergyChart.byTimestamp (map snd m))
     == sumBy (fun r => value r * chartRate t r) seen
  /\ StronglySorted Z.lt
       (map EnergyChart.barTimestamp (sortBy EnergyChart.byTimestamp (map snd m))).
Proof.
  intros (Hnd & Hts & Hu & Hc).
  pose proof (sortBy_perm EnergyChart.byTimestamp (map snd m)) as Hperm.
  split; [| split].
  - now rewrite (sumBy_permutation _ _ _ Hperm), sumBy_map.
  - now rewrite (sumBy_permutation _ _ _ Hperm), sumBy_map.
  - apply sorted_le_strict; [apply byTimestamp_sorted |].
    apply (Permutation_NoDup (l := map fst m)); [| exact Hnd].
    rewrite (Permutation_map EnergyChart.barTimestamp Hperm), map_map.
    replace (map (fun x => EnergyChart.barTimestamp (snd x)) m) with (map fst m);
      [reflexivity |].
    apply map_ext_in. intros kv Hkv. rewrite Forall_forall in Hts.
    symmetry. now apply Hts.
Qed.

(** X29.  [chartData] throws exactly when there are readings and the
    tariff has no period.  Otherwise the usage of its bars adds up to
    the usage of the readings, their cost to the readings priced at
    the chart's rate, and the bars come in strictly rising timestamp;
    for a time-of-use tariff their cost adds up to the energy cost of
    the revised calculator. *)
Theorem chart_bars_add_up host rs g t :
  (EnergyChart.chartData host rs g t = None <-> rs <> [] /\ periods t = [])
  /\ forall bars, EnergyChart.chartData host rs g t = Some bars ->
       sumBy EnergyChart.barUsage bars == sumBy value rs
       /\ sumBy EnergyChart.barCost bars == sumBy (fun r => value r * chartRate t r) rs
       /\ StronglySorted Z.lt (map EnergyChart.barTimestamp bars)
       /\ (type t = tou ->
           forall c, Revised.calculateDetailedCost rs t = Some c ->
                     sumBy EnergyChart.barCost bars == energyOnly t c).
Proof.
  destruct rs as [| r rs'].
  { split.
    - split; [discriminate | intros [H _]; congruence].
    - intros bars [= <-]. split; [reflexivity |]. split; [reflexivity |].
      split; [constructor |]. intros _ c [= <-]. unfold energyOnly. cbn. ring. }
  destruct (periods t) as [| p0 ps] eqn:Hp.
  { assert (Hnone : EnergyChart.chartData host (r :: rs') g t = None).
    { unfold EnergyChart.chartData. cbn [forEach]. unfold EnergyChart.chartStep at 1.
      cbv zeta.
      now rewrite (proj2 (getRateForHour_none (getHours (timestamp r))
                            (getMonth (timestamp r)) t) Hp). }
    rewrite Hnone. split; [| discriminate].
    split; [intros _; split; [discriminate | reflexivity] | reflexivity]. }
  assert (Hne : periods t <> []) by (rewrite Hp; discriminate).
  destruct (chartLoop_charted host g t (r :: rs') [] [] Hne (charted_init t))
    as (m & Hm & Hch).
  cbn [app] in Hch.
  assert (Hsome : EnergyChart.chartData host (r :: rs') g t
                  = Some (sortBy EnergyChart.byTimestamp (map snd m))).
  { unfold EnergyChart.chartData. now rewrite Hm. }
  rewrite Hsome. split.
  - split; [discriminate | intros [_ H]; discriminate].
  - intros bars [= <-].
    destruct (charted_bars t m (r :: rs') Hch) as (Hu & Hc & Hs).
    split; [exact Hu |]. split; [exact Hc |]. split; [exact Hs |].
    intros Ht c Hcalc. rewrite Hc. symmetry. now apply tou_energy.
Qed.

Example chart_by_day :
  option_map (map (fun b => (EnergyChart.barTimestamp b, EnergyChart.barLabel b,
                             EnergyChart.barHourType b)))
             (EnergyChart.chartData plainChart twoMonths EnergyChart.g1d eHome)
  = Some [(1736467200000%Z, "1736467200000"%string, EnergyChart.hOffPeak);
          (1737331200000%Z, "1737331200000"%string, EnergyChart.hOffPeak);
          (1739145600000%Z, "1739145600000"%string, EnergyChart.hOffPeak)].
Proof. vm_compute. reflexivity. Qed.

(* ================================================================= *)
(** ** The readings handed to the chart *)

Lemma groupInto_total {A V} (key : A -> Z) (upd : option V -> A -> V)
    (f : V -> Q) (g : A -> Q) :
  (forall o a, f (upd o a) == match o with Some v => f v | None => 0 end + g a) ->
  forall l m0,
    sumBy (fun kv => f (snd kv)) (groupInto Z.eqb key upd l m0)
    == sumBy (fun kv => f (snd kv)) m0 + sumBy g l.
Proof.
  intros Hupd. unfold groupInto. induction l as [| x l IH]; intros m0; cbn [fold_left].
  - rewrite sumBy_nil. ring.
  - rewrite IH, sumBy_assocSet, Hupd, sumBy_cons. ring.
Qed.

Lemma byTimestamp_readings_sorted (l : list EnergyReading) :
  StronglySorted (fun a b => (timeOf a <= timeOf b)%Z) (sortBy App.byTimestamp l).
Proof.
  apply sortBy_sorted; unfold App.byTimestamp, timeOf.
  - intros x y z. lia.
  - intros x y H. apply Z.gtb_lt in H. lia.
  - intros x y H. rewrite Z.gtb_ltb in H. apply Z.ltb_ge in H. lia.
Qed.

(** X30.  [chartReadings] keeps the total usage of the window.  Up to
    2000 readings it returns them as they are; above, it returns one
    reading per day of a year window, per hour of another one, in
    strictly rising time. *)
Theorem chartReadings_keep_usage host rs period :
  sumBy value (App.chartReadings host rs period) == sumBy value rs
  /\ ((List.length rs <= 2000)%nat -> App.chartReadings host rs period = rs)
  /\ ((2000 < List.length rs)%nat ->
      StronglySorted Z.lt (map timeOf (App.chartReadings host rs period))
      /\ forall r', In r' (App.chartReadings host rs period) ->
           exists r, In r rs
                     /\ timestamp r' = (match period with
                                        | App.year => App.startOfDay host
                                        | _ => App.startOfHour host
                                        end) (timestamp r)).
Proof.
  unfold App.chartReadings.
  destruct (Z.leb_spec (Z.of_nat (List.length rs)) 2000) as [Hle | Hgt].
  { split; [reflexivity |]. split; [reflexivity | lia]. }
  cbv zeta.
  set (bucket := match period with App.year => App.startOfDay host | _ => App.startOfHour host end).
  set (upd := fun (existing : option EnergyReading) (r : EnergyReading) =>
                match existing with
                | Some e => mkReading (timestamp e) (value e + value r)
                | None => mkReading (bucket (timestamp r)) (value r)
                end).
  set (key := fun r : EnergyReading => getTime (bucket (timestamp r))).
  set (m := groupInto Z.eqb key upd rs []).
  pose proof (sortBy_perm App.byTimestamp (map snd m)) as Hperm.
  assert (Hsum : sumBy (fun kv : Z * EnergyReading => value (snd kv)) m == sumBy value rs).
  { unfold m. rewrite (groupInto_total key upd value value).
    - rewrite sumBy_nil. ring.
    - intros [e |] a; cbn; ring. }
  assert (Hts : Forall (fun kv : Z * EnergyReading =>
                          timeOf (snd kv) = fst kv
                          /\ exists r, In r rs /\ timestamp (snd kv) = bucket (timestamp r)) m).
  { unfold m.
    assert (Hgen : forall l m0,
               Forall (fun kv : Z * EnergyReading =>
                         timeOf (snd kv) = fst kv
                         /\ exists r, In r (rs) /\ timestamp (snd kv) = bucket (timestamp r)) m0 ->
               (forall r, In r l -> In r rs) ->
               Forall (fun kv : Z * EnergyReading =>
                         timeOf (snd kv) = fst kv
                         /\ exists r, In r rs /\ timestamp (snd kv) = bucket (timestamp r))
                      (groupInto Z.eqb key upd l m0)).
    { unfold groupInto. induction l as [| x l IH]; intros m0 H0 Hin; cbn [fold_left];
        [exact H0 |].
      apply IH; [| intros r Hr; apply Hin; now right].
      apply (assocSet_Forall Z.eqb Zeqb_eq); [| exact H0]. cbn [fst snd].
      destruct (assocGet Z.eqb (key x) m0) as [e |] eqn:He; cbn.
      - apply (assocGet_In Z.eqb Zeqb_eq) in He. rewrite Forall_forall in H0.
        exact (H0 _ He).
      - split; [reflexivity |]. exists x. split; [apply Hin; now left | reflexivity]. }
    apply Hgen; [constructor | auto]. }
  assert (Hnd : NoDup (map fst m)).
  { unfold m. apply (groupInto_NoDup Z.eqb Zeqb_eq). constructor. }
  split; [| split; [lia |]].
  - now rewrite (sumBy_permutation _ _ _ Hperm), sumBy_map.
  - intros _. split.
    + apply sorted_le_strict; [apply byTimestamp_readings_sorted |].
      apply (Permutation_NoDup (l := map fst m)); [| exact Hnd].
      rewrite (Permutation_map timeOf Hperm), map_map.
      replace (map (fun x => timeOf (snd x)) m) with (map fst m); [reflexivity |].
      apply map_ext_in. intros kv Hkv. rewrite Forall_forall in Hts.
      symmetry. now apply Hts.
    + intros r' Hr'. apply (Permutation_in _ Hperm) in Hr'.
      apply in_map_iff in Hr' as (kv & <- & Hkv).
      rewrite Forall_forall in Hts. now apply Hts.
Qed.

Example chartReadings_of_a_long_day :
  map (fun r => (timeOf r, value r))
      (App.chartReadings plainClock (repeat (mkReading jan10 1) 2001) App.year)
  = [(1736467200000%Z, 2001)].
Proof. vm_compute. reflexivity. Qed.
